(** * Decimal128: a shallow embedding of arrow/util/decimal.cc

    The 128-bit signed decimal mantissa of Apache Arrow, as the two halves
    the C++ class stores: [high_bits] (int64_t) and [low_bits] (uint64_t).
    Machine integers are modelled as [Z] with the wrap-around written out.
    Signed 64-bit arithmetic wraps (two's complement), as the class relies
    on throughout.  A shift of a 32-bit limb by 32 or more has no defined
    result in C++; the functions that can perform one return [option]. *)

From Stdlib Require Import ZArith List Lia Bool String Ascii.
From coqutil Require Import Byte Word.LittleEndianList.
Import ListNotations.
Local Open Scope Z_scope.

(** ** Machine integers *)

Definition wrap_u32 (z : Z) : Z := z mod 2 ^ 32.
Definition wrap_u64 (z : Z) : Z := z mod 2 ^ 64.
Definition wrap_s64 (z : Z) : Z := (z + 2 ^ 63) mod 2 ^ 64 - 2 ^ 63.
Definition wrap_s32 (z : Z) : Z := (z + 2 ^ 31) mod 2 ^ 32 - 2 ^ 31.
Definition wrap_s128 (z : Z) : Z := (z + 2 ^ 127) mod 2 ^ 128 - 2 ^ 127.

Definition kIntMask : Z := 0xFFFFFFFF.
Definition kCarryBit : Z := Z.shiftl 1 32.
Definition uint32_max : Z := 0xFFFFFFFF.

(** ** The value type *)

Record Decimal128 : Set := mkDecimal128 { high_bits : Z; low_bits : Z }.

(** [Decimal128(int64_t high, uint64_t low)] *)
Definition Decimal128_of_halves (high low : Z) : Decimal128 :=
  mkDecimal128 (wrap_s64 high) (wrap_u64 low).

(** [Decimal128(int64_t value)]: sign-extends into the high half. *)
Definition Decimal128_of_int64 (value : Z) : Decimal128 :=
  mkDecimal128 (if 0 <=? value then 0 else -1) (wrap_u64 value).

(** The signed integer a value denotes. *)
Definition to_Z (d : Decimal128) : Z := high_bits d * 2 ^ 64 + low_bits d.

(** The value denoting an integer modulo 2^128. *)
Definition of_Z (z : Z) : Decimal128 :=
  mkDecimal128 (wrap_s128 z / 2 ^ 64) (wrap_s128 z mod 2 ^ 64).

(** Class invariant: each half is in the range of its C++ type. *)
Definition wf (d : Decimal128) : Prop :=
  - 2 ^ 63 <= high_bits d < 2 ^ 63 /\ 0 <= low_bits d < 2 ^ 64.

Definition Decimal128_eqb (l r : Decimal128) : bool :=
  (high_bits l =? high_bits r) && (low_bits l =? low_bits r).

(** [operator<] *)
Definition Decimal128_ltb (l r : Decimal128) : bool :=
  (high_bits l <? high_bits r)
  || ((high_bits l =? high_bits r) && (low_bits l <? low_bits r)).

(** ** Additive operations *)

Definition Negate (d : Decimal128) : Decimal128 :=
  let low := wrap_u64 (wrap_u64 (Z.lnot (low_bits d)) + 1) in
  let high := Z.lnot (high_bits d) in
  mkDecimal128 (if low =? 0 then wrap_s64 (high + 1) else high) low.

Definition Abs (d : Decimal128) : Decimal128 :=
  if Decimal128_ltb d (Decimal128_of_int64 0) then Negate d else d.

(** [operator+=] *)
Definition add (l r : Decimal128) : Decimal128 :=
  let sum := wrap_u64 (low_bits l + low_bits r) in
  let high := wrap_s64 (high_bits l + high_bits r) in
  mkDecimal128 (if sum <? low_bits l then wrap_s64 (high + 1) else high) sum.

(** [operator-=] *)
Definition sub (l r : Decimal128) : Decimal128 :=
  let diff := wrap_u64 (low_bits l - low_bits r) in
  let high := wrap_s64 (high_bits l - high_bits r) in
  mkDecimal128 (if low_bits l <? diff then wrap_s64 (high - 1) else high) diff.

(** ** Multiplication: [operator*=] *)

Definition mul (l r : Decimal128) : Decimal128 :=
  let L0 := Z.shiftr (wrap_u64 (high_bits l)) 32 in
  let L1 := Z.land (wrap_u64 (high_bits l)) kIntMask in
  let L2 := Z.shiftr (low_bits l) 32 in
  let L3 := Z.land (low_bits l) kIntMask in
  let R0 := Z.shiftr (wrap_u64 (high_bits r)) 32 in
  let R1 := Z.land (wrap_u64 (high_bits r)) kIntMask in
  let R2 := Z.shiftr (low_bits r) 32 in
  let R3 := Z.land (low_bits r) kIntMask in
  let product := wrap_u64 (L3 * R3) in
  let low0 := Z.land product kIntMask in
  let sum0 := Z.shiftr product 32 in
  let product1 := wrap_u64 (L2 * R3) in
  let sum1 := wrap_u64 (sum0 + product1) in
  let product2 := wrap_u64 (L3 * R2) in
  let sum := wrap_u64 (sum1 + product2) in
  let low := wrap_u64 (low0 + wrap_u64 (Z.shiftl sum 32)) in
  let high0 := if sum <? product2 then kCarryBit else 0 in
  let high1 := if sum <? product2 then wrap_s64 (high0 + kCarryBit) else high0 in
  let high2 := wrap_s64 (high1 + Z.shiftr sum 32) in
  let high3 := wrap_s64 (high2 + wrap_u64 (L1 * R3 + L2 * R2 + L3 * R1)) in
  let high4 :=
    wrap_s64 (high3 + wrap_u64 (Z.shiftl (wrap_u64 (L0 * R3 + L1 * R2 + L2 * R1 + L3 * R0)) 32)) in
  mkDecimal128 high4 low.

(** ** Division *)

(** Limb arrays are lists of 32-bit values; [get]/[set] index them. *)
Definition get (a : list Z) (i : nat) : Z := nth i a 0.

Fixpoint set (a : list Z) (i : nat) (v : Z) : list Z :=
  match a, i with
  | [], _ => []
  | _ :: t, O => v :: t
  | h :: t, S i' => h :: set t i' v
  end.

(** [FillInArray]: the limbs of the absolute value, most significant first,
    and whether the value was negative.  The list holds the entries written;
    its length is the function's return value. *)
Definition FillInArray (value : Decimal128) : list Z * bool :=
  let highbits := high_bits value in
  let lowbits := low_bits value in
  let '(high, low, was_negative) :=
    if highbits <? 0 then
      let low := wrap_u64 (wrap_u64 (Z.lnot lowbits) + 1) in
      let high := wrap_u64 (Z.lnot highbits) in
      (if low =? 0 then wrap_u64 (high + 1) else high, low, true)
    else (wrap_u64 highbits, lowbits, false) in
  if negb (high =? 0) then
    if uint32_max <? high then
      ([wrap_u32 (Z.shiftr high 32); wrap_u32 high;
        wrap_u32 (Z.shiftr low 32); wrap_u32 low], was_negative)
    else
      ([wrap_u32 high; wrap_u32 (Z.shiftr low 32); wrap_u32 low], was_negative)
  else if uint32_max <=? low then
    ([wrap_u32 (Z.shiftr low 32); wrap_u32 low], was_negative)
  else if low =? 0 then ([], was_negative)
  else ([wrap_u32 low], was_negative).

(** Modelled from the spec: [BitUtil::CountLeadingZeros] on a 32-bit limb
    (bit-util.h is not part of the sources); the number of zero bits above
    the highest set bit, 32 for zero. *)
Definition CountLeadingZeros (v : Z) : Z := 32 - Z.log2_up (v + 1).

(** The body of [ShiftArrayLeft]'s loop reads [array[i + 1]] before it is
    overwritten, so it maps over adjacent pairs. *)
Fixpoint ShiftArrayLeft_loop (array : list Z) (bits : Z) : list Z :=
  match array with
  | [] => []
  | a :: tl =>
      match tl with
      | [] => [wrap_u32 (Z.shiftl a bits)]
      | b :: _ =>
          Z.lor (wrap_u32 (Z.shiftl a bits)) (Z.shiftr b (32 - bits))
          :: ShiftArrayLeft_loop tl bits
      end
  end.

Definition ShiftArrayLeft (array : list Z) (bits : Z) : option (list Z) :=
  if (0 <? Z.of_nat (List.length array)) && negb (bits =? 0) then
    if bits <? 32 then Some (ShiftArrayLeft_loop array bits) else None
  else Some array.

(** [ShiftArrayRight] runs from the last limb down, reading [array[i - 1]]
    before it is overwritten; [prev] is that limb. *)
Fixpoint ShiftArrayRight_loop (prev : Z) (array : list Z) (bits : Z) : list Z :=
  match array with
  | [] => []
  | a :: tl =>
      Z.lor (Z.shiftr a bits) (wrap_u32 (Z.shiftl prev (32 - bits)))
      :: ShiftArrayRight_loop a tl bits
  end.

Definition ShiftArrayRight (array : list Z) (bits : Z) : option (list Z) :=
  if (0 <? Z.of_nat (List.length array)) && negb (bits =? 0) then
    if bits <? 32 then Some (ShiftArrayRight_loop 0 array bits) else None
  else Some array.

Definition FixDivisionSigns (result remainder : Decimal128)
    (dividend_was_negative divisor_was_negative : bool)
  : Decimal128 * Decimal128 :=
  (if negb (Bool.eqb dividend_was_negative divisor_was_negative)
   then Negate result else result,
   if dividend_was_negative then Negate remainder else remainder).

Inductive Status : Set :=
| OK
| Invalid (msg : string).

Definition ok (s : Status) : bool :=
  match s with OK => true | Invalid _ => false end.

(** [BuildFromArray]: [inr msg] is [Status::Invalid(msg)], with nothing
    written to [*value]. *)
Definition BuildFromArray (array : list Z) (length : nat) : Decimal128 + string :=
  let a := get array in
  match length with
  | 0%nat => inl (Decimal128_of_int64 0)
  | 1%nat => inl (Decimal128_of_int64 (a 0%nat))
  | 2%nat => inl (Decimal128_of_halves 0 (Z.shiftl (a 0%nat) 32 + a 1%nat))
  | 3%nat => inl (Decimal128_of_halves (a 0%nat) (Z.shiftl (a 1%nat) 32 + a 2%nat))
  | 4%nat =>
      inl (Decimal128_of_halves (Z.shiftl (a 0%nat) 32 + a 1%nat)
             (Z.shiftl (a 2%nat) 32 + a 3%nat))
  | 5%nat =>
      if negb (a 0%nat =? 0) then inr "Can't build Decimal128 with 5 ints."%string
      else
        inl (Decimal128_of_halves (Z.shiftl (a 1%nat) 32 + a 2%nat)
               (Z.shiftl (a 3%nat) 32 + a 4%nat))
  | _ => inr "Unsupported length for building Decimal128"%string
  end.

(** [SingleDivide]'s loop: [r] is the running 64-bit remainder, the list
    built is [result_array]. *)
Fixpoint SingleDivide_loop (dividend : list Z) (divisor r : Z) : list Z * Z :=
  match dividend with
  | [] => ([], r)
  | d :: tl =>
      let r1 := wrap_u64 (wrap_u64 (Z.shiftl r 32) + d) in
      let '(res, r') := SingleDivide_loop tl divisor (r1 mod divisor) in
      (wrap_u32 (r1 / divisor) :: res, r')
  end.

(** Output parameters are passed as state: a call takes the prior contents
    of [*result] and [*remainder] and returns the status with the contents
    afterwards. *)
Definition SingleDivide (dividend : list Z) (divisor : Z)
    (dividend_was_negative divisor_was_negative : bool)
    (result remainder : Decimal128) : Status * Decimal128 * Decimal128 :=
  let '(result_array, r) := SingleDivide_loop dividend divisor 0 in
  match BuildFromArray result_array (List.length dividend) with
  | inr msg => (Invalid msg, result, remainder)
  | inl q =>
      let '(q', r') :=
        FixDivisionSigns q (Decimal128_of_int64 r)
          dividend_was_negative divisor_was_negative in
      (OK, q', r')
  end.

(** The [while] loop that lowers the digit guess.  Each round adds
    [divisor_array[0]] to the 32-bit [rhat] and leaves when that wraps;
    [fuel] bounds the rounds, [None] is fuel running out. *)
Fixpoint correct_guess (fuel : nat) (d0 d1 u2 guess rhat : Z) : option Z :=
  if wrap_u64 (Z.shiftl rhat 32 + u2) <? wrap_u64 (d1 * guess) then
    match fuel with
    | O => None
    | S fuel' =>
        let guess' := wrap_u32 (guess - 1) in
        let rhat' := wrap_u32 (rhat + d0) in
        if rhat' <? d0 then Some guess'
        else correct_guess fuel' d0 d1 u2 guess' rhat'
    end
  else Some guess.

(** Subtract [guess * divisor] from the dividend limbs [j+1 .. j+k], from
    the last one up; [k] counts the limbs left, [mult] is the carry. *)
Fixpoint subtract_loop (k : nat) (j : nat) (guess : Z) (divisor : list Z)
    (mult : Z) (dividend : list Z) : Z * list Z :=
  match k with
  | O => (mult, dividend)
  | S i =>
      let mult1 := wrap_u64 (mult + guess * get divisor i) in
      let prev := get dividend (j + i + 1) in
      let cur := wrap_u32 (prev - wrap_u32 mult1) in
      let mult2 := Z.shiftr mult1 32 in
      let mult3 := if prev <? cur then wrap_u64 (mult2 + 1) else mult2 in
      subtract_loop i j guess divisor mult3 (set dividend (j + i + 1) cur)
  end.

(** Add the divisor back into the dividend limbs [j+1 .. j+k]. *)
Fixpoint add_back_loop (k : nat) (j : nat) (divisor : list Z)
    (carry : Z) (dividend : list Z) : Z * list Z :=
  match k with
  | O => (carry, dividend)
  | S i =>
      let sum := get divisor i + get dividend (j + i + 1) + carry in
      add_back_loop i j divisor (wrap_u32 (Z.shiftr sum 32))
        (set dividend (j + i + 1) (wrap_u32 sum))
  end.

(** One round of the digit loop of [Divide]: the digit and the dividend
    array afterwards. *)
Definition divide_step (divisor : list Z) (j : nat) (dividend : list Z)
  : option (Z * list Z) :=
  let d0 := get divisor 0 in
  let high_dividend := Z.lor (Z.shiftl (get dividend j) 32) (get dividend (j + 1)) in
  let guess0 :=
    if negb (get dividend j =? d0) then wrap_u32 (high_dividend / d0)
    else uint32_max in
  let rhat := wrap_u32 (wrap_u64 (high_dividend - wrap_u64 (guess0 * d0))) in
  match correct_guess 2 d0 (get divisor 1) (get dividend (j + 2)) guess0 rhat with
  | None => None
  | Some guess =>
      let '(mult, dividend1) :=
        subtract_loop (List.length divisor) j guess divisor 0 dividend in
      let prev := get dividend1 j in
      let cur := wrap_u32 (prev - wrap_u32 mult) in
      let dividend2 := set dividend1 j cur in
      if prev <? cur then
        let '(carry, dividend3) :=
          add_back_loop (List.length divisor) j divisor 0 dividend2 in
        Some (wrap_u32 (guess - 1),
              set dividend3 j (wrap_u32 (get dividend3 j + carry)))
      else Some (guess, dividend2)
  end.

(** The digit loop, for [j], [j+1], ... ([count] rounds). *)
Fixpoint divide_loop (count : nat) (divisor : list Z) (j : nat)
    (dividend : list Z) : option (list Z * list Z) :=
  match count with
  | O => Some ([], dividend)
  | S count' =>
      match divide_step divisor j dividend with
      | None => None
      | Some (guess, dividend') =>
          match divide_loop count' divisor (S j) dividend' with
          | None => None
          | Some (digits, dividend'') => Some (guess :: digits, dividend'')
          end
      end
  end.

(** [Decimal128::Divide].  [None]: the execution has no defined result. *)
Definition Divide (this divisor : Decimal128) (result remainder : Decimal128)
  : option (Status * Decimal128 * Decimal128) :=
  let '(dividend_tl, dividend_was_negative) := FillInArray this in
  let dividend_array := 0 :: dividend_tl in
  let dividend_length := List.length dividend_array in
  let '(divisor_array, divisor_was_negative) := FillInArray divisor in
  let divisor_length := List.length divisor_array in
  if (dividend_length <=? divisor_length)%nat then
    Some (OK, Decimal128_of_int64 0, this)
  else if (divisor_length =? 0)%nat then
    Some (Invalid "Division by 0 in Decimal128", result, remainder)
  else if (divisor_length =? 1)%nat then
    Some (SingleDivide dividend_array (get divisor_array 0)
            dividend_was_negative divisor_was_negative result remainder)
  else
    let result_length := (dividend_length - divisor_length)%nat in
    let normalize_bits := CountLeadingZeros (get divisor_array 0) in
    match ShiftArrayLeft divisor_array normalize_bits,
          ShiftArrayLeft dividend_array normalize_bits with
    | Some divisor_array', Some dividend_array' =>
        match divide_loop result_length divisor_array' 0 dividend_array' with
        | None => None
        | Some (result_array, dividend_array'') =>
            match ShiftArrayRight dividend_array'' normalize_bits with
            | None => None
            | Some dividend_final =>
                match BuildFromArray result_array result_length with
                | inr msg => Some (Invalid msg, result, remainder)
                | inl q =>
                    match BuildFromArray dividend_final dividend_length with
                    | inr msg => Some (Invalid msg, q, remainder)
                    | inl r =>
                        let '(q', r') :=
                          FixDivisionSigns q r
                            dividend_was_negative divisor_was_negative in
                        Some (OK, q', r')
                    end
                end
            end
        end
    | _, _ => None
    end.

(** Division without output locations: the pair [Divide] stores. *)
Definition divide (x y : Decimal128) : option (Status * Decimal128 * Decimal128) :=
  Divide x y (Decimal128_of_int64 0) (Decimal128_of_int64 0).

(** ** Integer formatting *)

Definition digit_char (d : Z) : ascii := ascii_of_nat (48 + Z.to_nat d).

(** Decimal digits of a non-negative integer, most significant first. *)
Fixpoint digits_of (fuel : nat) (n : Z) (acc : string) : string :=
  match fuel with
  | O => acc
  | S fuel' =>
      let acc' := String (digit_char (n mod 10)) acc in
      if n / 10 =? 0 then acc' else digits_of fuel' (n / 10) acc'
  end.

(** [operator<<] for a 64-bit (or narrower) signed integer. *)
Definition string_of_int64 (v : Z) : string :=
  if v <? 0 then String "-" (digits_of 20 (- v) EmptyString)
  else digits_of 20 v EmptyString.

Fixpoint replicate (n : nat) (c : ascii) : string :=
  match n with
  | O => EmptyString
  | S n' => String c (replicate n' c)
  end.

(** [std::setw(w) << std::setfill(c)]: fill on the left up to width [w]. *)
Definition pad_left (w : nat) (c : ascii) (s : string) : string :=
  append (replicate (w - String.length s) c) s.

(** The [return] statement of [operator int64_t]: the low half
    reinterpreted.  The assertion before it is part of [op_int64] below;
    [ToIntegerString] casts values below 10^18 in magnitude only, for which
    it holds. *)
Definition to_int64 (d : Decimal128) : Z := wrap_s64 (low_bits d).

Definition kTenTo36 : Decimal128 :=
  Decimal128_of_halves 0xC097CE7BC90715 0xB34B9F1000000000.
Definition kTenTo18 : Decimal128 := Decimal128_of_int64 0xDE0B6B3A7640000.

Definition Decimal128_zero : Decimal128 := mkDecimal128 0 0.

(** [Decimal128::ToIntegerString]; [None] when a [Divide] inside it has no
    defined result. *)
Definition ToIntegerString (this : Decimal128) : option string :=
  match Divide this kTenTo36 Decimal128_zero Decimal128_zero with
  | None => None
  | Some (_, top, remainder) =>
      let '(buf1, remainder1, need_fill1) :=
        if negb (Decimal128_eqb top (Decimal128_of_int64 0)) then
          (string_of_int64 (to_int64 top), Abs remainder, true)
        else (EmptyString, remainder, false) in
      match Divide remainder1 kTenTo18 top Decimal128_zero with
      | None => None
      | Some (_, top2, tail) =>
          let '(buf2, tail2, need_fill2) :=
            if need_fill1 || negb (Decimal128_eqb top2 (Decimal128_of_int64 0)) then
              if need_fill1 then
                (append buf1 (pad_left 18 "0" (string_of_int64 (to_int64 top2))),
                 tail, true)
              else
                (append buf1 (string_of_int64 (to_int64 top2)), Abs tail, true)
            else (buf1, tail, false) in
          Some (append buf2
                  (if need_fill2 then pad_left 18 "0" (string_of_int64 (to_int64 tail2))
                   else string_of_int64 (to_int64 tail2)))
      end
  end.

(** ** Scale-aware formatting *)

(** [str.substr(pos, n)]; [None] is the [std::out_of_range] it throws when
    [pos] is past the end. *)
Definition substr (str : string) (pos n : nat) : option string :=
  if (String.length str <? pos)%nat then None else Some (substring pos n str).

(** [str.substr(pos, std::string::npos)] *)
Definition substr_from (str : string) (pos : nat) : option string :=
  substr str pos (String.length str - pos).

(** [str[i]]: the character, or the terminating NUL at [i = size()]. *)
Definition char_at (str : string) (i : nat) : ascii :=
  match String.get i str with Some c => c | None => zero end.

(** [std::showpos << v] *)
Definition string_of_int_showpos (v : Z) : string :=
  if v <? 0 then string_of_int64 v else String "+" (string_of_int64 v).

Definition ToStringNegativeScale (str : string) (adjusted_exponent : Z)
    (is_negative : bool) : option string :=
  let buf := String (char_at str 0) EmptyString in
  let '(buf, offset) :=
    if is_negative then (append buf (String (char_at str 1) EmptyString), 2%nat)
    else (buf, 1%nat) in
  match substr_from str offset with
  | None => None
  | Some rest =>
      Some (append buf
              (String "." (append rest
                             (String "E" (string_of_int_showpos adjusted_exponent)))))
  end.

Definition concat3 (a : option string) (b : string) (c : option string)
  : option string :=
  match a, c with
  | Some a', Some c' => Some (append a' (append b c'))
  | _, _ => None
  end.

(** [Decimal128::ToString(int32_t scale)] *)
Definition ToString (this : Decimal128) (scale : Z) : option string :=
  match ToIntegerString this with
  | None => None
  | Some str =>
      if scale =? 0 then Some str
      else
        let is_negative := Decimal128_ltb this (Decimal128_of_int64 0) in
        let len := wrap_s32 (Z.of_nat (String.length str)) in
        let is_negative_offset := if is_negative then 1 else 0 in
        let adjusted_exponent :=
          wrap_s32 (wrap_s32 (- scale) + wrap_s32 (wrap_s32 (len - 1) - is_negative_offset)) in
        if (scale <? 0) || (adjusted_exponent <? -6) then
          ToStringNegativeScale str adjusted_exponent is_negative
        else if is_negative then
          if scale <? wrap_s32 (len - 1) then
            let n := Z.to_nat (wrap_s32 (len - scale)) in
            concat3 (substr str 0 n) "." (substr str n (Z.to_nat scale))
          else if wrap_s32 (len - 1) =? scale then
            concat3 (Some "-0"%string) "." (substr_from str 1)
          else
            concat3
              (Some (append "-0." (replicate (Z.to_nat (wrap_s32 (wrap_s32 (scale - len) + 1))) "0")))
              "" (substr_from str 1)
        else if scale <? len then
          let n := Z.to_nat (wrap_s32 (len - scale)) in
          concat3 (substr str 0 n) "." (substr str n (Z.to_nat scale))
        else if len =? scale then Some (append "0." str)
        else
          Some (append "0."
                  (append (replicate (Z.to_nat (wrap_s32 (scale - len))) "0") str))
  end.

(** ** Parsing *)

Definition kInt64DecimalDigits : nat := 18.

(** [kPowersOfTen[group]] *)
Definition kPowersOfTen (group : nat) : Z := 10 ^ Z.of_nat group.

Definition isdigit (c : ascii) : bool :=
  let n := nat_of_ascii c in ((48 <=? n) && (n <=? 57))%nat.

Definition is_zero_char (c : ascii) : bool := Ascii.eqb c "0".

(** The integer a string of decimal digits denotes, continuing from [acc]. *)
Fixpoint digits_value (s : string) (acc : Z) : Z :=
  match s with
  | EmptyString => acc
  | String c tl => digits_value tl (acc * 10 + (Z.of_nat (nat_of_ascii c) - 48))
  end.

(** [std::stoll]/[std::stol] on an optional sign followed by digits, with a
    64-bit [long]: [None] is the exception thrown when no digit follows
    ([std::invalid_argument]) or the value is out of range
    ([std::out_of_range]). *)
Definition stol (s : string) : option Z :=
  let '(neg, digits) :=
    match s with
    | String c tl =>
        if Ascii.eqb c "-" then (true, tl)
        else if Ascii.eqb c "+" then (false, tl)
        else (false, s)
    | EmptyString => (false, s)
    end in
  match digits with
  | EmptyString => None
  | _ =>
      let v := if neg then - digits_value digits 0 else digits_value digits 0 in
      if (- 2 ^ 63 <=? v) && (v <? 2 ^ 63) then Some v else None
  end.

(** The loop of [StringToInteger]; [fuel] bounds the rounds (each consumes
    at least one character). *)
Fixpoint StringToInteger_loop (fuel : nat) (str : string) (out : Decimal128)
  : option Decimal128 :=
  match str with
  | EmptyString => Some out
  | _ =>
      match fuel with
      | O => None
      | S fuel' =>
          let group := Nat.min kInt64DecimalDigits (String.length str) in
          match stol (substring 0 group str) with
          | None => None
          | Some chunk =>
              let multiple := kPowersOfTen group in
              let out1 := mul out (Decimal128_of_int64 multiple) in
              let out2 := add out1 (Decimal128_of_int64 chunk) in
              StringToInteger_loop fuel'
                (substring group (String.length str - group) str) out2
          end
      end
  end.

(** [StringToInteger], as [FromString] calls it: with [*out] zero and a
    string that is not empty, so that the two assertions at its head
    ([DCHECK_EQ] on [*out], [DCHECK_GT] on the length) hold; they are not
    part of the model. *)
Definition StringToInteger (str : string) (out : Decimal128) : option Decimal128 :=
  StringToInteger_loop (String.length str) str out.

(** [std::find_if_not(charp, end, pred)]: an iterator is the suffix of the
    string that starts at it; [end] is the empty suffix. *)
Fixpoint find_if_not (pred : ascii -> bool) (charp : string) : string :=
  match charp with
  | EmptyString => EmptyString
  | String c tl => if pred c then find_if_not pred tl else charp
  end.

(** [std::string(first, last)] for two iterators into the same string. *)
Definition range (first last : string) : string :=
  substring 0 (String.length first - String.length last) first.

(** What a call of [FromString] with all three outputs requested does:
    returns [OK] with the outputs, returns [Invalid], or leaves through an
    exception of [std::stol]. *)
Inductive ParseResult : Set :=
| ParseOK (out : Decimal128) (precision scale : Z)
| ParseInvalid (msg : string)
| ParseThrows.

Definition quote_char (pre : string) (c : ascii) (post : string) : string :=
  append pre (String c post).

(** [Decimal128::FromString] called with [out], [precision] and [scale] all
    given.  (A call without [scale] skips [std::stol] on the exponent; that
    call is not modelled.) *)
Definition FromString (s : string) : ParseResult :=
  match s with
  | EmptyString => ParseInvalid "Empty string cannot be converted to decimal"
  | String first_char rest =>
      let signed := Ascii.eqb first_char "+" || Ascii.eqb first_char "-" in
      let is_negative := signed && Ascii.eqb first_char "-" in
      let charp := if signed then rest else s in
      match charp with
      | EmptyString =>
          ParseInvalid (quote_char "Single character: '" first_char
                          "' is not a valid decimal value")
      | _ =>
          let numeric_string_start := charp in
          let charp := find_if_not is_zero_char charp in
          match charp with
          | EmptyString =>
              ParseOK (Decimal128_of_int64 0)
                (wrap_s32 (Z.of_nat (String.length numeric_string_start))) 0
          | _ =>
              let whole_part_start := charp in
              let charp := find_if_not isdigit charp in
              let whole_part := range whole_part_start charp in
              let after_point : ParseResult + string :=
                match charp with
                | String "." tl =>
                    match tl with
                    | EmptyString =>
                        inl (ParseInvalid
                               "Decimal point must be followed by at least one base ten digit. Reached the end of the string.")
                    | String c _ =>
                        if isdigit c then inr tl
                        else
                          inl (ParseInvalid
                                 (quote_char
                                    "Decimal point must be followed by a base ten digit. Found '"
                                    c "'"))
                    end
                | String c _ =>
                    inl (ParseInvalid
                           (quote_char "Expected base ten digit or decimal point but found '"
                              c "' instead."))
                | EmptyString => inr charp
                end in
              match after_point with
              | inl err => err
              | inr fractional_part_start =>
                  let charp := find_if_not isdigit fractional_part_start in
                  let bad :=
                    match charp with
                    | String c _ => negb (Ascii.eqb c "E") && negb (Ascii.eqb c "e")
                    | EmptyString => false
                    end in
                  if bad then
                    ParseInvalid
                      (quote_char "Found non base ten digit character '" (char_at charp 0)
                         "' before the end of the string")
                  else
                    let fractional_part := range fractional_part_start charp in
                    let len :=
                      Z.of_nat (String.length whole_part + String.length fractional_part) in
                    let precision := wrap_s32 len in
                    let scale_or_error : ParseResult + Z :=
                      match charp with
                      | String _ after_e =>
                          let value := char_at after_e 0 in
                          let starts_with_plus_or_minus :=
                            Ascii.eqb value "+" || Ascii.eqb value "-" in
                          let digit_start := after_e in
                          let charp :=
                            if starts_with_plus_or_minus
                            then substring 1 (String.length after_e - 1) after_e
                            else after_e in
                          let charp := find_if_not isdigit charp in
                          match charp with
                          | String c _ =>
                              inl (ParseInvalid
                                     (quote_char "Found non decimal digit exponent value '" c "'"))
                          | EmptyString =>
                              match stol digit_start with
                              | None => inl ParseThrows
                              | Some e =>
                                  let adjusted_exponent := wrap_s32 e in
                                  inr (wrap_s32
                                         (wrap_s32 (wrap_s32 (- adjusted_exponent) + wrap_s32 len) - 1))
                              end
                          end
                      | EmptyString =>
                          inr (wrap_s32 (Z.of_nat (String.length fractional_part)))
                      end in
                    match scale_or_error with
                    | inl err => err
                    | inr scale =>
                        match StringToInteger (append whole_part fractional_part)
                                (Decimal128_of_int64 0) with
                        | None => ParseThrows
                        | Some out =>
                            ParseOK (if is_negative then Negate out else out)
                              precision scale
                        end
                    end
              end
          end
      end
  end.

(** [Decimal128(const std::string&)]: the parsed value; the constructor starts
    from zero and asserts that parsing succeeds.  It passes neither
    [precision] nor [scale]; the model goes through the call with all
    outputs, which returns the same value for every text without an exponent
    marker, the only texts the table below holds. *)
Definition Decimal128_of_string (str : string) : Decimal128 :=
  match FromString str with
  | ParseOK out _ _ => out
  | _ => Decimal128_zero
  end.

(** ** Rescaling *)

Definition ScaleMultipliers : list Decimal128 :=
  [
    Decimal128_of_int64 1;
    Decimal128_of_int64 10;
    Decimal128_of_int64 100;
    Decimal128_of_int64 1000;
    Decimal128_of_int64 10000;
    Decimal128_of_int64 100000;
    Decimal128_of_int64 1000000;
    Decimal128_of_int64 10000000;
    Decimal128_of_int64 100000000;
    Decimal128_of_int64 1000000000;
    Decimal128_of_int64 10000000000;
    Decimal128_of_int64 100000000000;
    Decimal128_of_int64 1000000000000;
    Decimal128_of_int64 10000000000000;
    Decimal128_of_int64 100000000000000;
    Decimal128_of_int64 1000000000000000;
    Decimal128_of_int64 10000000000000000;
    Decimal128_of_int64 100000000000000000;
    Decimal128_of_int64 1000000000000000000;
    Decimal128_of_string "10000000000000000000";
    Decimal128_of_string "100000000000000000000";
    Decimal128_of_string "1000000000000000000000";
    Decimal128_of_string "10000000000000000000000";
    Decimal128_of_string "100000000000000000000000";
    Decimal128_of_string "1000000000000000000000000";
    Decimal128_of_string "10000000000000000000000000";
    Decimal128_of_string "100000000000000000000000000";
    Decimal128_of_string "1000000000000000000000000000";
    Decimal128_of_string "10000000000000000000000000000";
    Decimal128_of_string "100000000000000000000000000000";
    Decimal128_of_string "1000000000000000000000000000000";
    Decimal128_of_string "10000000000000000000000000000000";
    Decimal128_of_string "100000000000000000000000000000000";
    Decimal128_of_string "1000000000000000000000000000000000";
    Decimal128_of_string "10000000000000000000000000000000000";
    Decimal128_of_string "100000000000000000000000000000000000";
    Decimal128_of_string "1000000000000000000000000000000000000";
    Decimal128_of_string "10000000000000000000000000000000000000";
    Decimal128_of_string "100000000000000000000000000000000000000"
  ].

(** [RescaleWouldCauseDataLoss]: the flag and the value left in [*result].
    [None] when the [Divide] inside has no defined result. *)
Definition RescaleWouldCauseDataLoss (value : Decimal128)
    (delta_scale abs_delta_scale : Z) (result : Decimal128)
  : option (bool * Decimal128) :=
  let multiplier := nth (Z.to_nat abs_delta_scale) ScaleMultipliers Decimal128_zero in
  if delta_scale <? 0 then
    match Divide value multiplier result Decimal128_zero with
    | None => None
    | Some (_, result', remainder) =>
        Some (negb (Decimal128_eqb remainder (Decimal128_of_int64 0)), result')
    end
  else
    let result' := mul value multiplier in
    Some (Decimal128_ltb result' value, result').

(** [Decimal128::Rescale]: the status and the contents of [*out] afterwards.
    The two scales differ by 1 to 38 (asserted by the function). *)
Definition Rescale (this : Decimal128) (original_scale new_scale : Z)
    (out : Decimal128) : option (Status * Decimal128) :=
  let delta_scale := wrap_s32 (new_scale - original_scale) in
  let abs_delta_scale := Z.abs delta_scale in
  match RescaleWouldCauseDataLoss this delta_scale abs_delta_scale out with
  | None => None
  | Some (rescale_would_cause_data_loss, out') =>
      if rescale_would_cause_data_loss then
        match ToString this original_scale with
        | None => None
        | Some str =>
            Some (Invalid
                    (append "Rescaling decimal value "
                       (append str
                          (append " from original scale of "
                             (append (string_of_int64 original_scale)
                                (append " to new scale of "
                                   (append (string_of_int64 new_scale)
                                      " would cause data loss")))))),
                  out')
        end
      else Some (OK, out')
  end.

(** ** Byte layout *)

(** [ToBytes]: the low half, then the high half, each little-endian. *)
Definition ToBytes (this : Decimal128) : list Byte.byte :=
  le_split 8 (low_bits this) ++ le_split 8 (high_bits this).

(** [Decimal128(const uint8_t* bytes)]: reads a [uint64_t] at offset 0 and an
    [int64_t] at offset 8. *)
Definition FromBytes (bytes : list Byte.byte) : Decimal128 :=
  Decimal128_of_halves
    (wrap_s64 (le_combine (firstn 8 (skipn 8 bytes))))
    (le_combine (firstn 8 bytes)).

(** ** The remaining operators *)

(** [operator!=] *)
Definition Decimal128_neqb (l r : Decimal128) : bool := negb (Decimal128_eqb l r).

(** [operator>] *)
Definition Decimal128_gtb (l r : Decimal128) : bool := Decimal128_ltb r l.

(** [operator<=] *)
Definition Decimal128_leb (l r : Decimal128) : bool := negb (Decimal128_gtb l r).

(** [operator>=] *)
Definition Decimal128_geb (l r : Decimal128) : bool := negb (Decimal128_ltb l r).

(** Unary [operator-]: negates a copy. *)
Definition op_neg (operand : Decimal128) : Decimal128 :=
  Negate (Decimal128_of_halves (high_bits operand) (low_bits operand)).

(** [operator~] *)
Definition op_compl (operand : Decimal128) : Decimal128 :=
  Decimal128_of_halves (Z.lnot (high_bits operand)) (Z.lnot (low_bits operand)).

(** Binary [operator+], [operator-] and [operator*]: the compound assignment
    on a copy of the left operand. *)
Definition op_add (l r : Decimal128) : Decimal128 :=
  add (Decimal128_of_halves (high_bits l) (low_bits l)) r.

Definition op_sub (l r : Decimal128) : Decimal128 :=
  sub (Decimal128_of_halves (high_bits l) (low_bits l)) r.

Definition op_mul (l r : Decimal128) : Decimal128 :=
  mul (Decimal128_of_halves (high_bits l) (low_bits l)) r.

(** [operator|=] *)
Definition or_assign (l r : Decimal128) : Decimal128 :=
  mkDecimal128 (Z.lor (high_bits l) (high_bits r)) (Z.lor (low_bits l) (low_bits r)).

(** [operator&=] *)
Definition and_assign (l r : Decimal128) : Decimal128 :=
  mkDecimal128 (Z.land (high_bits l) (high_bits r)) (Z.land (low_bits l) (low_bits r)).

(** [operator<<=]; [bits] is a [uint32_t].  The high half is shifted as a
    signed value and wraps. *)
Definition shl_assign (d : Decimal128) (bits : Z) : Decimal128 :=
  if negb (bits =? 0) then
    if bits <? 64 then
      let high1 := wrap_s64 (Z.shiftl (high_bits d) bits) in
      let high2 :=
        wrap_s64 (Z.lor (wrap_u64 high1) (Z.shiftr (low_bits d) (64 - bits))) in
      mkDecimal128 high2 (wrap_u64 (Z.shiftl (low_bits d) bits))
    else if bits <? 128 then
      mkDecimal128 (wrap_s64 (Z.shiftl (wrap_s64 (low_bits d)) (bits - 64))) 0
    else mkDecimal128 0 0
  else d.

(** [operator>>=]: below 64 bits the high half is shifted as an unsigned
    value; from 64 bits on it is shifted as a signed one and the sign fills
    the high half. *)
Definition shr_assign (d : Decimal128) (bits : Z) : Decimal128 :=
  if negb (bits =? 0) then
    if bits <? 64 then
      let low1 := Z.shiftr (low_bits d) bits in
      let low2 :=
        Z.lor low1 (wrap_u64 (wrap_s64 (Z.shiftl (high_bits d) (64 - bits)))) in
      mkDecimal128 (wrap_s64 (Z.shiftr (wrap_u64 (high_bits d)) bits)) low2
    else if bits <? 128 then
      mkDecimal128 (if 0 <=? high_bits d then 0 else -1)
        (wrap_u64 (Z.shiftr (high_bits d) (bits - 64)))
    else
      let high := if 0 <=? high_bits d then 0 else -1 in
      mkDecimal128 high (wrap_u64 high)
  else d.

(** [operator/=]: [Divide] with [this] as the result location.  The flag is
    the status the [DCHECK] asserts; the value is [*this] afterwards. *)
Definition div_assign (this right : Decimal128) : option (bool * Decimal128) :=
  match Divide this right this Decimal128_zero with
  | None => None
  | Some (s, result, _) => Some (ok s, result)
  end.

(** [operator/] and [operator%]: [Divide] into default-constructed (zero)
    locations; the flag is the status the [DCHECK] asserts. *)
Definition op_div (left right : Decimal128) : option (bool * Decimal128) :=
  match Divide left right Decimal128_zero Decimal128_zero with
  | None => None
  | Some (s, result, _) => Some (ok s, result)
  end.

Definition op_mod (left right : Decimal128) : option (bool * Decimal128) :=
  match Divide left right Decimal128_zero Decimal128_zero with
  | None => None
  | Some (s, _, remainder) => Some (ok s, remainder)
  end.

(** [operator int64_t] with its assertion.  The flag is whether
    [DCHECK(high_bits_ == 0 || high_bits_ == -1)] holds: a build with
    assertions aborts when it does not.  The value is what the [return]
    statement gives. *)
Definition op_int64 (d : Decimal128) : bool * Z :=
  ((high_bits d =? 0) || (high_bits d =? -1), to_int64 d).

(** * Definitions used to state the properties *)

(** The number a limb array denotes, most significant limb first. *)
Fixpoint val_from (acc : Z) (a : list Z) : Z :=
  match a with
  | [] => acc
  | d :: tl => val_from (acc * 2 ^ 32 + d) tl
  end.

Definition val (a : list Z) : Z := val_from 0 a.

Definition limbs (a : list Z) : Prop := Forall (fun d => 0 <= d < 2 ^ 32) a.

Definition pow_b (n : nat) : Z := 2 ^ (32 * Z.of_nat n).

Ltac zwrap :=
  unfold wrap_u32, wrap_u64, wrap_s64, wrap_s32, wrap_s128 in *;
  Z.div_mod_to_equations; lia.

(** The two stages of [FillInArray]: the halves of the absolute value, and
    the limbs of a 128-bit magnitude with leading limbs dropped. *)
Definition abs_halves (value : Decimal128) : Z * Z * bool :=
  if high_bits value <? 0 then
    let low := wrap_u64 (wrap_u64 (Z.lnot (low_bits value)) + 1) in
    let high := wrap_u64 (Z.lnot (high_bits value)) in
    (if low =? 0 then wrap_u64 (high + 1) else high, low, true)
  else (wrap_u64 (high_bits value), low_bits value, false).

Definition limbs_of_halves (high low : Z) : list Z :=
  if negb (high =? 0) then
    if uint32_max <? high then
      [wrap_u32 (Z.shiftr high 32); wrap_u32 high;
       wrap_u32 (Z.shiftr low 32); wrap_u32 low]
    else [wrap_u32 high; wrap_u32 (Z.shiftr low 32); wrap_u32 low]
  else if uint32_max <=? low then [wrap_u32 (Z.shiftr low 32); wrap_u32 low]
  else if low =? 0 then []
  else [wrap_u32 low].

(** The second half of [divide_step]: subtract [guess * divisor] and add the
    divisor back if that went below zero. *)
Definition subtract_and_fix (divisor : list Z) (j : nat) (dividend : list Z)
    (guess : Z) : Z * list Z :=
  let '(mult, dividend1) :=
    subtract_loop (List.length divisor) j guess divisor 0 dividend in
  let prev := get dividend1 j in
  let cur := wrap_u32 (prev - wrap_u32 mult) in
  let dividend2 := set dividend1 j cur in
  if prev <? cur then
    let '(carry, dividend3) :=
      add_back_loop (List.length divisor) j divisor 0 dividend2 in
    (wrap_u32 (guess - 1), set dividend3 j (wrap_u32 (get dividend3 j + carry)))
  else (guess, dividend2).

(** Whether the 32-bit [rhat] of a round wraps: the top dividend limb equals
    the top divisor limb and the next one overflows when added to it. *)
Definition rhat_wraps (v0 u0 u1 : Z) : bool :=
  (u0 =? v0) && (2 ^ 32 <=? u1 + v0).

(** The base-2^32 digit of weight [pow_b k] of a non-negative number. *)
Definition digit (Q : Z) (k : nat) : Z := (Q / pow_b k) mod 2 ^ 32.

(** The four base-2^32 digits of a quotient below 2^128 all lie below
    2^32 - 2. *)
Definition small_digits (Q : Z) : bool :=
  forallb (fun k => digit Q k <? 2 ^ 32 - 2) [0%nat; 1%nat; 2%nat; 3%nat].

(** Modelled from the spec: the property claimed of [Divide], as the
    specification words it. *)
Definition Divide_claim (x y : Decimal128) : Prop :=
  to_Z y <> 0 ->
  exists q r,
    Divide x y Decimal128_zero Decimal128_zero = Some (OK, q, r) /\
    wrap_s128 (to_Z q * to_Z y + to_Z r) = to_Z x /\
    Z.abs (to_Z r) < Z.abs (to_Z y) /\
    (to_Z r = 0 \/ Z.sgn (to_Z r) = Z.sgn (to_Z x)) /\
    (0 <= to_Z q <-> (to_Z x <? 0) = (to_Z y <? 0)).

Fixpoint all_digits (s : string) : bool :=
  match s with
  | EmptyString => true
  | String c tl => isdigit c && all_digits tl
  end.

(** An integer string: an optional minus sign (present exactly when [neg])
    followed by one or more decimal digits. *)
Definition is_int_string (neg : bool) (s : string) : Prop :=
  exists ds, s = (if neg then String "-" ds else ds) /\
             ds <> EmptyString /\ all_digits ds = true.

(** Modelled from the spec: an exponent, an explicit sign and at least one
    digit. *)
Definition sci_exponent (s : string) : bool :=
  match s with
  | String c ds =>
      (Ascii.eqb c "+" || Ascii.eqb c "-")
      && match ds with EmptyString => false | _ => all_digits ds end
  | EmptyString => false
  end.

(** Modelled from the spec: what follows the first fractional digit, more
    digits (possibly none), then [E] and an exponent. *)
Fixpoint sci_tail (s : string) : bool :=
  match s with
  | EmptyString => false
  | String c tl =>
      if isdigit c then sci_tail tl else Ascii.eqb c "E" && sci_exponent tl
  end.

(** Modelled from the spec: what follows the point, one fractional digit or
    more, then [E] and an exponent. *)
Definition sci_fraction (s : string) : bool :=
  match s with
  | EmptyString => false
  | String c tl => isdigit c && sci_tail tl
  end.

(** Modelled from the spec: the scientific form [d[.ddd]E+-n], an optional
    minus sign, exactly one integer digit, then either nothing or a point
    with one fractional digit or more, then a signed exponent. *)
Definition is_scientific (s : string) : bool :=
  let body :=
    match s with
    | String c tl => if Ascii.eqb c "-" then tl else s
    | EmptyString => s
    end in
  match body with
  | String d tl =>
      isdigit d &&
      match tl with
      | String c rest =>
          if Ascii.eqb c "." then sci_fraction rest
          else Ascii.eqb c "E" && sci_exponent rest
      | EmptyString => false
      end
  | EmptyString => false
  end.

(** No character is the exponent marker. *)
Fixpoint no_E (s : string) : bool :=
  match s with
  | EmptyString => true
  | String c tl => negb (Ascii.eqb c "E") && no_E tl
  end.

(** The plain (non-scientific) branches of [ToString]. *)
Definition ToString_plain (str : string) (is_negative : bool) (scale len : Z)
  : option string :=
  if is_negative then
    if scale <? wrap_s32 (len - 1) then
      let n := Z.to_nat (wrap_s32 (len - scale)) in
      concat3 (substr str 0 n) "." (substr str n (Z.to_nat scale))
    else if wrap_s32 (len - 1) =? scale then
      concat3 (Some "-0"%string) "." (substr_from str 1)
    else
      concat3
        (Some (append "-0." (replicate (Z.to_nat (wrap_s32 (wrap_s32 (scale - len) + 1))) "0")))
        "" (substr_from str 1)
  else if scale <? len then
    let n := Z.to_nat (wrap_s32 (len - scale)) in
    concat3 (substr str 0 n) "." (substr str n (Z.to_nat scale))
  else if len =? scale then Some (append "0." str)
  else
    Some (append "0."
            (append (replicate (Z.to_nat (wrap_s32 (scale - len))) "0") str)).

(** The part of [FromString] after the sign: [charp] is the iterator at
    [numeric_string_start]. *)
Definition parse_body (is_negative : bool) (charp : string) : ParseResult :=
  let numeric_string_start := charp in
  let charp := find_if_not is_zero_char charp in
  match charp with
  | EmptyString =>
      ParseOK (Decimal128_of_int64 0)
        (wrap_s32 (Z.of_nat (String.length numeric_string_start))) 0
  | _ =>
      let whole_part_start := charp in
      let charp := find_if_not isdigit charp in
      let whole_part := range whole_part_start charp in
      let after_point : ParseResult + string :=
        match charp with
        | String "." tl =>
            match tl with
            | EmptyString =>
                inl (ParseInvalid
                       "Decimal point must be followed by at least one base ten digit. Reached the end of the string.")
            | String c _ =>
                if isdigit c then inr tl
                else
                  inl (ParseInvalid
                         (quote_char
                            "Decimal point must be followed by a base ten digit. Found '"
                            c "'"))
            end
        | String c _ =>
            inl (ParseInvalid
                   (quote_char "Expected base ten digit or decimal point but found '"
                      c "' instead."))
        | EmptyString => inr charp
        end in
      match after_point with
      | inl err => err
      | inr fractional_part_start =>
          let charp := find_if_not isdigit fractional_part_start in
          let bad :=
            match charp with
            | String c _ => negb (Ascii.eqb c "E") && negb (Ascii.eqb c "e")
            | EmptyString => false
            end in
          if bad then
            ParseInvalid
              (quote_char "Found non base ten digit character '" (char_at charp 0)
                 "' before the end of the string")
          else
            let fractional_part := range fractional_part_start charp in
            let len :=
              Z.of_nat (String.length whole_part + String.length fractional_part) in
            let precision := wrap_s32 len in
            let scale_or_error : ParseResult + Z :=
              match charp with
              | String _ after_e =>
                  let value := char_at after_e 0 in
                  let starts_with_plus_or_minus :=
                    Ascii.eqb value "+" || Ascii.eqb value "-" in
                  let digit_start := after_e in
                  let charp :=
                    if starts_with_plus_or_minus
                    then substring 1 (String.length after_e - 1) after_e
                    else after_e in
                  let charp := find_if_not isdigit charp in
                  match charp with
                  | String c _ =>
                      inl (ParseInvalid
                             (quote_char "Found non decimal digit exponent value '" c "'"))
                  | EmptyString =>
                      match stol digit_start with
                      | None => inl ParseThrows
                      | Some e =>
                          let adjusted_exponent := wrap_s32 e in
                          inr (wrap_s32
                                 (wrap_s32 (wrap_s32 (- adjusted_exponent) + wrap_s32 len) - 1))
                      end
                  end
              | EmptyString =>
                  inr (wrap_s32 (Z.of_nat (String.length fractional_part)))
              end in
            match scale_or_error with
            | inl err => err
            | inr scale =>
                match StringToInteger (append whole_part fractional_part)
                        (Decimal128_of_int64 0) with
                | None => ParseThrows
                | Some out =>
                    ParseOK (if is_negative then Negate out else out)
                      precision scale
                end
            end
      end
  end.

(** The first character of a string fails a test (or there is none). *)
Definition stops (pred : ascii -> bool) (s : string) : bool :=
  match s with
  | EmptyString => true
  | String c _ => negb (pred c)
  end.

(** The pieces of an accepted text. *)
Definition sign_ok (sign : string) : bool :=
  String.eqb sign "" || String.eqb sign "+" || String.eqb sign "-".

Definition digits_ok (ds : string) : bool :=
  match ds with EmptyString => false | _ => all_digits ds end.

Definition frac_text (frac : option string) : string :=
  match frac with Some f => String "." f | None => EmptyString end.

Definition expo_text (expo : option (ascii * string * string)) : string :=
  match expo with
  | Some (m, es, ed) => String m (append es ed)
  | None => EmptyString
  end.

Definition decimal_text (sign : string) (zeros : nat) (whole : string)
    (frac : option string) (expo : option (ascii * string * string)) : string :=
  append sign
    (append (replicate zeros "0")
       (append whole (append (frac_text frac) (expo_text expo)))).

(** The shape [FromString] takes past its all-zeros case: a sign, leading
    zeros, a whole part that does not start with a zero, a point with at
    least one digit, and (only after a fraction) an exponent with an optional
    sign and at least one digit; the whole part or the fraction is there. *)
Definition pieces_ok (sign : string) (whole : string) (frac : option string)
    (expo : option (ascii * string * string)) : bool :=
  sign_ok sign
  && all_digits whole && stops is_zero_char whole
  && match frac with Some f => digits_ok f | None => true end
  && match expo with
     | Some (m, es, ed) =>
         (Ascii.eqb m "E" || Ascii.eqb m "e") && sign_ok es && digits_ok ed
         && match frac with Some _ => true | None => false end
     | None => true
     end
  && (negb (String.eqb whole "") || match frac with Some _ => true | None => false end).

Definition frac_digits (frac : option string) : string :=
  match frac with Some f => f | None => EmptyString end.

(** Modelled from the spec: the exponent a text denotes. *)
Definition expo_value (es ed : string) : Z :=
  if String.eqb es "-" then - digits_value ed 0 else digits_value ed 0.

(** Modelled from the spec: the precision of a text, [|whole| + |fractional|]. *)
Definition precision_spec (whole : string) (frac : option string) : Z :=
  Z.of_nat (String.length whole + String.length (frac_digits frac)).

(** Modelled from the spec: the scale of a text, [|fractional|] without an
    exponent and [- exp + precision - 1] with one. *)
Definition scale_spec (whole : string) (frac : option string)
    (expo : option (ascii * string * string)) : Z :=
  match expo with
  | None => Z.of_nat (String.length (frac_digits frac))
  | Some (_, es, ed) => - expo_value es ed + precision_spec whole frac - 1
  end.

(** Modelled from the spec: the value of a text, its digits read as an
    integer and negated after a minus sign. *)
Definition value_spec (sign whole : string) (frac : option string) : Z :=
  let v := digits_value (append whole (frac_digits frac)) 0 in
  if String.eqb sign "-" then - v else v.

(** Modelled from the spec: what is claimed of the outputs of [FromString], for a text
    given by its pieces. *)
Definition FromString_claim (sign : string) (zeros : nat) (whole : string)
    (frac : option string) (expo : option (ascii * string * string)) : Prop :=
  forall out precision scale,
    FromString (decimal_text sign zeros whole frac expo) = ParseOK out precision scale ->
    precision = precision_spec whole frac /\
    scale = scale_spec whole frac expo /\
    to_Z out = value_spec sign whole frac.

(** Whether the middle partial sum of [operator*=] overflows 64 bits: the
    test [sum < product] of the source. *)
Definition mul_carry (l r : Decimal128) : bool :=
  let L2 := low_bits l / 2 ^ 32 in
  let L3 := low_bits l mod 2 ^ 32 in
  let R2 := low_bits r / 2 ^ 32 in
  let R3 := low_bits r mod 2 ^ 32 in
  2 ^ 64 <=? (L3 * R3) / 2 ^ 32 + L2 * R3 + L3 * R2.

(** * Properties *)

(** ** Ranges of the wrap-around functions *)

Lemma wrap_u32_range z : 0 <= wrap_u32 z < 2 ^ 32.
Proof. unfold wrap_u32. apply Z.mod_pos_bound. lia. Qed.

Lemma wrap_u64_range z : 0 <= wrap_u64 z < 2 ^ 64.
Proof. unfold wrap_u64. apply Z.mod_pos_bound. lia. Qed.

Lemma wrap_s64_range z : - 2 ^ 63 <= wrap_s64 z < 2 ^ 63.
Proof. unfold wrap_s64. pose proof (Z.mod_pos_bound (z + 2 ^ 63) (2 ^ 64)). lia. Qed.

Lemma wrap_u32_id z : 0 <= z < 2 ^ 32 -> wrap_u32 z = z.
Proof. intros. unfold wrap_u32. apply Z.mod_small. lia. Qed.

Lemma wrap_u64_id z : 0 <= z < 2 ^ 64 -> wrap_u64 z = z.
Proof. intros. unfold wrap_u64. apply Z.mod_small. lia. Qed.

Lemma wrap_s64_id z : - 2 ^ 63 <= z < 2 ^ 63 -> wrap_s64 z = z.
Proof. intros. unfold wrap_s64. rewrite Z.mod_small; lia. Qed.

Lemma wrap_s32_id z : - 2 ^ 31 <= z < 2 ^ 31 -> wrap_s32 z = z.
Proof. intros. unfold wrap_s32. rewrite Z.mod_small; lia. Qed.

Lemma wrap_s128_id z : - 2 ^ 127 <= z < 2 ^ 127 -> wrap_s128 z = z.
Proof. intros. unfold wrap_s128. rewrite Z.mod_small; lia. Qed.

Lemma wrap_s64_of_u64 z : - 2 ^ 63 <= z < 2 ^ 63 -> wrap_s64 (wrap_u64 z) = z.
Proof.
  intros. unfold wrap_s64, wrap_u64.
  rewrite Zplus_mod_idemp_l. rewrite Z.mod_small; lia.
Qed.

Lemma Decimal128_eta (x : Decimal128) : mkDecimal128 (high_bits x) (low_bits x) = x.
Proof. destruct x; reflexivity. Qed.

Lemma to_Z_range (x : Decimal128) : wf x -> - 2 ^ 127 <= to_Z x < 2 ^ 127.
Proof. unfold wf, to_Z. lia. Qed.

Lemma of_Z_wf z : wf (of_Z z).
Proof.
  unfold wf, of_Z; simpl.
  assert (- 2 ^ 127 <= wrap_s128 z < 2 ^ 127).
  { unfold wrap_s128. pose proof (Z.mod_pos_bound (z + 2 ^ 127) (2 ^ 128)). lia. }
  split.
  - split.
    + apply Z.div_le_lower_bound; lia.
    + apply Z.div_lt_upper_bound; lia.
  - apply Z.mod_pos_bound. lia.
Qed.

Lemma to_Z_of_Z z : to_Z (of_Z z) = wrap_s128 z.
Proof.
  unfold to_Z, of_Z; simpl.
  pose proof (Z.div_mod (wrap_s128 z) (2 ^ 64)). lia.
Qed.

Lemma of_Z_to_Z (x : Decimal128) : wf x -> of_Z (to_Z x) = x.
Proof.
  intros Hwf. pose proof (to_Z_range x Hwf) as Hr.
  unfold of_Z. rewrite wrap_s128_id by exact Hr.
  destruct x as [h l]; unfold wf, to_Z in *; simpl in *.
  f_equal.
  - rewrite Z.div_add_l by lia. rewrite Z.div_small; lia.
  - rewrite Z.add_comm, Z.mod_add by lia. apply Z.mod_small; lia.
Qed.

(** ** Byte layout *)

Lemma nth_le_split (i n : nat) (z : Z) :
  (i < n)%nat ->
  byte.unsigned (nth i (le_split n z) Byte.x00) = (z / 2 ^ (8 * Z.of_nat i)) mod 256.
Proof.
  intros Hi.
  rewrite (nth_error_nth (le_split n z) i Byte.x00 (nth_error_le_split i n z Hi)).
  rewrite byte.unsigned_of_Z. unfold byte.wrap.
  rewrite Z.shiftr_div_pow2 by lia. reflexivity.
Qed.

Lemma div_mod_byte (h k : Z) :
  0 <= k <= 56 -> (wrap_u64 h / 2 ^ k) mod 256 = (h / 2 ^ k) mod 256.
Proof.
  intros Hk. unfold wrap_u64.
  rewrite (Z.div_mod h (2 ^ 64)) at 2 by lia.
  replace (2 ^ 64 * (h / 2 ^ 64) + h mod 2 ^ 64)
    with (h mod 2 ^ 64 + (h / 2 ^ 64) * 2 ^ (64 - k) * 2 ^ k).
  2:{ rewrite <- Z.mul_assoc, <- Z.pow_add_r by lia.
      replace (64 - k + k) with 64 by lia. lia. }
  rewrite Z.div_add by lia.
  replace (2 ^ (64 - k)) with (2 ^ (56 - k) * 256).
  2:{ change 256 with (2 ^ 8). rewrite <- Z.pow_add_r by lia. f_equal; lia. }
  rewrite Z.mul_assoc, Z.mod_add by lia. reflexivity.
Qed.

(** C9: [ToBytes] writes 16 bytes, the low half little-endian in bytes 0..7
    and the high half little-endian in bytes 8..15, and reading them back
    gives the value again. *)
Theorem ToBytes_layout_roundtrip (x : Decimal128) (Hwf : wf x) :
  List.length (ToBytes x) = 16%nat /\
  (forall i, (i < 8)%nat ->
     byte.unsigned (nth i (ToBytes x) Byte.x00)
     = (low_bits x / 2 ^ (8 * Z.of_nat i)) mod 256) /\
  (forall i, (i < 8)%nat ->
     byte.unsigned (nth (8 + i) (ToBytes x) Byte.x00)
     = (wrap_u64 (high_bits x) / 2 ^ (8 * Z.of_nat i)) mod 256) /\
  FromBytes (ToBytes x) = x.
Proof.
  unfold ToBytes. split; [ | split; [ | split ] ].
  - rewrite length_app, !length_le_split. reflexivity.
  - intros i Hi. rewrite app_nth1 by (rewrite length_le_split; exact Hi).
    apply nth_le_split. exact Hi.
  - intros i Hi. rewrite app_nth2 by (rewrite length_le_split; lia).
    rewrite length_le_split.
    replace (8 + i - 8)%nat with i by lia.
    rewrite nth_le_split by exact Hi.
    symmetry. apply div_mod_byte. lia.
  - destruct Hwf as [Hh Hl]. unfold FromBytes.
    rewrite skipn_app, length_le_split, Nat.sub_diag.
    rewrite (skipn_all2 (le_split 8 (low_bits x))) by (rewrite length_le_split; lia).
    simpl skipn. rewrite app_nil_l.
    rewrite firstn_app, length_le_split, Nat.sub_diag. simpl (firstn 0 _).
    rewrite app_nil_r.
    rewrite !firstn_all2 by (rewrite length_le_split; lia).
    rewrite !le_combine_split.
    change (2 ^ (Z.of_nat 8 * 8)) with (2 ^ 64).
    unfold Decimal128_of_halves.
    fold (wrap_u64 (high_bits x)). fold (wrap_u64 (low_bits x)).
    rewrite (wrap_s64_of_u64 _ Hh).
    rewrite (wrap_s64_id _ Hh).
    rewrite (wrap_u64_id (wrap_u64 (low_bits x))) by apply wrap_u64_range.
    rewrite (wrap_u64_id _ Hl).
    apply Decimal128_eta.
Qed.

Lemma ToBytes_layout_roundtrip_witness :
  wf (of_Z (-1)) /\ FromBytes (ToBytes (of_Z (-1))) = of_Z (-1).
Proof.
  assert (H : wf (of_Z (-1))) by (unfold wf; vm_compute; intuition discriminate).
  split; [exact H | apply (ToBytes_layout_roundtrip (of_Z (-1)) H)].
Defined.

(** ** Division by zero *)

Lemma FillInArray_zero : FillInArray Decimal128_zero = ([], false).
Proof. reflexivity. Qed.

(** C10: when the divisor is zero, [Divide] returns its error with
    [*result] and [*remainder] holding what they held before the call. *)
Theorem Divide_by_zero_writes_nothing (x result remainder : Decimal128) :
  Divide x Decimal128_zero result remainder
  = Some (Invalid "Division by 0 in Decimal128", result, remainder).
Proof.
  unfold Divide. rewrite FillInArray_zero.
  destruct (FillInArray x) as [dividend_tl dividend_was_negative].
  reflexivity.
Qed.

(** ** Inputs on which the code leaves its documented behaviour *)

(** C2: the carry out of the middle partial sum is added to the high half
    twice, so the product of 2^64-1 with itself is off by 2^96. *)
Theorem mul_adds_carry_twice :
  let x := of_Z (2 ^ 64 - 1) in
  to_Z (mul x x) = wrap_s128 (to_Z x * to_Z x) + 2 ^ 96 /\
  to_Z (mul x x) <> wrap_s128 (to_Z x * to_Z x).
Proof. split; vm_compute; [reflexivity | discriminate]. Qed.

(** C3: rescaling -1 up by one digit reports data loss although -10 is in
    range (the overflow test compares [result < value] whatever the sign),
    and rescaling 0xDFFFFFFFFFFFFFFF up by 19 digits succeeds with a value
    that is off by 2^96 (the doubled carry of [mul]). *)
Theorem Rescale_up_fails_without_overflow :
  (- 2 ^ 127 <= -1 * 10 ^ 1 < 2 ^ 127 /\
   exists msg,
     Rescale (of_Z (-1)) 0 1 Decimal128_zero = Some (Invalid msg, of_Z (-10))) /\
  (- 2 ^ 127 <= 0xDFFFFFFFFFFFFFFF * 10 ^ 19 < 2 ^ 127 /\
   Rescale (of_Z 0xDFFFFFFFFFFFFFFF) 0 19 Decimal128_zero
   = Some (OK, of_Z (0xDFFFFFFFFFFFFFFF * 10 ^ 19 + 2 ^ 96))).
Proof.
  split; split; try lia.
  - eexists. vm_compute. reflexivity.
  - vm_compute. reflexivity.
Qed.

(** C4: an input that ends right after the exponent marker, or right after
    the exponent sign, is not answered with [Invalid]: the empty exponent
    reaches [std::stol], which throws. *)
Theorem FromString_empty_exponent_throws :
  FromString "1.5E" = ParseThrows /\
  FromString "1.5e+" = ParseThrows /\
  FromString "1.5E-" = ParseThrows.
Proof. repeat split. Qed.

(** C5: (2^64-1) * 10^18 is a multiple of 10^18, yet rescaling it down by 18
    digits reports data loss: the digit loop of [Divide] lowers a correct
    guess after its 32-bit [rhat] has wrapped, and the quotient comes out
    too small with a remainder above the divisor. *)
Theorem Rescale_down_rejects_exact_multiple :
  let x := 18446744073709551615 * 10 ^ 18 in
  - 2 ^ 127 <= x < 2 ^ 127 /\ x mod 10 ^ 18 = 0 /\
  Divide (of_Z x) (of_Z (10 ^ 18)) Decimal128_zero Decimal128_zero
  = Some (OK, of_Z 18446744068757791457, of_Z 4951760158000000000000000000) /\
  exists msg,
    Rescale (of_Z x) 18 0 Decimal128_zero = Some (Invalid msg, of_Z 18446744068757791457).
Proof.
  split; [ | split; [ | split ] ].
  - lia.
  - reflexivity.
  - vm_compute. reflexivity.
  - eexists. vm_compute. reflexivity.
Qed.

(** ** Limb arrays as numbers *)

Lemma pow_b_0 : pow_b 0 = 1.
Proof. reflexivity. Qed.

Lemma pow_b_S n : pow_b (S n) = 2 ^ 32 * pow_b n.
Proof.
  unfold pow_b. rewrite <- Z.pow_add_r by lia. f_equal. lia.
Qed.

Lemma pow_b_pos n : 0 < pow_b n.
Proof. unfold pow_b. apply Z.pow_pos_nonneg; lia. Qed.

Lemma pow_b_add n m : pow_b (n + m) = pow_b n * pow_b m.
Proof.
  unfold pow_b. rewrite <- Z.pow_add_r by lia. f_equal. lia.
Qed.

Lemma val_from_acc acc a : val_from acc a = acc * pow_b (List.length a) + val a.
Proof.
  unfold val. revert acc. induction a as [|d tl IH]; intros acc; cbn [val_from List.length].
  - rewrite pow_b_0. lia.
  - rewrite IH. rewrite (IH (0 * 2 ^ 32 + d)). rewrite pow_b_S. lia.
Qed.

Lemma val_nil : val [] = 0.
Proof. reflexivity. Qed.

Lemma val_cons d tl : val (d :: tl) = d * pow_b (List.length tl) + val tl.
Proof. unfold val at 1. simpl. rewrite val_from_acc. lia. Qed.

Lemma val_app a c : val (a ++ c) = val a * pow_b (List.length c) + val c.
Proof.
  induction a as [|d tl IH]; cbn [app].
  - rewrite val_nil. lia.
  - rewrite !val_cons, IH, length_app, pow_b_add. lia.
Qed.

Lemma val_snoc a d : val (a ++ [d]) = val a * 2 ^ 32 + d.
Proof.
  rewrite val_app. cbn [List.length]. rewrite pow_b_S, pow_b_0.
  rewrite val_cons, val_nil. cbn [List.length]. rewrite pow_b_0. lia.
Qed.

Lemma val_single d : val [d] = d.
Proof. rewrite val_cons, val_nil. cbn [List.length]. rewrite pow_b_0. lia. Qed.

Lemma val_bound a : limbs a -> 0 <= val a < pow_b (List.length a).
Proof.
  induction 1 as [|d tl Hd Htl IH].
  - cbn [List.length]. rewrite val_nil, pow_b_0. lia.
  - rewrite val_cons. cbn [List.length]. rewrite pow_b_S.
    pose proof (pow_b_pos (List.length tl)). nia.
Qed.

Lemma limbs_app a c : limbs (a ++ c) <-> limbs a /\ limbs c.
Proof. unfold limbs. apply Forall_app. Qed.

Lemma limbs_cons d a : limbs (d :: a) <-> 0 <= d < 2 ^ 32 /\ limbs a.
Proof. unfold limbs. apply Forall_cons_iff. Qed.

Lemma limbs_nil : limbs [].
Proof. constructor. Qed.

Lemma limbs_repeat_0 n : limbs (repeat 0 n).
Proof. induction n; simpl; constructor; [lia | assumption]. Qed.

Lemma val_repeat_0 n : val (repeat 0 n) = 0.
Proof. induction n; cbn [repeat]; [reflexivity | rewrite val_cons, IHn; lia]. Qed.

(** Reading and writing at the seam of two lists. *)
Lemma get_app_len (pre : list Z) d post : get (pre ++ d :: post) (List.length pre) = d.
Proof. unfold get. rewrite app_nth2, Nat.sub_diag by lia. reflexivity. Qed.

Lemma get_app_l (pre post : list Z) i :
  (i < List.length pre)%nat -> get (pre ++ post) i = get pre i.
Proof. intros. unfold get. apply app_nth1. assumption. Qed.

Lemma get_app_r (pre post : list Z) i :
  (List.length pre <= i)%nat -> get (pre ++ post) i = get post (i - List.length pre).
Proof. intros. unfold get. apply app_nth2. lia. Qed.

Lemma set_app_len (pre : list Z) d post v :
  set (pre ++ d :: post) (List.length pre) v = pre ++ v :: post.
Proof. induction pre as [|h t IH]; simpl; [reflexivity | rewrite IH; reflexivity]. Qed.

Lemma length_set a i v : List.length (set a i v) = List.length a.
Proof.
  revert i. induction a as [|h t IH]; intros [|i]; simpl; try reflexivity.
  rewrite IH. reflexivity.
Qed.

(** A list of length [S k] ends in a last element. *)
Lemma snoc_inv (a : list Z) k :
  List.length a = S k -> exists a' d, a = a' ++ [d] /\ List.length a' = k.
Proof.
  intros H. destruct (exists_last (l := a)) as [a' [d Heq]].
  { intros ->. discriminate. }
  exists a', d. split; [exact Heq|].
  subst a. rewrite length_app in H. simpl in H. lia.
Qed.

(** Bitwise or of values with disjoint bits is their sum. *)
Lemma lor_disjoint (x y k : Z) :
  0 <= k -> 0 <= y < 2 ^ k -> Z.lor (x * 2 ^ k) y = x * 2 ^ k + y.
Proof.
  intros Hk Hy.
  assert (Hland : Z.land (x * 2 ^ k) y = 0).
  2:{ rewrite <- (Z.lxor_lor _ _ Hland). symmetry. apply Z.add_nocarry_lxor. exact Hland. }
  apply Z.bits_inj'. intros n Hn.
  rewrite Z.land_spec, Z.bits_0.
  destruct (Z.ltb_spec n k).
  - rewrite Z.mul_pow2_bits_low by lia. reflexivity.
  - rewrite <- (Z.mod_small y (2 ^ k)) by lia.
    rewrite Z.mod_pow2_bits_high by lia. apply andb_false_r.
Qed.

Lemma land_kIntMask z : Z.land z kIntMask = z mod 2 ^ 32.
Proof. change kIntMask with (Z.ones 32). apply Z.land_ones. lia. Qed.

Lemma shiftr_32 z : Z.shiftr z 32 = z / 2 ^ 32.
Proof. apply Z.shiftr_div_pow2. lia. Qed.

Lemma shiftl_32 z : Z.shiftl z 32 = z * 2 ^ 32.
Proof. apply Z.shiftl_mul_pow2. lia. Qed.

(** ** Negation *)

Lemma lnot_eq z : Z.lnot z = - z - 1.
Proof. unfold Z.lnot. lia. Qed.

Lemma Negate_spec (d : Decimal128) :
  wf d -> wf (Negate d) /\ to_Z (Negate d) = wrap_s128 (- to_Z d).
Proof.
  destruct d as [h l]. unfold wf, Negate, to_Z. cbn [high_bits low_bits].
  intros [Hh Hl]. rewrite !lnot_eq.
  assert (Hlow : wrap_u64 (wrap_u64 (- l - 1) + 1) = if l =? 0 then 0 else 2 ^ 64 - l).
  { destruct (Z.eqb_spec l 0); zwrap. }
  rewrite Hlow.
  destruct (Z.eqb_spec l 0) as [-> | Hne].
  - change (0 =? 0) with true. cbv iota.
    pose proof (wrap_s64_range (- h - 1 + 1)).
    split; [lia|]. zwrap.
  - destruct (Z.eqb_spec (2 ^ 64 - l) 0); [lia|].
    split; [lia|]. zwrap.
Qed.

Lemma to_Z_inj (x y : Decimal128) : wf x -> wf y -> to_Z x = to_Z y -> x = y.
Proof.
  destruct x as [h l], y as [h' l']; unfold wf, to_Z; cbn [high_bits low_bits].
  intros [Hh Hl] [Hh' Hl'] Heq.
  assert (h = h') by nia. subst h'. f_equal. lia.
Qed.

Lemma ltb_zero_spec (x : Decimal128) :
  wf x -> Decimal128_ltb x (Decimal128_of_int64 0) = (to_Z x <? 0).
Proof.
  destruct x as [h l]; unfold wf, to_Z, Decimal128_ltb, Decimal128_of_int64;
    cbn [high_bits low_bits].
  intros [Hh Hl]. change (wrap_u64 0) with 0. change (0 <=? 0) with true. cbv iota.
  destruct (Z.ltb_spec h 0), (Z.eqb_spec h 0), (Z.ltb_spec l 0),
    (Z.ltb_spec (h * 2 ^ 64 + l) 0); cbn; try reflexivity; lia.
Qed.

Lemma eqb_zero_spec (x : Decimal128) :
  wf x -> Decimal128_eqb x (Decimal128_of_int64 0) = (to_Z x =? 0).
Proof.
  destruct x as [h l]; unfold wf, to_Z, Decimal128_eqb, Decimal128_of_int64;
    cbn [high_bits low_bits].
  intros [Hh Hl]. change (wrap_u64 0) with 0. change (0 <=? 0) with true. cbv iota.
  destruct (Z.eqb_spec h 0), (Z.eqb_spec l 0), (Z.eqb_spec (h * 2 ^ 64 + l) 0);
    cbn; try reflexivity; lia.
Qed.

Lemma of_int64_spec (v : Z) :
  - 2 ^ 63 <= v < 2 ^ 63 ->
  wf (Decimal128_of_int64 v) /\ to_Z (Decimal128_of_int64 v) = v.
Proof.
  intros Hv. unfold wf, to_Z, Decimal128_of_int64. cbn [high_bits low_bits].
  pose proof (wrap_u64_range v).
  destruct (Z.leb_spec 0 v); (split; [lia | zwrap]).
Qed.

Lemma of_halves_spec (h l : Z) :
  wf (Decimal128_of_halves h l) /\
  to_Z (Decimal128_of_halves h l) = wrap_s64 h * 2 ^ 64 + wrap_u64 l.
Proof.
  unfold wf, to_Z, Decimal128_of_halves. cbn [high_bits low_bits].
  pose proof (wrap_s64_range h). pose proof (wrap_u64_range l). lia.
Qed.

(** ** [FillInArray] *)

Lemma FillInArray_stages (x : Decimal128) :
  FillInArray x =
  let '(high, low, was_negative) := abs_halves x in
  (limbs_of_halves high low, was_negative).
Proof.
  unfold FillInArray, abs_halves, limbs_of_halves.
  repeat match goal with |- context [if ?c then _ else _] => destruct c end;
    reflexivity.
Qed.

Lemma abs_halves_spec (x : Decimal128) :
  wf x ->
  let '(high, low, was_negative) := abs_halves x in
  was_negative = (to_Z x <? 0) /\
  0 <= high < 2 ^ 64 /\ 0 <= low < 2 ^ 64 /\
  high * 2 ^ 64 + low = Z.abs (to_Z x).
Proof.
  destruct x as [h l]. unfold wf, to_Z, abs_halves. cbn [high_bits low_bits].
  intros [Hh Hl]. rewrite !lnot_eq.
  assert (Hlow : wrap_u64 (wrap_u64 (- l - 1) + 1) = if l =? 0 then 0 else 2 ^ 64 - l).
  { destruct (Z.eqb_spec l 0); zwrap. }
  rewrite Hlow. clear Hlow.
  destruct (Z.ltb_spec h 0) as [Hneg | Hpos].
  - assert (Hhigh : wrap_u64 (- h - 1) = - h - 1) by zwrap.
    assert (Hhigh1 : wrap_u64 (- h - 1 + 1) = - h) by zwrap.
    rewrite Hhigh, Hhigh1.
    destruct (Z.eqb_spec l 0) as [-> | Hl0].
    + change (0 =? 0) with true. cbv iota.
      split; [symmetry; apply Z.ltb_lt; lia | lia].
    + destruct (Z.eqb_spec (2 ^ 64 - l) 0); [lia|].
      split; [symmetry; apply Z.ltb_lt; lia | lia].
  - assert (Hhigh2 : wrap_u64 h = h) by zwrap.
    rewrite Hhigh2.
    split; [symmetry; apply Z.ltb_ge; lia | lia].
Qed.

Lemma limbs_of_halves_spec (high low : Z) :
  0 <= high < 2 ^ 64 -> 0 <= low < 2 ^ 64 ->
  let a := limbs_of_halves high low in
  limbs a /\ val a = high * 2 ^ 64 + low /\ (List.length a <= 4)%nat /\
  ((a = [0; 0xFFFFFFFF]) \/ a = [] \/ exists h t, a = h :: t /\ 0 < h).
Proof.
  intros Hhi Hlo. unfold limbs_of_halves, uint32_max.
  rewrite !shiftr_32.
  destruct (Z.eqb_spec high 0); cbn [negb].
  - destruct (Z.leb_spec 0xFFFFFFFF low).
    + repeat split.
      * repeat (apply limbs_cons; split; [apply wrap_u32_range|]). apply limbs_nil.
      * unfold val; cbn [val_from]. zwrap.
      * cbn. lia.
      * destruct (Z.eq_dec low 0xFFFFFFFF) as [-> | Hne].
        -- left. reflexivity.
        -- right. right. eexists _, _. split; [reflexivity|]. zwrap.
    + destruct (Z.eqb_spec low 0).
      * repeat split.
        -- apply limbs_nil.
        -- rewrite val_nil. lia.
        -- cbn. lia.
        -- right. left. reflexivity.
      * repeat split.
        -- repeat (apply limbs_cons; split; [apply wrap_u32_range|]). apply limbs_nil.
        -- unfold val; cbn [val_from]. zwrap.
        -- cbn. lia.
        -- right. right. eexists _, _. split; [reflexivity|]. zwrap.
  - destruct (Z.ltb_spec 0xFFFFFFFF high).
    + repeat split.
      * repeat (apply limbs_cons; split; [apply wrap_u32_range|]). apply limbs_nil.
      * unfold val; cbn [val_from]. zwrap.
      * cbn. lia.
      * right. right. eexists _, _. split; [reflexivity|]. zwrap.
    + repeat split.
      * repeat (apply limbs_cons; split; [apply wrap_u32_range|]). apply limbs_nil.
      * unfold val; cbn [val_from]. zwrap.
      * cbn. lia.
      * right. right. eexists _, _. split; [reflexivity|]. zwrap.
Qed.

Lemma FillInArray_spec (x : Decimal128) :
  wf x ->
  let '(a, was_negative) := FillInArray x in
  was_negative = (to_Z x <? 0) /\
  limbs a /\ val a = Z.abs (to_Z x) /\ (List.length a <= 4)%nat /\
  ((a = [0; 0xFFFFFFFF]) \/ a = [] \/ exists h t, a = h :: t /\ 0 < h).
Proof.
  intros Hwf. rewrite FillInArray_stages.
  pose proof (abs_halves_spec x Hwf) as Habs.
  destruct (abs_halves x) as [[high low] neg].
  destruct Habs as (Hneg & Hhi & Hlo & Hval).
  pose proof (limbs_of_halves_spec high low Hhi Hlo) as Hl. cbv zeta in Hl.
  rewrite <- Hval. tauto.
Qed.

(** ** [BuildFromArray] *)

Lemma BuildFromArray_spec (a : list Z) :
  limbs a ->
  (List.length a <= 4)%nat \/ (List.length a = 5%nat /\ get a 0 = 0) ->
  exists d, BuildFromArray a (List.length a) = inl d /\ wf d /\
            to_Z d = wrap_s128 (val a).
Proof.
  intros Hl Hlen.
  destruct a as [|a0 [|a1 [|a2 [|a3 [|a4 [|a5 tl]]]]]]; cbn [List.length] in Hlen;
    try (exfalso; lia);
    repeat match goal with
      | H : limbs (_ :: _) |- _ => apply limbs_cons in H; destruct H as [? H]
      end;
    unfold BuildFromArray; cbn [List.length get nth]; rewrite ?shiftl_32.
  - eexists. split; [reflexivity|]. split; [apply of_int64_spec; lia|].
    rewrite (proj2 (of_int64_spec 0 ltac:(lia))). reflexivity.
  - eexists. split; [reflexivity|]. split; [apply of_int64_spec; lia|].
    rewrite (proj2 (of_int64_spec a0 ltac:(lia))). rewrite val_single. zwrap.
  - eexists. split; [reflexivity|]. split; [apply of_halves_spec|].
    rewrite (proj2 (of_halves_spec _ _)). unfold val; cbn [val_from]. zwrap.
  - eexists. split; [reflexivity|]. split; [apply of_halves_spec|].
    rewrite (proj2 (of_halves_spec _ _)). unfold val; cbn [val_from]. zwrap.
  - eexists. split; [reflexivity|]. split; [apply of_halves_spec|].
    rewrite (proj2 (of_halves_spec _ _)). unfold val; cbn [val_from]. zwrap.
  - destruct Hlen as [Hlen | [_ Hzero]]; [exfalso; lia|].
    unfold get in Hzero; cbn [nth] in Hzero. subst a0.
    change (negb (0 =? 0)) with false. cbv iota.
    eexists. split; [reflexivity|]. split; [apply of_halves_spec|].
    rewrite (proj2 (of_halves_spec _ _)). unfold val; cbn [val_from]. zwrap.
Qed.

(** ** Division by a single limb *)

Lemma SingleDivide_loop_spec (d : Z) (a : list Z) :
  0 < d < 2 ^ 32 -> limbs a ->
  forall r, 0 <= r < d ->
  let '(res, r') := SingleDivide_loop a d r in
  limbs res /\ List.length res = List.length a /\
  val res = (r * pow_b (List.length a) + val a) / d /\
  r' = (r * pow_b (List.length a) + val a) mod d.
Proof.
  intros Hd Ha. induction Ha as [|x tl Hx Htl IH]; intros r Hr.
  - cbn [SingleDivide_loop List.length]. rewrite pow_b_0, !val_nil.
    split; [apply limbs_nil|]. split; [reflexivity|].
    rewrite Z.add_0_r, Z.mul_1_r.
    rewrite Z.div_small, Z.mod_small by lia. split; reflexivity.
  - cbn [SingleDivide_loop]. rewrite shiftl_32.
    assert (Hr1 : wrap_u64 (wrap_u64 (r * 2 ^ 32) + x) = r * 2 ^ 32 + x).
    { rewrite (wrap_u64_id (r * 2 ^ 32)) by nia. apply wrap_u64_id. nia. }
    rewrite Hr1.
    set (r1 := r * 2 ^ 32 + x).
    assert (Hrem : 0 <= r1 mod d < d) by (apply Z.mod_pos_bound; lia).
    specialize (IH (r1 mod d) Hrem).
    destruct (SingleDivide_loop tl d (r1 mod d)) as [res r'].
    destruct IH as (Hres & Hlen & Hval & Hr').
    assert (Hq : 0 <= r1 / d < 2 ^ 32).
    { split.
      - apply Z.div_pos; subst r1; nia.
      - apply Z.div_lt_upper_bound; subst r1; nia. }
    rewrite (wrap_u32_id _ Hq).
    cbn [List.length]. rewrite pow_b_S, !val_cons, Hlen.
    set (B := pow_b (List.length tl)) in *.
    assert (Hsplit : r * (2 ^ 32 * B) + (x * B + val tl)
                     = (r1 / d) * B * d + (r1 mod d * B + val tl)).
    { pose proof (Z.div_mod r1 d ltac:(lia)). subst r1. nia. }
    rewrite Hsplit.
    split; [apply limbs_cons; split; assumption|].
    split; [lia|].
    set (rest := r1 mod d * B + val tl) in *.
    assert (Hdiv : (r1 / d * B * d + rest) / d = r1 / d * B + rest / d).
    { rewrite (Z.add_comm _ rest), Z.div_add by lia. lia. }
    assert (Hmod : (r1 / d * B * d + rest) mod d = rest mod d).
    { rewrite (Z.add_comm _ rest), Z.mod_add by lia. reflexivity. }
    rewrite Hdiv, Hmod, Hval, Hr'. split; [lia | reflexivity].
Qed.

(** ** Sign fix-up *)

Lemma wrap_s128_idem z : wrap_s128 (wrap_s128 z) = wrap_s128 z.
Proof. zwrap. Qed.

Lemma wrap_s128_opp z : wrap_s128 (- wrap_s128 z) = wrap_s128 (- z).
Proof. zwrap. Qed.

Lemma wrap_s128_range z : - 2 ^ 127 <= wrap_s128 z < 2 ^ 127.
Proof. zwrap. Qed.

(** What the final stage of [Divide] produces from the quotient and the
    remainder of the magnitudes: truncated division of the signed values. *)
Lemma FixDivisionSigns_spec (X Y : Z) (q0 r0 : Decimal128) :
  Y <> 0 ->
  wf q0 -> wf r0 ->
  to_Z q0 = wrap_s128 (Z.abs X / Z.abs Y) ->
  to_Z r0 = wrap_s128 (Z.abs X mod Z.abs Y) ->
  - 2 ^ 127 <= Y < 2 ^ 127 ->
  let '(q, r) := FixDivisionSigns q0 r0 (X <? 0) (Y <? 0) in
  wf q /\ wf r /\ to_Z q = wrap_s128 (Z.quot X Y) /\ to_Z r = Z.rem X Y.
Proof.
  intros HY Hq0 Hr0 Hq Hr HYr. unfold FixDivisionSigns.
  pose proof (Negate_spec q0 Hq0) as [Hnq Hnqv].
  pose proof (Negate_spec r0 Hr0) as [Hnr Hnrv].
  rewrite Hq, wrap_s128_opp in Hnqv. rewrite Hr, wrap_s128_opp in Hnrv.
  rewrite (Z.quot_div X Y HY), (Z.rem_mod X Y HY).
  assert (Hm : 0 <= Z.abs X mod Z.abs Y < Z.abs Y) by (apply Z.mod_pos_bound; lia).
  assert (Hrs : wrap_s128 (Z.abs X mod Z.abs Y) = Z.abs X mod Z.abs Y)
    by (apply wrap_s128_id; lia).
  assert (Hrn : wrap_s128 (- (Z.abs X mod Z.abs Y)) = - (Z.abs X mod Z.abs Y))
    by (apply wrap_s128_id; lia).
  rewrite Hrs in Hr. rewrite Hrn in Hnrv.
  set (Q := Z.abs X / Z.abs Y) in *. set (R := Z.abs X mod Z.abs Y) in *.
  destruct (Z.ltb_spec X 0) as [HX | HX], (Z.ltb_spec Y 0) as [HY' | HY'];
    cbn [Bool.eqb negb].
  - split; [assumption|]. split; [assumption|].
    rewrite (Z.sgn_neg X), (Z.sgn_neg Y) by lia.
    split; [rewrite Hq; f_equal; lia | rewrite Hnrv; lia].
  - split; [assumption|]. split; [assumption|].
    rewrite (Z.sgn_neg X), (Z.sgn_pos Y) by lia.
    split; [rewrite Hnqv; f_equal; lia | rewrite Hnrv; lia].
  - split; [assumption|]. split; [assumption|].
    destruct (Z.eq_dec X 0) as [-> | HX0].
    + subst Q R. cbn in *. rewrite Hnqv, Hr. split; reflexivity.
    + rewrite (Z.sgn_pos X), (Z.sgn_neg Y) by lia.
      split; [rewrite Hnqv; f_equal; lia | rewrite Hr; lia].
  - split; [assumption|]. split; [assumption|].
    destruct (Z.eq_dec X 0) as [-> | HX0].
    + subst Q R. cbn in *. rewrite Hq, Hr. split; reflexivity.
    + rewrite (Z.sgn_pos X), (Z.sgn_pos Y) by lia.
      split; [rewrite Hq; f_equal; lia | rewrite Hr; lia].
Qed.

(** ** The multiply-and-subtract and add-back loops *)

Lemma subtract_loop_spec (k : nat) :
  forall vhi vlo j g mult pre mid post,
    List.length vhi = k -> List.length mid = k -> List.length pre = (j + 1)%nat ->
    limbs vhi -> limbs mid -> 0 <= g < 2 ^ 32 -> 0 <= mult <= 2 ^ 32 ->
    exists mult' mid',
      subtract_loop k j g (vhi ++ vlo) mult (pre ++ mid ++ post)
      = (mult', pre ++ mid' ++ post) /\
      List.length mid' = k /\ limbs mid' /\ 0 <= mult' <= 2 ^ 32 /\
      val mid' - mult' * pow_b k = val mid - g * val vhi - mult.
Proof.
  induction k as [|k IH]; intros vhi vlo j g mult pre mid post Hv Hm Hp Hlv Hlm Hg Hmult.
  - destruct vhi; [|discriminate]. destruct mid; [|discriminate].
    exists mult, []. cbn [subtract_loop]. rewrite pow_b_0, val_nil.
    repeat split; try assumption; try lia.
  - destruct (snoc_inv vhi k Hv) as (vhi' & v & -> & Hv').
    destruct (snoc_inv mid k Hm) as (mid' & d & -> & Hm').
    apply limbs_app in Hlv. destruct Hlv as [Hlv' Hlv1].
    apply limbs_app in Hlm. destruct Hlm as [Hlm' Hlm1].
    apply limbs_cons in Hlv1. destruct Hlv1 as [Hvr _].
    apply limbs_cons in Hlm1. destruct Hlm1 as [Hdr _].
    cbn [subtract_loop].
    replace (get ((vhi' ++ [v]) ++ vlo) k) with v.
    2:{ rewrite <- app_assoc. cbn [app]. rewrite <- Hv'. symmetry. apply get_app_len. }
    replace (pre ++ (mid' ++ [d]) ++ post) with ((pre ++ mid') ++ d :: post).
    2:{ rewrite <- !app_assoc. reflexivity. }
    replace (j + k + 1)%nat with (List.length (pre ++ mid')).
    2:{ rewrite length_app. lia. }
    rewrite get_app_len, set_app_len.
    assert (Hgv : 0 <= g * v <= (2 ^ 32 - 1) * (2 ^ 32 - 1)) by nia.
    rewrite (wrap_u64_id (mult + g * v)) by lia.
    rewrite shiftr_32.
    set (mult1 := mult + g * v) in *.
    set (cur := wrap_u32 (d - wrap_u32 mult1)).
    set (mult3 := if d <? cur then wrap_u64 (mult1 / 2 ^ 32 + 1) else mult1 / 2 ^ 32).
    assert (Hcur : 0 <= cur < 2 ^ 32) by apply wrap_u32_range.
    assert (Hm3 : 0 <= mult3 <= 2 ^ 32 /\ cur - mult3 * 2 ^ 32 = d - mult1).
    { subst mult3 cur. destruct (Z.ltb_spec d (wrap_u32 (d - wrap_u32 mult1))) as [Hb | Hb];
        revert Hb; zwrap. }
    destruct Hm3 as [Hm3 Hceq].
    replace ((pre ++ mid') ++ cur :: post) with (pre ++ mid' ++ (cur :: post)).
    2:{ rewrite <- app_assoc. reflexivity. }
    rewrite <- (app_assoc vhi' [v] vlo).
    destruct (IH vhi' ([v] ++ vlo) j g mult3 pre mid' (cur :: post)
                Hv' Hm' Hp Hlv' Hlm' Hg Hm3)
      as (mult' & mid'' & Heq & Hlen & Hlimbs & Hmr & Hval).
    exists mult', (mid'' ++ [cur]).
    split.
    { rewrite Heq. rewrite <- !app_assoc. reflexivity. }
    split; [rewrite length_app; cbn; lia|].
    split.
    { apply limbs_app. split; [assumption|].
      apply limbs_cons. split; [assumption | apply limbs_nil]. }
    split; [assumption|].
    rewrite !val_snoc, pow_b_S. subst mult1. nia.
Qed.

Lemma add_back_loop_spec (k : nat) :
  forall vhi vlo j carry pre mid post,
    List.length vhi = k -> List.length mid = k -> List.length pre = (j + 1)%nat ->
    limbs vhi -> limbs mid -> 0 <= carry <= 1 ->
    exists carry' mid',
      add_back_loop k j (vhi ++ vlo) carry (pre ++ mid ++ post)
      = (carry', pre ++ mid' ++ post) /\
      List.length mid' = k /\ limbs mid' /\ 0 <= carry' <= 1 /\
      val mid' + carry' * pow_b k = val mid + val vhi + carry.
Proof.
  induction k as [|k IH]; intros vhi vlo j carry pre mid post Hv Hm Hp Hlv Hlm Hc.
  - destruct vhi; [|discriminate]. destruct mid; [|discriminate].
    exists carry, []. cbn [add_back_loop]. rewrite pow_b_0, val_nil.
    repeat split; try assumption; try lia.
  - destruct (snoc_inv vhi k Hv) as (vhi' & v & -> & Hv').
    destruct (snoc_inv mid k Hm) as (mid' & d & -> & Hm').
    apply limbs_app in Hlv. destruct Hlv as [Hlv' Hlv1].
    apply limbs_app in Hlm. destruct Hlm as [Hlm' Hlm1].
    apply limbs_cons in Hlv1. destruct Hlv1 as [Hvr _].
    apply limbs_cons in Hlm1. destruct Hlm1 as [Hdr _].
    cbn [add_back_loop].
    replace (get ((vhi' ++ [v]) ++ vlo) k) with v.
    2:{ rewrite <- app_assoc. cbn [app]. rewrite <- Hv'. symmetry. apply get_app_len. }
    replace (pre ++ (mid' ++ [d]) ++ post) with ((pre ++ mid') ++ d :: post).
    2:{ rewrite <- !app_assoc. reflexivity. }
    replace (j + k + 1)%nat with (List.length (pre ++ mid')).
    2:{ rewrite length_app. lia. }
    rewrite get_app_len, set_app_len.
    rewrite shiftr_32.
    set (sum := v + d + carry).
    assert (Hc' : 0 <= wrap_u32 (sum / 2 ^ 32) <= 1 /\
                  wrap_u32 sum + wrap_u32 (sum / 2 ^ 32) * 2 ^ 32 = sum).
    { subst sum. zwrap. }
    destruct Hc' as [Hc' Hsum].
    replace ((pre ++ mid') ++ wrap_u32 sum :: post)
      with (pre ++ mid' ++ (wrap_u32 sum :: post)).
    2:{ rewrite <- app_assoc. reflexivity. }
    rewrite <- (app_assoc vhi' [v] vlo).
    destruct (IH vhi' ([v] ++ vlo) j (wrap_u32 (sum / 2 ^ 32)) pre mid'
                (wrap_u32 sum :: post) Hv' Hm' Hp Hlv' Hlm' Hc')
      as (carry' & mid'' & Heq & Hlen & Hlimbs & Hcr & Hval).
    exists carry', (mid'' ++ [wrap_u32 sum]).
    split.
    { rewrite Heq. rewrite <- !app_assoc. reflexivity. }
    split; [rewrite length_app; cbn; lia|].
    split.
    { apply limbs_app. split; [assumption|].
      apply limbs_cons. split; [apply wrap_u32_range | apply limbs_nil]. }
    split; [assumption|].
    rewrite !val_snoc, pow_b_S. subst sum. nia.
Qed.

(** ** The arithmetic of the digit guess

    [b] is the limb base, [B] the weight of the third divisor limb.  The
    divisor is [V = (v0 b + v1) B + Vr] with [v0] normalized, the window of
    the dividend is [W = (u0 b^2 + u1 b + u2) B + Wr] with [W < b V]. *)
Section KnuthArith.
Variables b B v0 v1 Vr u0 u1 u2 Wr : Z.
Hypothesis Hb : 2 <= b.
Hypothesis HB : 1 <= B.
Hypothesis Hv0 : b <= 2 * v0 /\ v0 < b.
Hypothesis Hv1 : 0 <= v1 < b.
Hypothesis HVr : 0 <= Vr < B.
Hypothesis Hu0 : 0 <= u0.
Hypothesis Hu1 : 0 <= u1 < b.
Hypothesis Hu2 : 0 <= u2 < b.
Hypothesis HWr : 0 <= Wr < B.

Let V := (v0 * b + v1) * B + Vr.
Let W := (u0 * b * b + u1 * b + u2) * B + Wr.

Hypothesis HW : W < b * V.

Lemma knuth_V_pos : b * B <= V.
Proof using All. subst V. nia. Qed.

Lemma knuth_u0_le : u0 <= v0.
Proof using All.
  subst V W. destruct (Z_le_gt_dec u0 v0) as [H | H]; [exact H | exfalso].
  assert (v0 + 1 <= u0) by lia.
  assert ((v0 + 1) * b * b * B <= u0 * b * b * B) by nia.
  assert (v1 * B + Vr < b * B) by nia.
  nia.
Qed.

(** The first guess is not below the true digit. *)
Lemma knuth_guess_ge (g : Z) :
  0 <= g -> (u0 * b + u1) < (g + 1) * v0 -> W < (g + 1) * V.
Proof using All.
  intros Hg Hhd. subst V W.
  assert (u0 * b + u1 + 1 <= (g + 1) * v0) by lia.
  assert ((u0 * b + u1 + 1) * (b * B) <= (g + 1) * v0 * (b * B)) by nia.
  assert (u2 * B + Wr < b * B) by nia.
  nia.
Qed.

(** A guess that fails the test against the second divisor limb is too
    large. *)
Lemma knuth_test_true (g rh : Z) :
  0 <= g -> g * v0 + rh = u0 * b + u1 ->
  rh * b + u2 < v1 * g -> W < g * V.
Proof using All.
  intros Hg Hhd Ht. subst V W.
  assert (u0 * b * b + u1 * b + u2 + 1 <= g * (v0 * b + v1)) by nia.
  assert ((u0 * b * b + u1 * b + u2 + 1) * B <= g * (v0 * b + v1) * B) by nia.
  nia.
Qed.

(** A guess that passes the test on the top limbs is at most one too
    large. *)
Lemma knuth_test_false (g : Z) :
  0 <= g < b ->
  g * (v0 * b + v1) <= u0 * b * b + u1 * b + u2 -> g * V < W + V.
Proof using All.
  intros Hg Ht. pose proof knuth_V_pos as HV. subst V W.
  assert (g * (v0 * b + v1) * B <= (u0 * b * b + u1 * b + u2) * B) by nia.
  assert (g * Vr < b * B) by nia.
  nia.
Qed.

(** A guess whose remainder estimate has reached the base passes the
    test. *)
Lemma knuth_rhat_large (g rh : Z) :
  0 <= g < b -> g * v0 + rh = u0 * b + u1 -> b <= rh ->
  g * (v0 * b + v1) <= u0 * b * b + u1 * b + u2.
Proof using All.
  intros Hg Hhd Hrh.
  assert (g * v1 < b * b) by nia.
  nia.
Qed.
End KnuthArith.

(** ** The correction loop *)

Lemma correct_guess_unfold (fuel : nat) (d0 d1 u2 g rh : Z) :
  0 <= d0 < 2 ^ 32 -> 0 <= d1 < 2 ^ 32 -> 0 <= u2 < 2 ^ 32 ->
  0 <= g < 2 ^ 32 -> 0 <= rh < 2 ^ 32 ->
  correct_guess fuel d0 d1 u2 g rh =
  if rh * 2 ^ 32 + u2 <? d1 * g then
    match fuel with
    | O => None
    | S fuel' =>
        if 2 ^ 32 <=? rh + d0 then Some (g - 1)
        else correct_guess fuel' d0 d1 u2 (g - 1) (rh + d0)
    end
  else Some g.
Proof.
  intros Hd0 Hd1 Hu2 Hg Hrh.
  destruct fuel; cbn [correct_guess]; rewrite shiftl_32;
    rewrite (wrap_u64_id (rh * 2 ^ 32 + u2)) by nia;
    rewrite (wrap_u64_id (d1 * g)) by nia;
    destruct (Z.ltb_spec (rh * 2 ^ 32 + u2) (d1 * g)) as [Ht | Ht]; try reflexivity.
  assert (Hg1 : 1 <= g) by nia.
  rewrite (wrap_u32_id (g - 1)) by lia.
  destruct (Z.leb_spec (2 ^ 32) (rh + d0)) as [Hw | Hw].
  - assert (Hr : wrap_u32 (rh + d0) = rh + d0 - 2 ^ 32) by zwrap.
    rewrite Hr. destruct (Z.ltb_spec (rh + d0 - 2 ^ 32) d0); [reflexivity | lia].
  - rewrite (wrap_u32_id (rh + d0)) by lia.
    destruct (Z.ltb_spec (rh + d0) d0); [lia | reflexivity].
Qed.

Section KnuthGuess.
Variables B v0 v1 Vr u0 u1 u2 Wr : Z.
Hypothesis HB : 1 <= B.
Hypothesis Hv0 : 2 ^ 31 <= v0 < 2 ^ 32.
Hypothesis Hv1 : 0 <= v1 < 2 ^ 32.
Hypothesis HVr : 0 <= Vr < B.
Hypothesis Hu0 : 0 <= u0 < 2 ^ 32.
Hypothesis Hu1 : 0 <= u1 < 2 ^ 32.
Hypothesis Hu2 : 0 <= u2 < 2 ^ 32.
Hypothesis HWr : 0 <= Wr < B.

Let V := (v0 * 2 ^ 32 + v1) * B + Vr.
Let W := (u0 * 2 ^ 32 * 2 ^ 32 + u1 * 2 ^ 32 + u2) * B + Wr.

Hypothesis HW : W < 2 ^ 32 * V.

(** The loop, entered with a guess not below the digit and an exact
    [rhat], leaves a guess that is the digit or one more. *)
Lemma correct_guess_exact (g rh : Z) :
  0 <= g < 2 ^ 32 -> 0 <= rh < 2 ^ 32 ->
  g * v0 + rh = u0 * 2 ^ 32 + u1 ->
  W < (g + 1) * V ->
  exists g', correct_guess 2 v0 v1 u2 g rh = Some g' /\
             0 <= g' < 2 ^ 32 /\ W < (g' + 1) * V /\ g' * V < W + V.
Proof using All.
  intros Hg Hrh Hhd Hge.
  assert (Hbb : 2 <= 2 ^ 32) by lia.
  assert (Hv0' : 2 ^ 32 <= 2 * v0 /\ v0 < 2 ^ 32) by lia.
  pose proof (knuth_test_true (2 ^ 32) B v0 v1 Vr u0 u1 u2 Wr Hbb HB Hv0' Hv1 HVr (proj1 Hu0) Hu1 Hu2 HWr HW) as Htrue.
  pose proof (knuth_test_false (2 ^ 32) B v0 v1 Vr u0 u1 u2 Wr Hbb HB Hv0' Hv1 HVr (proj1 Hu0) Hu1 Hu2 HWr HW) as Hfalse.
  pose proof (knuth_rhat_large (2 ^ 32) B v0 v1 Vr u0 u1 u2 Wr Hbb HB Hv0' Hv1 HVr (proj1 Hu0) Hu1 Hu2 HWr HW) as Hlarge.
  fold V W in Htrue, Hfalse.
  rewrite correct_guess_unfold by lia.
  destruct (Z.ltb_spec (rh * 2 ^ 32 + u2) (v1 * g)) as [Ht | Ht].
  - (* first round lowers the guess *)
    assert (Hg1 : 1 <= g) by nia.
    assert (Hlt : W < g * V) by (apply (Htrue g rh); lia).
    destruct (Z.leb_spec (2 ^ 32) (rh + v0)) as [Hw | Hw].
    + exists (g - 1). split; [reflexivity|]. split; [lia|].
      split; [replace (g - 1 + 1) with g by lia; exact Hlt|].
      apply Hfalse; [lia|]. apply (Hlarge (g - 1) (rh + v0)); lia.
    + rewrite correct_guess_unfold by lia.
      destruct (Z.ltb_spec ((rh + v0) * 2 ^ 32 + u2) (v1 * (g - 1))) as [Ht2 | Ht2].
      * assert (Hg2 : 2 <= g) by nia.
        assert (Hlt2 : W < (g - 1) * V) by (apply (Htrue (g - 1) (rh + v0)); lia).
        destruct (Z.leb_spec (2 ^ 32) (rh + v0 + v0)) as [Hw2 | Hw2]; [|lia].
        exists (g - 1 - 1). split; [reflexivity|]. split; [lia|].
        split; [replace (g - 1 - 1 + 1) with (g - 1) by lia; exact Hlt2|].
        apply Hfalse; [lia|]. apply (Hlarge (g - 1 - 1) (rh + v0 + v0)); lia.
      * exists (g - 1). split; [reflexivity|]. split; [lia|].
        split; [replace (g - 1 + 1) with g by lia; exact Hlt|].
        apply Hfalse; [lia|]. nia.
  - exists g. split; [reflexivity|]. split; [lia|]. split; [exact Hge|].
    apply Hfalse; [lia|]. nia.
Qed.

(** With a wrapped [rhat] the loop still ends within its two rounds, at
    most two below the largest digit. *)
Lemma correct_guess_wrapped :
  u0 = v0 -> 2 ^ 32 <= u1 + v0 ->
  exists g', correct_guess 2 v0 v1 u2 (2 ^ 32 - 1) (u1 + v0 - 2 ^ 32) = Some g' /\
             2 ^ 32 - 3 <= g' <= 2 ^ 32 - 1.
Proof using All.
  intros Heq Hwrap.
  rewrite correct_guess_unfold by lia.
  destruct (Z.ltb_spec ((u1 + v0 - 2 ^ 32) * 2 ^ 32 + u2) (v1 * (2 ^ 32 - 1))).
  - destruct (Z.leb_spec (2 ^ 32) (u1 + v0 - 2 ^ 32 + v0)).
    + eexists. split; [reflexivity | lia].
    + rewrite correct_guess_unfold by lia.
      destruct (Z.ltb_spec ((u1 + v0 - 2 ^ 32 + v0) * 2 ^ 32 + u2)
                  (v1 * (2 ^ 32 - 1 - 1))).
      * destruct (Z.leb_spec (2 ^ 32) (u1 + v0 - 2 ^ 32 + v0 + v0)); [|lia].
        eexists. split; [reflexivity | lia].
      * eexists. split; [reflexivity | lia].
  - eexists. split; [reflexivity | lia].
Qed.

(** When [rhat] wraps the true digit is one of the two largest. *)
Lemma wrapped_digit_large :
  u0 = v0 -> 2 ^ 32 <= u1 + v0 -> (2 ^ 32 - 2) * V < W.
Proof using All.
  intros Heq Hwrap.
  assert (Hbb : 2 <= 2 ^ 32) by lia.
  assert (Hv0' : 2 ^ 32 <= 2 * v0 /\ v0 < 2 ^ 32) by lia.
  pose proof (knuth_test_false (2 ^ 32) B v0 v1 Vr u0 u1 u2 Wr Hbb HB Hv0' Hv1 HVr (proj1 Hu0) Hu1 Hu2 HWr HW
                (2 ^ 32 - 1) ltac:(lia)) as Hfalse.
  fold V W in Hfalse.
  assert (Hle : (2 ^ 32 - 1) * (v0 * 2 ^ 32 + v1)
                <= u0 * 2 ^ 32 * 2 ^ 32 + u1 * 2 ^ 32 + u2) by (subst u0; nia).
  specialize (Hfalse Hle). lia.
Qed.
End KnuthGuess.

(** ** One round of the digit loop *)

Lemma divide_step_unfold (divisor : list Z) (j : nat) (dividend : list Z) :
  divide_step divisor j dividend =
  let d0 := get divisor 0 in
  let high_dividend := Z.lor (Z.shiftl (get dividend j) 32) (get dividend (j + 1)) in
  let guess0 :=
    if negb (get dividend j =? d0) then wrap_u32 (high_dividend / d0)
    else uint32_max in
  let rhat := wrap_u32 (wrap_u64 (high_dividend - wrap_u64 (guess0 * d0))) in
  match correct_guess 2 d0 (get divisor 1) (get dividend (j + 2)) guess0 rhat with
  | None => None
  | Some guess => Some (subtract_and_fix divisor j dividend guess)
  end.
Proof.
  unfold divide_step, subtract_and_fix. cbv zeta.
  destruct (correct_guess _ _ _ _ _ _) as [guess|]; [|reflexivity].
  destruct (subtract_loop _ _ _ _ _ _) as [mult dividend1].
  destruct (_ <? _); [|reflexivity].
  destruct (add_back_loop _ _ _ _ _) as [carry dividend3]. reflexivity.
Qed.

Lemma subtract_and_fix_spec (divisor pre mid post : list Z) (j : nat) (u0 g : Z) :
  let n := List.length divisor in
  let V := val divisor in
  let W := u0 * pow_b n + val mid in
  List.length pre = j -> List.length mid = n ->
  limbs divisor -> limbs mid -> 0 <= u0 < 2 ^ 32 ->
  0 <= g < 2 ^ 32 -> g * V < W + V ->
  exists g' u0' mid',
    subtract_and_fix divisor j (pre ++ u0 :: mid ++ post) g
    = (g', pre ++ u0' :: mid' ++ post) /\
    List.length mid' = n /\ limbs (u0' :: mid') /\ 0 <= g' < 2 ^ 32 /\
    W = g' * V + (u0' * pow_b n + val mid') /\
    0 <= u0' * pow_b n + val mid' /\
    (g' = g \/ (g' = g - 1 /\ u0' * pow_b n + val mid' < V)).
Proof.
  intros n V W Hpre Hmid Hlv Hlm Hu0 Hg HgV. subst j.
  unfold subtract_and_fix. fold n.
  pose proof (val_bound divisor Hlv) as HVb. fold n V in HVb.
  pose proof (val_bound mid Hlm) as Hmb. rewrite Hmid in Hmb.
  pose proof (pow_b_pos n) as Hbn.
  replace (pre ++ u0 :: mid ++ post) with ((pre ++ [u0]) ++ mid ++ post)
    by (rewrite <- app_assoc; reflexivity).
  assert (Hpre1 : List.length (pre ++ [u0]) = (List.length pre + 1)%nat)
    by (rewrite length_app; cbn; lia).
  destruct (subtract_loop_spec n divisor [] (List.length pre) g 0 (pre ++ [u0]) mid post
              eq_refl Hmid Hpre1 Hlv Hlm Hg ltac:(lia))
    as (mult & mid1 & Heq & Hlen1 & Hl1 & Hmult & Hval1).
  rewrite app_nil_r in Heq. rewrite Heq.
  pose proof (val_bound mid1 Hl1) as Hm1b. rewrite Hlen1 in Hm1b.
  fold V in Hval1.
  replace ((pre ++ [u0]) ++ mid1 ++ post) with (pre ++ u0 :: mid1 ++ post)
    by (rewrite <- app_assoc; reflexivity).
  rewrite get_app_len, set_app_len.
  assert (HD : W - g * V = (u0 - mult) * pow_b n + val mid1) by (subst W; lia).
  destruct (Z_le_gt_dec (g * V) W) as [Hle | Hgt].
  - (* no underflow *)
    assert (Hm : mult <= u0) by nia.
    rewrite (wrap_u32_id mult) by lia.
    rewrite (wrap_u32_id (u0 - mult)) by lia.
    destruct (Z.ltb_spec u0 (u0 - mult)); [lia|].
    exists g, (u0 - mult), mid1.
    split; [reflexivity|]. split; [assumption|].
    split; [apply limbs_cons; split; [lia | assumption]|].
    split; [assumption|]. split; [lia|]. split; [lia|]. left. reflexivity.
  - (* underflow: the divisor is added back *)
    assert (Hm : mult = u0 + 1) by nia.
    assert (Hu0' : u0 < 2 ^ 32 - 1).
    { destruct (Z_lt_ge_dec u0 (2 ^ 32 - 1)) as [H | H]; [exact H | exfalso].
      assert (u0 = 2 ^ 32 - 1) by lia. subst W. nia. }
    assert (Hg1 : 1 <= g) by (subst W; nia).
    rewrite (wrap_u32_id mult) by lia.
    assert (Hcur : wrap_u32 (u0 - mult) = 2 ^ 32 - 1) by (subst mult; zwrap).
    rewrite Hcur.
    destruct (Z.ltb_spec u0 (2 ^ 32 - 1)); [|lia].
    replace (pre ++ (2 ^ 32 - 1) :: mid1 ++ post)
      with ((pre ++ [2 ^ 32 - 1]) ++ mid1 ++ post)
      by (rewrite <- app_assoc; reflexivity).
    assert (Hpre2 : List.length (pre ++ [2 ^ 32 - 1]) = (List.length pre + 1)%nat)
      by (rewrite length_app; cbn; lia).
    destruct (add_back_loop_spec n divisor [] (List.length pre) 0 (pre ++ [2 ^ 32 - 1]) mid1 post
                eq_refl Hlen1 Hpre2 Hlv Hl1 ltac:(lia))
      as (carry & mid2 & Heq2 & Hlen2 & Hl2 & Hcarry & Hval2).
    rewrite app_nil_r in Heq2. rewrite Heq2.
    pose proof (val_bound mid2 Hl2) as Hm2b. rewrite Hlen2 in Hm2b.
    fold V in Hval2.
    replace ((pre ++ [2 ^ 32 - 1]) ++ mid2 ++ post)
      with (pre ++ (2 ^ 32 - 1) :: mid2 ++ post)
      by (rewrite <- app_assoc; reflexivity).
    rewrite get_app_len, set_app_len.
    assert (Hc1 : carry = 1) by nia. subst carry.
    change (wrap_u32 (2 ^ 32 - 1 + 1)) with 0.
    rewrite (wrap_u32_id (g - 1)) by lia.
    exists (g - 1), 0, mid2.
    split; [reflexivity|]. split; [assumption|].
    split; [apply limbs_cons; split; [lia | assumption]|].
    split; [lia|]. split; [nia|]. split; [lia|]. right. split; [reflexivity | nia].
Qed.

Lemma val_top2 (v0 v1 : Z) (vrest : list Z) :
  val (v0 :: v1 :: vrest)
  = (v0 * 2 ^ 32 + v1) * pow_b (List.length vrest) + val vrest.
Proof. rewrite !val_cons. cbn [List.length]. rewrite pow_b_S. lia. Qed.

Lemma get_seam1 (pre : list Z) (a c : Z) (tl : list Z) :
  get (pre ++ a :: c :: tl) (List.length pre + 1) = c.
Proof.
  replace (pre ++ a :: c :: tl) with ((pre ++ [a]) ++ c :: tl)
    by (rewrite <- app_assoc; reflexivity).
  replace (List.length pre + 1)%nat with (List.length (pre ++ [a]))
    by (rewrite length_app; reflexivity).
  apply get_app_len.
Qed.

Lemma get_seam2 (pre : list Z) (a c e : Z) (tl : list Z) :
  get (pre ++ a :: c :: e :: tl) (List.length pre + 2) = e.
Proof.
  replace (pre ++ a :: c :: e :: tl) with ((pre ++ [a; c]) ++ e :: tl)
    by (rewrite <- app_assoc; reflexivity).
  replace (List.length pre + 2)%nat with (List.length (pre ++ [a; c]))
    by (rewrite length_app; reflexivity).
  apply get_app_len.
Qed.

Lemma divide_step_spec (v0 v1 : Z) (vrest pre post : list Z) (u0 u1 u2 : Z)
    (mrest : list Z) (j : nat) :
  let divisor := v0 :: v1 :: vrest in
  let mid := u1 :: u2 :: mrest in
  let n := List.length divisor in
  let V := val divisor in
  let W := u0 * pow_b n + val mid in
  List.length pre = j -> List.length mrest = List.length vrest ->
  limbs divisor -> limbs (u0 :: mid) -> 2 ^ 31 <= v0 -> W < 2 ^ 32 * V ->
  exists g u0' mid',
    divide_step divisor j (pre ++ u0 :: mid ++ post)
    = Some (g, pre ++ u0' :: mid' ++ post) /\
    List.length mid' = n /\ limbs (u0' :: mid') /\ 0 <= g < 2 ^ 32 /\
    W = g * V + (u0' * pow_b n + val mid') /\
    0 <= u0' * pow_b n + val mid' < 3 * V /\
    (rhat_wraps v0 u0 u1 = false -> u0' * pow_b n + val mid' < V) /\
    (rhat_wraps v0 u0 u1 = true -> (2 ^ 32 - 2) * V < W).
Proof.
  intros divisor mid n V W Hpre Hmr Hlv Hlu Hnorm HW. subst j.
  apply limbs_cons in Hlu. destruct Hlu as [Hu0 Hlm].
  pose proof Hlv as Hlv'. pose proof Hlm as Hlm'.
  apply limbs_cons in Hlv'. destruct Hlv' as [Hv0 Hlv'].
  apply limbs_cons in Hlv'. destruct Hlv' as [Hv1 Hlvr].
  apply limbs_cons in Hlm'. destruct Hlm' as [Hu1 Hlm'].
  apply limbs_cons in Hlm'. destruct Hlm' as [Hu2 Hlmr].
  set (B := pow_b (List.length vrest)).
  assert (HB : 1 <= B) by (pose proof (pow_b_pos (List.length vrest)); subst B; lia).
  pose proof (val_bound vrest Hlvr) as HVr. fold B in HVr.
  pose proof (val_bound mrest Hlmr) as HWr. rewrite Hmr in HWr. fold B in HWr.
  assert (HV : V = (v0 * 2 ^ 32 + v1) * B + val vrest).
  { subst V divisor B. apply val_top2. }
  assert (HWeq : W = (u0 * 2 ^ 32 * 2 ^ 32 + u1 * 2 ^ 32 + u2) * B + val mrest).
  { subst W mid n divisor B. rewrite val_top2, Hmr. cbn [List.length].
    rewrite !pow_b_S. lia. }
  assert (HW' : (u0 * 2 ^ 32 * 2 ^ 32 + u1 * 2 ^ 32 + u2) * B + val mrest
                < 2 ^ 32 * ((v0 * 2 ^ 32 + v1) * B + val vrest)) by lia.
  assert (Hmidlen : List.length mid = n).
  { subst mid n divisor. cbn [List.length]. lia. }
  (* the guess after the correction loop *)
  assert (Hguess : exists g,
             (let d0 := get divisor 0 in
              let high_dividend :=
                Z.lor (Z.shiftl (get (pre ++ u0 :: mid ++ post) (List.length pre)) 32)
                  (get (pre ++ u0 :: mid ++ post) (List.length pre + 1)) in
              let guess0 :=
                if negb (get (pre ++ u0 :: mid ++ post) (List.length pre) =? d0)
                then wrap_u32 (high_dividend / d0) else uint32_max in
              let rhat := wrap_u32 (wrap_u64 (high_dividend - wrap_u64 (guess0 * d0))) in
              correct_guess 2 d0 (get divisor 1)
                (get (pre ++ u0 :: mid ++ post) (List.length pre + 2)) guess0 rhat)
             = Some g /\
             0 <= g < 2 ^ 32 /\ g * V < W + V /\ W < (g + 3) * V /\
             (rhat_wraps v0 u0 u1 = false -> W < (g + 1) * V) /\
             (rhat_wraps v0 u0 u1 = true -> (2 ^ 32 - 2) * V < W)).
  { cbv zeta. rewrite get_app_len.
    subst mid. cbn [app]. rewrite get_seam1, get_seam2.
    change (get divisor 0) with v0. change (get divisor 1) with v1.
    rewrite shiftl_32, (lor_disjoint u0 u1 32) by lia.
    pose proof (knuth_u0_le (2 ^ 32) B v0 v1 (val vrest) u0 u1 u2 (val mrest)
                  ltac:(lia) HB ltac:(lia) Hv1 HVr (proj1 Hu0) Hu1 Hu2 HWr HW') as Hle.
    unfold rhat_wraps.
    destruct (Z.eqb_spec u0 v0) as [Heq | Hne]; cbn [negb andb].
    - unfold uint32_max.
      rewrite (wrap_u64_id (4294967295 * v0)) by nia.
      destruct (Z.leb_spec (2 ^ 32) (u1 + v0)) as [Hw | Hw].
      + (* rhat wraps *)
        assert (Hr : wrap_u32 (wrap_u64 (u0 * 2 ^ 32 + u1 - 4294967295 * v0))
                     = u1 + v0 - 2 ^ 32) by (subst u0; zwrap).
        rewrite Hr.
        destruct (correct_guess_wrapped B v0 v1 (val vrest) u0 u1 u2 (val mrest)
                    HB ltac:(lia) Hv1 HVr Hu0 Hu1 Hu2 HWr HW' Heq Hw)
          as (g & Hg & Hgr).
        pose proof (wrapped_digit_large B v0 v1 (val vrest) u0 u1 u2 (val mrest)
                      HB ltac:(lia) Hv1 HVr Hu0 Hu1 Hu2 HWr HW' Heq Hw) as Hlarge.
        rewrite <- HV, <- HWeq in Hlarge.
        change (2 ^ 32 - 1) with 4294967295 in Hg.
        exists g. split; [exact Hg|]. split; [lia|].
        assert (0 < V) by nia.
        split; [nia|]. split; [nia|]. split; [discriminate | intros _; exact Hlarge].
      + assert (Hr : wrap_u32 (wrap_u64 (u0 * 2 ^ 32 + u1 - 4294967295 * v0))
                     = u1 + v0) by (subst u0; zwrap).
        rewrite Hr.
        destruct (correct_guess_exact B v0 v1 (val vrest) u0 u1 u2 (val mrest)
                    HB ltac:(lia) Hv1 HVr Hu0 Hu1 Hu2 HWr HW'
                    4294967295 (u1 + v0) ltac:(lia) ltac:(lia) ltac:(lia) ltac:(lia))
          as (g & Hg & Hgr & Hge & Hlt).
        rewrite <- HV, <- HWeq in Hge, Hlt.
        exists g. split; [exact Hg|]. split; [lia|]. split; [lia|].
        assert (0 < V) by nia.
        split; [nia|]. split; [intros _; exact Hge | discriminate].
    - assert (Hlt0 : u0 < v0) by lia.
      set (hd := u0 * 2 ^ 32 + u1).
      assert (Hq : 0 <= hd / v0 < 2 ^ 32).
      { split; [apply Z.div_pos; subst hd; nia|].
        apply Z.div_lt_upper_bound; subst hd; nia. }
      rewrite (wrap_u32_id _ Hq).
      pose proof (Z.div_mod hd v0 ltac:(lia)) as Hdm.
      pose proof (Z.mod_pos_bound hd v0 ltac:(lia)) as Hmb.
      rewrite (wrap_u64_id (hd / v0 * v0)) by nia.
      assert (Hr : wrap_u32 (wrap_u64 (hd - hd / v0 * v0)) = hd mod v0).
      { replace (hd - hd / v0 * v0) with (hd mod v0) by lia.
        rewrite wrap_u64_id by lia. apply wrap_u32_id. lia. }
      rewrite Hr.
      pose proof (knuth_guess_ge (2 ^ 32) B v0 v1 (val vrest) u0 u1 u2 (val mrest)
                    ltac:(lia) HB ltac:(lia) Hv1 HVr (proj1 Hu0) Hu1 Hu2 HWr HW'
                    (hd / v0) ltac:(lia) ltac:(subst hd; nia)) as Hge0.
      destruct (correct_guess_exact B v0 v1 (val vrest) u0 u1 u2 (val mrest)
                  HB ltac:(lia) Hv1 HVr Hu0 Hu1 Hu2 HWr HW'
                  (hd / v0) (hd mod v0) Hq ltac:(lia) ltac:(subst hd; nia) Hge0)
        as (g & Hg & Hgr & Hge & Hlt).
      rewrite <- HV, <- HWeq in Hge, Hlt.
      exists g. split; [exact Hg|]. split; [lia|]. split; [lia|].
      assert (0 < V) by nia.
      split; [nia|]. split; [intros _; exact Hge | discriminate]. }
  destruct Hguess as (g & Hcg & Hg & HgV & Hg3 & Hexact & Hlarge).
  rewrite divide_step_unfold. cbv zeta in Hcg |- *. rewrite Hcg.
  destruct (subtract_and_fix_spec divisor pre mid post (List.length pre) u0 g
              eq_refl Hmidlen Hlv Hlm Hu0 Hg HgV)
    as (g' & u0' & mid' & Heq & Hlen & Hl' & Hg' & HWg & HR0 & Hcase).
  fold n V W in Heq, Hlen, HWg, HR0, Hcase.
  exists g', u0', mid'. rewrite Heq.
  split; [reflexivity|]. split; [exact Hlen|]. split; [exact Hl'|].
  split; [exact Hg'|]. split; [exact HWg|].
  assert (HVpos : 0 < V) by nia.
  split; [|split].
  - destruct Hcase as [-> | [-> Hlt]]; nia.
  - intros Hnw. specialize (Hexact Hnw). destruct Hcase as [-> | [-> Hlt]]; nia.
  - exact Hlarge.
Qed.

(** ** The digit loop *)

Lemma app_snoc_cons (l : list Z) (x : Z) :
  exists h t, l ++ [x] = h :: t /\ List.length t = List.length l.
Proof.
  destruct l as [|h t].
  - exists x, []. split; reflexivity.
  - exists h, (t ++ [x]). split; [reflexivity|].
    rewrite length_app. cbn. lia.
Qed.

(** One round of [divide_loop] on a state [Z ++ R ++ t0 :: T]: [Z] holds the
    limbs already cleared, [R] the running remainder (below the divisor) and
    [t0 :: T] the dividend limbs still to bring down. *)
Lemma divide_loop_round (v0 v1 : Z) (vrest Z0 R T : list Z) (t0 : Z) (c : nat) :
  let divisor := v0 :: v1 :: vrest in
  let n := List.length divisor in
  let V := val divisor in
  let W := val R * 2 ^ 32 + t0 in
  List.length R = n -> limbs divisor -> limbs R -> 0 <= t0 < 2 ^ 32 ->
  2 ^ 31 <= v0 -> val R < V ->
  exists g u0' mid',
    divide_loop (S c) divisor (List.length Z0) (Z0 ++ R ++ t0 :: T)
    = match divide_loop c divisor (S (List.length Z0)) ((Z0 ++ [u0']) ++ mid' ++ T) with
      | None => None
      | Some (digits, dividend') => Some (g :: digits, dividend')
      end /\
    List.length mid' = n /\ limbs (u0' :: mid') /\ 0 <= g < 2 ^ 32 /\
    W = g * V + val (u0' :: mid') /\
    0 <= val (u0' :: mid') < 3 * V /\
    (W < (2 ^ 32 - 2) * V -> u0' = 0 /\ val mid' < V).
Proof.
  intros divisor n V W HRlen Hlv HlR Ht0 Hnorm HRV.
  destruct R as [|u0 [|u1 rrest]]; try (cbn in HRlen; subst n; cbn in HRlen; lia).
  destruct (app_snoc_cons rrest t0) as (u2 & mrest & Hsnoc & Hmrlen).
  assert (Hrr : List.length rrest = List.length vrest).
  { subst n divisor. cbn [List.length] in HRlen. lia. }
  assert (Harr : Z0 ++ (u0 :: u1 :: rrest) ++ t0 :: T
                 = Z0 ++ u0 :: (u1 :: u2 :: mrest) ++ T).
  { cbn [app]. do 3 f_equal.
    change (t0 :: T) with ([t0] ++ T). rewrite app_assoc, Hsnoc. reflexivity. }
  assert (Hlmid : limbs (u0 :: u1 :: u2 :: mrest)).
  { change (u0 :: u1 :: u2 :: mrest) with ([u0; u1] ++ u2 :: mrest).
    rewrite <- Hsnoc.
    change ([u0; u1] ++ rrest ++ [t0]) with ((u0 :: u1 :: rrest) ++ [t0]).
    apply limbs_app. split; [assumption|].
    apply limbs_cons. split; [assumption | apply limbs_nil]. }
  assert (HWval : u0 * pow_b n + val (u1 :: u2 :: mrest) = W).
  { subst W. rewrite <- (val_snoc (u0 :: u1 :: rrest) t0).
    change ((u0 :: u1 :: rrest) ++ [t0]) with (u0 :: u1 :: rrest ++ [t0]).
    rewrite Hsnoc. rewrite (val_cons u0). f_equal. f_equal.
    subst n divisor. cbn [List.length]. f_equal. lia. }
  destruct (divide_step_spec v0 v1 vrest Z0 T u0 u1 u2 mrest (List.length Z0)
              eq_refl ltac:(lia) Hlv Hlmid Hnorm)
    as (g & u0' & mid' & Hstep & Hlen & Hl' & Hg & HWg & HR1 & Hexact & Hlarge).
  { fold divisor n V. rewrite HWval. subst W. nia. }
  fold divisor n V in Hstep, Hlen, HWg, HR1, Hexact, Hlarge.
  rewrite HWval in HWg, Hlarge.
  exists g, u0', mid'.
  split.
  { cbn [divide_loop]. rewrite Harr, Hstep.
    replace (Z0 ++ u0' :: mid' ++ T) with ((Z0 ++ [u0']) ++ mid' ++ T)
      by (rewrite <- app_assoc; reflexivity).
    reflexivity. }
  split; [exact Hlen|]. split; [exact Hl'|]. split; [exact Hg|].
  rewrite (val_cons u0'), Hlen.
  split; [exact HWg|]. split; [exact HR1|].
  intros Hsmall.
  assert (Hnw : rhat_wraps v0 u0 u1 = false).
  { destruct (rhat_wraps v0 u0 u1); [|reflexivity].
    specialize (Hlarge eq_refl). lia. }
  specialize (Hexact Hnw).
  apply limbs_cons in Hl'. destruct Hl' as [Hu0' Hlm'].
  pose proof (val_bound mid' Hlm') as Hmb. rewrite Hlen in Hmb.
  pose proof (val_bound divisor Hlv) as HVb. fold n V in HVb.
  pose proof (pow_b_pos n).
  assert (u0' = 0) by nia. subst u0'. split; [reflexivity | lia].
Qed.

Lemma digit_mod (Q : Z) (c k : nat) :
  digit (Q mod pow_b c) k = if (k <? c)%nat then digit Q k else 0.
Proof.
  unfold digit. pose proof (pow_b_pos k) as Hk. pose proof (pow_b_pos c) as Hc.
  destruct (Nat.ltb_spec k c) as [Hlt | Hge].
  - replace c with (k + S (c - k - 1))%nat by lia.
    rewrite pow_b_add, pow_b_S.
    pose proof (pow_b_pos (c - k - 1)) as Hm.
    set (M := pow_b (c - k - 1)) in *.
    rewrite Z.rem_mul_r by lia.
    rewrite (Z.mul_comm (pow_b k)), Z.div_add by lia.
    rewrite (Z.div_small (Q mod pow_b k)) by (apply Z.mod_pos_bound; lia).
    rewrite Z.add_0_l.
    rewrite Z.rem_mul_r by lia.
    rewrite (Z.mul_comm (2 ^ 32)), Z.mod_add by lia.
    apply Z.mod_mod. lia.
  - assert (Hle : pow_b c <= pow_b k).
    { replace k with (c + (k - c))%nat by lia. rewrite pow_b_add.
      pose proof (pow_b_pos (k - c)). nia. }
    pose proof (Z.mod_pos_bound Q (pow_b c) Hc).
    rewrite Z.div_small by lia. reflexivity.
Qed.

Lemma div_lt_inv (a c q : Z) : 0 < c -> a / c < q -> a < q * c.
Proof.
  intros Hc Hlt. destruct (Z_lt_ge_dec a (q * c)) as [H | H]; [exact H | exfalso].
  assert (q <= a / c) by (apply Z.div_le_lower_bound; lia). lia.
Qed.

Section DigitLoop.
Variables (v0 v1 : Z) (vrest : list Z).

Let divisor := v0 :: v1 :: vrest.
Let n := List.length divisor.
Let V := val divisor.

Hypothesis Hlv : limbs divisor.
Hypothesis Hnorm : 2 ^ 31 <= v0.

(** When no digit of the true quotient is one of the two largest, the
    loop computes that quotient and the remainder. *)
Lemma divide_loop_exact :
  forall T Z0 R,
    List.length R = n -> limbs R -> limbs T -> val R < V ->
    (forall k, digit (val (R ++ T) / V) k < 2 ^ 32 - 2) ->
    exists digits F,
      divide_loop (List.length T) divisor (List.length Z0) (Z0 ++ R ++ T)
      = Some (digits, Z0 ++ F) /\
      List.length digits = List.length T /\ limbs digits /\
      List.length F = (n + List.length T)%nat /\ limbs F /\
      val (R ++ T) = val digits * V + val F /\ 0 <= val F < V.
Proof using All.
  induction T as [|t0 T IH]; intros Z0 R HRlen HlR HlT HRV Hdig.
  - exists [], R. cbn [divide_loop List.length]. rewrite app_nil_r in *.
    pose proof (val_bound R HlR).
    repeat split; try assumption; try lia; rewrite val_nil; lia.
  - apply limbs_cons in HlT. destruct HlT as [Ht0 HlT].
    pose proof (val_bound divisor Hlv) as HVb. fold n V in HVb.
    pose proof (val_bound R HlR) as HRb.
    pose proof (val_bound T HlT) as HTb.
    pose proof (pow_b_pos (List.length T)) as HP.
    set (P := pow_b (List.length T)) in *.
    set (W := val R * 2 ^ 32 + t0).
    set (A := val (R ++ t0 :: T)) in *.
    assert (HA : A = W * P + val T).
    { subst A W P. rewrite val_app, val_cons. cbn [List.length].
      rewrite pow_b_S. lia. }
    assert (HVpos : 0 < V).
    { subst V divisor. rewrite val_top2.
      pose proof (pow_b_pos (List.length vrest)).
      apply limbs_cons in Hlv. destruct Hlv as [_ Hl1].
      apply limbs_cons in Hl1. destruct Hl1 as [? Hl2].
      pose proof (val_bound vrest Hl2). nia. }
    assert (HWP : A / P = W).
    { rewrite HA. rewrite Z.add_comm, Z.div_add by lia.
      rewrite Z.div_small by lia. lia. }
    assert (HWV : W / V = digit (A / V) (List.length T)).
    { unfold digit. fold P.
      rewrite Z.div_div by lia. rewrite (Z.mul_comm V P).
      rewrite <- Z.div_div by lia. rewrite HWP.
      symmetry. apply Z.mod_small. split.
      - apply Z.div_pos; subst W; nia.
      - apply Z.div_lt_upper_bound; subst W; nia. }
    assert (HWsmall : W < (2 ^ 32 - 2) * V).
    { apply div_lt_inv; [lia|]. rewrite HWV. apply Hdig. }
    destruct (divide_loop_round v0 v1 vrest Z0 R T t0 (List.length T)
                HRlen Hlv HlR Ht0 Hnorm HRV)
      as (g & u0' & mid' & Hround & Hlen & Hl' & Hg & HWg & HR1 & Hexact).
    fold divisor n V W in Hround, Hlen, HWg, HR1, Hexact.
    destruct (Hexact HWsmall) as [-> Hmid'].
    apply limbs_cons in Hl'. destruct Hl' as [_ Hlm'].
    rewrite val_cons, Z.mul_0_l, Z.add_0_l in HWg.
    set (A' := val (mid' ++ T)).
    assert (HA' : A' = val mid' * P + val T) by (subst A' P; apply val_app).
    assert (HAA' : A = g * P * V + A') by (rewrite HA, HA', HWg; lia).
    assert (Hquot : A' / V = (A / V) mod P).
    { rewrite HAA'. rewrite Z.add_comm, Z.div_add by lia.
      rewrite Z.mod_add by lia.
      symmetry. apply Z.mod_small. split.
      - apply Z.div_pos; [|lia]. pose proof (val_bound mid' Hlm'). nia.
      - apply Z.div_lt_upper_bound; [lia|]. nia. }
    assert (Hdig' : forall k, digit (A' / V) k < 2 ^ 32 - 2).
    { intros k. rewrite Hquot. unfold P. rewrite digit_mod.
      destruct (k <? List.length T)%nat; [apply Hdig | lia]. }
    destruct (IH (Z0 ++ [0]) mid' Hlen Hlm' HlT Hmid' Hdig')
      as (digits & F & Hloop & Hdlen & Hdl & HFlen & HFl & Hval & HF).
    fold A' in Hval.
    replace (List.length (Z0 ++ [0])) with (S (List.length Z0)) in Hloop
      by (rewrite length_app; cbn; lia).
    exists (g :: digits), (0 :: F).
    split.
    { cbn [List.length]. rewrite Hround, Hloop.
      rewrite <- app_assoc. reflexivity. }
    split; [cbn [List.length]; lia|].
    split; [apply limbs_cons; split; assumption|].
    split; [cbn [List.length]; lia|].
    split; [apply limbs_cons; split; [lia | assumption]|].
    rewrite !val_cons, Hdlen, Z.mul_0_l, Z.add_0_l. fold P.
    split; [rewrite HAA', Hval; lia | exact HF].
Qed.

(** When the true quotient is below [(2^32 - 2) * 2^32], only the last
    round can meet a wrapped [rhat]: the digits found never exceed the
    quotient and the remainder stays below three times the divisor. *)
Lemma divide_loop_bounded :
  forall T Z0 R,
    List.length R = n -> limbs R -> limbs T -> val R < V ->
    val (R ++ T) < (2 ^ 32 - 2) * 2 ^ 32 * V ->
    exists digits F,
      divide_loop (List.length T) divisor (List.length Z0) (Z0 ++ R ++ T)
      = Some (digits, Z0 ++ F) /\
      List.length digits = List.length T /\ limbs digits /\
      List.length F = (n + List.length T)%nat /\ limbs F /\
      val (R ++ T) = val digits * V + val F /\ 0 <= val F < 3 * V.
Proof using All.
  induction T as [|t0 T IH]; intros Z0 R HRlen HlR HlT HRV Hsmall.
  - exists [], R. cbn [divide_loop List.length]. rewrite app_nil_r in *.
    pose proof (val_bound R HlR).
    repeat split; try assumption; try lia; rewrite val_nil; lia.
  - apply limbs_cons in HlT. destruct HlT as [Ht0 HlT].
    pose proof (val_bound divisor Hlv) as HVb. fold n V in HVb.
    pose proof (val_bound R HlR) as HRb.
    pose proof (val_bound T HlT) as HTb.
    pose proof (pow_b_pos (List.length T)) as HP.
    set (P := pow_b (List.length T)) in *.
    set (W := val R * 2 ^ 32 + t0).
    set (A := val (R ++ t0 :: T)) in *.
    assert (HA : A = W * P + val T).
    { subst A W P. rewrite val_app, val_cons. cbn [List.length].
      rewrite pow_b_S. lia. }
    destruct (divide_loop_round v0 v1 vrest Z0 R T t0 (List.length T)
                HRlen Hlv HlR Ht0 Hnorm HRV)
      as (g & u0' & mid' & Hround & Hlen & Hl' & Hg & HWg & HR1 & Hexact).
    fold divisor n V W in Hround, Hlen, HWg, HR1, Hexact.
    destruct T as [|t1 T'].
    + (* last round *)
      exists [g], (u0' :: mid').
      cbn [List.length] in *. rewrite Hround. cbn [divide_loop].
      split; [rewrite <- app_assoc, app_nil_r; reflexivity|].
      split; [reflexivity|].
      split; [apply limbs_cons; split; [assumption | apply limbs_nil]|].
      split; [lia|]. split; [assumption|].
      rewrite val_single.
      change (pow_b 0) with 1 in *. rewrite val_nil in HA.
      split; [lia | exact HR1].
    + assert (HP32 : 2 ^ 32 <= P).
      { subst P. cbn [List.length]. rewrite pow_b_S.
        pose proof (pow_b_pos (List.length T')). nia. }
      assert (HVpos : 0 < V) by lia.
      assert (HWsmall : W < (2 ^ 32 - 2) * V).
      { destruct (Z_lt_ge_dec W ((2 ^ 32 - 2) * V)) as [H | H]; [exact H | exfalso].
        assert ((2 ^ 32 - 2) * V * P <= W * P) by nia. nia. }
      destruct (Hexact HWsmall) as [-> Hmid'].
      apply limbs_cons in Hl'. destruct Hl' as [_ Hlm'].
      rewrite val_cons, Z.mul_0_l, Z.add_0_l in HWg.
      set (A' := val (mid' ++ t1 :: T')).
      assert (HA' : A' = val mid' * P + val (t1 :: T')) by (subst A' P; apply val_app).
      assert (HAA' : A = g * P * V + A') by (rewrite HA, HA', HWg; lia).
      assert (Hsmall' : A' < (2 ^ 32 - 2) * 2 ^ 32 * V) by nia.
      destruct (IH (Z0 ++ [0]) mid' Hlen Hlm' HlT Hmid' Hsmall')
        as (digits & F & Hloop & Hdlen & Hdl & HFlen & HFl & Hval & HF).
      fold A' in Hval.
      replace (List.length (Z0 ++ [0])) with (S (List.length Z0)) in Hloop
        by (rewrite length_app; cbn; lia).
      exists (g :: digits), (0 :: F).
      split.
      { change (List.length (t0 :: t1 :: T')) with (S (List.length (t1 :: T'))).
        rewrite Hround, Hloop. rewrite <- app_assoc. reflexivity. }
      split; [cbn [List.length] in *; lia|].
      split; [apply limbs_cons; split; assumption|].
      split; [cbn [List.length] in *; lia|].
      split; [apply limbs_cons; split; [lia | assumption]|].
      rewrite !val_cons, Hdlen, Z.mul_0_l, Z.add_0_l. fold P.
      split; [rewrite HAA', Hval; lia | exact HF].
Qed.
End DigitLoop.

(** ** Normalization shifts *)

Lemma CountLeadingZeros_spec (v : Z) :
  0 < v < 2 ^ 32 ->
  0 <= CountLeadingZeros v < 32 /\
  2 ^ 31 <= v * 2 ^ CountLeadingZeros v < 2 ^ 32.
Proof.
  intros Hv. unfold CountLeadingZeros.
  pose proof (Z.log2_up_spec (v + 1) ltac:(lia)) as [Hlo Hhi].
  pose proof (Z.log2_up_nonneg (v + 1)) as Hnn.
  set (k := Z.log2_up (v + 1)) in *.
  assert (Hk1 : 1 <= k).
  { destruct (Z_lt_ge_dec k 1) as [H | H]; [|lia].
    assert (k = 0) by lia. subst k. rewrite H0 in Hhi. cbn in Hhi. lia. }
  assert (Hk32 : k <= 32).
  { destruct (Z_le_gt_dec k 32) as [H | H]; [exact H|].
    assert (2 ^ 32 <= 2 ^ Z.pred k) by (apply Z.pow_le_mono_r; lia). lia. }
  split; [lia|].
  replace (Z.pred k) with (k - 1) in Hlo by lia.
  assert (Hp : 2 ^ 32 = 2 ^ k * 2 ^ (32 - k)).
  { rewrite <- Z.pow_add_r by lia. f_equal. lia. }
  assert (Hp1 : 2 ^ k = 2 * 2 ^ (k - 1)).
  { replace k with (1 + (k - 1)) at 1 by lia. rewrite Z.pow_add_r by lia. reflexivity. }
  assert (0 < 2 ^ (32 - k)) by (apply Z.pow_pos_nonneg; lia).
  assert (0 < 2 ^ (k - 1)) by (apply Z.pow_pos_nonneg; lia).
  change (2 ^ 31) with (2 ^ 32 / 2).
  split.
  - apply Z.div_le_upper_bound; [lia|]. nia.
  - nia.
Qed.

Lemma last_cons_default (tl : list Z) :
  forall a d, List.last (a :: tl) d = List.last tl a.
Proof.
  induction tl as [|x tl IH]; intros a d; [reflexivity|].
  change (List.last (a :: x :: tl) d) with (List.last (x :: tl) d).
  rewrite (IH x d), (IH x a). reflexivity.
Qed.

Section Shifts.
Variable bits : Z.
Hypothesis Hbits : 0 < bits < 32.

Lemma pow_split : 2 ^ 32 = 2 ^ bits * 2 ^ (32 - bits).
Proof using All. rewrite <- Z.pow_add_r by lia. f_equal. lia. Qed.

Lemma shift_limb_left (a : Z) :
  0 <= a < 2 ^ 32 ->
  wrap_u32 (Z.shiftl a bits) = (a mod 2 ^ (32 - bits)) * 2 ^ bits /\
  wrap_u32 (Z.shiftl a bits) + (a / 2 ^ (32 - bits)) * 2 ^ 32 = a * 2 ^ bits.
Proof using All.
  intros Ha. rewrite Z.shiftl_mul_pow2 by lia. unfold wrap_u32.
  pose proof pow_split as Hs.
  assert (0 < 2 ^ bits) by (apply Z.pow_pos_nonneg; lia).
  assert (0 < 2 ^ (32 - bits)) by (apply Z.pow_pos_nonneg; lia).
  assert (Hm : (a * 2 ^ bits) mod 2 ^ 32 = (a mod 2 ^ (32 - bits)) * 2 ^ bits).
  { rewrite Hs. rewrite (Z.mul_comm (2 ^ bits) (2 ^ (32 - bits))).
    rewrite Z.mul_mod_distr_r by lia. reflexivity. }
  rewrite Hm. split; [reflexivity|].
  pose proof (Z.div_mod a (2 ^ (32 - bits)) ltac:(lia)) as Hdm.
  set (q := a / 2 ^ (32 - bits)) in *. set (r := a mod 2 ^ (32 - bits)) in *.
  rewrite Hs. rewrite Hdm at 1. ring.
Qed.

Lemma ShiftArrayLeft_loop_spec (a : Z) (tl : list Z) :
  limbs (a :: tl) ->
  let r := ShiftArrayLeft_loop (a :: tl) bits in
  limbs r /\ List.length r = S (List.length tl) /\
  val r + (a / 2 ^ (32 - bits)) * pow_b (S (List.length tl))
  = val (a :: tl) * 2 ^ bits.
Proof using All.
  revert a. induction tl as [|c tl IH]; intros a Hl; cbv zeta.
  - apply limbs_cons in Hl. destruct Hl as [Ha _].
    cbn [ShiftArrayLeft_loop List.length].
    destruct (shift_limb_left a Ha) as [_ Heq].
    split; [apply limbs_cons; split; [apply wrap_u32_range | apply limbs_nil]|].
    split; [reflexivity|].
    rewrite !val_single, pow_b_S, pow_b_0. lia.
  - apply limbs_cons in Hl. destruct Hl as [Ha Hl].
    pose proof Hl as Hl'. apply limbs_cons in Hl'. destruct Hl' as [Hc _].
    specialize (IH c Hl). cbv zeta in IH. destruct IH as (IHl & IHlen & IHval).
    change (ShiftArrayLeft_loop (a :: c :: tl) bits)
      with (Z.lor (wrap_u32 (Z.shiftl a bits)) (Z.shiftr c (32 - bits))
            :: ShiftArrayLeft_loop (c :: tl) bits).
    destruct (shift_limb_left a Ha) as [Hmul Heq].
    assert (0 < 2 ^ bits) by (apply Z.pow_pos_nonneg; lia).
    assert (0 < 2 ^ (32 - bits)) by (apply Z.pow_pos_nonneg; lia).
    pose proof pow_split as Hs.
    assert (Hcq : 0 <= c / 2 ^ (32 - bits) < 2 ^ bits).
    { split; [apply Z.div_pos; lia|]. apply Z.div_lt_upper_bound; lia. }
    rewrite Hmul, Z.shiftr_div_pow2 by lia.
    rewrite lor_disjoint by lia.
    pose proof (Z.mod_pos_bound a (2 ^ (32 - bits)) ltac:(lia)) as Hamod.
    split.
    { apply limbs_cons. split; [nia | exact IHl]. }
    split; [cbn [List.length]; lia|].
    rewrite (val_cons _ (ShiftArrayLeft_loop (c :: tl) bits)), IHlen.
    rewrite (val_cons a). cbn [List.length].
    rewrite Hmul in Heq.
    rewrite (pow_b_S (S (List.length tl))).
    set (P := pow_b (S (List.length tl))) in *. nia.
Qed.

Lemma shift_limb_right (prev a : Z) :
  0 <= prev < 2 ^ 32 -> 0 <= a < 2 ^ 32 ->
  let e := Z.lor (Z.shiftr a bits) (wrap_u32 (Z.shiftl prev (32 - bits))) in
  0 <= e < 2 ^ 32 /\
  e * 2 ^ bits + a mod 2 ^ bits = a + (prev mod 2 ^ bits) * 2 ^ 32.
Proof using All.
  intros Hp Ha. cbv zeta.
  assert (0 < 2 ^ bits) by (apply Z.pow_pos_nonneg; lia).
  assert (0 < 2 ^ (32 - bits)) by (apply Z.pow_pos_nonneg; lia).
  pose proof pow_split as Hs.
  rewrite Z.shiftr_div_pow2, Z.shiftl_mul_pow2 by lia. unfold wrap_u32.
  assert (Hm : (prev * 2 ^ (32 - bits)) mod 2 ^ 32
               = (prev mod 2 ^ bits) * 2 ^ (32 - bits)).
  { rewrite Hs. rewrite Z.mul_mod_distr_r by lia. reflexivity. }
  rewrite Hm.
  assert (Haq : 0 <= a / 2 ^ bits < 2 ^ (32 - bits)).
  { split; [apply Z.div_pos; lia|]. apply Z.div_lt_upper_bound; lia. }
  rewrite Z.lor_comm, lor_disjoint by lia.
  pose proof (Z.mod_pos_bound prev (2 ^ bits) ltac:(lia)).
  pose proof (Z.div_mod a (2 ^ bits) ltac:(lia)).
  split; nia.
Qed.

Lemma ShiftArrayRight_loop_spec (l : list Z) :
  forall prev, 0 <= prev < 2 ^ 32 -> limbs l ->
  let r := ShiftArrayRight_loop prev l bits in
  limbs r /\ List.length r = List.length l /\
  val r * 2 ^ bits + (List.last l prev) mod 2 ^ bits
  = (prev mod 2 ^ bits) * pow_b (List.length l) + val l.
Proof using All.
  induction l as [|a tl IH]; intros prev Hp Hl; cbv zeta.
  - cbn [ShiftArrayRight_loop List.length List.last].
    rewrite val_nil, pow_b_0. split; [apply limbs_nil|]. split; [reflexivity | lia].
  - apply limbs_cons in Hl. destruct Hl as [Ha Hl].
    specialize (IH a Ha Hl). cbv zeta in IH. destruct IH as (IHl & IHlen & IHval).
    cbn [ShiftArrayRight_loop].
    destruct (shift_limb_right prev a Hp Ha) as [He Heq].
    split; [apply limbs_cons; split; assumption|].
    split; [cbn [List.length]; lia|].
    rewrite (val_cons _ (ShiftArrayRight_loop a tl bits)), IHlen, (val_cons a).
    cbn [List.length]. rewrite pow_b_S.
    replace (List.last (a :: tl) prev) with (List.last tl a).
    2:{ symmetry. apply last_cons_default. }
    set (P := pow_b (List.length tl)) in *.
    set (e := Z.lor (Z.shiftr a bits) (wrap_u32 (Z.shiftl prev (32 - bits)))) in *.
    nia.
Qed.
End Shifts.

(** ** Normalizing the operands of the multi-limb path *)

Lemma ShiftArrayLeft_spec (a : Z) (tl : list Z) (bits : Z) :
  limbs (a :: tl) -> 0 <= bits < 32 -> a * 2 ^ bits < 2 ^ 32 ->
  exists r, ShiftArrayLeft (a :: tl) bits = Some r /\
            limbs r /\ List.length r = S (List.length tl) /\
            val r = val (a :: tl) * 2 ^ bits.
Proof.
  intros Hl Hbits Ha. unfold ShiftArrayLeft. cbn [List.length].
  destruct (Z.eqb_spec bits 0) as [-> | Hne].
  - rewrite andb_false_r. exists (a :: tl).
    split; [reflexivity|]. split; [assumption|]. split; [reflexivity | lia].
  - replace (0 <? Z.of_nat (S (List.length tl))) with true
      by (symmetry; apply Z.ltb_lt; lia).
    cbn [andb negb]. destruct (Z.ltb_spec bits 32); [|lia].
    assert (Hb : 0 < bits < 32) by lia.
    destruct (ShiftArrayLeft_loop_spec bits Hb a tl Hl) as (Hlr & Hlen & Hval).
    eexists. split; [reflexivity|]. split; [exact Hlr|]. split; [exact Hlen|].
    pose proof Hl as Hl'. apply limbs_cons in Hl'. destruct Hl' as [Har _].
    assert (Hz : a / 2 ^ (32 - bits) = 0).
    { apply Z.div_small. split; [lia|].
      pose proof (pow_split bits Hb).
      assert (0 < 2 ^ bits) by (apply Z.pow_pos_nonneg; lia). nia. }
    rewrite Hz in Hval. lia.
Qed.

Lemma ShiftArrayRight_spec (l : list Z) (bits : Z) :
  limbs l -> 0 <= bits < 32 ->
  exists r, ShiftArrayRight l bits = Some r /\
            limbs r /\ List.length r = List.length l /\
            val r = val l / 2 ^ bits.
Proof.
  intros Hl Hbits. unfold ShiftArrayRight.
  destruct (Z.eqb_spec bits 0) as [-> | Hne].
  - rewrite andb_false_r. exists l.
    split; [reflexivity|]. split; [assumption|]. split; [reflexivity|].
    rewrite Z.div_1_r. reflexivity.
  - cbn [negb]. rewrite andb_true_r.
    assert (Hb : 0 < bits < 32) by lia.
    destruct (ShiftArrayRight_loop_spec bits Hb l 0 ltac:(lia) Hl) as (Hlr & Hlen & Hval).
    assert (0 < 2 ^ bits) by (apply Z.pow_pos_nonneg; lia).
    rewrite Z.mod_0_l, Z.mul_0_l, Z.add_0_l in Hval by lia.
    pose proof (Z.mod_pos_bound (List.last l 0) (2 ^ bits) ltac:(lia)) as Hm.
    assert (Hdiv : val l / 2 ^ bits = val (ShiftArrayRight_loop 0 l bits)).
    { rewrite <- Hval. rewrite Z.add_comm, Z.div_add by lia.
      rewrite Z.div_small by lia. lia. }
    destruct (0 <? Z.of_nat (List.length l)) eqn:Hpos.
    + destruct (Z.ltb_spec bits 32); [|lia].
      eexists. split; [reflexivity|]. split; [exact Hlr|]. split; [exact Hlen|].
      symmetry. exact Hdiv.
    + exists l. split; [reflexivity|]. split; [assumption|]. split; [reflexivity|].
      apply Z.ltb_ge in Hpos. destruct l; [|cbn in Hpos; lia].
      rewrite val_nil. reflexivity.
Qed.

(** The head of a limb array that denotes at least [c * pow_b] is at
    least [c]. *)
Lemma head_lower_bound (v0 c : Z) (tl : list Z) :
  limbs (v0 :: tl) -> c * pow_b (List.length tl) <= val (v0 :: tl) -> c <= v0.
Proof.
  intros Hl Hc. apply limbs_cons in Hl. destruct Hl as [Hv0 Hl].
  pose proof (val_bound tl Hl). pose proof (pow_b_pos (List.length tl)).
  rewrite val_cons in Hc. nia.
Qed.

Lemma firstn_skipn_val (l : list Z) (k : nat) :
  (k <= List.length l)%nat ->
  val l = val (firstn k l) * pow_b (List.length l - k) + val (skipn k l).
Proof.
  intros Hk. rewrite <- (firstn_skipn k l) at 1.
  rewrite val_app, length_skipn. reflexivity.
Qed.

Lemma limbs_firstn (l : list Z) (k : nat) : limbs l -> limbs (firstn k l).
Proof.
  intros Hl. rewrite <- (firstn_skipn k l) in Hl. apply limbs_app in Hl. tauto.
Qed.

Lemma limbs_skipn (l : list Z) (k : nat) : limbs l -> limbs (skipn k l).
Proof.
  intros Hl. rewrite <- (firstn_skipn k l) in Hl. apply limbs_app in Hl. tauto.
Qed.

(** ** The multi-limb path of [Divide] *)

Lemma head_zero_of_small (l : list Z) :
  limbs l -> List.length l = 5%nat -> val l < pow_b 4 -> get l 0 = 0.
Proof.
  intros Hl Hlen Hv. destruct l as [|a tl]; [discriminate|].
  apply limbs_cons in Hl. destruct Hl as [Ha Hl].
  pose proof (val_bound tl Hl). rewrite val_cons in Hv.
  cbn [List.length] in Hlen. injection Hlen as Hlen. rewrite Hlen in *.
  unfold get; cbn [nth]. pose proof (pow_b_pos 4). nia.
Qed.

Lemma Divide_multi_limb (x y result remainder : Decimal128)
    (xl : list Z) (xneg yneg : bool) (h h1 : Z) (t : list Z) :
  let yl := h :: h1 :: t in
  FillInArray x = (xl, xneg) -> FillInArray y = (yl, yneg) ->
  0 < h -> limbs xl -> limbs yl ->
  (List.length yl < S (List.length xl))%nat -> (List.length xl <= 4)%nat ->
  val xl <= 2 ^ 127 ->
  (forall k, digit (val xl / val yl) k < 2 ^ 32 - 2) \/
  val xl < (2 ^ 32 - 2) * 2 ^ 32 * val yl ->
  exists Q R q0 r0,
    Divide x y result remainder
    = Some (OK, fst (FixDivisionSigns q0 r0 xneg yneg),
            snd (FixDivisionSigns q0 r0 xneg yneg)) /\
    wf q0 /\ wf r0 /\ to_Z q0 = wrap_s128 Q /\ to_Z r0 = wrap_s128 R /\
    val xl = Q * val yl + R /\ 0 <= Q /\ 0 <= R < 3 * val yl /\
    ((forall k, digit (val xl / val yl) k < 2 ^ 32 - 2) -> R < val yl).
Proof.
  intros yl Hx Hy Hh Hlx Hly Hlen Hxlen Hxmax Hcond.
  pose proof Hly as Hly'. apply limbs_cons in Hly'. destruct Hly' as [Hhr Hly'].
  destruct (CountLeadingZeros_spec h ltac:(lia)) as [Hbits Hnormh].
  set (bits := CountLeadingZeros h) in *.
  assert (Hpb : 0 < 2 ^ bits) by (apply Z.pow_pos_nonneg; lia).
  assert (Hpb31 : 2 ^ bits <= 2 ^ 31) by (apply Z.pow_le_mono_r; lia).
  (* the shifted divisor *)
  destruct (ShiftArrayLeft_spec h (h1 :: t) bits Hly Hbits ltac:(lia))
    as (yl' & Hsy & Hly2 & Hylen & Hyval).
  fold yl in Hsy, Hyval.
  destruct yl' as [|v0 [|v1 vrest]]; try (cbn in Hylen; lia).
  pose proof (val_bound (h1 :: t) Hly') as Htb.
  pose proof (pow_b_pos (List.length (h1 :: t))) as Hpt.
  assert (Hnorm : 2 ^ 31 <= v0).
  { apply (head_lower_bound v0 (2 ^ 31) (v1 :: vrest) Hly2).
    rewrite Hyval. unfold yl. rewrite (val_cons h).
    replace (List.length (v1 :: vrest)) with (List.length (h1 :: t))
      by (cbn [List.length] in *; lia).
    nia. }
  set (divisor := v0 :: v1 :: vrest) in *.
  set (n := List.length divisor).
  assert (Hn : n = List.length yl) by (subst n divisor yl; cbn [List.length] in *; lia).
  (* the shifted dividend *)
  assert (Hlx0 : limbs (0 :: xl)) by (apply limbs_cons; split; [lia | assumption]).
  destruct (ShiftArrayLeft_spec 0 xl bits Hlx0 Hbits ltac:(lia))
    as (xl' & Hsx & Hlx2 & Hxlen' & Hxval).
  rewrite val_cons, Z.mul_0_l, Z.add_0_l in Hxval.
  set (L := (S (List.length xl) - List.length yl)%nat).
  assert (HL : (1 <= L)%nat) by (subst L; lia).
  set (R0 := firstn n xl'). set (T := skipn n xl').
  assert (HR0len : List.length R0 = n).
  { subst R0. rewrite length_firstn. lia. }
  assert (HTlen : List.length T = L).
  { subst T L. rewrite length_skipn. lia. }
  assert (Hsplit : xl' = R0 ++ T) by (subst R0 T; symmetry; apply firstn_skipn).
  assert (HlR0 : limbs R0) by (apply limbs_firstn; assumption).
  assert (HlT : limbs T) by (apply limbs_skipn; assumption).
  pose proof (val_bound xl Hlx) as Hxb.
  pose proof (val_bound T HlT) as HTb. rewrite HTlen in HTb.
  pose proof (pow_b_pos L) as HpL.
  assert (HV : val divisor = val yl * 2 ^ bits) by exact Hyval.
  assert (HVlow : 2 ^ 31 * pow_b (n - 1) <= val divisor).
  { subst divisor. rewrite val_cons.
    apply limbs_cons in Hly2. destruct Hly2 as [? Hl2].
    pose proof (val_bound (v1 :: vrest) Hl2).
    replace (n - 1)%nat with (List.length (v1 :: vrest)) by (subst n; cbn; lia).
    pose proof (pow_b_pos (List.length (v1 :: vrest))). nia. }
  assert (HRV : val R0 < val divisor).
  { assert (Hxsplit : val xl' = val R0 * pow_b L + val T).
    { rewrite Hsplit at 1. rewrite val_app, HTlen. reflexivity. }
    assert (Hpx : pow_b (List.length xl) = pow_b (n - 1) * pow_b L).
    { rewrite <- pow_b_add. f_equal. subst L. lia. }
    pose proof (pow_b_pos (n - 1)).
    assert (val R0 * pow_b L < pow_b (n - 1) * 2 ^ 31 * pow_b L) by nia.
    assert (val R0 < pow_b (n - 1) * 2 ^ 31) by nia.
    lia. }
  assert (HA : val (R0 ++ T) = val xl * 2 ^ bits) by (rewrite <- Hsplit; exact Hxval).
  assert (Hlv : limbs divisor) by exact Hly2.
  assert (Hypos : 0 < val yl) by (unfold yl; rewrite val_cons; nia).
  (* the digit loop *)
  assert (Hloop : exists digits F,
             divide_loop L divisor 0 xl' = Some (digits, F) /\
             List.length digits = L /\ limbs digits /\
             List.length F = (n + L)%nat /\ limbs F /\
             val xl * 2 ^ bits = val digits * val divisor + val F /\
             0 <= val F < 3 * val divisor /\
             ((forall k, digit (val xl / val yl) k < 2 ^ 32 - 2) ->
              val F < val divisor)).
  { destruct Hcond as [Hdig | Hsmall].
    - destruct (divide_loop_exact v0 v1 vrest Hlv Hnorm T [] R0 HR0len HlR0 HlT HRV)
        as (digits & F & Hl & Hdl & Hdlimbs & HFl & HFlimbs & Hval & HF).
      { intros k. fold divisor. rewrite HA, HV.
        rewrite Z.div_mul_cancel_r by lia. apply Hdig. }
      fold divisor n in Hl, HFl, Hval, HF.
      cbn [app List.length] in Hl. rewrite <- Hsplit, HTlen in Hl.
      rewrite HTlen in Hdl, HFl. rewrite HA in Hval.
      exists digits, F. repeat split; try assumption; try lia.
    - destruct (divide_loop_bounded v0 v1 vrest Hlv Hnorm T [] R0 HR0len HlR0 HlT HRV)
        as (digits & F & Hl & Hdl & Hdlimbs & HFl & HFlimbs & Hval & HF).
      { fold divisor. rewrite HA, HV. nia. }
      fold divisor n in Hl, HFl, Hval, HF.
      cbn [app List.length] in Hl. rewrite <- Hsplit, HTlen in Hl.
      rewrite HTlen in Hdl, HFl. rewrite HA in Hval.
      exists digits, F. repeat split; try assumption; try lia.
      intros Hdig.
      (* with small digits the exact lemma applies to the same run *)
      destruct (divide_loop_exact v0 v1 vrest Hlv Hnorm T [] R0 HR0len HlR0 HlT HRV)
        as (digits' & F' & Hl' & _ & _ & _ & _ & _ & HF').
      { intros k. fold divisor. rewrite HA, HV.
        rewrite Z.div_mul_cancel_r by lia. apply Hdig. }
      fold divisor in Hl', HF'.
      cbn [app List.length] in Hl'. rewrite <- Hsplit, HTlen in Hl'.
      rewrite Hl in Hl'. injection Hl' as _ HFeq. subst F'. lia. }
  destruct Hloop as (digits & F & Hl & Hdl & Hdlimbs & HFl & HFlimbs & Hval & HF & Hexact).
  (* denormalize and rebuild *)
  destruct (ShiftArrayRight_spec F bits HFlimbs Hbits)
    as (Ffin & Hsr & HlFfin & HFfinlen & HFfinval).
  pose proof (val_bound digits Hdlimbs) as Hdb.
  set (Q := val digits) in *.
  assert (HFval : val F = (val xl - Q * val yl) * 2 ^ bits) by (rewrite HV in Hval; lia).
  rewrite HFval, Z.div_mul in HFfinval by lia.
  assert (HRm : 0 <= val xl - Q * val yl < 3 * val yl) by nia.
  destruct (BuildFromArray_spec digits Hdlimbs) as (q0 & Hbq & Hwq & Hq0).
  { left. rewrite Hdl. subst L. lia. }
  rewrite Hdl in Hbq.
  destruct (BuildFromArray_spec Ffin HlFfin) as (r0 & Hbr & Hwr & Hr0).
  { destruct (Nat.eq_dec (List.length Ffin) 5) as [H5 | H5]; [right | left; lia].
    split; [exact H5|]. apply head_zero_of_small; try assumption.
    rewrite HFfinval. change (pow_b 4) with (2 ^ 128). nia. }
  assert (HFfin5 : List.length Ffin = S (List.length xl)) by lia.
  rewrite HFfin5 in Hbr.
  exists Q, (val xl - Q * val yl), q0, r0.
  split.
  { unfold Divide. rewrite Hx, Hy. fold yl.
    replace (List.length (0%Z :: xl) <=? List.length yl)%nat with false
      by (symmetry; apply Nat.leb_gt; cbn [List.length]; lia).
    replace (List.length yl =? 0)%nat with false by reflexivity.
    replace (List.length yl =? 1)%nat with false by reflexivity.
    change (get yl 0) with h. fold bits. rewrite Hsy, Hsx.
    change (List.length (0%Z :: xl) - List.length yl)%nat with L.
    rewrite Hl, Hsr, Hbq.
    change (List.length (0 :: xl)) with (S (List.length xl)). rewrite Hbr.
    unfold FixDivisionSigns. reflexivity. }
  split; [exact Hwq|]. split; [exact Hwr|]. split; [exact Hq0|].
  split; [rewrite Hr0, HFfinval; reflexivity|].
  split; [lia|]. split; [lia|]. split; [exact HRm|].
  intros Hdig. specialize (Hexact Hdig). nia.
Qed.

(** ** The single-limb and short-dividend paths *)

Lemma pow_b_le (n m : nat) : (n <= m)%nat -> pow_b n <= pow_b m.
Proof.
  intros H. replace m with (n + (m - n))%nat by lia. rewrite pow_b_add.
  pose proof (pow_b_pos n). pose proof (pow_b_pos (m - n)). nia.
Qed.

Lemma Divide_single_limb (x y result remainder : Decimal128)
    (xl : list Z) (xneg yneg : bool) (d : Z) :
  FillInArray x = (xl, xneg) -> FillInArray y = ([d], yneg) ->
  0 < d < 2 ^ 32 -> limbs xl -> (1 <= List.length xl <= 4)%nat ->
  exists q0 r0,
    Divide x y result remainder
    = Some (OK, fst (FixDivisionSigns q0 r0 xneg yneg),
            snd (FixDivisionSigns q0 r0 xneg yneg)) /\
    wf q0 /\ wf r0 /\
    to_Z q0 = wrap_s128 (val xl / d) /\ to_Z r0 = wrap_s128 (val xl mod d).
Proof.
  intros Hx Hy Hd Hlx Hlen.
  assert (Hlx0 : limbs (0 :: xl)) by (apply limbs_cons; split; [lia | assumption]).
  pose proof (SingleDivide_loop_spec d (0 :: xl) Hd Hlx0 0 ltac:(lia)) as Hloop.
  destruct (SingleDivide_loop (0 :: xl) d 0) as [res r'] eqn:Hsd.
  destruct Hloop as (Hlres & Hreslen & Hresval & Hr').
  rewrite Z.mul_0_l, Z.add_0_l, val_cons, Z.mul_0_l, Z.add_0_l in Hresval, Hr'.
  pose proof (val_bound xl Hlx) as Hxb.
  assert (Hx4 : val xl < pow_b 4).
  { pose proof (pow_b_le (List.length xl) 4 ltac:(lia)). lia. }
  assert (Hq : 0 <= val xl / d <= val xl).
  { split; [apply Z.div_pos; lia|]. apply Z.div_le_upper_bound; [lia|]. nia. }
  destruct (BuildFromArray_spec res Hlres) as (q0 & Hbq & Hwq & Hq0).
  { destruct (Nat.eq_dec (List.length res) 5) as [H5 | H5];
      [right | left; cbn [List.length] in Hreslen; lia].
    split; [exact H5|]. apply head_zero_of_small; try assumption. lia. }
  rewrite Hreslen in Hbq. cbn [List.length] in Hbq.
  pose proof (Z.mod_pos_bound (val xl) d ltac:(lia)) as Hmb.
  destruct (of_int64_spec r' ltac:(lia)) as [Hwr Hr0].
  exists q0, (Decimal128_of_int64 r').
  split.
  { unfold Divide. rewrite Hx, Hy.
    replace (List.length (0%Z :: xl) <=? List.length [d])%nat with false
      by (symmetry; apply Nat.leb_gt; cbn [List.length]; lia).
    cbn [List.length Nat.eqb]. change (get [d] 0) with d.
    unfold SingleDivide. rewrite Hsd. cbn [List.length]. rewrite Hbq.
    unfold FixDivisionSigns. reflexivity. }
  split; [exact Hwq|]. split; [exact Hwr|].
  split; [rewrite Hq0, Hresval; reflexivity|].
  rewrite Hr0, Hr'. symmetry. apply wrap_s128_id. lia.
Qed.

Lemma Divide_short (x y result remainder : Decimal128)
    (xl yl : list Z) (xneg yneg : bool) :
  FillInArray x = (xl, xneg) -> FillInArray y = (yl, yneg) ->
  (S (List.length xl) <= List.length yl)%nat ->
  Divide x y result remainder = Some (OK, Decimal128_of_int64 0, x).
Proof.
  intros Hx Hy Hlen. unfold Divide. rewrite Hx, Hy.
  replace (List.length (0%Z :: xl) <=? List.length yl)%nat with true
    by (symmetry; apply Nat.leb_le; cbn [List.length]; lia).
  reflexivity.
Qed.

Lemma wrap_s128_congr (u v k : Z) : u = v + k * 2 ^ 128 -> wrap_s128 u = wrap_s128 v.
Proof.
  intros ->. unfold wrap_s128.
  replace (v + k * 2 ^ 128 + 2 ^ 127) with (v + 2 ^ 127 + k * 2 ^ 128) by lia.
  rewrite Z.mod_add by lia. reflexivity.
Qed.

Lemma wrap_s128_mul_add (a c e : Z) :
  wrap_s128 (wrap_s128 a * c + e) = wrap_s128 (a * c + e).
Proof.
  apply (wrap_s128_congr _ _ (- ((a + 2 ^ 127) / 2 ^ 128) * c)).
  unfold wrap_s128.
  pose proof (Z.div_mod (a + 2 ^ 127) (2 ^ 128) ltac:(lia)). nia.
Qed.

(** ** Truncated division *)

Lemma small_digits_spec (Q : Z) :
  0 <= Q < 2 ^ 128 -> small_digits Q = true ->
  forall k, digit Q k < 2 ^ 32 - 2.
Proof.
  intros HQ Hs k. unfold small_digits in Hs. cbn [forallb] in Hs.
  repeat (apply andb_prop in Hs; destruct Hs as [?H Hs]).
  destruct k as [|[|[|[|k]]]]; try (apply Z.ltb_lt; assumption).
  unfold digit.
  assert (pow_b 4 <= pow_b (S (S (S (S k))))) by (apply pow_b_le; lia).
  change (pow_b 4) with (2 ^ 128) in *.
  rewrite Z.div_small by lia. cbn. lia.
Qed.

(** C1, as stated, fails: 1 divided by -2 has operands of different signs
    and the non-negative quotient 0. *)
Lemma Divide_claim_fails_on_zero_quotient :
  ~ Divide_claim (of_Z 1) (of_Z (-2)).
Proof.
  intros H. destruct (H ltac:(vm_compute; discriminate)) as (q & r & Hd & _ & _ & _ & Hs).
  vm_compute in Hd. injection Hd as <- <-.
  vm_compute in Hs. destruct Hs as [Hs _].
  specialize (Hs ltac:(discriminate)). discriminate.
Qed.

(** The core of [Divide] on a nonzero divisor outside the cases above: it
    returns the truncated quotient, reduced modulo 2^128, and the truncated
    remainder. *)
Lemma Divide_quot_rem (x y result remainder : Decimal128) :
  wf x -> wf y -> to_Z y <> 0 -> Z.abs (to_Z y) <> 2 ^ 32 - 1 ->
  (Z.abs (to_Z y) <? 2 ^ 32) || small_digits (Z.abs (to_Z x) / Z.abs (to_Z y)) = true ->
  exists q r,
    Divide x y result remainder = Some (OK, q, r) /\ wf q /\ wf r /\
    to_Z q = wrap_s128 (Z.quot (to_Z x) (to_Z y)) /\
    to_Z r = Z.rem (to_Z x) (to_Z y).
Proof.
  intros Hwx Hwy Hy0 Hy32 Hcond.
  pose proof (to_Z_range x Hwx) as Hxr. pose proof (to_Z_range y Hwy) as Hyr.
  set (X := to_Z x) in *. set (Y := to_Z y) in *.
  pose proof (FillInArray_spec x Hwx) as Hfx.
  pose proof (FillInArray_spec y Hwy) as Hfy.
  destruct (FillInArray x) as [xl xneg] eqn:Hx.
  destruct (FillInArray y) as [yl yneg] eqn:Hy.
  fold X in Hfx. fold Y in Hfy.
  destruct Hfx as (Hxneg & Hlx & Hxval & Hxlen & _).
  destruct Hfy as (Hyneg & Hly & Hyval & Hylen & Hyhd).
  pose proof (val_bound xl Hlx) as Hxb.
  assert (Hfix : forall q0 r0,
             wf q0 -> wf r0 ->
             to_Z q0 = wrap_s128 (Z.abs X / Z.abs Y) ->
             to_Z r0 = wrap_s128 (Z.abs X mod Z.abs Y) ->
             Divide x y result remainder
             = Some (OK, fst (FixDivisionSigns q0 r0 xneg yneg),
                     snd (FixDivisionSigns q0 r0 xneg yneg)) ->
             exists q r,
               Divide x y result remainder = Some (OK, q, r) /\ wf q /\ wf r /\
               to_Z q = wrap_s128 (Z.quot X Y) /\ to_Z r = Z.rem X Y).
  { intros q0 r0 Hwq Hwr Hq0 Hr0 Hd.
    pose proof (FixDivisionSigns_spec X Y q0 r0 Hy0 Hwq Hwr Hq0 Hr0 Hyr) as Hf.
    rewrite <- Hxneg, <- Hyneg in Hf.
    destruct (FixDivisionSigns q0 r0 xneg yneg) as [q r].
    exists q, r. split; [exact Hd | exact Hf]. }
  assert (Hshort : (S (List.length xl) <= List.length yl)%nat ->
                   Z.abs X < Z.abs Y ->
                   exists q r,
                     Divide x y result remainder = Some (OK, q, r) /\ wf q /\ wf r /\
                     to_Z q = wrap_s128 (Z.quot X Y) /\ to_Z r = Z.rem X Y).
  { intros Hlen Hlt.
    exists (Decimal128_of_int64 0), x.
    split; [apply (Divide_short x y result remainder xl yl xneg yneg Hx Hy Hlen)|].
    destruct (of_int64_spec 0 ltac:(lia)) as [Hw0 Hz0].
    split; [exact Hw0|]. split; [exact Hwx|].
    rewrite Hz0.
    assert (Hq : Z.quot X Y = 0) by (apply Z.quot_small_iff; lia).
    assert (Hr : Z.rem X Y = X) by (apply Z.rem_small_iff; lia).
    rewrite Hq, Hr. split; reflexivity. }
  destruct Hyhd as [-> | [-> | (h & t & -> & Hh)]].
  - exfalso. apply Hy32. rewrite <- Hyval. reflexivity.
  - exfalso. rewrite val_nil in Hyval. lia.
  - pose proof Hly as Hly'. apply limbs_cons in Hly'. destruct Hly' as [Hhr Hlt].
    pose proof (val_bound t Hlt) as Htb.
    pose proof (pow_b_pos (List.length t)) as Hpt.
    rewrite val_cons in Hyval.
    destruct (Nat.leb_spec (S (List.length xl)) (List.length (h :: t))) as [Hle | Hgt].
    + apply Hshort; [exact Hle|].
      pose proof (pow_b_le (List.length xl) (List.length t)
                    ltac:(cbn [List.length] in Hle; lia)). nia.
    + destruct t as [|h1 t].
      * (* one limb *)
        rewrite val_nil in Hyval. cbn [List.length] in Hyval.
        rewrite pow_b_0 in Hyval.
        destruct (Divide_single_limb x y result remainder xl xneg yneg h Hx Hy
                    ltac:(lia) Hlx ltac:(cbn [List.length] in Hgt; lia))
          as (q0 & r0 & Hd & Hwq & Hwr & Hq0 & Hr0).
        apply (Hfix q0 r0 Hwq Hwr); try assumption.
        -- rewrite Hq0, <- Hxval, <- Hyval. f_equal. f_equal. lia.
        -- rewrite Hr0, <- Hxval, <- Hyval. f_equal. f_equal. lia.
      * (* several limbs *)
        assert (HY32 : 2 ^ 32 <= Z.abs Y).
        { cbn [List.length] in Hyval, Hpt. rewrite pow_b_S in Hyval, Hpt.
          pose proof (pow_b_pos (List.length t)). nia. }
        destruct (Z.ltb_spec (Z.abs Y) (2 ^ 32)) as [Hc | _]; [lia|].
        cbn [orb] in Hcond.
        assert (HQr : 0 <= Z.abs X / Z.abs Y < 2 ^ 128).
        { split; [apply Z.div_pos; lia|]. apply Z.div_lt_upper_bound; nia. }
        pose proof (small_digits_spec _ HQr Hcond) as Hdig.
        assert (Hyv : val (h :: h1 :: t) = Z.abs Y) by (rewrite val_cons; exact Hyval).
        destruct (Divide_multi_limb x y result remainder xl xneg yneg h h1 t Hx Hy
                    Hh Hlx Hly ltac:(lia) Hxlen ltac:(lia))
          as (Q & R & q0 & r0 & Hd & Hwq & Hwr & Hq0 & Hr0 & Hval & HQ & HR & Hex).
        { left. rewrite Hxval, Hyv. exact Hdig. }
        rewrite Hxval, Hyv in Hval, Hex. rewrite Hyv in HR.
        specialize (Hex Hdig).
        assert (HQeq : Q = Z.abs X / Z.abs Y).
        { apply (Z.div_unique_pos (Z.abs X) (Z.abs Y) Q R); lia. }
        assert (HReq : R = Z.abs X mod Z.abs Y).
        { apply (Z.mod_unique_pos (Z.abs X) (Z.abs Y) Q R); lia. }
        apply (Hfix q0 r0 Hwq Hwr); try assumption.
        -- rewrite Hq0, HQeq. reflexivity.
        -- rewrite Hr0, HReq. reflexivity.
Qed.

(** C1, amended: for a nonzero divisor whose magnitude is not 2^32-1, and
    that either fits one limb or meets a dividend whose true quotient has no
    base-2^32 digit above 2^32-3, [Divide] succeeds with the truncated
    quotient (reduced modulo 2^128) and the truncated remainder; hence
    x = q*y + r modulo 2^128, |r| < |y|, r is zero or has the sign of x, and
    q is not positive when the signs differ and not negative when they
    agree, except for -2^127 / -1. *)
Theorem Divide_truncates (x y result remainder : Decimal128) :
  wf x -> wf y -> to_Z y <> 0 -> Z.abs (to_Z y) <> 2 ^ 32 - 1 ->
  (Z.abs (to_Z y) <? 2 ^ 32) || small_digits (Z.abs (to_Z x) / Z.abs (to_Z y)) = true ->
  exists q r,
    Divide x y result remainder = Some (OK, q, r) /\ wf q /\ wf r /\
    to_Z q = wrap_s128 (Z.quot (to_Z x) (to_Z y)) /\
    to_Z r = Z.rem (to_Z x) (to_Z y) /\
    wrap_s128 (to_Z q * to_Z y + to_Z r) = to_Z x /\
    Z.abs (to_Z r) < Z.abs (to_Z y) /\
    (to_Z r = 0 \/ Z.sgn (to_Z r) = Z.sgn (to_Z x)) /\
    ((to_Z x <? 0) <> (to_Z y <? 0) -> to_Z q <= 0) /\
    ((to_Z x <? 0) = (to_Z y <? 0) ->
     0 <= to_Z q \/ (to_Z x = - 2 ^ 127 /\ to_Z y = -1)).
Proof.
  intros Hwx Hwy Hy0 Hy32 Hcond.
  pose proof (to_Z_range x Hwx) as Hxr. pose proof (to_Z_range y Hwy) as Hyr.
  pose proof (Divide_quot_rem x y result remainder Hwx Hwy Hy0 Hy32 Hcond) as Hexact.
  set (X := to_Z x) in *. set (Y := to_Z y) in *.
  destruct Hexact as (q & r & Hd & Hwq & Hwr & Hq & Hr).
  exists q, r. split; [exact Hd|]. split; [exact Hwq|]. split; [exact Hwr|].
  split; [exact Hq|]. split; [exact Hr|].
  pose proof (Z.quot_rem' X Y) as Hqr.
  pose proof (Z.rem_bound_abs X Y Hy0) as Hrb.
  pose proof (Z.rem_sign_mul X Y Hy0) as Hrs.
  pose proof (Z.quot_div X Y Hy0) as Hqd.
  assert (HQ0 : 0 <= Z.abs X / Z.abs Y <= 2 ^ 127).
  { split; [apply Z.div_pos; lia|]. apply Z.div_le_upper_bound; nia. }
  split.
  { rewrite Hq, Hr, wrap_s128_mul_add.
    replace (Z.quot X Y * Y + Z.rem X Y) with X by lia.
    apply wrap_s128_id. lia. }
  split; [rewrite Hr; exact Hrb|].
  split.
  { rewrite Hr. destruct (Z.eq_dec (Z.rem X Y) 0) as [H0 | H0]; [left; exact H0 | right].
    destruct (Z.lt_trichotomy X 0) as [Hx | [Hx | Hx]].
    - rewrite (Z.sgn_neg X Hx). apply Z.sgn_neg. nia.
    - subst X. rewrite Hx in *. rewrite Z.rem_0_l in H0 by lia. lia.
    - rewrite (Z.sgn_pos X Hx). apply Z.sgn_pos. nia. }
  split.
  - intros Hdiff. rewrite Hq.
    destruct (Z.ltb_spec X 0) as [Hx | Hx], (Z.ltb_spec Y 0) as [Hy | Hy];
      try (exfalso; apply Hdiff; reflexivity).
    + rewrite Hqd, (Z.sgn_neg X), (Z.sgn_pos Y) by lia.
      rewrite wrap_s128_id by lia. lia.
    + destruct (Z.eq_dec X 0) as [HX0 | HX0].
      * rewrite HX0 in *. rewrite Z.quot_0_l by lia. cbn. lia.
      * rewrite Hqd, (Z.sgn_pos X), (Z.sgn_neg Y) by lia.
        rewrite wrap_s128_id by lia. lia.
  - intros Hsame. rewrite Hq.
    destruct (Z.ltb_spec X 0) as [Hx | Hx], (Z.ltb_spec Y 0) as [Hy | Hy];
      try discriminate.
    + rewrite Hqd, (Z.sgn_neg X), (Z.sgn_neg Y) by lia.
      destruct (Z.eq_dec (Z.abs X / Z.abs Y) (2 ^ 127)) as [He | Hne].
      * right.
        assert (Z.abs Y = 1).
        { destruct (Z.eq_dec (Z.abs Y) 1) as [H1 | H1]; [exact H1 | exfalso].
          assert (Z.abs X / Z.abs Y <= 2 ^ 126).
          { apply Z.div_le_upper_bound; lia. }
          lia. }
        assert (Z.abs X = 2 ^ 127) by (rewrite H in He; rewrite Z.div_1_r in He; exact He).
        lia.
      * left. rewrite wrap_s128_id by lia. lia.
    + left. destruct (Z.eq_dec X 0) as [HX0 | HX0].
      * rewrite HX0 in *. rewrite Z.quot_0_l by lia. cbn. lia.
      * rewrite Hqd, (Z.sgn_pos X), (Z.sgn_pos Y) by lia.
        rewrite wrap_s128_id; [lia|].
        split; [lia|].
        assert (Z.abs X < 2 ^ 127) by lia.
        assert (Z.abs X / Z.abs Y <= Z.abs X).
        { apply Z.div_le_upper_bound; nia. }
        lia.
Qed.

Lemma Divide_truncates_witness :
  let x := of_Z (- (10 ^ 38 + 12345)) in
  let y := of_Z (10 ^ 18) in
  (wf x /\ wf y /\ to_Z y <> 0 /\ Z.abs (to_Z y) <> 2 ^ 32 - 1 /\
   (Z.abs (to_Z y) <? 2 ^ 32) || small_digits (Z.abs (to_Z x) / Z.abs (to_Z y)) = true) /\
  exists q r,
    Divide x y Decimal128_zero Decimal128_zero = Some (OK, q, r) /\
    to_Z q = wrap_s128 (Z.quot (to_Z x) (to_Z y)) /\
    to_Z r = Z.rem (to_Z x) (to_Z y).
Proof.
  intros x y.
  assert (Hx : wf x) by (unfold wf; vm_compute; intuition discriminate).
  assert (Hy : wf y) by (unfold wf; vm_compute; intuition discriminate).
  assert (Hy0 : to_Z y <> 0) by (vm_compute; discriminate).
  assert (Hy32 : Z.abs (to_Z y) <> 2 ^ 32 - 1) by (vm_compute; discriminate).
  assert (Hc : (Z.abs (to_Z y) <? 2 ^ 32)
               || small_digits (Z.abs (to_Z x) / Z.abs (to_Z y)) = true)
    by (vm_compute; reflexivity).
  split; [exact (conj Hx (conj Hy (conj Hy0 (conj Hy32 Hc))))|].
  destruct (Divide_truncates x y Decimal128_zero Decimal128_zero Hx Hy Hy0 Hy32 Hc)
    as (q & r & Hd & _ & _ & Hq & Hr & _).
  exists q, r. exact (conj Hd (conj Hq Hr)).
Defined.

(** ** The divisions inside [ToIntegerString] *)

Lemma small_digits_of_small (Q : Z) : 0 <= Q < 2 ^ 32 - 2 -> small_digits Q = true.
Proof.
  intros HQ. unfold small_digits, digit. cbn [forallb].
  change (pow_b 0) with 1. rewrite Z.div_1_r.
  rewrite (Z.mod_small Q) by lia.
  replace (Q <? 2 ^ 32 - 2) with true by (symmetry; apply Z.ltb_lt; lia).
  assert (Hz : forall k, (1 <= k)%nat -> Q / pow_b k = 0).
  { intros k Hk. apply Z.div_small.
    pose proof (pow_b_le 1 k Hk). change (pow_b 1) with (2 ^ 32) in *. lia. }
  rewrite !Hz by lia. reflexivity.
Qed.

Lemma kTenTo36_value : wf kTenTo36 /\ to_Z kTenTo36 = 10 ^ 36.
Proof. split; [unfold wf; vm_compute; intuition discriminate | reflexivity]. Qed.

Lemma kTenTo18_value : wf kTenTo18 /\ to_Z kTenTo18 = 10 ^ 18.
Proof. split; [unfold wf; vm_compute; intuition discriminate | reflexivity]. Qed.

(** Division by 10^36 is exact: the quotient has a single small digit. *)
Lemma Divide_kTenTo36 (x result remainder : Decimal128) :
  wf x ->
  exists q r,
    Divide x kTenTo36 result remainder = Some (OK, q, r) /\ wf q /\ wf r /\
    to_Z q = Z.quot (to_Z x) (10 ^ 36) /\ to_Z r = Z.rem (to_Z x) (10 ^ 36).
Proof.
  intros Hwx. destruct kTenTo36_value as [Hw36 Hv36].
  pose proof (to_Z_range x Hwx) as Hxr.
  assert (HQ : 0 <= Z.abs (to_Z x) / 10 ^ 36 <= 170).
  { split; [apply Z.div_pos; lia|].
    assert (Z.abs (to_Z x) / 10 ^ 36 < 171) by (apply Z.div_lt_upper_bound; lia). lia. }
  assert (Habs : Z.abs (10 ^ 36) = 10 ^ 36) by (apply Z.abs_eq; lia).
  destruct (Divide_quot_rem x kTenTo36 result remainder Hwx Hw36)
    as (q & r & Hd & Hwq & Hwr & Hq & Hr).
  - rewrite Hv36. lia.
  - rewrite Hv36, Habs. lia.
  - rewrite Hv36, Habs.
    rewrite small_digits_of_small by lia. apply orb_true_r.
  - rewrite Hv36 in Hq, Hr.
    exists q, r. split; [exact Hd|]. split; [exact Hwq|]. split; [exact Hwr|].
    split; [|exact Hr].
    rewrite Hq. apply wrap_s128_id.
    rewrite Z.quot_div by lia. rewrite Habs.
    rewrite (Z.sgn_pos (10 ^ 36)) by lia.
    set (q36 := Z.abs (to_Z x) / 10 ^ 36) in *.
    destruct (Z.sgn_spec (to_Z x)) as [[_ ->] | [[_ ->] | [_ ->]]]; lia.
Qed.

Lemma FillInArray_kTenTo18 :
  FillInArray kTenTo18 = ([0x0DE0B6B3; 0xA7640000], false).
Proof. reflexivity. Qed.

(** Division of a value below 10^36 in magnitude by 10^18: the quotient is
    never above the true one and the remainder is below 3 * 10^18, also when
    the last round meets a wrapped [rhat]. *)
Lemma Divide_kTenTo18 (a result remainder : Decimal128) :
  wf a -> Z.abs (to_Z a) < 10 ^ 36 ->
  exists Q R q r,
    Divide a kTenTo18 result remainder = Some (OK, q, r) /\ wf q /\ wf r /\
    Z.abs (to_Z a) = Q * 10 ^ 18 + R /\ 0 <= Q < 10 ^ 18 /\ 0 <= R < 3 * 10 ^ 18 /\
    to_Z q = (if to_Z a <? 0 then - Q else Q) /\
    to_Z r = (if to_Z a <? 0 then - R else R).
Proof.
  intros Hwa Ha.
  pose proof (FillInArray_spec a Hwa) as Hfa.
  destruct (FillInArray a) as [xl xneg] eqn:Hx.
  destruct Hfa as (Hxneg & Hlx & Hxval & Hxlen & _).
  pose proof (val_bound xl Hlx) as Hxb.
  assert (Hv18 : val [0x0DE0B6B3; 0xA7640000] = 10 ^ 18) by reflexivity.
  destruct (Nat.leb_spec (S (List.length xl)) 2) as [Hle | Hgt].
  - (* short dividend *)
    exists 0, (Z.abs (to_Z a)), (Decimal128_of_int64 0), a.
    split; [apply (Divide_short a kTenTo18 result remainder xl _ xneg false Hx
                     FillInArray_kTenTo18 Hle)|].
    destruct (of_int64_spec 0 ltac:(lia)) as [Hw0 Hz0].
    assert (Hsmall : Z.abs (to_Z a) < 2 ^ 32).
    { pose proof (pow_b_le (List.length xl) 1 ltac:(lia)).
      change (pow_b 1) with (2 ^ 32) in *. lia. }
    split; [exact Hw0|]. split; [exact Hwa|]. split; [lia|]. split; [lia|].
    split; [lia|]. rewrite Hz0.
    destruct (Z.ltb_spec (to_Z a) 0); split; lia.
  - destruct (Divide_multi_limb a kTenTo18 result remainder xl xneg false
                0x0DE0B6B3 0xA7640000 [] Hx FillInArray_kTenTo18)
      as (Q & R & q0 & r0 & Hd & Hwq & Hwr & Hq0 & Hr0 & Hval & HQ & HR & _).
    + lia.
    + exact Hlx.
    + repeat (apply limbs_cons; split; [lia|]). apply limbs_nil.
    + cbn [List.length]. lia.
    + exact Hxlen.
    + lia.
    + right. rewrite Hxval, Hv18. lia.
    + rewrite Hv18 in Hval, HR.
      rewrite Hxval in Hval.
      assert (HQb : Q < 10 ^ 18) by nia.
      rewrite (wrap_s128_id Q) in Hq0 by lia.
      rewrite (wrap_s128_id R) in Hr0 by lia.
      pose proof (Negate_spec q0 Hwq) as [Hwnq Hnq].
      pose proof (Negate_spec r0 Hwr) as [Hwnr Hnr].
      rewrite Hq0, wrap_s128_id in Hnq by lia.
      rewrite Hr0, wrap_s128_id in Hnr by lia.
      exists Q, R.
      exists (fst (FixDivisionSigns q0 r0 xneg false)),
        (snd (FixDivisionSigns q0 r0 xneg false)).
      split; [exact Hd|].
      unfold FixDivisionSigns. cbn [fst snd]. rewrite Hxneg.
      destruct (Z.ltb_spec (to_Z a) 0); cbn [Bool.eqb negb];
        (split; [assumption|]); (split; [assumption|]); (split; [exact Hval|]);
        (split; [lia|]); (split; [lia|]); split; assumption.
Qed.

(** ** Decimal strings *)

Lemma isdigit_digit_char (d : Z) : 0 <= d < 10 -> isdigit (digit_char d) = true.
Proof.
  intros Hd. unfold digit_char.
  assert (H : (Z.to_nat d < 10)%nat) by lia.
  destruct (Z.to_nat d) as [|[|[|[|[|[|[|[|[|[|k]]]]]]]]]]; try reflexivity. lia.
Qed.

Lemma all_digits_app (a c : string) :
  all_digits (append a c) = all_digits a && all_digits c.
Proof.
  induction a as [|x a IH]; cbn [append all_digits]; [reflexivity|].
  rewrite IH. apply andb_assoc.
Qed.

Lemma length_append (a c : string) :
  String.length (append a c) = (String.length a + String.length c)%nat.
Proof. induction a as [|x a IH]; cbn; [reflexivity | rewrite IH; reflexivity]. Qed.

Lemma append_assoc (a c e : string) :
  append (append a c) e = append a (append c e).
Proof. induction a as [|x a IH]; cbn; [reflexivity | rewrite IH; reflexivity]. Qed.

Lemma append_nil_r (a : string) : append a EmptyString = a.
Proof. induction a as [|x a IH]; cbn; [reflexivity | rewrite IH; reflexivity]. Qed.

Lemma all_digits_replicate_0 (n : nat) : all_digits (replicate n "0") = true.
Proof. induction n; cbn; [reflexivity | assumption]. Qed.

Lemma length_replicate (n : nat) (c : ascii) : String.length (replicate n c) = n.
Proof. induction n; cbn; [reflexivity | rewrite IHn; reflexivity]. Qed.

Lemma digits_of_spec (fuel : nat) :
  forall n acc, 0 <= n -> all_digits acc = true ->
  all_digits (digits_of fuel n acc) = true /\
  (String.length acc <= String.length (digits_of fuel n acc)
   <= fuel + String.length acc)%nat /\
  ((1 <= fuel)%nat -> (1 + String.length acc <= String.length (digits_of fuel n acc))%nat).
Proof.
  induction fuel as [|fuel IH]; intros n acc Hn Hacc; cbn [digits_of].
  - split; [exact Hacc|]. split; lia.
  - assert (Hd : all_digits (String (digit_char (n mod 10)) acc) = true).
    { cbn [all_digits]. rewrite isdigit_digit_char, Hacc; [reflexivity|].
      apply Z.mod_pos_bound. lia. }
    destruct (n / 10 =? 0).
    + split; [exact Hd|]. cbn [String.length]. split; lia.
    + destruct (IH (n / 10) (String (digit_char (n mod 10)) acc)
                  ltac:(apply Z.div_pos; lia) Hd) as (Ha & Hl & _).
      cbn [String.length] in Hl. split; [exact Ha|]. split; lia.
Qed.

Lemma string_of_int64_spec (v : Z) :
  is_int_string (v <? 0) (string_of_int64 v) /\
  (1 <= String.length (string_of_int64 v) <= 21)%nat.
Proof.
  unfold string_of_int64, is_int_string.
  destruct (Z.ltb_spec v 0) as [Hneg | Hpos].
  - destruct (digits_of_spec 20 (- v) EmptyString ltac:(lia) eq_refl) as (Ha & Hl & Hl1).
    cbn [String.length] in *. specialize (Hl1 ltac:(lia)).
    split; [|lia].
    exists (digits_of 20 (- v) ""). split; [reflexivity|]. split; [|exact Ha].
    intros Heq. rewrite Heq in Hl1. cbn in Hl1. lia.
  - destruct (digits_of_spec 20 v EmptyString Hpos eq_refl) as (Ha & Hl & Hl1).
    cbn [String.length] in *. specialize (Hl1 ltac:(lia)).
    split; [|lia].
    exists (digits_of 20 v ""). split; [reflexivity|]. split; [|exact Ha].
    intros Heq. rewrite Heq in Hl1. cbn in Hl1. lia.
Qed.

(** A non-negative integer prints as digits only, also when padded. *)
Lemma pad_nonneg_spec (v : Z) :
  0 <= v ->
  let s := pad_left 18 "0" (string_of_int64 v) in
  all_digits s = true /\ (1 <= String.length s <= 39)%nat.
Proof.
  intros Hv. cbv zeta. unfold pad_left.
  destruct (string_of_int64_spec v) as [(ds & Heq & Hne & Hd) Hlen].
  destruct (Z.ltb_spec v 0); [lia|]. rewrite Heq in *.
  rewrite all_digits_app, all_digits_replicate_0, Hd.
  rewrite length_append, length_replicate. split; [reflexivity | lia].
Qed.

Lemma to_int64_small (d : Decimal128) :
  wf d -> - 2 ^ 63 <= to_Z d < 2 ^ 63 -> to_int64 d = to_Z d.
Proof.
  destruct d as [h l]. unfold wf, to_Z, to_int64. cbn [high_bits low_bits].
  intros [Hh Hl] Hr. zwrap.
Qed.

Lemma Abs_spec (d : Decimal128) :
  wf d -> - 2 ^ 127 < to_Z d -> wf (Abs d) /\ to_Z (Abs d) = Z.abs (to_Z d).
Proof.
  intros Hw Hr. unfold Abs. rewrite (ltb_zero_spec d Hw).
  pose proof (to_Z_range d Hw).
  destruct (Z.ltb_spec (to_Z d) 0).
  - destruct (Negate_spec d Hw) as [Hwn Hn]. split; [exact Hwn|].
    rewrite Hn, wrap_s128_id by lia. lia.
  - split; [exact Hw | lia].
Qed.

(** ** [ToIntegerString] *)

Lemma is_int_string_extend (neg : bool) (s t : string) :
  is_int_string neg s -> all_digits t = true -> is_int_string neg (append s t).
Proof.
  intros (ds & -> & Hne & Hd) Ht. exists (append ds t).
  split; [destruct neg; reflexivity|]. split.
  - destruct ds; [congruence | discriminate].
  - rewrite all_digits_app, Hd, Ht. reflexivity.
Qed.

(** The integer string is a minus sign exactly for negative values, then
    digits only; the wrapped [rhat] of [Divide] can make the digits wrong but
    not the shape. *)
Lemma ToIntegerString_spec (x : Decimal128) :
  wf x ->
  exists s, ToIntegerString x = Some s /\
            is_int_string (to_Z x <? 0) s /\ (String.length s <= 99)%nat.
Proof.
  intros Hwx. pose proof (to_Z_range x Hwx) as Hxr.
  unfold ToIntegerString.
  destruct (Divide_kTenTo36 x Decimal128_zero Decimal128_zero Hwx)
    as (top & rem & Hd & Hwt & Hwr & Ht & Hr).
  rewrite Hd. rewrite (eqb_zero_spec top Hwt).
  pose proof (Z.quot_rem' (to_Z x) (10 ^ 36)) as Hqr.
  pose proof (Z.rem_bound_abs (to_Z x) (10 ^ 36) ltac:(lia)) as Hrb.
  pose proof (Z.quot_div (to_Z x) (10 ^ 36) ltac:(lia)) as Hqd.
  rewrite (Z.abs_eq (10 ^ 36)) in Hrb, Hqd by lia.
  rewrite (Z.sgn_pos (10 ^ 36)) in Hqd by lia.
  assert (HQ36 : 0 <= Z.abs (to_Z x) / 10 ^ 36 <= 170).
  { split; [apply Z.div_pos; lia|].
    assert (Z.abs (to_Z x) / 10 ^ 36 < 171) by (apply Z.div_lt_upper_bound; lia). lia. }
  rewrite <- Ht in Hqd. rewrite <- Ht, <- Hr in Hqr. rewrite <- Hr in Hrb.
  destruct (Z.eqb_spec (to_Z top) 0) as [Htop0 | Htop]; cbn [negb].
  - (* nothing above 10^36 *)
    assert (Hremx : to_Z rem = to_Z x) by lia.
    destruct (Divide_kTenTo18 rem top Decimal128_zero Hwr ltac:(lia))
      as (Q & R & q2 & r2 & Hd2 & Hwq2 & Hwr2 & Hval & HQ & HR & Hq2 & Hr2).
    rewrite Hd2. cbn [orb]. rewrite (eqb_zero_spec q2 Hwq2).
    rewrite Hremx in Hval, Hq2, Hr2.
    destruct (Z.eqb_spec (to_Z q2) 0) as [Hq20 | Hq2n]; cbn [negb].
    + (* a single chunk *)
      assert (Q = 0) by (destruct (to_Z x <? 0); lia). subst Q.
      assert (Hr2x : to_Z r2 = to_Z x) by (destruct (Z.ltb_spec (to_Z x) 0); lia).
      rewrite (to_int64_small r2 Hwr2) by lia. rewrite Hr2x.
      destruct (string_of_int64_spec (to_Z x)) as [Hs Hl].
      eexists. split; [reflexivity|]. cbn [append]. split; [exact Hs | lia].
    + (* two chunks *)
      assert (HQpos : 0 < Q) by (destruct (to_Z x <? 0); lia).
      destruct (Abs_spec r2 Hwr2 ltac:(destruct (to_Z x <? 0); lia)) as [Hwa Ha].
      assert (HaR : to_Z (Abs r2) = R) by (destruct (to_Z x <? 0); lia).
      rewrite (to_int64_small q2 Hwq2) by (destruct (to_Z x <? 0); lia).
      rewrite (to_int64_small (Abs r2) Hwa) by lia. rewrite HaR.
      destruct (string_of_int64_spec (to_Z q2)) as [Hs Hl].
      destruct (pad_nonneg_spec R ltac:(lia)) as [Hp Hpl]. cbv zeta in Hp, Hpl.
      assert (Hsign : (to_Z q2 <? 0) = (to_Z x <? 0)).
      { rewrite Hq2. destruct (Z.ltb_spec (to_Z x) 0);
          [apply Z.ltb_lt | apply Z.ltb_ge]; lia. }
      rewrite Hsign in Hs.
      eexists. split; [reflexivity|]. cbn [append].
      split; [apply is_int_string_extend; assumption|].
      rewrite length_append. lia.
  - (* three chunks *)
    destruct (Abs_spec rem Hwr ltac:(lia)) as [Hwa Ha].
    destruct (Divide_kTenTo18 (Abs rem) top Decimal128_zero Hwa ltac:(lia))
      as (Q & R & q2 & r2 & Hd2 & Hwq2 & Hwr2 & Hval & HQ & HR & Hq2 & Hr2).
    rewrite Hd2. cbn [orb].
    assert (Hnn : (to_Z (Abs rem) <? 0) = false) by (apply Z.ltb_ge; lia).
    rewrite Hnn in Hq2, Hr2.
    rewrite (to_int64_small top Hwt) by lia.
    rewrite (to_int64_small q2 Hwq2) by lia.
    rewrite (to_int64_small r2 Hwr2) by lia.
    rewrite Hq2, Hr2.
    destruct (string_of_int64_spec (to_Z top)) as [Hs Hl].
    destruct (pad_nonneg_spec Q ltac:(lia)) as [Hp Hpl]. cbv zeta in Hp, Hpl.
    destruct (pad_nonneg_spec R ltac:(lia)) as [Hp' Hpl']. cbv zeta in Hp', Hpl'.
    assert (Hsign : (to_Z top <? 0) = (to_Z x <? 0)).
    { destruct (Z.sgn_spec (to_Z x)) as [[Hx Hsg] | [[Hx Hsg] | [Hx Hsg]]];
        rewrite Hsg in Hqd.
      - transitivity false; [apply Z.ltb_ge; lia | symmetry; apply Z.ltb_ge; lia].
      - exfalso. lia.
      - transitivity true; [apply Z.ltb_lt; lia | symmetry; apply Z.ltb_lt; lia]. }
    rewrite Hsign in Hs.
    eexists. split; [reflexivity|].
    split.
    + apply is_int_string_extend; [|exact Hp'].
      apply is_int_string_extend; assumption.
    + rewrite !length_append. lia.
Qed.

(** ** Scientific form *)

Lemma isdigit_not_E (c : ascii) : isdigit c = true -> Ascii.eqb c "E" = false.
Proof.
  intros H. destruct (Ascii.eqb_spec c "E") as [-> | Hne]; [discriminate | reflexivity].
Qed.

Lemma all_digits_no_E (s : string) : all_digits s = true -> no_E s = true.
Proof.
  induction s as [|c s IH]; cbn [all_digits no_E]; [reflexivity|].
  intros H. apply andb_prop in H. destruct H as [Hc Hs].
  rewrite (isdigit_not_E c Hc), (IH Hs). reflexivity.
Qed.

Lemma no_E_app (a c : string) : no_E (append a c) = no_E a && no_E c.
Proof.
  induction a as [|x a IH]; cbn [append no_E]; [reflexivity|].
  rewrite IH. apply andb_assoc.
Qed.

Lemma no_E_substring (s : string) : forall n m, no_E s = true -> no_E (substring n m s) = true.
Proof.
  induction s as [|c s IH]; intros n m H.
  - destruct n, m; reflexivity.
  - cbn [no_E] in H. apply andb_prop in H. destruct H as [Hc Hs].
    destruct n as [|n]; destruct m as [|m]; cbn [substring no_E]; try reflexivity.
    + rewrite Hc, (IH 0%nat m Hs). reflexivity.
    + apply IH. exact Hs.
    + apply IH. exact Hs.
Qed.

Lemma no_E_replicate_0 (n : nat) : no_E (replicate n "0") = true.
Proof. induction n; cbn; [reflexivity | assumption]. Qed.

Lemma sci_tail_no_E (s : string) : sci_tail s = true -> no_E s = false.
Proof.
  induction s as [|c s IH]; cbn [sci_tail no_E]; [discriminate|].
  destruct (isdigit c).
  - intros H. rewrite (IH H). apply andb_false_r.
  - intros H. apply andb_prop in H. destruct H as [Hc _]. rewrite Hc. reflexivity.
Qed.

Lemma sci_fraction_no_E (s : string) : sci_fraction s = true -> no_E s = false.
Proof.
  destruct s as [|c s]; cbn [sci_fraction no_E]; [discriminate|].
  intros H. apply andb_prop in H. destruct H as [_ H].
  rewrite (sci_tail_no_E s H). apply andb_false_r.
Qed.

Lemma is_scientific_no_E (s : string) : no_E s = true -> is_scientific s = false.
Proof.
  intros HE. destruct (is_scientific s) eqn:Hs; [exfalso | reflexivity].
  unfold is_scientific in Hs.
  assert (Hbody : forall body, no_E body = true ->
            match body with
            | String d tl =>
                isdigit d &&
                match tl with
                | String c rest =>
                    if Ascii.eqb c "." then sci_fraction rest
                    else Ascii.eqb c "E" && sci_exponent rest
                | EmptyString => false
                end
            | EmptyString => false
            end = true -> False).
  { intros [|d [|c rest]] Hb H; try discriminate.
    - rewrite andb_false_r in H. discriminate.
    - cbn [no_E] in Hb. apply andb_prop in Hb. destruct Hb as [_ Hb].
      apply andb_prop in Hb. destruct Hb as [Hc Hrest].
      apply andb_prop in H. destruct H as [_ H].
      destruct (Ascii.eqb c ".").
      + apply sci_fraction_no_E in H. congruence.
      + apply andb_prop in H. destruct H as [H _]. rewrite H in Hc. discriminate. }
  destruct s as [|c tl]; [discriminate|].
  destruct (Ascii.eqb c "-").
  - apply (Hbody tl); [|exact Hs].
    cbn [no_E] in HE. apply andb_prop in HE. tauto.
  - apply (Hbody (String c tl)); assumption.
Qed.

Lemma sci_tail_digits (ds e : string) :
  all_digits ds = true ->
  sci_tail (append ds (String "E" e)) = sci_exponent e.
Proof.
  induction ds as [|c ds IH]; cbn [append all_digits sci_tail].
  - intros _. reflexivity.
  - intros H. apply andb_prop in H. destruct H as [Hc Hs]. rewrite Hc. apply IH, Hs.
Qed.

(** Behind the point the form needs a digit: the text is a fraction exactly
    when [ds] is not empty. *)
Lemma sci_fraction_digits (ds e : string) :
  all_digits ds = true ->
  sci_fraction (append ds (String "E" e))
  = negb (String.length ds =? 0)%nat && sci_exponent e.
Proof.
  destruct ds as [|c ds]; cbn [append all_digits sci_fraction String.length Nat.eqb negb andb].
  - intros _. reflexivity.
  - intros H. apply andb_prop in H. destruct H as [Hc Hs].
    rewrite Hc. cbn [andb]. apply sci_tail_digits, Hs.
Qed.

Lemma sci_exponent_showpos (v : Z) : sci_exponent (string_of_int_showpos v) = true.
Proof.
  unfold string_of_int_showpos.
  destruct (string_of_int64_spec v) as [(ds & Heq & Hne & Hd) _].
  destruct (v <? 0); rewrite Heq; cbn [sci_exponent]; destruct ds; try congruence;
    rewrite Hd; reflexivity.
Qed.

Lemma substring_all (s : string) : substring 0 (String.length s) s = s.
Proof. induction s as [|c s IH]; cbn; [reflexivity | rewrite IH; reflexivity]. Qed.

Lemma length_substring_le (s : string) : forall n m,
  (String.length (substring n m s) <= String.length s)%nat.
Proof.
  induction s as [|c s IH]; intros [|n] [|m]; cbn; try lia.
  - specialize (IH 0%nat m). lia.
  - specialize (IH n 0%nat). lia.
  - specialize (IH n (S m)). lia.
Qed.

(** ** [ToString] *)

Lemma isdigit_not_minus (c : ascii) : isdigit c = true -> Ascii.eqb c "-" = false.
Proof.
  intros H. destruct (Ascii.eqb_spec c "-") as [-> | Hne]; [discriminate | reflexivity].
Qed.

Lemma substr_from_tail (c : ascii) (s : string) :
  substr_from (String c s) 1 = Some s.
Proof.
  unfold substr_from, substr. cbn [String.length].
  replace (S (String.length s) <? 1)%nat with false by (symmetry; apply Nat.ltb_ge; lia).
  cbn [Nat.sub substring]. rewrite Nat.sub_0_r, substring_all. reflexivity.
Qed.

Lemma substr_from_tail2 (c d : ascii) (s : string) :
  substr_from (String c (String d s)) 2 = Some s.
Proof.
  unfold substr_from, substr. cbn [String.length].
  replace (S (S (String.length s)) <? 2)%nat with false
    by (symmetry; apply Nat.ltb_ge; lia).
  cbn [Nat.sub substring]. rewrite Nat.sub_0_r, substring_all. reflexivity.
Qed.

Lemma ToStringNegativeScale_shape (d : ascii) (rest : string) (adj : Z) (neg : bool) :
  ToStringNegativeScale (if neg then String "-" (String d rest) else String d rest) adj neg
  = Some (if neg
          then String "-" (String d (String "." (append rest
                             (String "E" (string_of_int_showpos adj)))))
          else String d (String "." (append rest
                             (String "E" (string_of_int_showpos adj))))).
Proof.
  unfold ToStringNegativeScale. destruct neg.
  - rewrite substr_from_tail2. reflexivity.
  - rewrite substr_from_tail. reflexivity.
Qed.

Lemma ToStringNegativeScale_total (neg : bool) (str : string) (adj : Z) :
  is_int_string neg str ->
  exists out, ToStringNegativeScale str adj neg = Some out.
Proof.
  intros (ds & -> & Hne & _).
  destruct ds as [|d rest]; [congruence|].
  rewrite ToStringNegativeScale_shape. eexists. reflexivity.
Qed.

Lemma ToString_unfold (x : Decimal128) (scale : Z) :
  ToString x scale =
  match ToIntegerString x with
  | None => None
  | Some str =>
      if scale =? 0 then Some str
      else
        let is_negative := Decimal128_ltb x (Decimal128_of_int64 0) in
        let len := wrap_s32 (Z.of_nat (String.length str)) in
        let is_negative_offset := if is_negative then 1 else 0 in
        let adjusted_exponent :=
          wrap_s32 (wrap_s32 (- scale) + wrap_s32 (wrap_s32 (len - 1) - is_negative_offset)) in
        if (scale <? 0) || (adjusted_exponent <? -6) then
          ToStringNegativeScale str adjusted_exponent is_negative
        else ToString_plain str is_negative scale len
  end.
Proof. reflexivity. Qed.

Lemma ToString_plain_no_E (str : string) (neg : bool) (scale : Z) :
  no_E str = true -> (1 <= String.length str <= 99)%nat -> 0 < scale < 2 ^ 31 ->
  exists out, ToString_plain str neg scale (Z.of_nat (String.length str)) = Some out /\
              no_E out = true.
Proof.
  intros HE Hlen Hscale. unfold ToString_plain.
  set (len := Z.of_nat (String.length str)).
  assert (Hl : 1 <= len <= 99) by (subst len; lia).
  rewrite (wrap_s32_id (len - 1)) by lia.
  rewrite (wrap_s32_id (len - scale)) by lia.
  rewrite (wrap_s32_id (scale - len)) by lia.
  assert (Hsub0 : forall n, substr str 0 n = Some (substring 0 n str)).
  { intros n. unfold substr. destruct (String.length str <? 0)%nat eqn:H; [|reflexivity].
    apply Nat.ltb_lt in H. lia. }
  assert (Hsubn : scale < len ->
            substr str (Z.to_nat (len - scale)) (Z.to_nat scale)
            = Some (substring (Z.to_nat (len - scale)) (Z.to_nat scale) str)).
  { intros Hlt. unfold substr.
    destruct (String.length str <? Z.to_nat (len - scale))%nat eqn:H; [|reflexivity].
    apply Nat.ltb_lt in H. subst len. lia. }
  assert (Hsub1 : exists tl, substr_from str 1 = Some tl /\ no_E tl = true).
  { destruct str as [|c tl]; [cbn in Hlen; lia|].
    exists tl. split; [apply substr_from_tail|].
    cbn [no_E] in HE. apply andb_prop in HE. tauto. }
  destruct Hsub1 as (tl & Htl & HEtl).
  destruct neg.
  - destruct (Z.ltb_spec scale (len - 1)).
    + cbv zeta. rewrite Hsub0, Hsubn by lia. cbn [concat3].
      eexists. split; [reflexivity|].
      rewrite no_E_app. cbn [append no_E].
      rewrite !no_E_substring by exact HE. reflexivity.
    + destruct (Z.eqb_spec (len - 1) scale).
      * rewrite Htl. cbn [concat3]. eexists. split; [reflexivity|].
        cbn [append no_E]. rewrite HEtl. reflexivity.
      * rewrite Htl. cbn [concat3]. eexists. split; [reflexivity|].
        rewrite no_E_app. cbn [append no_E].
        rewrite no_E_replicate_0, HEtl. reflexivity.
  - destruct (Z.ltb_spec scale len).
    + cbv zeta. rewrite Hsub0, Hsubn by lia. cbn [concat3].
      eexists. split; [reflexivity|].
      rewrite no_E_app. cbn [append no_E].
      rewrite !no_E_substring by exact HE. reflexivity.
    + destruct (Z.eqb_spec len scale).
      * eexists. split; [reflexivity|]. cbn [append no_E]. rewrite HE. reflexivity.
      * eexists. split; [reflexivity|]. cbn [append no_E].
        rewrite no_E_app, no_E_replicate_0, HE. reflexivity.
Qed.

(** ** Addition and multiplication by a small factor *)

Lemma add_spec (l r : Decimal128) :
  wf l -> wf r -> wf (add l r) /\ to_Z (add l r) = wrap_s128 (to_Z l + to_Z r).
Proof.
  destruct l as [lh ll], r as [rh rl]. unfold wf, add, to_Z.
  cbn [high_bits low_bits]. intros [Hlh Hll] [Hrh Hrl].
  pose proof (wrap_u64_range (ll + rl)) as Hsum.
  pose proof (wrap_s64_range (lh + rh)) as Hh.
  pose proof (wrap_s64_range (wrap_s64 (lh + rh) + 1)) as Hh1.
  destruct (Z.ltb_spec (wrap_u64 (ll + rl)) ll) as [Hc | Hc]; cbn [high_bits low_bits].
  - split; [lia|]. revert Hc. clear Hsum Hh Hh1. zwrap.
  - split; [lia|]. revert Hc. clear Hsum Hh Hh1. zwrap.
Qed.

Lemma wrap_s64_ex (z : Z) : exists k, wrap_s64 z = z + k * 2 ^ 64.
Proof.
  exists (- ((z + 2 ^ 63) / 2 ^ 64)). unfold wrap_s64.
  pose proof (Z.div_mod (z + 2 ^ 63) (2 ^ 64) ltac:(lia)). lia.
Qed.

Lemma wrap_u64_ex (z : Z) : exists k, wrap_u64 z = z + k * 2 ^ 64.
Proof.
  exists (- (z / 2 ^ 64)). unfold wrap_u64.
  pose proof (Z.div_mod z (2 ^ 64) ltac:(lia)). lia.
Qed.

Lemma wrap_s128_id_mod (v a k : Z) :
  - 2 ^ 127 <= a < 2 ^ 127 -> v = a + k * 2 ^ 128 -> wrap_s128 v = a.
Proof.
  intros Ha ->. rewrite (wrap_s128_congr (a + k * 2 ^ 128) a k eq_refl).
  apply wrap_s128_id. exact Ha.
Qed.

(** [operator*=] by a non-negative factor below 2^64 whose two limbs sum to
    less than 2^32: the middle partial sum cannot overflow, and the product
    is exact modulo 2^128. *)
Lemma mul_no_carry (l r : Decimal128) :
  wf l -> high_bits r = 0 -> 0 <= low_bits r < 2 ^ 64 ->
  low_bits r / 2 ^ 32 + low_bits r mod 2 ^ 32 < 2 ^ 32 ->
  wf (mul l r) /\ to_Z (mul l r) = wrap_s128 (to_Z l * low_bits r).
Proof.
  destruct l as [lh ll], r as [rh rl]. unfold wf, to_Z. cbn [high_bits low_bits].
  intros [Hlh Hll] -> Hrl Hsmall.
  unfold mul. cbn [high_bits low_bits].
  change (wrap_u64 0) with 0. rewrite !shiftr_32, !land_kIntMask, !shiftl_32.
  change (0 / 2 ^ 32) with 0. change (0 mod 2 ^ 32) with 0.
  rewrite !Z.mul_0_r, !Z.add_0_r.
  set (Hu := wrap_u64 lh).
  assert (HHu : 0 <= Hu < 2 ^ 64) by apply wrap_u64_range.
  assert (Hs : exists s, 0 <= s <= 1 /\ lh = Hu - s * 2 ^ 64).
  { destruct (Z_lt_ge_dec lh 0).
    - exists 1. split; [lia|]. subst Hu. zwrap.
    - exists 0. split; [lia|]. subst Hu. zwrap. }
  destruct Hs as (s & Hs & Hlhs).
  pose proof (Z.div_mod Hu (2 ^ 32) ltac:(lia)) as HdHu.
  pose proof (Z.mod_pos_bound Hu (2 ^ 32) ltac:(lia)) as HmHu.
  pose proof (Z.div_mod ll (2 ^ 32) ltac:(lia)) as Hdll.
  pose proof (Z.mod_pos_bound ll (2 ^ 32) ltac:(lia)) as Hmll.
  pose proof (Z.div_mod rl (2 ^ 32) ltac:(lia)) as Hdrl.
  pose proof (Z.mod_pos_bound rl (2 ^ 32) ltac:(lia)) as Hmrl.
  set (L0 := Hu / 2 ^ 32) in *. set (L1 := Hu mod 2 ^ 32) in *.
  set (L2 := ll / 2 ^ 32) in *. set (L3 := ll mod 2 ^ 32) in *.
  set (R2 := rl / 2 ^ 32) in *. set (R3 := rl mod 2 ^ 32) in *.
  assert (HL0 : 0 <= L0 < 2 ^ 32) by lia.
  assert (HL2 : 0 <= L2 < 2 ^ 32) by lia.
  assert (HR2 : 0 <= R2 < 2 ^ 32) by lia.
  clearbody L0 L1 L2 L3 R2 R3.
  assert (HX : (lh * 2 ^ 64 + ll) * rl
               = L3 * R3 + (L2 * R3 + L3 * R2) * 2 ^ 32
                 + (L1 * R3 + L2 * R2) * 2 ^ 64 + (L0 * R3 + L1 * R2) * 2 ^ 96
                 + (L0 * R2 - s * rl) * 2 ^ 128).
  { rewrite Hlhs, HdHu, Hdll, Hdrl. ring. }
  rewrite HX. clear HX.
  assert (Hp33 : 0 <= L3 * R3 <= (2 ^ 32 - 1) * (2 ^ 32 - 1)) by nia.
  assert (Hp23 : 0 <= L2 * R3 <= (2 ^ 32 - 1) * R3) by nia.
  assert (Hp32 : 0 <= L3 * R2 <= (2 ^ 32 - 1) * R2) by nia.
  assert (Hp13 : 0 <= L1 * R3 <= (2 ^ 32 - 1) * (2 ^ 32 - 1)) by nia.
  assert (Hp22 : 0 <= L2 * R2 <= (2 ^ 32 - 1) * (2 ^ 32 - 1)) by nia.
  assert (Hp03 : 0 <= L0 * R3 <= (2 ^ 32 - 1) * (2 ^ 32 - 1)) by nia.
  assert (Hp12 : 0 <= L1 * R2 <= (2 ^ 32 - 1) * (2 ^ 32 - 1)) by nia.
  set (p33 := L3 * R3) in *. set (p23 := L2 * R3) in *. set (p32 := L3 * R2) in *.
  set (p13 := L1 * R3) in *. set (p22 := L2 * R2) in *.
  set (p03 := L0 * R3) in *. set (p12 := L1 * R2) in *.
  set (t := L0 * R2 - s * rl).
  clearbody p33 p23 p32 p13 p22 p03 p12 t.
  rewrite (wrap_u64_id p33) by lia.
  rewrite (wrap_u64_id p23) by lia.
  rewrite (wrap_u64_id p32) by lia.
  pose proof (Z.div_mod p33 (2 ^ 32) ltac:(lia)) as Hd33.
  pose proof (Z.mod_pos_bound p33 (2 ^ 32) ltac:(lia)) as Hm33.
  set (c := p33 / 2 ^ 32) in *. set (low0 := p33 mod 2 ^ 32) in *.
  rewrite (wrap_u64_id (c + p23)) by lia.
  rewrite (wrap_u64_id (c + p23 + p32)) by lia.
  set (sum := c + p23 + p32) in *.
  assert (Hsumdef : sum = c + p23 + p32) by reflexivity.
  assert (Hsum : 0 <= sum < 2 ^ 64) by lia.
  destruct (Z.ltb_spec sum p32) as [Hlt | _]; [lia|].
  pose proof (Z.div_mod sum (2 ^ 32) ltac:(lia)) as Hdsum.
  pose proof (Z.mod_pos_bound sum (2 ^ 32) ltac:(lia)) as Hmsum.
  assert (Hshl : wrap_u64 (sum * 2 ^ 32) = (sum mod 2 ^ 32) * 2 ^ 32).
  { unfold wrap_u64. change (2 ^ 64) with (2 ^ 32 * 2 ^ 32).
    rewrite Z.mul_mod_distr_r by lia. reflexivity. }
  rewrite Hshl.
  rewrite (wrap_u64_id (low0 + sum mod 2 ^ 32 * 2 ^ 32)) by lia.
  assert (Hshl2 : wrap_u64 (wrap_u64 (p03 + p12) * 2 ^ 32)
                  = ((p03 + p12) mod 2 ^ 32) * 2 ^ 32).
  { unfold wrap_u64. change (2 ^ 64) with (2 ^ 32 * 2 ^ 32).
    rewrite Z.mul_mod_distr_r by lia. f_equal.
    change (2 ^ 32 * 2 ^ 32) with (2 ^ 64). Z.div_mod_to_equations. lia. }
  rewrite Hshl2.
  pose proof (Z.div_mod (p03 + p12) (2 ^ 32) ltac:(lia)) as Hd0.
  pose proof (Z.mod_pos_bound (p03 + p12) (2 ^ 32) ltac:(lia)) as Hm0.
  set (d := (p03 + p12) / 2 ^ 32) in *. set (e := (p03 + p12) mod 2 ^ 32) in *.
  set (sq := sum / 2 ^ 32) in *. set (sr := sum mod 2 ^ 32) in *.
  clearbody c low0 sum d e sq sr.
  cbn [high_bits low_bits].
  set (h4 := wrap_s64 (wrap_s64 (wrap_s64 (0 + sq) + wrap_u64 (p13 + p22)) + e * 2 ^ 32)).
  assert (Hh4 : - 2 ^ 63 <= h4 < 2 ^ 63) by apply wrap_s64_range.
  assert (Hh4k : exists k, h4 = sq + p13 + p22 + e * 2 ^ 32 + k * 2 ^ 64).
  { subst h4.
    destruct (wrap_s64_ex (0 + sq)) as (k1 & ->).
    destruct (wrap_u64_ex (p13 + p22)) as (k2 & ->).
    destruct (wrap_s64_ex (0 + sq + k1 * 2 ^ 64 + (p13 + p22 + k2 * 2 ^ 64))) as (k3 & ->).
    destruct (wrap_s64_ex (0 + sq + k1 * 2 ^ 64 + (p13 + p22 + k2 * 2 ^ 64)
                           + k3 * 2 ^ 64 + e * 2 ^ 32)) as (k4 & ->).
    exists (k1 + k2 + k3 + k4). lia. }
  destruct Hh4k as (k & Hk). clearbody h4.
  split; [lia|].
  symmetry. apply wrap_s128_id_mod with (k := t + d - k); lia.
Qed.

(** ** [StringToInteger] *)

Lemma substring_split (s : string) :
  forall n, (n <= String.length s)%nat ->
  s = append (substring 0 n s) (substring n (String.length s - n) s).
Proof.
  induction s as [|c s IH]; intros [|n] Hn; cbn [String.length] in *.
  - reflexivity.
  - lia.
  - cbn [substring append Nat.sub]. rewrite substring_all. reflexivity.
  - cbn [substring append Nat.sub]. f_equal. apply IH. lia.
Qed.

Lemma length_substring_prefix (s : string) :
  forall n, (n <= String.length s)%nat -> String.length (substring 0 n s) = n.
Proof.
  induction s as [|c s IH]; intros [|n] Hn; cbn [String.length substring] in *;
    try reflexivity; try lia.
  f_equal. apply IH. lia.
Qed.

Lemma length_substring_suffix (s : string) (n : nat) :
  (n <= String.length s)%nat ->
  String.length (substring n (String.length s - n) s) = (String.length s - n)%nat.
Proof.
  intros Hn. pose proof (substring_split s n Hn) as Hs.
  apply (f_equal String.length) in Hs.
  rewrite length_append, length_substring_prefix in Hs by exact Hn. lia.
Qed.

Lemma digits_value_acc (s : string) :
  forall acc, digits_value s acc = acc * 10 ^ Z.of_nat (String.length s) + digits_value s 0.
Proof.
  induction s as [|c s IH]; intros acc; cbn [digits_value String.length].
  - cbn. lia.
  - rewrite IH, (IH (0 * 10 + _)). rewrite Nat2Z.inj_succ, Z.pow_succ_r by lia. lia.
Qed.

Lemma digits_value_app (a c : string) :
  digits_value (append a c) 0
  = digits_value a 0 * 10 ^ Z.of_nat (String.length c) + digits_value c 0.
Proof.
  assert (H : forall acc, digits_value (append a c) acc = digits_value c (digits_value a acc)).
  { induction a as [|x a IH]; intros acc; cbn [append digits_value];
      [reflexivity | apply IH]. }
  rewrite H. apply digits_value_acc.
Qed.

Lemma isdigit_value (c : ascii) :
  isdigit c = true -> 0 <= Z.of_nat (nat_of_ascii c) - 48 <= 9.
Proof.
  unfold isdigit. intros H. apply andb_prop in H. destruct H as [H1 H2].
  apply Nat.leb_le in H1. apply Nat.leb_le in H2. lia.
Qed.

Lemma digits_value_bound (s : string) :
  all_digits s = true -> 0 <= digits_value s 0 < 10 ^ Z.of_nat (String.length s).
Proof.
  induction s as [|c s IH]; cbn [all_digits digits_value String.length].
  - intros _. cbn. lia.
  - intros H. apply andb_prop in H. destruct H as [Hc Hs].
    specialize (IH Hs). pose proof (isdigit_value c Hc).
    rewrite digits_value_acc, Nat2Z.inj_succ, Z.pow_succ_r by lia.
    nia.
Qed.

Lemma isdigit_not_plus (c : ascii) : isdigit c = true -> Ascii.eqb c "+" = false.
Proof.
  intros H. destruct (Ascii.eqb_spec c "+") as [-> | Hne]; [discriminate | reflexivity].
Qed.

(** [std::stoll] on a chunk of one to eighteen digits. *)
Lemma stol_digits (s : string) :
  all_digits s = true -> (1 <= String.length s <= 18)%nat ->
  stol s = Some (digits_value s 0).
Proof.
  intros Hd Hlen. pose proof (digits_value_bound s Hd) as Hb.
  assert (Hpow : 10 ^ Z.of_nat (String.length s) <= 10 ^ 18)
    by (apply Z.pow_le_mono_r; lia).
  destruct s as [|c s]; [cbn in Hlen; lia|].
  pose proof Hd as Hd'. cbn [all_digits] in Hd'. apply andb_prop in Hd'.
  destruct Hd' as [Hc _].
  unfold stol. rewrite (isdigit_not_minus c Hc), (isdigit_not_plus c Hc).
  replace ((- 2 ^ 63 <=? digits_value (String c s) 0)
           && (digits_value (String c s) 0 <? 2 ^ 63)) with true; [reflexivity|].
  symmetry. apply andb_true_intro. split; [apply Z.leb_le | apply Z.ltb_lt]; lia.
Qed.

Lemma all_digits_substring (s : string) :
  forall n m, all_digits s = true -> all_digits (substring n m s) = true.
Proof.
  induction s as [|c s IH]; intros n m H.
  - destruct n, m; reflexivity.
  - cbn [all_digits] in H. apply andb_prop in H. destruct H as [Hc Hs].
    destruct n as [|n]; destruct m as [|m]; cbn [substring all_digits]; try reflexivity.
    + rewrite Hc, (IH 0%nat m Hs). reflexivity.
    + apply IH. exact Hs.
    + apply IH. exact Hs.
Qed.

Lemma pow10_limbs (g : nat) :
  (g <= 18)%nat ->
  - 2 ^ 63 <= kPowersOfTen g < 2 ^ 63 /\ 0 <= kPowersOfTen g /\
  kPowersOfTen g / 2 ^ 32 + kPowersOfTen g mod 2 ^ 32 < 2 ^ 32.
Proof.
  intros Hg. unfold kPowersOfTen.
  do 19 (destruct g as [|g]; [vm_compute; intuition discriminate|]). lia.
Qed.

Lemma wrap_s128_add_l (a e : Z) : wrap_s128 (wrap_s128 a + e) = wrap_s128 (a + e).
Proof.
  pose proof (wrap_s128_mul_add a 1 e) as H. rewrite !Z.mul_1_r in H. exact H.
Qed.

Lemma StringToInteger_loop_spec (fuel : nat) :
  forall str out,
    all_digits str = true -> (String.length str <= fuel)%nat -> wf out ->
    exists out',
      StringToInteger_loop fuel str out = Some out' /\ wf out' /\
      to_Z out'
      = wrap_s128 (to_Z out * 10 ^ Z.of_nat (String.length str) + digits_value str 0).
Proof.
  induction fuel as [|fuel IH]; intros str out Hd Hlen Hw.
  - destruct str; [|cbn in Hlen; lia].
    exists out. split; [reflexivity|]. split; [exact Hw|].
    cbn. rewrite Z.mul_1_r, Z.add_0_r. symmetry. apply wrap_s128_id, to_Z_range, Hw.
  - destruct str as [|c tl].
    + exists out. split; [reflexivity|]. split; [exact Hw|].
      cbn. rewrite Z.mul_1_r, Z.add_0_r. symmetry. apply wrap_s128_id, to_Z_range, Hw.
    + set (str := String c tl) in *.
      assert (Hlen1 : (1 <= String.length str)%nat) by (cbn; lia).
      change (StringToInteger_loop (S fuel) str out)
        with (let group := Nat.min kInt64DecimalDigits (String.length str) in
              match stol (substring 0 group str) with
              | None => None
              | Some chunk =>
                  let multiple := kPowersOfTen group in
                  let out1 := mul out (Decimal128_of_int64 multiple) in
                  let out2 := add out1 (Decimal128_of_int64 chunk) in
                  StringToInteger_loop fuel
                    (substring group (String.length str - group) str) out2
              end).
      cbv zeta. unfold kInt64DecimalDigits.
      set (group := Nat.min 18 (String.length str)).
      assert (Hg : (1 <= group <= 18)%nat /\ (group <= String.length str)%nat)
        by (subst group; lia).
      set (chunk := substring 0 group str).
      set (rest := substring group (String.length str - group) str).
      assert (Hcl : String.length chunk = group)
        by (apply length_substring_prefix; lia).
      assert (Hrl : String.length rest = (String.length str - group)%nat)
        by (apply length_substring_suffix; lia).
      assert (Hcd : all_digits chunk = true) by (apply all_digits_substring; exact Hd).
      assert (Hrd : all_digits rest = true) by (apply all_digits_substring; exact Hd).
      rewrite (stol_digits chunk Hcd) by lia.
      pose proof (digits_value_bound chunk Hcd) as Hcb.
      assert (Hpow : 10 ^ Z.of_nat (String.length chunk) <= 10 ^ 18)
        by (apply Z.pow_le_mono_r; lia).
      destruct (pow10_limbs group ltac:(lia)) as (Hpr & Hp0 & Hpl).
      destruct (of_int64_spec (kPowersOfTen group) Hpr) as [Hwm Hm].
      destruct (of_int64_spec (digits_value chunk 0) ltac:(lia)) as [Hwc Hc].
      assert (Hmh : high_bits (Decimal128_of_int64 (kPowersOfTen group)) = 0).
      { unfold Decimal128_of_int64. cbn [high_bits].
        destruct (Z.leb_spec 0 (kPowersOfTen group)); [reflexivity | lia]. }
      assert (Hml : low_bits (Decimal128_of_int64 (kPowersOfTen group))
                    = kPowersOfTen group).
      { unfold Decimal128_of_int64. cbn [low_bits]. apply wrap_u64_id. lia. }
      destruct (mul_no_carry out (Decimal128_of_int64 (kPowersOfTen group)) Hw Hmh)
        as [Hw1 Hv1].
      { rewrite Hml. lia. }
      { rewrite Hml. exact Hpl. }
      rewrite Hml in Hv1.
      destruct (add_spec _ _ Hw1 Hwc) as [Hw2 Hv2].
      rewrite Hv1, Hc, wrap_s128_add_l in Hv2.
      destruct (IH rest _ Hrd ltac:(lia) Hw2) as (out' & Hloop & Hw' & Hv').
      exists out'. split; [exact Hloop|]. split; [exact Hw'|].
      rewrite Hv', Hv2, wrap_s128_mul_add. f_equal.
      assert (Hsv : digits_value str 0
                    = digits_value chunk 0 * 10 ^ Z.of_nat (String.length rest)
                      + digits_value rest 0).
      { rewrite (substring_split str group ltac:(lia)) at 1. apply digits_value_app. }
      assert (Hsl : Z.of_nat (String.length str)
                    = Z.of_nat group + Z.of_nat (String.length rest)) by lia.
      rewrite Hsv, Hsl, Z.pow_add_r by lia. unfold kPowersOfTen. ring.
Qed.

(** ** [FromString] *)

Lemma FromString_unfold (s : string) :
  FromString s =
  match s with
  | EmptyString => ParseInvalid "Empty string cannot be converted to decimal"
  | String first_char rest =>
      let signed := Ascii.eqb first_char "+" || Ascii.eqb first_char "-" in
      let is_negative := signed && Ascii.eqb first_char "-" in
      let charp := if signed then rest else s in
      match charp with
      | EmptyString =>
          ParseInvalid (quote_char "Single character: '" first_char
                          "' is not a valid decimal value")
      | String _ _ => parse_body is_negative charp
      end
  end.
Proof. reflexivity. Qed.

Lemma find_if_not_zeros (n : nat) (rest : string) :
  find_if_not is_zero_char (append (replicate n "0") rest)
  = find_if_not is_zero_char rest.
Proof. induction n; cbn [replicate append find_if_not]; [reflexivity | exact IHn]. Qed.

Lemma find_if_not_digits (ds rest : string) :
  all_digits ds = true ->
  find_if_not isdigit (append ds rest) = find_if_not isdigit rest.
Proof.
  induction ds as [|c ds IH]; cbn [all_digits append find_if_not]; [reflexivity|].
  intros H. apply andb_prop in H. destruct H as [Hc Hs]. rewrite Hc. apply IH, Hs.
Qed.

Lemma find_if_not_stops (pred : ascii -> bool) (s : string) :
  stops pred s = true -> find_if_not pred s = s.
Proof.
  destruct s as [|c s]; cbn [stops find_if_not]; [reflexivity|].
  intros H. apply negb_true_iff in H. rewrite H. reflexivity.
Qed.

Lemma substring_prefix_app (a c : string) :
  substring 0 (String.length a) (append a c) = a.
Proof.
  induction a as [|x a IH]; cbn [String.length append substring].
  - destruct c; reflexivity.
  - rewrite IH. reflexivity.
Qed.

Lemma range_prefix (a c : string) : range (append a c) c = a.
Proof.
  unfold range. rewrite length_append.
  replace (String.length a + String.length c - String.length c)%nat
    with (String.length a) by lia.
  apply substring_prefix_app.
Qed.

Lemma match_nonempty {A : Type} (s : string) (x y : A) :
  s <> EmptyString ->
  match s with EmptyString => x | String _ _ => y end = y.
Proof. destruct s; [congruence | reflexivity]. Qed.

Lemma stol_signed (es ed : string) :
  sign_ok es = true -> digits_ok ed = true ->
  - 2 ^ 63 <= expo_value es ed < 2 ^ 63 ->
  stol (append es ed) = Some (expo_value es ed).
Proof.
  intros Hes Hed Hr. unfold expo_value in *.
  destruct ed as [|d ed]; [discriminate|]. cbn [digits_ok] in Hed.
  pose proof Hed as Hd. cbn [all_digits] in Hd. apply andb_prop in Hd.
  destruct Hd as [Hd _].
  unfold sign_ok in Hes.
  destruct (String.eqb_spec es "") as [-> | _].
  - cbn [append String.eqb] in *. unfold stol.
    rewrite (isdigit_not_minus d Hd), (isdigit_not_plus d Hd).
    replace ((- 2 ^ 63 <=? digits_value (String d ed) 0)
             && (digits_value (String d ed) 0 <? 2 ^ 63)) with true; [reflexivity|].
    symmetry. apply andb_true_intro. split; [apply Z.leb_le | apply Z.ltb_lt]; lia.
  - destruct (String.eqb_spec es "+") as [-> | _].
    + cbn [append String.eqb Ascii.eqb Bool.eqb] in *. unfold stol.
      change (Ascii.eqb "+" "-") with false. change (Ascii.eqb "+" "+") with true.
      cbv iota.
      replace ((- 2 ^ 63 <=? digits_value (String d ed) 0)
               && (digits_value (String d ed) 0 <? 2 ^ 63)) with true; [reflexivity|].
      symmetry. apply andb_true_intro. split; [apply Z.leb_le | apply Z.ltb_lt]; lia.
    + destruct (String.eqb_spec es "-") as [-> | _]; [|discriminate].
      unfold stol. cbn [append]. change (Ascii.eqb "-" "-") with true. cbv iota.
      replace ((- 2 ^ 63 <=? - digits_value (String d ed) 0)
               && (- digits_value (String d ed) 0 <? 2 ^ 63)) with true; [reflexivity|].
      symmetry. apply andb_true_intro. split; [apply Z.leb_le | apply Z.ltb_lt]; lia.
Qed.

Lemma exponent_scan (es ed : string) :
  sign_ok es = true -> digits_ok ed = true ->
  find_if_not isdigit
    (if Ascii.eqb (char_at (append es ed) 0) "+"
        || Ascii.eqb (char_at (append es ed) 0) "-"
     then substring 1 (String.length (append es ed) - 1) (append es ed)
     else append es ed)
  = EmptyString.
Proof.
  intros Hes Hed.
  destruct ed as [|d ed]; [discriminate|]. cbn [digits_ok] in Hed.
  assert (Hall : find_if_not isdigit (String d ed) = EmptyString).
  { rewrite <- (append_nil_r (String d ed)).
    rewrite find_if_not_digits by exact Hed. reflexivity. }
  pose proof Hed as Hd. cbn [all_digits] in Hd. apply andb_prop in Hd.
  destruct Hd as [Hd _].
  unfold sign_ok in Hes.
  destruct (String.eqb_spec es "") as [-> | _].
  - cbn [append char_at String.get].
    rewrite (isdigit_not_minus d Hd), (isdigit_not_plus d Hd). exact Hall.
  - destruct (String.eqb_spec es "+") as [-> | _].
    + cbn [append char_at String.get String.length Nat.sub substring].
      change (Ascii.eqb "+" "+") with true. cbn [orb].
      rewrite ?Nat.sub_0_r.
      change (String d (substring 0 (String.length ed) ed))
        with (substring 0 (String.length (String d ed)) (String d ed)).
      rewrite substring_all. exact Hall.
    + destruct (String.eqb_spec es "-") as [-> | _]; [|discriminate].
      cbn [append char_at String.get String.length Nat.sub substring].
      change (Ascii.eqb "-" "+") with false. change (Ascii.eqb "-" "-") with true.
      cbn [orb]. rewrite ?Nat.sub_0_r.
      change (String d (substring 0 (String.length ed) ed))
        with (substring 0 (String.length (String d ed)) (String d ed)).
      rewrite substring_all. exact Hall.
Qed.

Lemma FromString_sign (sign body : string) (c : ascii) (tl : string) :
  sign_ok sign = true -> body = String c tl ->
  Ascii.eqb c "+" = false -> Ascii.eqb c "-" = false ->
  FromString (append sign body) = parse_body (String.eqb sign "-") body.
Proof.
  intros Hs Hb Hp Hm. rewrite FromString_unfold. unfold sign_ok in Hs.
  destruct (String.eqb_spec sign "") as [-> | _].
  - cbn [append]. rewrite Hb. cbv zeta. rewrite Hp, Hm. reflexivity.
  - destruct (String.eqb_spec sign "+") as [-> | _].
    + cbn [append]. rewrite Hb. reflexivity.
    + destruct (String.eqb_spec sign "-") as [-> | _]; [|discriminate].
      cbn [append]. rewrite Hb. reflexivity.
Qed.

Lemma parse_body_spec (neg : bool) (zeros : nat) (whole : string)
    (frac : option string) (expo : option (ascii * string * string)) :
  pieces_ok "" whole frac expo = true ->
  precision_spec whole frac < 2 ^ 31 ->
  - 2 ^ 31 <= scale_spec whole frac expo < 2 ^ 31 ->
  exists out,
    parse_body neg
      (append (replicate zeros "0")
         (append whole (append (frac_text frac) (expo_text expo))))
    = ParseOK (if neg then Negate out else out)
        (precision_spec whole frac) (scale_spec whole frac expo) /\
    wf out /\
    to_Z out = wrap_s128 (digits_value (append whole (frac_digits frac)) 0).
Proof.
  intros Hok Hprec Hscale. unfold pieces_ok in Hok.
  repeat (apply andb_prop in Hok; destruct Hok as [Hok ?H]).
  clear Hok. rename H into Hnonempty, H0 into Hexpo, H1 into Hfrac, H2 into Hwz, H3 into Hwd.
  set (fe := append (frac_text frac) (expo_text expo)).
  assert (Hfe_stop : stops isdigit fe = true).
  { subst fe. destruct frac as [f|]; [reflexivity|].
    destruct expo as [[[m es] ed]|]; [|reflexivity].
    rewrite andb_false_r in Hexpo. discriminate. }
  assert (Hrest1 : append whole fe <> EmptyString).
  { destruct whole; [|discriminate]. cbn [String.eqb negb orb] in Hnonempty.
    subst fe. destruct frac; [discriminate | discriminate]. }
  assert (Hrest1_stop : stops is_zero_char (append whole fe) = true).
  { destruct whole as [|c w]; [|exact Hwz].
    subst fe. cbn [append]. destruct frac as [f|]; [reflexivity|].
    cbn [String.eqb negb orb] in Hnonempty. discriminate. }
  unfold parse_body. cbv zeta.
  rewrite find_if_not_zeros, (find_if_not_stops _ _ Hrest1_stop).
  rewrite (match_nonempty (append whole fe)) by exact Hrest1.
  rewrite (find_if_not_digits whole fe Hwd), (find_if_not_stops _ _ Hfe_stop).
  rewrite range_prefix.
  assert (Hsti : forall ds, all_digits ds = true ->
            exists out, StringToInteger (append whole ds) (Decimal128_of_int64 0) = Some out /\
                        wf out /\
                        to_Z out = wrap_s128 (digits_value (append whole ds) 0)).
  { intros ds Hds. unfold StringToInteger.
    destruct (of_int64_spec 0 ltac:(lia)) as [Hw0 Hz0].
    destruct (StringToInteger_loop_spec (String.length (append whole ds)) (append whole ds)
                (Decimal128_of_int64 0)) as (out & Hl & Hw & Hv).
    - rewrite all_digits_app, Hwd, Hds. reflexivity.
    - lia.
    - exact Hw0.
    - exists out. split; [exact Hl|]. split; [exact Hw|].
      rewrite Hv, Hz0, Z.mul_0_l, Z.add_0_l. reflexivity. }
  assert (Hp32 : wrap_s32 (precision_spec whole frac) = precision_spec whole frac).
  { apply wrap_s32_id. unfold precision_spec in *. lia. }
  destruct frac as [f|].
  - destruct f as [|d f']; [discriminate|]. cbn [digits_ok] in Hfrac.
    pose proof Hfrac as Hdd. cbn [all_digits] in Hdd. apply andb_prop in Hdd.
    destruct Hdd as [Hdd _].
    subst fe. cbn [frac_text append]. rewrite Hdd.
    change (String d (append f' (expo_text expo)))
      with (append (String d f') (expo_text expo)).
    set (f := String d f') in *.
    assert (Het_stop : stops isdigit (expo_text expo) = true).
    { destruct expo as [[[m es] ed]|]; [|reflexivity]. cbn [expo_text stops].
      repeat (apply andb_prop in Hexpo; destruct Hexpo as [Hexpo ?H]).
      apply orb_prop in Hexpo.
      destruct Hexpo as [Hm | Hm]; apply Ascii.eqb_eq in Hm; subst m; reflexivity. }
    rewrite (find_if_not_digits f _ Hfrac), (find_if_not_stops _ _ Het_stop).
    rewrite range_prefix.
    destruct (Hsti f Hfrac) as (out & Hout & Hwout & Hvout).
    rewrite Hout. exists out.
    unfold precision_spec, frac_digits in Hp32 |- *. rewrite Hp32.
    split; [|split; [exact Hwout | exact Hvout]].
    destruct expo as [[[m es] ed]|].
    + cbn [expo_text].
      repeat (apply andb_prop in Hexpo; destruct Hexpo as [Hexpo ?H]).
      rename H into Hfr, H0 into Hed, H1 into Hes.
      assert (Hbad : negb (Ascii.eqb m "E") && negb (Ascii.eqb m "e") = false).
      { apply orb_prop in Hexpo.
        destruct Hexpo as [Hm | Hm]; apply Ascii.eqb_eq in Hm; subst m; reflexivity. }
      rewrite Hbad, (exponent_scan es ed Hes Hed).
      unfold scale_spec, precision_spec, frac_digits in Hscale, Hprec |- *.
      set (len := Z.of_nat (String.length whole + String.length f)) in *.
      assert (Hlen : 1 <= len).
      { subst len f. cbn [String.length]. lia. }
      rewrite (stol_signed es ed Hes Hed) by lia.
      f_equal.
      set (e := expo_value es ed) in *.
      rewrite <- (wrap_s32_id (- e + len - 1)) by lia. zwrap.
    + cbn [expo_text]. unfold scale_spec, frac_digits.
      f_equal. apply wrap_s32_id. unfold precision_spec, frac_digits in Hprec. lia.
  - destruct expo as [[[m es] ed]|].
    + rewrite andb_false_r in Hexpo. discriminate.
    + subst fe. cbn [frac_text expo_text append find_if_not range String.length
                       Nat.sub substring].
      destruct (Hsti EmptyString eq_refl) as (out & Hout & Hwout & Hvout).
      rewrite Hout. exists out.
      unfold precision_spec, scale_spec, frac_digits in Hp32 |- *.
      cbn [String.length] in Hp32 |- *. rewrite Hp32.
      split; [reflexivity|]. split; [exact Hwout | exact Hvout].
Qed.
Lemma pieces_ok_sign (sign whole : string) (frac : option string)
    (expo : option (ascii * string * string)) :
  pieces_ok sign whole frac expo = true ->
  sign_ok sign = true /\ pieces_ok "" whole frac expo = true.
Proof.
  unfold pieces_ok. change (sign_ok "") with true.
  destruct (sign_ok sign); [|discriminate]. intros H. split; [reflexivity | exact H].
Qed.

Lemma body_head (zeros : nat) (whole : string) (frac : option string)
    (expo : option (ascii * string * string)) :
  pieces_ok "" whole frac expo = true ->
  exists c tl,
    append (replicate zeros "0")
      (append whole (append (frac_text frac) (expo_text expo))) = String c tl /\
    Ascii.eqb c "+" = false /\ Ascii.eqb c "-" = false.
Proof.
  intros Hok. unfold pieces_ok in Hok.
  repeat (apply andb_prop in Hok; destruct Hok as [Hok ?H]).
  destruct zeros as [|n].
  - cbn [replicate append]. destruct whole as [|c w].
    + destruct frac as [f|]; [|discriminate].
      cbn [frac_text append]. eexists _, _. split; [reflexivity|]. split; reflexivity.
    + cbn [all_digits] in H3. apply andb_prop in H3. destruct H3 as [Hc _].
      cbn [append]. eexists _, _. split; [reflexivity|].
      split; [apply isdigit_not_plus | apply isdigit_not_minus]; exact Hc.
  - cbn [replicate append]. eexists _, _. split; [reflexivity|]. split; reflexivity.
Qed.

(** C8, as stated, fails: the exponent and the scale are cut to 32 bits, so
    1.0E4294967296 is read with exponent 0 and scale 1; and the value is kept
    modulo 2^128, so the 39-digit text of 2^128 is read as 0. *)
Lemma FromString_claim_fails_on_wide_inputs :
  ~ FromString_claim "" 0 "1" (Some "0"%string) (Some ("E"%char, ""%string, "4294967296"%string)) /\
  ~ FromString_claim "" 0 "340282366920938463463374607431768211456" None None.
Proof.
  split; intros H.
  - destruct (H (Decimal128_of_halves 0 10) 2 1 ltac:(vm_compute; reflexivity))
      as (_ & Hs & _).
    vm_compute in Hs. discriminate.
  - destruct (H (Decimal128_of_halves 0 0) 39 0 ltac:(vm_compute; reflexivity))
      as (_ & _ & Hv).
    vm_compute in Hv. discriminate.
Qed.

(** C8 (amended): for a text made of a sign, leading zeros, a whole part, a
    fraction and an exponent, with fewer than 2^31 digits and a scale
    [- exp + precision - 1] that fits 32 bits, [FromString] returns OK with
    the precision [|whole| + |fraction|], the scale [|fraction|] without an
    exponent and [- exp + precision - 1] with one, and the value of the digit
    string, negated after a minus sign, reduced modulo 2^128 (so the value
    itself when it fits 128 bits). *)
Theorem FromString_outputs (sign : string) (zeros : nat) (whole : string)
    (frac : option string) (expo : option (ascii * string * string)) :
  pieces_ok sign whole frac expo = true ->
  precision_spec whole frac < 2 ^ 31 ->
  - 2 ^ 31 <= scale_spec whole frac expo < 2 ^ 31 ->
  exists out,
    FromString (decimal_text sign zeros whole frac expo)
    = ParseOK out (precision_spec whole frac) (scale_spec whole frac expo) /\
    wf out /\
    to_Z out = wrap_s128 (value_spec sign whole frac) /\
    (- 2 ^ 127 <= value_spec sign whole frac < 2 ^ 127 ->
     to_Z out = value_spec sign whole frac).
Proof.
  intros Hok Hprec Hscale.
  destruct (pieces_ok_sign _ _ _ _ Hok) as [Hsign Hok'].
  destruct (body_head zeros whole frac expo Hok') as (c & tl & Hbody & Hp & Hm).
  destruct (parse_body_spec (String.eqb sign "-") zeros whole frac expo Hok' Hprec Hscale)
    as (out & Hparse & Hw & Hv).
  unfold decimal_text. rewrite (FromString_sign sign _ c tl Hsign Hbody Hp Hm), Hparse.
  assert (Hres : wf (if String.eqb sign "-" then Negate out else out) /\
                 to_Z (if String.eqb sign "-" then Negate out else out)
                 = wrap_s128 (value_spec sign whole frac)).
  { unfold value_spec. cbv zeta. destruct (String.eqb sign "-").
    - destruct (Negate_spec out Hw) as [Hwn Hvn]. split; [exact Hwn|].
      rewrite Hvn, Hv. apply wrap_s128_opp.
    - split; [exact Hw | exact Hv]. }
  destruct Hres as [Hwr Hvr].
  eexists. split; [reflexivity|]. split; [exact Hwr|]. split; [exact Hvr|].
  intros Hfit. rewrite Hvr. apply wrap_s128_id. exact Hfit.
Qed.

Lemma FromString_outputs_witness :
  exists out,
    FromString "-00123.4500E-10"
    = ParseOK out 7 16 /\
    wf out /\ to_Z out = - 1234500.
Proof.
  destruct (FromString_outputs "-" 2 "123" (Some "4500"%string)
              (Some ("E"%char, "-"%string, "10"%string)))
    as (out & Hout & Hw & _ & Hv).
  - reflexivity.
  - vm_compute. reflexivity.
  - vm_compute. split; [discriminate | reflexivity].
  - exists out. split; [exact Hout|]. split; [exact Hw|].
    apply Hv. vm_compute. split; [discriminate | reflexivity].
Defined.

(** * Further properties *)

(** ** Comparisons *)

Lemma Decimal128_ltb_to_Z (l r : Decimal128) :
  wf l -> wf r -> Decimal128_ltb l r = (to_Z l <? to_Z r).
Proof.
  intros [Hlh Hll] [Hrh Hrl]. unfold Decimal128_ltb, to_Z.
  destruct (Z.ltb_spec (high_bits l) (high_bits r)) as [Hlt | Hge].
  - cbn [orb]. symmetry. apply Z.ltb_lt. nia.
  - cbn [orb]. destruct (Z.eqb_spec (high_bits l) (high_bits r)) as [He | Hne].
    + cbn [andb]. rewrite He.
      destruct (Z.ltb_spec (low_bits l) (low_bits r));
        symmetry; [apply Z.ltb_lt | apply Z.ltb_ge]; lia.
    + cbn [andb]. symmetry. apply Z.ltb_ge. nia.
Qed.

Lemma Decimal128_eqb_to_Z (l r : Decimal128) :
  wf l -> wf r -> Decimal128_eqb l r = (to_Z l =? to_Z r).
Proof.
  intros [Hlh Hll] [Hrh Hrl]. unfold Decimal128_eqb, to_Z.
  destruct (Z.eqb_spec (high_bits l) (high_bits r)) as [He | Hne].
  - cbn [andb]. rewrite He.
    destruct (Z.eqb_spec (low_bits l) (low_bits r));
      symmetry; [apply Z.eqb_eq | apply Z.eqb_neq]; lia.
  - cbn [andb]. symmetry. apply Z.eqb_neq. nia.
Qed.

(** X1: [operator<] and [operator>] are the strict order of the signed 128-bit
    values the operands denote. *)
Theorem lt_gt_signed_order (l r : Decimal128) :
  wf l -> wf r ->
  Decimal128_ltb l r = (to_Z l <? to_Z r) /\
  Decimal128_gtb l r = (to_Z l >? to_Z r).
Proof.
  intros Hl Hr. split; [apply Decimal128_ltb_to_Z; assumption|].
  unfold Decimal128_gtb. rewrite (Decimal128_ltb_to_Z r l Hr Hl).
  symmetry. apply Z.gtb_ltb.
Qed.

Lemma lt_gt_signed_order_witness :
  Decimal128_ltb (of_Z (-1)) (of_Z 5) = (to_Z (of_Z (-1)) <? to_Z (of_Z 5)) /\
  Decimal128_gtb (of_Z (-1)) (of_Z 5) = (to_Z (of_Z (-1)) >? to_Z (of_Z 5)).
Proof.
  apply lt_gt_signed_order; unfold wf; vm_compute; intuition discriminate.
Defined.

(** X2: [operator<=] and [operator>=] are the non-strict order of the values. *)
Theorem le_ge_signed_order (l r : Decimal128) :
  wf l -> wf r ->
  Decimal128_leb l r = (to_Z l <=? to_Z r) /\
  Decimal128_geb l r = (to_Z l >=? to_Z r).
Proof.
  intros Hl Hr. unfold Decimal128_leb, Decimal128_gtb, Decimal128_geb.
  rewrite (Decimal128_ltb_to_Z r l Hr Hl), (Decimal128_ltb_to_Z l r Hl Hr).
  rewrite Z.geb_leb, !Z.leb_antisym. split; reflexivity.
Qed.

Lemma le_ge_signed_order_witness :
  Decimal128_leb (of_Z (-1)) (of_Z 5) = (to_Z (of_Z (-1)) <=? to_Z (of_Z 5)) /\
  Decimal128_geb (of_Z (-1)) (of_Z 5) = (to_Z (of_Z (-1)) >=? to_Z (of_Z 5)).
Proof.
  apply le_ge_signed_order; unfold wf; vm_compute; intuition discriminate.
Defined.

(** X3: [operator==] holds exactly for equal values, that is for identical
    operands, and [operator!=] is its negation. *)
Theorem eq_ne_same_value (l r : Decimal128) :
  wf l -> wf r ->
  Decimal128_eqb l r = (to_Z l =? to_Z r) /\
  (Decimal128_eqb l r = true <-> l = r) /\
  (Decimal128_neqb l r = true <-> l <> r).
Proof.
  intros Hl Hr. pose proof (Decimal128_eqb_to_Z l r Hl Hr) as He.
  assert (Hiff : Decimal128_eqb l r = true <-> l = r).
  { rewrite He, Z.eqb_eq. split; [apply to_Z_inj; assumption | intros ->; reflexivity]. }
  split; [exact He|]. split; [exact Hiff|].
  unfold Decimal128_neqb. rewrite negb_true_iff, <- Hiff.
  destruct (Decimal128_eqb l r); split; congruence.
Qed.

Lemma eq_ne_same_value_witness :
  Decimal128_eqb (of_Z 7) (of_Z (-7)) = (to_Z (of_Z 7) =? to_Z (of_Z (-7))) /\
  (Decimal128_eqb (of_Z 7) (of_Z (-7)) = true <-> of_Z 7 = of_Z (-7)) /\
  (Decimal128_neqb (of_Z 7) (of_Z (-7)) = true <-> of_Z 7 <> of_Z (-7)).
Proof.
  apply eq_ne_same_value; unfold wf; vm_compute; intuition discriminate.
Defined.

(** ** Negation, addition and subtraction *)

Lemma of_halves_id (d : Decimal128) :
  wf d -> Decimal128_of_halves (high_bits d) (low_bits d) = d.
Proof.
  destruct d as [h l]. unfold wf, Decimal128_of_halves. cbn [high_bits low_bits].
  intros [Hh Hl]. rewrite wrap_s64_id, wrap_u64_id by lia. reflexivity.
Qed.

Lemma sub_spec (l r : Decimal128) :
  wf l -> wf r -> wf (sub l r) /\ to_Z (sub l r) = wrap_s128 (to_Z l - to_Z r).
Proof.
  destruct l as [lh ll], r as [rh rl]. unfold wf, sub, to_Z.
  cbn [high_bits low_bits]. intros [Hlh Hll] [Hrh Hrl].
  pose proof (wrap_u64_range (ll - rl)) as Hdiff.
  pose proof (wrap_s64_range (lh - rh)) as Hh.
  pose proof (wrap_s64_range (wrap_s64 (lh - rh) - 1)) as Hh1.
  destruct (Z.ltb_spec ll (wrap_u64 (ll - rl))) as [Hc | Hc]; cbn [high_bits low_bits].
  - split; [lia|]. revert Hc. clear Hdiff Hh Hh1. zwrap.
  - split; [lia|]. revert Hc. clear Hdiff Hh Hh1. zwrap.
Qed.

(** X4: [Negate] and unary [operator-] give the negated value modulo 2^128: the
    negation itself except for -2^127, which stays; negating twice gives the
    operand back. *)
Theorem op_neg_value (d : Decimal128) :
  wf d ->
  op_neg d = Negate d /\ wf (Negate d) /\
  to_Z (Negate d) = (if to_Z d =? - 2 ^ 127 then - 2 ^ 127 else - to_Z d) /\
  Negate (Negate d) = d.
Proof.
  intros Hw. pose proof (to_Z_range d Hw) as Hr.
  destruct (Negate_spec d Hw) as [Hwn Hn].
  destruct (Negate_spec (Negate d) Hwn) as [Hwnn Hnn].
  split; [unfold op_neg; rewrite (of_halves_id d Hw); reflexivity|].
  split; [exact Hwn|]. split.
  - rewrite Hn. destruct (Z.eqb_spec (to_Z d) (- 2 ^ 127)) as [-> | Hne].
    + reflexivity.
    + apply wrap_s128_id. lia.
  - apply to_Z_inj; [exact Hwnn | exact Hw|].
    rewrite Hnn, Hn, wrap_s128_opp, Z.opp_involutive. apply wrap_s128_id. exact Hr.
Qed.

Lemma op_neg_value_witness :
  to_Z (Negate (of_Z 42)) = -42 /\ Negate (Negate (of_Z 42)) = of_Z 42.
Proof.
  assert (Hw : wf (of_Z 42)) by (unfold wf; vm_compute; intuition discriminate).
  destruct (op_neg_value (of_Z 42) Hw) as (_ & _ & Hv & Hi).
  split; [exact Hv | exact Hi].
Defined.

(** X5: [Abs] gives the absolute value, except that -2^127 stays as it is (still
    negative); applying it twice changes nothing more. *)
Theorem Abs_value (d : Decimal128) :
  wf d ->
  wf (Abs d) /\
  to_Z (Abs d) = (if to_Z d =? - 2 ^ 127 then - 2 ^ 127 else Z.abs (to_Z d)) /\
  Abs (Abs d) = Abs d.
Proof.
  intros Hw. pose proof (to_Z_range d Hw) as Hr.
  destruct (Negate_spec d Hw) as [Hwn Hn].
  assert (Hwa : wf (Abs d)).
  { unfold Abs. destruct (Decimal128_ltb d (Decimal128_of_int64 0)); assumption. }
  assert (Hva : to_Z (Abs d) = if to_Z d =? - 2 ^ 127 then - 2 ^ 127 else Z.abs (to_Z d)).
  { unfold Abs. rewrite (ltb_zero_spec d Hw).
    destruct (Z.eqb_spec (to_Z d) (- 2 ^ 127)) as [He | Hne].
    - rewrite He. cbn [Z.ltb Z.compare Z.opp Z.pow Z.pow_pos Pos.iter Z.mul Pos.mul].
      rewrite Hn, He. reflexivity.
    - destruct (Z.ltb_spec (to_Z d) 0).
      + rewrite Hn, wrap_s128_id by lia. lia.
      + lia. }
  split; [exact Hwa|]. split; [exact Hva|].
  unfold Abs at 1. rewrite (ltb_zero_spec (Abs d) Hwa), Hva.
  destruct (Z.eqb_spec (to_Z d) (- 2 ^ 127)) as [He | Hne].
  - replace (- 2 ^ 127 <? 0) with true by reflexivity.
    apply to_Z_inj; [apply Negate_spec; exact Hwa | exact Hwa|].
    destruct (Negate_spec (Abs d) Hwa) as [_ Hna]. rewrite Hna, Hva.
    destruct (Z.eqb_spec (to_Z d) (- 2 ^ 127)); [reflexivity | contradiction].
  - replace (Z.abs (to_Z d) <? 0) with false by (symmetry; apply Z.ltb_ge; lia).
    reflexivity.
Qed.

Lemma Abs_value_witness :
  to_Z (Abs (of_Z (-42))) = 42 /\ Abs (Abs (of_Z (-42))) = Abs (of_Z (-42)).
Proof.
  assert (Hw : wf (of_Z (-42))) by (unfold wf; vm_compute; intuition discriminate).
  destruct (Abs_value (of_Z (-42)) Hw) as (_ & Hv & Hi).
  split; [exact Hv | exact Hi].
Defined.

(** X6: [operator+=], [operator+], [operator-=] and [operator-] give the sum and
    the difference of the values modulo 2^128. *)
Theorem add_sub_value (l r : Decimal128) :
  wf l -> wf r ->
  op_add l r = add l r /\ op_sub l r = sub l r /\
  wf (add l r) /\ to_Z (add l r) = wrap_s128 (to_Z l + to_Z r) /\
  wf (sub l r) /\ to_Z (sub l r) = wrap_s128 (to_Z l - to_Z r).
Proof.
  intros Hl Hr. unfold op_add, op_sub. rewrite (of_halves_id l Hl).
  destruct (add_spec l r Hl Hr) as [Hwa Hva], (sub_spec l r Hl Hr) as [Hws Hvs].
  repeat (split; [first [reflexivity | assumption]|]). exact Hvs.
Qed.

Lemma add_sub_value_witness :
  to_Z (add (of_Z (2 ^ 127 - 1)) (of_Z 1)) = wrap_s128 (to_Z (of_Z (2 ^ 127 - 1)) + to_Z (of_Z 1)) /\
  to_Z (sub (of_Z (2 ^ 127 - 1)) (of_Z 1)) = wrap_s128 (to_Z (of_Z (2 ^ 127 - 1)) - to_Z (of_Z 1)).
Proof.
  assert (Hl : wf (of_Z (2 ^ 127 - 1))) by (unfold wf; vm_compute; intuition discriminate).
  assert (Hr : wf (of_Z 1)) by (unfold wf; vm_compute; intuition discriminate).
  destruct (add_sub_value _ _ Hl Hr) as (_ & _ & _ & Ha & _ & Hs).
  split; [exact Ha | exact Hs].
Defined.

(** X7: Subtraction undoes addition and addition undoes subtraction, also across
    a wrap-around; subtracting is adding the negation. *)
Theorem add_sub_inverse (l r : Decimal128) :
  wf l -> wf r ->
  sub (add l r) r = l /\ add (sub l r) r = l /\ sub l r = add l (Negate r).
Proof.
  intros Hl Hr.
  destruct (add_spec l r Hl Hr) as [Hwa Hva], (sub_spec l r Hl Hr) as [Hws Hvs].
  destruct (Negate_spec r Hr) as [Hwn Hvn].
  pose proof (to_Z_range l Hl) as Hlr.
  split; [|split].
  - apply to_Z_inj; [apply sub_spec; assumption | exact Hl|].
    destruct (sub_spec (add l r) r Hwa Hr) as [_ ->]. rewrite Hva.
    rewrite <- Z.add_opp_r, wrap_s128_add_l.
    replace (to_Z l + to_Z r + - to_Z r) with (to_Z l) by lia.
    apply wrap_s128_id. exact Hlr.
  - apply to_Z_inj; [apply add_spec; assumption | exact Hl|].
    destruct (add_spec (sub l r) r Hws Hr) as [_ ->]. rewrite Hvs.
    rewrite wrap_s128_add_l.
    replace (to_Z l - to_Z r + to_Z r) with (to_Z l) by lia.
    apply wrap_s128_id. exact Hlr.
  - apply to_Z_inj; [exact Hws | apply add_spec; assumption|].
    destruct (add_spec l (Negate r) Hl Hwn) as [_ ->]. rewrite Hvs, Hvn.
    rewrite (Z.add_comm (to_Z l)), wrap_s128_add_l. f_equal. lia.
Qed.

Lemma add_sub_inverse_witness :
  sub (add (of_Z (2 ^ 127 - 1)) (of_Z 5)) (of_Z 5) = of_Z (2 ^ 127 - 1).
Proof.
  assert (Hl : wf (of_Z (2 ^ 127 - 1))) by (unfold wf; vm_compute; intuition discriminate).
  assert (Hr : wf (of_Z 5)) by (unfold wf; vm_compute; intuition discriminate).
  destruct (add_sub_inverse _ _ Hl Hr) as (H & _ & _). exact H.
Defined.

(** ** Bitwise operators and shifts *)

Lemma swrap_testbit (m z i : Z) :
  0 <= m -> 0 <= i ->
  Z.testbit ((z + 2 ^ m) mod 2 ^ (m + 1) - 2 ^ m) i = Z.testbit z (Z.min i m).
Proof.
  intros Hm Hi.
  assert (HP : 0 < 2 ^ m) by (apply Z.pow_pos_nonneg; lia).
  assert (HP2 : 2 ^ (m + 1) = 2 * 2 ^ m) by (rewrite Z.pow_add_r by lia; lia).
  pose proof (Z.div_mod z (2 ^ m) ltac:(lia)) as Hz.
  pose proof (Z.mod_pos_bound z (2 ^ m) HP) as Hr.
  assert (Hbit : Z.testbit z m = Z.odd (z / 2 ^ m)).
  { rewrite Z.testbit_odd, Z.shiftr_div_pow2 by lia. reflexivity. }
  assert (Hval : (z + 2 ^ m) mod 2 ^ (m + 1) - 2 ^ m
                 = (if Z.testbit z m then -1 else 0) * 2 ^ m + z mod 2 ^ m).
  { rewrite Hbit, HP2.
    pose proof (Z.div_mod (z / 2 ^ m) 2 ltac:(lia)) as Hs.
    pose proof (Z.mod_pos_bound (z / 2 ^ m) 2 ltac:(lia)) as Hsb.
    rewrite Zodd_mod.
    set (P := 2 ^ m) in *. set (s := z / P) in *. set (r := z mod P) in *.
    set (t := s / 2) in *. set (b := s mod 2) in *. clearbody P s r t b.
    destruct (Z.eqb_spec b 1) as [Hb | Hb].
    - symmetry. replace (-1 * P + r) with (r - P) by lia. f_equal.
      apply (Z.mod_unique_pos _ _ (t + 1)); nia.
    - symmetry. replace (0 * P + r) with (r + P - P) by lia. f_equal.
      apply (Z.mod_unique_pos _ _ t); nia. }
  rewrite Hval, <- lor_disjoint by lia. rewrite Z.lor_spec.
  destruct (Z.min_spec i m) as [[Hlt ->] | [Hge ->]].
  - rewrite Z.mul_pow2_bits_low, Z.mod_pow2_bits_low by lia. reflexivity.
  - rewrite Z.mul_pow2_bits, Z.mod_pow2_bits_high by lia.
    rewrite orb_false_r. destruct (Z.testbit z m).
    + apply Z.bits_m1. lia.
    + apply Z.bits_0.
Qed.

Lemma wrap_s64_testbit (z i : Z) :
  0 <= i -> Z.testbit (wrap_s64 z) i = Z.testbit z (Z.min i 63).
Proof. intros Hi. apply (swrap_testbit 63 z i); lia. Qed.

Lemma wrap_s128_testbit (z i : Z) :
  0 <= i -> Z.testbit (wrap_s128 z) i = Z.testbit z (Z.min i 127).
Proof. intros Hi. apply (swrap_testbit 127 z i); lia. Qed.

Lemma wrap_u64_testbit (z i : Z) :
  0 <= i -> Z.testbit (wrap_u64 z) i = (i <? 64) && Z.testbit z i.
Proof.
  intros Hi. unfold wrap_u64. destruct (Z.ltb_spec i 64).
  - rewrite Z.mod_pow2_bits_low by lia. reflexivity.
  - rewrite Z.mod_pow2_bits_high by lia. reflexivity.
Qed.

Lemma u64_bits_high (l k : Z) : 0 <= l < 2 ^ 64 -> 64 <= k -> Z.testbit l k = false.
Proof.
  intros Hl Hk. rewrite <- (Z.mod_small l (2 ^ 64)) by lia.
  apply Z.mod_pow2_bits_high. lia.
Qed.

Lemma s64_bits_high (h k : Z) :
  - 2 ^ 63 <= h < 2 ^ 63 -> 63 <= k -> Z.testbit h k = Z.testbit h 63.
Proof.
  intros Hh Hk. rewrite <- (wrap_s64_id h Hh) at 1.
  rewrite wrap_s64_testbit by lia. f_equal. lia.
Qed.

Lemma to_Z_testbit (d : Decimal128) (i : Z) :
  wf d -> 0 <= i ->
  Z.testbit (to_Z d) i
  = if i <? 64 then Z.testbit (low_bits d) i else Z.testbit (high_bits d) (i - 64).
Proof.
  intros [Hh Hl] Hi. unfold to_Z. rewrite <- lor_disjoint by lia.
  rewrite Z.lor_spec. destruct (Z.ltb_spec i 64).
  - rewrite Z.mul_pow2_bits_low by lia. reflexivity.
  - rewrite Z.mul_pow2_bits by lia. rewrite (u64_bits_high _ i Hl) by lia.
    apply orb_false_r.
Qed.

Lemma u64_of_bits (z : Z) :
  (forall k, 0 <= k -> Z.testbit z k = (k <? 64) && Z.testbit z k) -> 0 <= z < 2 ^ 64.
Proof.
  intros H. assert (Hz : z = wrap_u64 z).
  { apply Z.bits_inj'. intros k Hk. rewrite wrap_u64_testbit by lia. apply H. exact Hk. }
  rewrite Hz. apply wrap_u64_range.
Qed.

Lemma s64_of_bits (z : Z) :
  (forall k, 63 <= k -> Z.testbit z k = Z.testbit z 63) -> - 2 ^ 63 <= z < 2 ^ 63.
Proof.
  intros H. assert (Hz : z = wrap_s64 z).
  { apply Z.bits_inj'. intros k Hk. rewrite wrap_s64_testbit by lia.
    destruct (Z.min_spec k 63) as [[Hlt ->] | [Hge ->]]; [reflexivity | apply H; lia]. }
  rewrite Hz. apply wrap_s64_range.
Qed.

Lemma or_and_wf (l r : Decimal128) :
  wf l -> wf r -> wf (or_assign l r) /\ wf (and_assign l r).
Proof.
  intros [Hlh Hll] [Hrh Hrl]. unfold wf, or_assign, and_assign. cbn [high_bits low_bits].
  repeat split.
  1, 2: apply s64_of_bits; intros k Hk; rewrite !Z.lor_spec;
        rewrite (s64_bits_high _ k Hlh Hk), (s64_bits_high _ k Hrh Hk); reflexivity.
  1, 2: apply u64_of_bits; intros k Hk; rewrite !Z.lor_spec;
        destruct (Z.ltb_spec k 64); [reflexivity|];
        rewrite (u64_bits_high _ k Hll), (u64_bits_high _ k Hrl) by lia; reflexivity.
  1, 2: apply s64_of_bits; intros k Hk; rewrite !Z.land_spec;
        rewrite (s64_bits_high _ k Hlh Hk), (s64_bits_high _ k Hrh Hk); reflexivity.
  1, 2: apply u64_of_bits; intros k Hk; rewrite !Z.land_spec;
        destruct (Z.ltb_spec k 64); [reflexivity|];
        rewrite (u64_bits_high _ k Hll), (u64_bits_high _ k Hrl) by lia; reflexivity.
Qed.

(** X8: [operator|=] and [operator&=] are the bitwise or and and of the two
    values in two's complement. *)
Theorem or_and_value (l r : Decimal128) :
  wf l -> wf r ->
  wf (or_assign l r) /\ to_Z (or_assign l r) = Z.lor (to_Z l) (to_Z r) /\
  wf (and_assign l r) /\ to_Z (and_assign l r) = Z.land (to_Z l) (to_Z r).
Proof.
  intros Hl Hr. destruct (or_and_wf l r Hl Hr) as [Hwo Hwa].
  split; [exact Hwo|]. split; [|split; [exact Hwa|]].
  - apply Z.bits_inj'. intros i Hi.
    rewrite Z.lor_spec, !to_Z_testbit by assumption.
    unfold or_assign. cbn [high_bits low_bits].
    destruct (i <? 64); apply Z.lor_spec.
  - apply Z.bits_inj'. intros i Hi.
    rewrite Z.land_spec, !to_Z_testbit by assumption.
    unfold and_assign. cbn [high_bits low_bits].
    destruct (i <? 64); apply Z.land_spec.
Qed.

Lemma or_and_value_witness :
  to_Z (or_assign (of_Z (-256)) (of_Z 15)) = Z.lor (to_Z (of_Z (-256))) (to_Z (of_Z 15)) /\
  to_Z (and_assign (of_Z (-256)) (of_Z 15)) = Z.land (to_Z (of_Z (-256))) (to_Z (of_Z 15)).
Proof.
  assert (Hl : wf (of_Z (-256))) by (unfold wf; vm_compute; intuition discriminate).
  assert (Hr : wf (of_Z 15)) by (unfold wf; vm_compute; intuition discriminate).
  destruct (or_and_value _ _ Hl Hr) as (_ & Ho & _ & Ha).
  split; [exact Ho | exact Ha].
Defined.

(** X9: [operator~] gives [- x - 1], the complement of every bit; complementing
    twice gives the operand back, and [Negate] is the complement plus one. *)
Theorem op_compl_value (d : Decimal128) :
  wf d ->
  wf (op_compl d) /\ to_Z (op_compl d) = - to_Z d - 1 /\
  op_compl (op_compl d) = d /\
  Negate d = add (op_compl d) (Decimal128_of_int64 1).
Proof.
  intros Hw. pose proof Hw as [Hh Hl].
  assert (Hc : op_compl d = mkDecimal128 (- high_bits d - 1) (2 ^ 64 - 1 - low_bits d)).
  { unfold op_compl, Decimal128_of_halves. rewrite !lnot_eq. f_equal; zwrap. }
  assert (Hwc : wf (op_compl d)).
  { rewrite Hc. unfold wf. cbn [high_bits low_bits]. lia. }
  assert (Hvc : to_Z (op_compl d) = - to_Z d - 1).
  { rewrite Hc. unfold to_Z. cbn [high_bits low_bits]. lia. }
  split; [exact Hwc|]. split; [exact Hvc|]. split.
  - apply to_Z_inj; [| exact Hw |].
    + unfold op_compl. apply of_halves_spec.
    + assert (Hcc : forall e, wf e -> to_Z (op_compl e) = - to_Z e - 1).
      { intros e [Heh Hel].
        unfold op_compl, Decimal128_of_halves, to_Z. cbn [high_bits low_bits].
        rewrite !lnot_eq. zwrap. }
      rewrite (Hcc _ Hwc), Hvc. lia.
  - destruct (of_int64_spec 1 ltac:(lia)) as [Hw1 Hv1].
    destruct (Negate_spec d Hw) as [Hwn Hvn].
    destruct (add_spec (op_compl d) (Decimal128_of_int64 1) Hwc Hw1) as [Hwa Hva].
    apply to_Z_inj; [exact Hwn | exact Hwa|].
    rewrite Hvn, Hva, Hvc, Hv1. f_equal. lia.
Qed.

Lemma op_compl_value_witness :
  to_Z (op_compl (of_Z 41)) = - to_Z (of_Z 41) - 1 /\
  op_compl (op_compl (of_Z 41)) = of_Z 41.
Proof.
  assert (Hw : wf (of_Z 41)) by (unfold wf; vm_compute; intuition discriminate).
  destruct (op_compl_value _ Hw) as (_ & Hv & Hi & _).
  split; [exact Hv | exact Hi].
Defined.

Lemma shl_testbit (d : Decimal128) (bits i : Z) :
  wf d -> 0 <= bits -> 0 <= i ->
  Z.testbit (wrap_s128 (to_Z d * 2 ^ bits)) i
  = if Z.min i 127 - bits <? 0 then false
    else if Z.min i 127 - bits <? 64 then Z.testbit (low_bits d) (Z.min i 127 - bits)
         else Z.testbit (high_bits d) (Z.min i 127 - bits - 64).
Proof.
  intros Hw Hb Hi. rewrite wrap_s128_testbit, Z.mul_pow2_bits by lia.
  destruct (Z.ltb_spec (Z.min i 127 - bits) 0) as [Hn | Hn].
  - apply Z.testbit_neg_r. exact Hn.
  - apply to_Z_testbit; assumption.
Qed.

(** X10: [operator<<=] multiplies the value by 2^bits modulo 2^128, for every
    shift count (a count of 128 or more gives zero). *)
Theorem shl_assign_value (d : Decimal128) (bits : Z) :
  wf d -> 0 <= bits ->
  wf (shl_assign d bits) /\
  to_Z (shl_assign d bits) = wrap_s128 (to_Z d * 2 ^ bits).
Proof.
  intros Hw Hb. pose proof Hw as [Hh Hl]. pose proof (to_Z_range d Hw) as Hr.
  unfold shl_assign.
  destruct (Z.eqb_spec bits 0) as [-> | Hb0]; cbn [negb].
  { split; [exact Hw|]. rewrite Z.mul_1_r. symmetry. apply wrap_s128_id. exact Hr. }
  destruct (Z.ltb_spec bits 64) as [H64 | H64].
  - match goal with |- wf ?r /\ _ => assert (Hwr : wf r) end.
    { split; cbn [high_bits low_bits]; [apply wrap_s64_range | apply wrap_u64_range]. }
    split; [exact Hwr|].
    apply Z.bits_inj'. intros i Hi.
    rewrite shl_testbit, to_Z_testbit by assumption. cbn [high_bits low_bits].
    destruct (Z.ltb_spec i 64) as [Hi64 | Hi64].
    + rewrite wrap_u64_testbit, Z.shiftl_spec by lia.
      replace (i <? 64) with true by (symmetry; apply Z.ltb_lt; lia). cbn [andb].
      rewrite Z.min_l by lia.
      destruct (Z.ltb_spec (i - bits) 0); [apply Z.testbit_neg_r; lia|].
      replace (i - bits <? 64) with true by (symmetry; apply Z.ltb_lt; lia).
      reflexivity.
    + rewrite wrap_s64_testbit, Z.lor_spec by lia.
      set (j := Z.min (i - 64) 63).
      assert (Hj : 0 <= j <= 63) by (subst j; lia).
      assert (Hk : Z.min i 127 - bits = j + 64 - bits) by (subst j; lia).
      rewrite Hk.
      rewrite wrap_u64_testbit, wrap_s64_testbit, Z.shiftl_spec, Z.shiftr_spec by lia.
      replace (j <? 64) with true by (symmetry; apply Z.ltb_lt; lia). cbn [andb].
      rewrite (Z.min_l j 63) by lia.
      replace (j + 64 - bits <? 0) with false by (symmetry; apply Z.ltb_ge; lia).
      replace (j + (64 - bits)) with (j + 64 - bits) by lia.
      destruct (Z.ltb_spec (j + 64 - bits) 64).
      * rewrite (Z.testbit_neg_r _ (j - bits)) by lia. reflexivity.
      * rewrite (u64_bits_high _ (j + 64 - bits) Hl) by lia.
        rewrite orb_false_r. f_equal. lia.
  - destruct (Z.ltb_spec bits 128) as [H128 | H128].
    + match goal with |- wf ?r /\ _ => assert (Hwr : wf r) end.
      { split; cbn [high_bits low_bits]; [apply wrap_s64_range | lia]. }
      split; [exact Hwr|].
      apply Z.bits_inj'. intros i Hi.
      rewrite shl_testbit, to_Z_testbit by assumption. cbn [high_bits low_bits].
      destruct (Z.ltb_spec i 64) as [Hi64 | Hi64].
      * rewrite Z.bits_0.
        replace (Z.min i 127 - bits <? 0) with true by (symmetry; apply Z.ltb_lt; lia).
        reflexivity.
      * rewrite wrap_s64_testbit, Z.shiftl_spec by lia.
        set (j := Z.min (i - 64) 63).
        assert (Hj : 0 <= j <= 63) by (subst j; lia).
        assert (Hk : Z.min i 127 - bits = j + 64 - bits) by (subst j; lia).
        rewrite Hk. replace (j - (bits - 64)) with (j + 64 - bits) by lia.
        destruct (Z.ltb_spec (j + 64 - bits) 0); [apply Z.testbit_neg_r; lia|].
        rewrite wrap_s64_testbit by lia.
        replace (j + 64 - bits <? 64) with true by (symmetry; apply Z.ltb_lt; lia).
        f_equal. lia.
    + split; [unfold wf; cbn [high_bits low_bits]; lia|].
      apply Z.bits_inj'. intros i Hi.
      rewrite shl_testbit by assumption.
      replace (Z.min i 127 - bits <? 0) with true by (symmetry; apply Z.ltb_lt; lia).
      apply Z.bits_0.
Qed.

Lemma shl_assign_value_witness :
  to_Z (shl_assign (of_Z (-3)) 70) = wrap_s128 (to_Z (of_Z (-3)) * 2 ^ 70).
Proof.
  assert (Hw : wf (of_Z (-3))) by (unfold wf; vm_compute; intuition discriminate).
  destruct (shl_assign_value (of_Z (-3)) 70 Hw ltac:(lia)) as [_ Hv]. exact Hv.
Defined.

Lemma sign_testbit (h m : Z) :
  - 2 ^ 63 <= h < 2 ^ 63 -> 0 <= m ->
  Z.testbit (if 0 <=? h then 0 else -1) m = Z.testbit h 63.
Proof.
  intros Hh Hm. destruct (Z.leb_spec 0 h) as [Hp | Hn].
  - rewrite Z.bits_0. symmetry.
    destruct (Z.eq_dec h 0) as [-> | Hne]; [apply Z.bits_0|].
    apply Z.bits_above_log2; [lia|]. apply Z.log2_lt_pow2; lia.
  - rewrite Z.bits_m1 by lia. symmetry.
    apply Z.bits_above_log2_neg; [lia|].
    destruct (Z.eq_dec (Z.pred (- h)) 0) as [-> | Hne]; [cbn; lia|].
    apply Z.log2_lt_pow2; lia.
Qed.

(** X11: [operator>>=] by fewer than 64 bits fills with zeros: it divides the
    unsigned 128-bit pattern; by 64 bits or more it fills with the sign: it
    divides the signed value, rounding down.  On a non-negative value both
    are the division by 2^bits. *)
Theorem shr_assign_value (d : Decimal128) (bits : Z) :
  wf d -> 0 <= bits ->
  wf (shr_assign d bits) /\
  to_Z (shr_assign d bits)
  = (if (0 <? bits) && (bits <? 64) then (to_Z d mod 2 ^ 128) / 2 ^ bits
     else to_Z d / 2 ^ bits) /\
  (0 <= to_Z d -> to_Z (shr_assign d bits) = to_Z d / 2 ^ bits).
Proof.
  intros Hw Hb. pose proof Hw as [Hh Hl]. pose proof (to_Z_range d Hw) as Hr.
  assert (Hmain : wf (shr_assign d bits) /\
                  to_Z (shr_assign d bits)
                  = (if (0 <? bits) && (bits <? 64) then (to_Z d mod 2 ^ 128) / 2 ^ bits
                     else to_Z d / 2 ^ bits)).
  2:{ destruct Hmain as [Hwr Hv]. split; [exact Hwr|]. split; [exact Hv|].
      intros Hpos. rewrite Hv. rewrite Z.mod_small by lia.
      destruct ((0 <? bits) && (bits <? 64)); reflexivity. }
  unfold shr_assign.
  destruct (Z.eqb_spec bits 0) as [-> | Hb0]; cbn [negb].
  { split; [exact Hw|]. cbn [Z.ltb Z.compare andb]. rewrite Z.div_1_r. reflexivity. }
  replace (0 <? bits) with true by (symmetry; apply Z.ltb_lt; lia). cbn [andb].
  destruct (Z.ltb_spec bits 64) as [H64 | H64].
  - match goal with |- wf ?r /\ _ => assert (Hwr : wf r) end.
    { split; cbn [high_bits low_bits]; [apply wrap_s64_range|].
      apply u64_of_bits. intros k Hk. destruct (Z.ltb_spec k 64); [reflexivity|].
      rewrite Z.lor_spec, Z.shiftr_spec, wrap_u64_testbit by lia.
      rewrite (u64_bits_high _ (k + bits) Hl) by lia.
      replace (k <? 64) with false by (symmetry; apply Z.ltb_ge; lia). reflexivity. }
    split; [exact Hwr|].
    apply Z.bits_inj'. intros i Hi.
    rewrite Z.div_pow2_bits by lia.
    rewrite to_Z_testbit by assumption. cbn [high_bits low_bits].
    destruct (Z.ltb_spec i 64) as [Hi64 | Hi64].
    + rewrite Z.mod_pow2_bits_low, to_Z_testbit by (assumption || lia).
      rewrite Z.lor_spec, Z.shiftr_spec, wrap_u64_testbit, wrap_s64_testbit by lia.
      replace (i <? 64) with true by (symmetry; apply Z.ltb_lt; lia). cbn [andb].
      rewrite Z.min_l, Z.shiftl_spec by lia.
      destruct (Z.ltb_spec (i + bits) 64).
      * rewrite (Z.testbit_neg_r _ (i - (64 - bits))) by lia. apply orb_false_r.
      * rewrite (u64_bits_high _ (i + bits) Hl) by lia. cbn [orb]. f_equal. lia.
    + rewrite wrap_s64_testbit, Z.shiftr_spec, wrap_u64_testbit by lia.
      set (j := Z.min (i - 64) 63).
      assert (Hj : 0 <= j <= 63) by (subst j; lia).
      destruct (Z.ltb_spec (i + bits) 128) as [Hk | Hk].
      * rewrite Z.mod_pow2_bits_low, to_Z_testbit by (assumption || lia).
        replace (i + bits <? 64) with false by (symmetry; apply Z.ltb_ge; lia).
        assert (j = i - 64) by (subst j; lia).
        replace (j + bits <? 64) with true by (symmetry; apply Z.ltb_lt; lia).
        cbn [andb]. f_equal. lia.
      * rewrite Z.mod_pow2_bits_high by lia.
        replace (j + bits <? 64) with false by (symmetry; apply Z.ltb_ge; subst j; lia).
        reflexivity.
  - assert (Hsign : - 2 ^ 63 <= (if 0 <=? high_bits d then 0 else -1) < 2 ^ 63).
    { destruct (0 <=? high_bits d); lia. }
    destruct (Z.ltb_spec bits 128) as [H128 | H128].
    + match goal with |- wf ?r /\ _ => assert (Hwr : wf r) end.
      { split; cbn [high_bits low_bits]; [exact Hsign | apply wrap_u64_range]. }
      split; [exact Hwr|].
      apply Z.bits_inj'. intros i Hi.
      rewrite Z.div_pow2_bits, !to_Z_testbit by (assumption || lia).
      cbn [high_bits low_bits].
      replace (i + bits <? 64) with false by (symmetry; apply Z.ltb_ge; lia).
      destruct (Z.ltb_spec i 64) as [Hi64 | Hi64].
      * rewrite wrap_u64_testbit, Z.shiftr_spec by lia.
        replace (i <? 64) with true by (symmetry; apply Z.ltb_lt; lia). cbn [andb].
        f_equal. lia.
      * rewrite (sign_testbit _ _ Hh) by lia. symmetry. apply s64_bits_high; [exact Hh | lia].
    + match goal with |- wf ?r /\ _ => assert (Hwr : wf r) end.
      { split; cbn [high_bits low_bits]; [exact Hsign | apply wrap_u64_range]. }
      split; [exact Hwr|].
      apply Z.bits_inj'. intros i Hi.
      rewrite Z.div_pow2_bits, !to_Z_testbit by (assumption || lia).
      cbn [high_bits low_bits].
      replace (i + bits <? 64) with false by (symmetry; apply Z.ltb_ge; lia).
      rewrite (s64_bits_high _ (i + bits - 64) Hh) by lia.
      destruct (Z.ltb_spec i 64) as [Hi64 | Hi64].
      * rewrite wrap_u64_testbit by lia.
        replace (i <? 64) with true by (symmetry; apply Z.ltb_lt; lia). cbn [andb].
        apply sign_testbit; [exact Hh | lia].
      * apply sign_testbit; [exact Hh | lia].
Qed.

Lemma shr_assign_value_witness :
  to_Z (shr_assign (of_Z (2 ^ 100 + 5)) 70) = to_Z (of_Z (2 ^ 100 + 5)) / 2 ^ 70.
Proof.
  assert (Hw : wf (of_Z (2 ^ 100 + 5))) by (unfold wf; vm_compute; intuition discriminate).
  destruct (shr_assign_value (of_Z (2 ^ 100 + 5)) 70 Hw ltac:(lia)) as (_ & _ & Hv).
  apply Hv. vm_compute. discriminate.
Defined.

(** ** Conversions *)

(** X12: [operator int64_t] asserts that the high half is 0 or -1, which holds
    exactly for the values from -2^64 to 2^64-1; on any other value a build
    with assertions aborts, and nothing is said about the cast.  Where the
    assertion holds the cast returns the value reduced to 64 bits.  For a
    value that fits [int64_t] the assertion holds, the cast returns the
    value itself, and the constructor from [int64_t] gives the operand
    back. *)
Theorem to_int64_value (d : Decimal128) :
  wf d ->
  (fst (op_int64 d) = true <-> - 2 ^ 64 <= to_Z d < 2 ^ 64) /\
  (fst (op_int64 d) = true -> snd (op_int64 d) = wrap_s64 (to_Z d)) /\
  (- 2 ^ 63 <= to_Z d < 2 ^ 63 ->
   op_int64 d = (true, to_Z d) /\ Decimal128_of_int64 (snd (op_int64 d)) = d).
Proof.
  intros Hw. pose proof Hw as [Hh Hl].
  assert (Hv : to_int64 d = wrap_s64 (to_Z d)).
  { unfold to_int64, to_Z. zwrap. }
  assert (Hflag : fst (op_int64 d) = true <-> - 2 ^ 64 <= to_Z d < 2 ^ 64).
  { unfold op_int64, to_Z. cbn [fst].
    destruct (Z.eqb_spec (high_bits d) 0) as [H0 | H0];
      destruct (Z.eqb_spec (high_bits d) (-1)) as [H1 | H1]; cbn [orb];
      (split; [intros H; try discriminate H; lia | intros H; try reflexivity; lia]). }
  split; [exact Hflag|]. split; [intros _; exact Hv|].
  intros Hr.
  assert (Hval : to_int64 d = to_Z d) by (rewrite Hv; apply wrap_s64_id; exact Hr).
  split.
  - unfold op_int64. rewrite Hval. f_equal.
    apply Hflag. lia.
  - cbn [op_int64 snd]. rewrite Hval.
    apply to_Z_inj; [apply of_int64_spec; exact Hr | exact Hw|].
    destruct (of_int64_spec (to_Z d) Hr) as [_ ->]. reflexivity.
Qed.

Lemma to_int64_value_witness :
  wf (of_Z (-5)) /\
  op_int64 (of_Z (-5)) = (true, -5) /\
  Decimal128_of_int64 (snd (op_int64 (of_Z (-5)))) = of_Z (-5).
Proof.
  assert (Hw : wf (of_Z (-5))) by (unfold wf; vm_compute; intuition discriminate).
  destruct (to_int64_value (of_Z (-5)) Hw) as (_ & _ & Hfit).
  assert (Hr : - 2 ^ 63 <= to_Z (of_Z (-5)) < 2 ^ 63)
    by (vm_compute; split; [discriminate | reflexivity]).
  split; [exact Hw|]. apply Hfit. exact Hr.
Defined.

(** X13: Reading 16 bytes and writing the value back gives the same 16 bytes. *)
Theorem ToBytes_FromBytes (bytes : list Byte.byte) :
  List.length bytes = 16%nat ->
  wf (FromBytes bytes) /\ ToBytes (FromBytes bytes) = bytes.
Proof.
  intros Hlen.
  split; [unfold FromBytes; apply of_halves_spec|].
  set (lo := firstn 8 bytes). set (hi := firstn 8 (skipn 8 bytes)).
  assert (Hlo : List.length lo = 8%nat) by (subst lo; rewrite length_firstn; lia).
  assert (Hhi : List.length hi = 8%nat)
    by (subst hi; rewrite length_firstn, length_skipn; lia).
  assert (Hbs : bytes = lo ++ hi).
  { subst lo hi. rewrite (firstn_all2 (skipn 8 bytes)) by (rewrite length_skipn; lia).
    symmetry. apply firstn_skipn. }
  unfold ToBytes, FromBytes, Decimal128_of_halves. cbn [high_bits low_bits].
  fold lo hi.
  pose proof (le_combine_bound lo) as Hb. rewrite Hlo in Hb.
  rewrite (wrap_u64_id (le_combine lo)) by exact Hb.
  rewrite (le_split_mod (wrap_s64 _)).
  replace (wrap_s64 (wrap_s64 (le_combine hi)) mod 2 ^ (Z.of_nat 8 * 8))
    with (le_combine hi mod 2 ^ (Z.of_nat 8 * 8))
    by (change (2 ^ (Z.of_nat 8 * 8)) with (2 ^ 64); zwrap).
  rewrite <- le_split_mod.
  rewrite (split_le_combine' lo 8 Hlo), (split_le_combine' hi 8 Hhi).
  symmetry. exact Hbs.
Qed.

Lemma ToBytes_FromBytes_witness :
  ToBytes (FromBytes (ToBytes (of_Z (-2)))) = ToBytes (of_Z (-2)).
Proof.
  apply (ToBytes_FromBytes (ToBytes (of_Z (-2)))). reflexivity.
Defined.

(** ** Multiplication *)

Lemma limbs_of_high (h : Z) :
  - 2 ^ 63 <= h < 2 ^ 63 ->
  exists s, 0 <= s <= 1 /\
    h = (wrap_u64 h / 2 ^ 32) * 2 ^ 32 + wrap_u64 h mod 2 ^ 32 - s * 2 ^ 64 /\
    0 <= wrap_u64 h / 2 ^ 32 < 2 ^ 32 /\ 0 <= wrap_u64 h mod 2 ^ 32 < 2 ^ 32.
Proof.
  intros Hh. pose proof (wrap_u64_range h) as Hu.
  pose proof (Z.div_mod (wrap_u64 h) (2 ^ 32) ltac:(lia)) as Hd.
  pose proof (Z.mod_pos_bound (wrap_u64 h) (2 ^ 32) ltac:(lia)) as Hm.
  destruct (Z_lt_ge_dec h 0).
  - exists 1. split; [lia|]. split; [|lia].
    assert (wrap_u64 h = h + 2 ^ 64) by zwrap. lia.
  - exists 0. split; [lia|]. split; [|lia].
    assert (wrap_u64 h = h) by zwrap. lia.
Qed.

Lemma wrap_u64_shl32 (z : Z) : wrap_u64 (z * 2 ^ 32) = (z mod 2 ^ 32) * 2 ^ 32.
Proof.
  unfold wrap_u64. change (2 ^ 64) with (2 ^ 32 * 2 ^ 32).
  rewrite Z.mul_mod_distr_r by lia. reflexivity.
Qed.

Lemma mul_spec (l r : Decimal128) :
  wf l -> wf r ->
  wf (mul l r) /\
  to_Z (mul l r)
  = wrap_s128 (to_Z l * to_Z r + (if mul_carry l r then 2 ^ 96 else 0)).
Proof.
  destruct l as [lh ll], r as [rh rl]. unfold wf, to_Z, mul_carry.
  cbn [high_bits low_bits]. intros [Hlh Hll] [Hrh Hrl].
  unfold mul. cbn [high_bits low_bits].
  rewrite !shiftr_32, !land_kIntMask, !shiftl_32.
  destruct (limbs_of_high lh Hlh) as (s & Hs & Hlhs & HL0 & HL1).
  destruct (limbs_of_high rh Hrh) as (s' & Hs' & Hrhs & HR0 & HR1).
  pose proof (Z.div_mod ll (2 ^ 32) ltac:(lia)) as Hdll.
  pose proof (Z.mod_pos_bound ll (2 ^ 32) ltac:(lia)) as HL3.
  pose proof (Z.div_mod rl (2 ^ 32) ltac:(lia)) as Hdrl.
  pose proof (Z.mod_pos_bound rl (2 ^ 32) ltac:(lia)) as HR3.
  set (L0 := wrap_u64 lh / 2 ^ 32) in *. set (L1 := wrap_u64 lh mod 2 ^ 32) in *.
  set (L2 := ll / 2 ^ 32) in *. set (L3 := ll mod 2 ^ 32) in *.
  set (R0 := wrap_u64 rh / 2 ^ 32) in *. set (R1 := wrap_u64 rh mod 2 ^ 32) in *.
  set (R2 := rl / 2 ^ 32) in *. set (R3 := rl mod 2 ^ 32) in *.
  assert (HL2 : 0 <= L2 < 2 ^ 32) by lia.
  assert (HR2 : 0 <= R2 < 2 ^ 32) by lia.
  clearbody L0 L1 L2 L3 R0 R1 R2 R3.
  set (A := L0 * 2 ^ 96 + L1 * 2 ^ 64 + L2 * 2 ^ 32 + L3).
  set (B := R0 * 2 ^ 96 + R1 * 2 ^ 64 + R2 * 2 ^ 32 + R3).
  set (T := L0 * R0 * 2 ^ 64 + (L0 * R1 + L1 * R0) * 2 ^ 32
            + L0 * R2 + L1 * R1 + L2 * R0 - s * B - s' * A + s * s' * 2 ^ 128).
  assert (HX : (lh * 2 ^ 64 + ll) * (rh * 2 ^ 64 + rl)
               = L3 * R3 + (L2 * R3 + L3 * R2) * 2 ^ 32
                 + (L1 * R3 + L2 * R2 + L3 * R1) * 2 ^ 64
                 + (L0 * R3 + L1 * R2 + L2 * R1 + L3 * R0) * 2 ^ 96
                 + T * 2 ^ 128).
  { subst T A B. rewrite Hlhs, Hdll, Hrhs, Hdrl. ring. }
  rewrite HX. clear HX. clearbody T. clear A B.
  assert (Hp33 : 0 <= L3 * R3 <= (2 ^ 32 - 1) * (2 ^ 32 - 1)) by nia.
  assert (Hp23 : 0 <= L2 * R3 <= (2 ^ 32 - 1) * (2 ^ 32 - 1)) by nia.
  assert (Hp32 : 0 <= L3 * R2 <= (2 ^ 32 - 1) * (2 ^ 32 - 1)) by nia.
  set (p33 := L3 * R3) in *. set (p23 := L2 * R3) in *. set (p32 := L3 * R2) in *.
  set (mid := L1 * R3 + L2 * R2 + L3 * R1).
  set (top := L0 * R3 + L1 * R2 + L2 * R1 + L3 * R0).
  clearbody p33 p23 p32 mid top.
  rewrite (wrap_u64_id p33) by lia.
  rewrite (wrap_u64_id p23) by lia.
  rewrite (wrap_u64_id p32) by lia.
  pose proof (Z.div_mod p33 (2 ^ 32) ltac:(lia)) as Hd33.
  pose proof (Z.mod_pos_bound p33 (2 ^ 32) ltac:(lia)) as Hm33.
  set (c := p33 / 2 ^ 32) in *. set (low0 := p33 mod 2 ^ 32) in *.
  rewrite (wrap_u64_id (c + p23)) by lia.
  assert (Hsum : exists cy, 0 <= cy <= 1 /\
                   wrap_u64 (c + p23 + p32) = c + p23 + p32 - cy * 2 ^ 64 /\
                   (wrap_u64 (c + p23 + p32) <? p32) = (cy =? 1) /\
                   (2 ^ 64 <=? c + p23 + p32) = (cy =? 1)).
  { destruct (Z_lt_ge_dec (c + p23 + p32) (2 ^ 64)) as [Hno | Hov].
    - exists 0. rewrite wrap_u64_id by lia. split; [lia|]. split; [lia|].
      split; [apply Z.ltb_ge; lia | apply Z.leb_gt; lia].
    - exists 1. assert (Hw : wrap_u64 (c + p23 + p32) = c + p23 + p32 - 2 ^ 64) by zwrap.
      rewrite Hw. split; [lia|]. split; [lia|].
      split; [apply Z.ltb_lt; lia | apply Z.leb_le; lia]. }
  destruct Hsum as (cy & Hcy & Hsumv & Htest & Hflag).
  rewrite Hflag. rewrite !Htest.
  pose proof (wrap_u64_range (c + p23 + p32)) as Hsr.
  set (sum := wrap_u64 (c + p23 + p32)) in *.
  pose proof (Z.div_mod sum (2 ^ 32) ltac:(lia)) as Hdsum.
  pose proof (Z.mod_pos_bound sum (2 ^ 32) ltac:(lia)) as Hmsum.
  rewrite (wrap_u64_shl32 sum).
  rewrite (wrap_u64_id (low0 + sum mod 2 ^ 32 * 2 ^ 32)) by lia.
  rewrite (wrap_u64_shl32 (wrap_u64 top)).
  assert (He : wrap_u64 top mod 2 ^ 32 = top mod 2 ^ 32) by zwrap.
  rewrite He.
  pose proof (Z.div_mod top (2 ^ 32) ltac:(lia)) as Hd0.
  pose proof (Z.mod_pos_bound top (2 ^ 32) ltac:(lia)) as Hm0.
  set (d := top / 2 ^ 32) in *. set (e := top mod 2 ^ 32) in *.
  set (sq := sum / 2 ^ 32) in *. set (sr := sum mod 2 ^ 32) in *.
  clearbody c low0 sum d e sq sr.
  cbn [high_bits low_bits].
  assert (Hh1 : (if cy =? 1
                 then wrap_s64 ((if cy =? 1 then kCarryBit else 0) + kCarryBit)
                 else if cy =? 1 then kCarryBit else 0) = cy * 2 ^ 33).
  { destruct (Z.eqb_spec cy 1) as [-> | Hne]; [reflexivity | lia]. }
  rewrite Hh1.
  set (h4 := wrap_s64 (wrap_s64 (wrap_s64 (cy * 2 ^ 33 + sq) + wrap_u64 mid) + e * 2 ^ 32)).
  assert (Hh4 : - 2 ^ 63 <= h4 < 2 ^ 63) by apply wrap_s64_range.
  assert (Hh4k : exists k, h4 = cy * 2 ^ 33 + sq + mid + e * 2 ^ 32 + k * 2 ^ 64).
  { subst h4.
    destruct (wrap_s64_ex (cy * 2 ^ 33 + sq)) as (k1 & ->).
    destruct (wrap_u64_ex mid) as (k2 & ->).
    destruct (wrap_s64_ex (cy * 2 ^ 33 + sq + k1 * 2 ^ 64 + (mid + k2 * 2 ^ 64))) as (k3 & ->).
    destruct (wrap_s64_ex (cy * 2 ^ 33 + sq + k1 * 2 ^ 64 + (mid + k2 * 2 ^ 64)
                           + k3 * 2 ^ 64 + e * 2 ^ 32)) as (k4 & ->).
    exists (k1 + k2 + k3 + k4). lia. }
  destruct Hh4k as (k & Hk). clearbody h4.
  split; [lia|].
  assert (Hc96 : (if cy =? 1 then 2 ^ 96 else 0) = cy * 2 ^ 96).
  { destruct (Z.eqb_spec cy 1) as [-> | Hne]; [reflexivity | lia]. }
  rewrite Hc96.
  symmetry. apply wrap_s128_id_mod with (k := T + d - k); lia.
Qed.

Lemma mul_carry_small (l r : Decimal128) :
  wf l -> wf r -> low_bits l < 2 ^ 32 \/ low_bits r < 2 ^ 32 -> mul_carry l r = false.
Proof.
  intros Hl Hr Hsmall.
  unfold mul_carry. cbv zeta. apply Z.leb_gt.
  destruct Hl as [_ Hll], Hr as [_ Hrl].
  pose proof (Z.mod_pos_bound (low_bits l) (2 ^ 32) ltac:(lia)) as HL3.
  pose proof (Z.mod_pos_bound (low_bits r) (2 ^ 32) ltac:(lia)) as HR3.
  assert (HL2 : 0 <= low_bits l / 2 ^ 32 < 2 ^ 32).
  { split; [apply Z.div_pos; lia | apply Z.div_lt_upper_bound; lia]. }
  assert (HR2 : 0 <= low_bits r / 2 ^ 32 < 2 ^ 32).
  { split; [apply Z.div_pos; lia | apply Z.div_lt_upper_bound; lia]. }
  set (L2 := low_bits l / 2 ^ 32) in *. set (L3 := low_bits l mod 2 ^ 32) in *.
  set (R2 := low_bits r / 2 ^ 32) in *. set (R3 := low_bits r mod 2 ^ 32) in *.
  assert (Hc : (L3 * R3) / 2 ^ 32 < 2 ^ 32).
  { apply Z.div_lt_upper_bound; [lia | nia]. }
  assert (Hp23 : 0 <= L2 * R3 <= (2 ^ 32 - 1) * (2 ^ 32 - 1)) by nia.
  assert (Hp32 : 0 <= L3 * R2 <= (2 ^ 32 - 1) * (2 ^ 32 - 1)) by nia.
  destruct Hsmall as [Hs | Hs].
  - assert (L2 = 0) by (subst L2; apply Z.div_small; lia).
    assert (L2 * R3 = 0) by nia. lia.
  - assert (R2 = 0) by (subst R2; apply Z.div_small; lia).
    assert (L3 * R2 = 0) by nia. lia.
Qed.

(** X14: [operator*=] and [operator*] give the product modulo 2^128 when the
    middle partial sum does not overflow 64 bits, and 2^96 more when it
    does; the sum cannot overflow when the low half of either operand is
    below 2^32. *)
Theorem mul_value (l r : Decimal128) :
  wf l -> wf r ->
  op_mul l r = mul l r /\
  wf (mul l r) /\
  to_Z (mul l r)
  = wrap_s128 (to_Z l * to_Z r + (if mul_carry l r then 2 ^ 96 else 0)) /\
  (low_bits l < 2 ^ 32 \/ low_bits r < 2 ^ 32 ->
   to_Z (mul l r) = wrap_s128 (to_Z l * to_Z r)).
Proof.
  intros Hl Hr. destruct (mul_spec l r Hl Hr) as [Hw Hv].
  split; [unfold op_mul; rewrite (of_halves_id l Hl); reflexivity|].
  split; [exact Hw|]. split; [exact Hv|].
  intros Hsmall. rewrite Hv.
  rewrite (mul_carry_small l r Hl Hr Hsmall), Z.add_0_r. reflexivity.
Qed.

Lemma mul_value_witness :
  to_Z (mul (of_Z (- 10 ^ 30)) (of_Z 1000)) = - 10 ^ 33.
Proof.
  assert (Hl : wf (of_Z (- 10 ^ 30))) by (unfold wf; vm_compute; intuition discriminate).
  assert (Hr : wf (of_Z 1000)) by (unfold wf; vm_compute; intuition discriminate).
  destruct (mul_value _ _ Hl Hr) as (_ & _ & _ & Hv).
  rewrite Hv; [reflexivity|]. right. vm_compute. reflexivity.
Defined.

(** * Further properties of the division helpers *)

(** X15: [FillInArray] followed by [BuildFromArray] is [Abs]: the limbs written
    are at most four 32-bit values that denote the magnitude, the flag is the
    sign, and building a value from them gives the absolute value (-2^127
    for -2^127). *)
Theorem FillInArray_BuildFromArray (x : Decimal128) :
  wf x ->
  limbs (fst (FillInArray x)) /\
  (List.length (fst (FillInArray x)) <= 4)%nat /\
  val (fst (FillInArray x)) = Z.abs (to_Z x) /\
  snd (FillInArray x) = (to_Z x <? 0) /\
  BuildFromArray (fst (FillInArray x)) (List.length (fst (FillInArray x))) = inl (Abs x).
Proof.
  intros Hw. pose proof (FillInArray_spec x Hw) as Hf.
  pose proof (to_Z_range x Hw) as Hr.
  destruct (FillInArray x) as [a neg]. cbn [fst snd].
  destruct Hf as (Hneg & Hla & Hval & Hlen & _).
  split; [exact Hla|]. split; [exact Hlen|]. split; [exact Hval|]. split; [exact Hneg|].
  destruct (BuildFromArray_spec a Hla (or_introl Hlen)) as (d & Hb & Hwd & Hvd).
  rewrite Hb. f_equal.
  assert (Hwa : wf (Abs x)).
  { unfold Abs. destruct (Decimal128_ltb x (Decimal128_of_int64 0));
      [apply Negate_spec; exact Hw | exact Hw]. }
  apply to_Z_inj; [exact Hwd | exact Hwa|].
  rewrite Hvd, Hval. unfold Abs. rewrite (ltb_zero_spec x Hw).
  destruct (Z.ltb_spec (to_Z x) 0).
  - destruct (Negate_spec x Hw) as [_ ->]. f_equal. lia.
  - rewrite Z.abs_eq by lia. apply wrap_s128_id. exact Hr.
Qed.

Lemma FillInArray_BuildFromArray_witness :
  BuildFromArray (fst (FillInArray (of_Z (- 10 ^ 30))))
    (List.length (fst (FillInArray (of_Z (- 10 ^ 30)))))
  = inl (Abs (of_Z (- 10 ^ 30))).
Proof.
  assert (Hw : wf (of_Z (- 10 ^ 30))) by (unfold wf; vm_compute; intuition discriminate).
  destruct (FillInArray_BuildFromArray _ Hw) as (_ & _ & _ & _ & H). exact H.
Defined.

Lemma val_inj (a : list Z) :
  forall c, limbs a -> limbs c -> List.length a = List.length c -> val a = val c -> a = c.
Proof.
  induction a as [|d tl IH]; intros [|e tc] Ha Hc Hlen Hv; try discriminate.
  - reflexivity.
  - apply limbs_cons in Ha, Hc. destruct Ha as [Hd Htl], Hc as [He Htc].
    cbn [List.length] in Hlen. injection Hlen as Hlen.
    rewrite !val_cons, Hlen in Hv.
    pose proof (val_bound tl Htl) as Hb1. pose proof (val_bound tc Htc) as Hb2.
    rewrite Hlen in Hb1. pose proof (pow_b_pos (List.length tc)) as Hp.
    assert (d = e) by nia. subst e.
    f_equal. apply IH; [assumption | assumption | exact Hlen | lia].
Qed.

(** X16: [ShiftArrayLeft] by up to 31 bits that the top limb has room for loses
    nothing: it multiplies the number the limbs denote by 2^bits, and
    [ShiftArrayRight] by the same count restores the array. *)
Theorem ShiftArrayLeft_Right (a : Z) (tl : list Z) (bits : Z) :
  limbs (a :: tl) -> 0 <= bits < 32 -> a * 2 ^ bits < 2 ^ 32 ->
  exists r,
    ShiftArrayLeft (a :: tl) bits = Some r /\
    limbs r /\ List.length r = List.length (a :: tl) /\
    val r = val (a :: tl) * 2 ^ bits /\
    ShiftArrayRight r bits = Some (a :: tl).
Proof.
  intros Hl Hb Hroom.
  destruct (ShiftArrayLeft_spec a tl bits Hl Hb Hroom) as (r & Hs & Hlr & Hlen & Hv).
  exists r. split; [exact Hs|]. split; [exact Hlr|]. split; [exact Hlen|].
  split; [exact Hv|].
  destruct (ShiftArrayRight_spec r bits Hlr Hb) as (r' & Hs' & Hlr' & Hlen' & Hv').
  rewrite Hs'. f_equal.
  apply val_inj; [exact Hlr' | exact Hl | rewrite Hlen'; exact Hlen|].
  rewrite Hv', Hv. apply Z.div_mul.
  assert (0 < 2 ^ bits) by (apply Z.pow_pos_nonneg; lia). lia.
Qed.

Lemma ShiftArrayLeft_Right_witness :
  exists r, ShiftArrayLeft [5; 7; 2 ^ 32 - 1] 20 = Some r /\
            ShiftArrayRight r 20 = Some [5; 7; 2 ^ 32 - 1].
Proof.
  destruct (ShiftArrayLeft_Right 5 [7; 2 ^ 32 - 1] 20) as (r & Hs & _ & _ & _ & Hr).
  - repeat constructor; lia.
  - lia.
  - reflexivity.
  - exists r. split; [exact Hs | exact Hr].
Defined.

(** ** The division operators *)

(** X17: On a divisor for which [Divide] is exact, [operator/], [operator%] and
    [operator/=] pass their assertion and give the truncated quotient
    (modulo 2^128) and remainder, so that (x / y) * y + x % y is x. *)
Theorem div_mod_operators (x y : Decimal128) :
  wf x -> wf y -> to_Z y <> 0 -> Z.abs (to_Z y) <> 2 ^ 32 - 1 ->
  (Z.abs (to_Z y) <? 2 ^ 32) || small_digits (Z.abs (to_Z x) / Z.abs (to_Z y)) = true ->
  exists q r,
    op_div x y = Some (true, q) /\ op_mod x y = Some (true, r) /\
    div_assign x y = Some (true, q) /\
    wf q /\ wf r /\
    to_Z q = wrap_s128 (Z.quot (to_Z x) (to_Z y)) /\
    to_Z r = Z.rem (to_Z x) (to_Z y) /\
    wrap_s128 (to_Z q * to_Z y + to_Z r) = to_Z x.
Proof.
  intros Hwx Hwy Hy0 Hy32 Hc.
  destruct (Divide_quot_rem x y Decimal128_zero Decimal128_zero Hwx Hwy Hy0 Hy32 Hc)
    as (q & r & Hd & Hwq & Hwr & Hq & Hr).
  destruct (Divide_quot_rem x y x Decimal128_zero Hwx Hwy Hy0 Hy32 Hc)
    as (q' & r' & Hd' & Hwq' & Hwr' & Hq' & Hr').
  assert (q' = q) by (apply to_Z_inj; [assumption | assumption | congruence]).
  subst q'.
  exists q, r. unfold op_div, op_mod, div_assign. rewrite Hd, Hd'. cbn [ok].
  repeat (split; [first [reflexivity | assumption]|]).
  rewrite Hq, Hr, wrap_s128_mul_add.
  pose proof (Z.quot_rem' (to_Z x) (to_Z y)) as Hqr.
  replace (Z.quot (to_Z x) (to_Z y) * to_Z y + Z.rem (to_Z x) (to_Z y)) with (to_Z x) by lia.
  apply wrap_s128_id. apply to_Z_range. exact Hwx.
Qed.

Lemma div_mod_operators_witness :
  exists q r,
    op_div (of_Z (- 10 ^ 30)) (of_Z 7) = Some (true, q) /\
    op_mod (of_Z (- 10 ^ 30)) (of_Z 7) = Some (true, r) /\
    to_Z q = wrap_s128 (Z.quot (to_Z (of_Z (- 10 ^ 30))) (to_Z (of_Z 7))) /\
    to_Z r = Z.rem (to_Z (of_Z (- 10 ^ 30))) (to_Z (of_Z 7)).
Proof.
  destruct (div_mod_operators (of_Z (- 10 ^ 30)) (of_Z 7))
    as (q & r & Hd & Hm & _ & _ & _ & Hq & Hr & _).
  - unfold wf; vm_compute; intuition discriminate.
  - unfold wf; vm_compute; intuition discriminate.
  - vm_compute; discriminate.
  - vm_compute; discriminate.
  - vm_compute; reflexivity.
  - exists q, r. exact (conj Hd (conj Hm (conj Hq Hr))).
Defined.

(** X18: With a zero divisor the assertion of the division operators fails; where
    assertions are compiled out, [operator/] and [operator%] return zero and
    [operator/=] leaves its left operand as it was. *)
Theorem div_mod_operators_by_zero (x : Decimal128) :
  op_div x Decimal128_zero = Some (false, Decimal128_zero) /\
  op_mod x Decimal128_zero = Some (false, Decimal128_zero) /\
  div_assign x Decimal128_zero = Some (false, x).
Proof.
  assert (H : forall res rem,
            Divide x Decimal128_zero res rem
            = Some (Invalid "Division by 0 in Decimal128", res, rem)).
  { intros res rem. unfold Divide. rewrite FillInArray_zero.
    destruct (FillInArray x) as [dividend_tl dividend_was_negative]. reflexivity. }
  unfold op_div, op_mod, div_assign. rewrite !H. repeat split.
Qed.

(** * Rescaling *)

Lemma ScaleMultipliers_spec (i : nat) :
  (i <= 38)%nat ->
  wf (nth i ScaleMultipliers Decimal128_zero) /\
  to_Z (nth i ScaleMultipliers Decimal128_zero) = 10 ^ Z.of_nat i.
Proof.
  intros Hi.
  do 39 (destruct i as [|i];
         [split; [unfold wf; vm_compute; intuition discriminate | vm_compute; reflexivity]|]).
  lia.
Qed.

(** X19: The table [ScaleMultipliers] has 39 entries and entry [i] is 10^i, for
    the entries built from integers and the ones parsed from strings. *)
Theorem ScaleMultipliers_powers_of_ten (i : nat) :
  (i <= 38)%nat ->
  List.length ScaleMultipliers = 39%nat /\
  wf (nth i ScaleMultipliers Decimal128_zero) /\
  to_Z (nth i ScaleMultipliers Decimal128_zero) = 10 ^ Z.of_nat i.
Proof.
  intros Hi. split; [reflexivity | apply ScaleMultipliers_spec; exact Hi].
Qed.

Lemma ScaleMultipliers_powers_of_ten_witness :
  to_Z (nth 38 ScaleMultipliers Decimal128_zero) = 10 ^ 38.
Proof.
  destruct (ScaleMultipliers_powers_of_ten 38 ltac:(lia)) as (_ & _ & H). exact H.
Defined.

Lemma ToString_total (x : Decimal128) (scale : Z) :
  wf x -> - 2 ^ 31 <= scale < 2 ^ 31 -> exists out, ToString x scale = Some out.
Proof.
  intros Hwx Hscale.
  destruct (ToIntegerString_spec x Hwx) as (str & Hstr & Hint & Hlen).
  assert (Hlen1 : (1 <= String.length str)%nat).
  { destruct Hint as (ds & -> & Hne & _).
    destruct (to_Z x <? 0); destruct ds; cbn; try congruence; lia. }
  assert (HE : no_E str = true).
  { destruct Hint as (ds & -> & _ & Hd). apply all_digits_no_E in Hd.
    destruct (to_Z x <? 0); [cbn [no_E]; rewrite Hd; reflexivity | exact Hd]. }
  rewrite ToString_unfold, Hstr.
  destruct (Z.eqb_spec scale 0) as [-> | Hnz]; [eexists; reflexivity|].
  cbv zeta. rewrite (ltb_zero_spec x Hwx).
  set (len := Z.of_nat (String.length str)).
  assert (Hl : 1 <= len <= 99) by (subst len; lia).
  rewrite (wrap_s32_id len) by lia.
  match goal with
  | |- exists out, (if ?c then _ else _) = _ => destruct c eqn:Hc
  end.
  - match goal with
    | |- exists out, ToStringNegativeScale _ ?adj _ = _ =>
        destruct (ToStringNegativeScale_total (to_Z x <? 0) str adj Hint) as (out & Hout)
    end.
    exists out. exact Hout.
  - apply orb_false_elim in Hc. destruct Hc as [Hc _]. apply Z.ltb_ge in Hc.
    destruct (ToString_plain_no_E str (to_Z x <? 0) scale HE ltac:(lia) ltac:(lia))
      as (out & Hout & _).
    exists out. exact Hout.
Qed.

Lemma of_Z_wrap (z : Z) : of_Z (wrap_s128 z) = of_Z z.
Proof. unfold of_Z. rewrite wrap_s128_idem. reflexivity. Qed.

Lemma of_Z_of_value (q : Decimal128) (z : Z) :
  wf q -> to_Z q = wrap_s128 z -> q = of_Z z.
Proof.
  intros Hw Hv. rewrite <- (of_Z_to_Z q Hw), Hv. apply of_Z_wrap.
Qed.

Lemma pow10_pos (d : nat) : 0 < 10 ^ Z.of_nat d.
Proof. apply Z.pow_pos_nonneg; lia. Qed.

Lemma pow10_even (d : nat) : (1 <= d)%nat -> exists k, 10 ^ Z.of_nat d = 2 * k.
Proof.
  intros Hd. destruct d as [|d]; [lia|].
  rewrite Nat2Z.inj_succ, Z.pow_succ_r by lia.
  exists (5 * 10 ^ Z.of_nat d). lia.
Qed.

(** X20: Rescaling down by [d] digits, where the division is exact (every [d] up
    to 9, and larger ones when no digit of the quotient is above 2^32-3):
    it succeeds with x / 10^d exactly when 10^d divides x; otherwise it
    returns [Invalid] and has still stored the truncated quotient. *)
Theorem Rescale_down (x out : Decimal128) (s : Z) (d : nat) :
  wf x -> (1 <= d <= 38)%nat -> - 2 ^ 31 <= s - Z.of_nat d -> s < 2 ^ 31 ->
  (d <=? 9)%nat || small_digits (Z.abs (to_Z x) / 10 ^ Z.of_nat d) = true ->
  (to_Z x mod 10 ^ Z.of_nat d = 0 ->
   Rescale x s (s - Z.of_nat d) out = Some (OK, of_Z (to_Z x / 10 ^ Z.of_nat d))) /\
  (to_Z x mod 10 ^ Z.of_nat d <> 0 ->
   exists msg,
     Rescale x s (s - Z.of_nat d) out
     = Some (Invalid msg, of_Z (Z.quot (to_Z x) (10 ^ Z.of_nat d)))).
Proof.
  intros Hwx Hd Hlo Hhi Hc.
  destruct (ScaleMultipliers_spec d ltac:(lia)) as [Hwm Hvm].
  pose proof (pow10_pos d) as Hpos.
  destruct (pow10_even d ltac:(lia)) as (k & Hk).
  set (m := nth d ScaleMultipliers Decimal128_zero) in *.
  set (P := 10 ^ Z.of_nat d) in *.
  destruct (Divide_quot_rem x m out Decimal128_zero Hwx Hwm) as (q & r & Hdiv & Hwq & Hwr & Hq & Hr).
  { rewrite Hvm. lia. }
  { rewrite Hvm, Z.abs_eq by lia. lia. }
  { rewrite Hvm, Z.abs_eq by lia.
    destruct (Nat.leb_spec d 9) as [H9 | H9];
      [|cbn [orb] in Hc; rewrite Hc; apply orb_true_r].
    assert (P <= 10 ^ 9) by (subst P; apply Z.pow_le_mono_r; lia).
    replace (P <? 2 ^ 32) with true by (symmetry; apply Z.ltb_lt; lia).
    reflexivity. }
  rewrite Hvm in Hq, Hr.
  pose proof (of_Z_of_value q _ Hwq Hq) as Hqv.
  assert (Hresc : Rescale x s (s - Z.of_nat d) out
                  = if negb (to_Z r =? 0)
                    then match ToString x s with
                         | None => None
                         | Some str =>
                             Some (Invalid
                                     (append "Rescaling decimal value "
                                        (append str
                                           (append " from original scale of "
                                              (append (string_of_int64 s)
                                                 (append " to new scale of "
                                                    (append (string_of_int64 (s - Z.of_nat d))
                                                       " would cause data loss")))))), q)
                         end
                    else Some (OK, q)).
  { unfold Rescale, RescaleWouldCauseDataLoss.
    replace (s - Z.of_nat d - s) with (- Z.of_nat d) by lia.
    rewrite (wrap_s32_id (- Z.of_nat d)) by lia.
    rewrite Z.abs_opp, Z.abs_eq, Nat2Z.id by lia. fold m.
    replace (- Z.of_nat d <? 0) with true by (symmetry; apply Z.ltb_lt; lia).
    rewrite Hdiv, (eqb_zero_spec r Hwr). reflexivity. }
  rewrite Hresc, Hr.
  assert (Hdvd : Z.rem (to_Z x) P = 0 <-> to_Z x mod P = 0).
  { rewrite Z.rem_divide, Z.mod_divide by lia. reflexivity. }
  split.
  - intros Hex. apply Hdvd in Hex as Hrem. rewrite Hrem. cbn [Z.eqb negb].
    rewrite Hqv. do 3 f_equal.
    apply Z.mod_divide in Hex; [|lia]. destruct Hex as (c & ->).
    rewrite Z.quot_mul, Z.div_mul by lia. reflexivity.
  - intros Hnex.
    replace (Z.rem (to_Z x) P =? 0) with false
      by (symmetry; apply Z.eqb_neq; rewrite Hdvd; exact Hnex).
    cbn [negb].
    destruct (ToString_total x s Hwx ltac:(lia)) as (str & ->).
    rewrite Hqv. eexists. reflexivity.
Qed.

Lemma Rescale_down_witness :
  Rescale (of_Z 12300) 4 2 Decimal128_zero = Some (OK, of_Z 123).
Proof.
  destruct (Rescale_down (of_Z 12300) Decimal128_zero 4 2) as [H _].
  - unfold wf; vm_compute; intuition discriminate.
  - lia.
  - lia.
  - lia.
  - reflexivity.
  - apply H. reflexivity.
Defined.

(** X21: Rescaling a non-negative value up by [d] digits, when the product fits
    and the multiplication cannot carry ([d] up to 9, or a value below
    2^32): it succeeds with x * 10^d. *)
Theorem Rescale_up (x out : Decimal128) (s : Z) (d : nat) :
  wf x -> 0 <= to_Z x -> (1 <= d <= 38)%nat ->
  - 2 ^ 31 <= s -> s + Z.of_nat d < 2 ^ 31 ->
  (d <= 9)%nat \/ to_Z x < 2 ^ 32 ->
  to_Z x * 10 ^ Z.of_nat d < 2 ^ 127 ->
  Rescale x s (s + Z.of_nat d) out = Some (OK, of_Z (to_Z x * 10 ^ Z.of_nat d)).
Proof.
  intros Hwx Hx0 Hd Hlo Hhi Hsmall Hfit.
  destruct (ScaleMultipliers_spec d ltac:(lia)) as [Hwm Hvm].
  pose proof (pow10_pos d) as Hpos.
  set (m := nth d ScaleMultipliers Decimal128_zero) in *.
  set (P := 10 ^ Z.of_nat d) in *.
  destruct (mul_spec x m Hwx Hwm) as [Hwr Hvr].
  assert (Hcarry : mul_carry x m = false).
  { apply (mul_carry_small x m Hwx Hwm).
    destruct Hwx as [Hxh Hxl], Hwm as [Hmh Hml]. unfold to_Z in *.
    destruct Hsmall as [H9 | Hx32].
    - right. assert (P <= 10 ^ 9) by (subst P; apply Z.pow_le_mono_r; lia). lia.
    - left. lia. }
  rewrite Hcarry, Z.add_0_r, Hvm in Hvr.
  assert (Hval : to_Z (mul x m) = to_Z x * P).
  { rewrite Hvr. apply wrap_s128_id. nia. }
  unfold Rescale, RescaleWouldCauseDataLoss.
  replace (s + Z.of_nat d - s) with (Z.of_nat d) by lia.
  rewrite (wrap_s32_id (Z.of_nat d)) by lia.
  rewrite Z.abs_eq, Nat2Z.id by lia. fold m.
  replace (Z.of_nat d <? 0) with false by (symmetry; apply Z.ltb_ge; lia).
  rewrite (Decimal128_ltb_to_Z _ _ Hwr Hwx), Hval.
  replace (to_Z x * P <? to_Z x) with false by (symmetry; apply Z.ltb_ge; nia).
  rewrite (of_Z_of_value (mul x m) (to_Z x * P) Hwr Hvr). reflexivity.
Qed.

Lemma Rescale_up_witness :
  Rescale (of_Z 123) 2 6 Decimal128_zero = Some (OK, of_Z 1230000).
Proof.
  apply (Rescale_up (of_Z 123) Decimal128_zero 2 4).
  - unfold wf; vm_compute; intuition discriminate.
  - vm_compute; discriminate.
  - lia.
  - lia.
  - reflexivity.
  - left; lia.
  - reflexivity.
Defined.

(** * Further properties of parsing *)

Lemma FromString_signed (sign body : string) :
  sign_ok sign = true -> body <> EmptyString ->
  (sign = EmptyString ->
   Ascii.eqb (char_at body 0) "+" = false /\ Ascii.eqb (char_at body 0) "-" = false) ->
  FromString (append sign body) = parse_body (String.eqb sign "-") body.
Proof.
  intros Hs Hb Hc. destruct body as [|c tl]; [congruence|].
  rewrite FromString_unfold. unfold sign_ok in Hs.
  destruct (String.eqb_spec sign "") as [-> | _].
  - destruct (Hc eq_refl) as [Hp Hm]. cbn [char_at String.get] in Hp, Hm.
    cbn [append]. cbv zeta. rewrite Hp, Hm. reflexivity.
  - destruct (String.eqb_spec sign "+") as [-> | _]; [reflexivity|].
    destruct (String.eqb_spec sign "-") as [-> | _]; [reflexivity | discriminate].
Qed.

(** X22: A text of zeros only, with or without a sign, is accepted as the value
    zero with scale 0; the precision reported is the number of zeros. *)
Theorem FromString_all_zeros (sign : string) (n : nat) :
  sign_ok sign = true -> (1 <= n)%nat -> Z.of_nat n < 2 ^ 31 ->
  FromString (append sign (replicate n "0"))
  = ParseOK (Decimal128_of_int64 0) (Z.of_nat n) 0.
Proof.
  intros Hs Hn Hlt.
  rewrite FromString_signed; [| exact Hs | destruct n; [lia | discriminate] |].
  - unfold parse_body. cbv zeta.
    rewrite <- (append_nil_r (replicate n "0")) at 1.
    rewrite find_if_not_zeros. cbn [find_if_not].
    rewrite length_replicate, wrap_s32_id by lia. reflexivity.
  - intros _. destruct n; [lia|]. split; reflexivity.
Qed.

Lemma FromString_all_zeros_witness :
  FromString "-000" = ParseOK (Decimal128_of_int64 0) 3 0.
Proof.
  apply (FromString_all_zeros "-" 3); [reflexivity | lia | reflexivity].
Defined.

(** X23: [StringToInteger], on a string of digits that is not empty and with
    [*out] zero as its assertions require, stores the number the digits
    denote, modulo 2^128. *)
Theorem StringToInteger_value (str : string) :
  all_digits str = true -> str <> EmptyString ->
  exists out',
    StringToInteger str (Decimal128_of_int64 0) = Some out' /\ wf out' /\
    to_Z out' = wrap_s128 (digits_value str 0).
Proof.
  intros Hd _. unfold StringToInteger.
  destruct (of_int64_spec 0 ltac:(lia)) as [Hw Hz].
  destruct (StringToInteger_loop_spec (String.length str) str (Decimal128_of_int64 0)
              Hd (le_n _) Hw) as (out' & Hs & Hw' & Hv).
  exists out'. split; [exact Hs|]. split; [exact Hw'|].
  rewrite Hv, Hz. reflexivity.
Qed.

Lemma StringToInteger_value_witness :
  exists out',
    StringToInteger "12345678901234567890123" (Decimal128_of_int64 0) = Some out' /\
    to_Z out' = 12345678901234567890123.
Proof.
  destruct (StringToInteger_value "12345678901234567890123")
    as (out' & Hs & _ & Hv).
  - reflexivity.
  - discriminate.
  - exists out'. split; [exact Hs | exact Hv].
Defined.

Lemma find_zeros_in_digits (ds rest : string) :
  all_digits ds = true -> stops is_zero_char rest = true ->
  exists ds', all_digits ds' = true /\
              find_if_not is_zero_char (append ds rest) = append ds' rest.
Proof.
  intros Hd Hr. induction ds as [|c tl IH].
  - exists EmptyString. split; [reflexivity|]. cbn [append].
    apply find_if_not_stops. exact Hr.
  - cbn [all_digits] in Hd. apply andb_prop in Hd. destruct Hd as [Hc Htl].
    cbn [append find_if_not]. destruct (is_zero_char c).
    + apply IH. exact Htl.
    + exists (String c tl). split; [|reflexivity].
      cbn [all_digits]. rewrite Hc, Htl. reflexivity.
Qed.

Lemma nondigit_stops_zero (c : ascii) (rest : string) :
  isdigit c = false -> stops is_zero_char (String c rest) = true.
Proof.
  intros Hc. cbn [stops]. unfold is_zero_char.
  destruct (Ascii.eqb_spec c "0") as [-> | _]; [discriminate | reflexivity].
Qed.

Lemma char_at_head_digits (ds : string) (c : ascii) (rest : string) :
  all_digits ds = true ->
  (ds = EmptyString -> Ascii.eqb c "+" = false /\ Ascii.eqb c "-" = false) ->
  Ascii.eqb (char_at (append ds (String c rest)) 0) "+" = false /\
  Ascii.eqb (char_at (append ds (String c rest)) 0) "-" = false.
Proof.
  intros Hd Hc. destruct ds as [|d tl].
  - apply Hc. reflexivity.
  - cbn [all_digits] in Hd. apply andb_prop in Hd. destruct Hd as [Hdd _].
    cbn [append char_at String.get].
    split; [apply isdigit_not_plus | apply isdigit_not_minus]; exact Hdd.
Qed.

Lemma append_cons_nonempty (ds : string) (c : ascii) (rest : string) :
  append ds (String c rest) <> EmptyString.
Proof. destruct ds; discriminate. Qed.

Ltac scan_digits Hd Hc :=
  unfold parse_body; cbv zeta;
  match goal with
  | |- context [find_if_not is_zero_char (append ?ds (String ?c ?rest))] =>
      let ds' := fresh "ds'" in
      let Hd' := fresh "Hd'" in
      let He := fresh "He" in
      destruct (find_zeros_in_digits ds (String c rest) Hd (nondigit_stops_zero c rest Hc))
        as (ds' & Hd' & He);
      rewrite He;
      rewrite (match_nonempty (append ds' (String c rest)))
        by apply append_cons_nonempty;
      rewrite (find_if_not_digits ds' (String c rest) Hd');
      rewrite (find_if_not_stops isdigit (String c rest))
        by (cbn [stops]; rewrite Hc; reflexivity)
  end.

(** X24: After the optional sign and any digits, a character that is neither a
    digit nor a decimal point makes [FromString] return [Invalid] naming the
    character (so an exponent needs a fraction before it); so does a decimal
    point at the end of the text or before a character that is not a digit. *)
Theorem FromString_rejects (sign ds : string) (c : ascii) (rest : string) :
  sign_ok sign = true -> all_digits ds = true -> isdigit c = false ->
  (Ascii.eqb c "." = false ->
   (sign = EmptyString -> ds = EmptyString ->
    Ascii.eqb c "+" = false /\ Ascii.eqb c "-" = false) ->
   FromString (append sign (append ds (String c rest)))
   = ParseInvalid
       (quote_char "Expected base ten digit or decimal point but found '" c "' instead.")) /\
  FromString (append sign (append ds "."))
  = ParseInvalid
      "Decimal point must be followed by at least one base ten digit. Reached the end of the string." /\
  FromString (append sign (append ds (String "." (String c rest))))
  = ParseInvalid
      (quote_char "Decimal point must be followed by a base ten digit. Found '" c "'").
Proof.
  intros Hs Hd Hc.
  assert (Hdot : isdigit "." = false) by reflexivity.
  split; [|split].
  - intros Hnd Hfirst.
    rewrite FromString_signed;
      [| exact Hs | apply append_cons_nonempty
       | intros Hsign; apply char_at_head_digits; [exact Hd | exact (Hfirst Hsign)]].
    scan_digits Hd Hc.
    destruct c as [b0 b1 b2 b3 b4 b5 b6 b7].
    destruct b0, b1, b2, b3, b4, b5, b6, b7; try discriminate Hnd; reflexivity.
  - rewrite FromString_signed;
      [| exact Hs | apply append_cons_nonempty
       | intros _; apply char_at_head_digits; [exact Hd | intros _; split; reflexivity]].
    scan_digits Hd Hdot. reflexivity.
  - rewrite FromString_signed;
      [| exact Hs | apply append_cons_nonempty
       | intros _; apply char_at_head_digits; [exact Hd | intros _; split; reflexivity]].
    scan_digits Hd Hdot. cbv iota beta. rewrite Hc. reflexivity.
Qed.

Lemma FromString_rejects_witness :
  FromString "12E5"
  = ParseInvalid "Expected base ten digit or decimal point but found 'E' instead." /\
  FromString "-12.x"
  = ParseInvalid "Decimal point must be followed by a base ten digit. Found 'x'".
Proof.
  split.
  - destruct (FromString_rejects "" "12" "E" "5" eq_refl eq_refl eq_refl) as (H & _ & _).
    apply H; [reflexivity | intros _ Hds; discriminate Hds].
  - destruct (FromString_rejects "-" "12" "x" "" eq_refl eq_refl eq_refl) as (_ & _ & H).
    exact H.
Defined.

Lemma find_zeros_split (s : string) :
  exists n, s = append (replicate n "0") (find_if_not is_zero_char s) /\
            stops is_zero_char (find_if_not is_zero_char s) = true.
Proof.
  induction s as [|c tl IH].
  - exists 0%nat. split; reflexivity.
  - cbn [find_if_not]. destruct (is_zero_char c) eqn:Hz.
    + unfold is_zero_char in Hz. apply Ascii.eqb_eq in Hz. subst c.
      destruct IH as (n & Hs & Hst). exists (S n). cbn [replicate append].
      split; [f_equal; exact Hs | exact Hst].
    + exists 0%nat. split; [reflexivity|]. cbn [stops]. rewrite Hz. reflexivity.
Qed.

Lemma find_digits_split (s : string) :
  exists ds, all_digits ds = true /\ s = append ds (find_if_not isdigit s) /\
             stops isdigit (find_if_not isdigit s) = true.
Proof.
  induction s as [|c tl IH].
  - exists EmptyString. repeat split.
  - cbn [find_if_not]. destruct (isdigit c) eqn:Hc.
    + destruct IH as (ds & Hd & Hs & Hst). exists (String c ds). cbn [all_digits append].
      rewrite Hc, Hd. split; [reflexivity|]. split; [f_equal; exact Hs | exact Hst].
    + exists EmptyString. split; [reflexivity|]. split; [reflexivity|].
      cbn [stops]. rewrite Hc. reflexivity.
Qed.

Lemma find_digits_empty (s : string) :
  find_if_not isdigit s = EmptyString -> all_digits s = true.
Proof.
  intros H. destruct (find_digits_split s) as (ds & Hd & Hs & _).
  rewrite H, append_nil_r in Hs. rewrite Hs. exact Hd.
Qed.

Lemma exponent_sound (after_e : string) :
  find_if_not isdigit
    (if Ascii.eqb (char_at after_e 0) "+" || Ascii.eqb (char_at after_e 0) "-"
     then substring 1 (String.length after_e - 1) after_e
     else after_e) = EmptyString ->
  stol after_e <> None ->
  exists es ed, after_e = append es ed /\ sign_ok es = true /\ digits_ok ed = true.
Proof.
  intros Hscan Hstol. destruct after_e as [|a t]; [exfalso; apply Hstol; reflexivity|].
  cbn [char_at String.get String.length Nat.sub] in Hscan.
  rewrite Nat.sub_0_r in Hscan.
  assert (Hsub : substring 1 (String.length t) (String a t) = t).
  { cbn [substring]. apply substring_all. }
  rewrite Hsub in Hscan. unfold stol in Hstol.
  destruct (Ascii.eqb_spec a "+") as [-> | Hp].
  - cbn [orb] in Hscan. apply find_digits_empty in Hscan.
    exists "+"%string, t. split; [reflexivity|]. split; [reflexivity|].
    destruct t; [exfalso; apply Hstol; reflexivity | exact Hscan].
  - destruct (Ascii.eqb_spec a "-") as [-> | Hm].
    + cbn [orb] in Hscan. apply find_digits_empty in Hscan.
      exists "-"%string, t. split; [reflexivity|]. split; [reflexivity|].
      destruct t; [exfalso; apply Hstol; reflexivity | exact Hscan].
    + cbn [orb] in Hscan. apply find_digits_empty in Hscan.
      exists EmptyString, (String a t). split; [reflexivity|]. split; [reflexivity|].
      exact Hscan.
Qed.

Lemma stops_zero_prefix (w rest : string) :
  stops is_zero_char (append w rest) = true -> all_digits w = true ->
  stops is_zero_char w = true.
Proof. intros H _. destruct w; [reflexivity | exact H]. Qed.

Lemma parse_body_sound (neg : bool) (body : string) (out : Decimal128) (p sc : Z) :
  parse_body neg body = ParseOK out p sc -> body <> EmptyString ->
  (exists n, (1 <= n)%nat /\ body = replicate n "0") \/
  (exists zeros whole frac expo,
     pieces_ok "" whole frac expo = true /\
     body = append (replicate zeros "0")
              (append whole (append (frac_text frac) (expo_text expo)))).
Proof.
  intros H Hne. unfold parse_body in H. cbv zeta in H.
  destruct (find_zeros_split body) as (n & Hbody & Hstop1).
  remember (find_if_not is_zero_char body) as r1 eqn:Hr1. clear Hr1.
  destruct (string_dec r1 EmptyString) as [Hr1e | Hr1ne].
  { left. exists n. subst r1. rewrite append_nil_r in Hbody. split; [|exact Hbody].
    destruct n; [cbn in Hbody; congruence | lia]. }
  right. rewrite (match_nonempty r1) in H by exact Hr1ne.
  destruct (find_digits_split r1) as (W & HW & HWr & Hstop2).
  remember (find_if_not isdigit r1) as r2 eqn:Hr2. clear Hr2.
  assert (HWz : stops is_zero_char W = true).
  { rewrite HWr in Hstop1. apply (stops_zero_prefix W r2 Hstop1 HW). }
  rewrite HWr, range_prefix in H.
  destruct r2 as [|c2 t2].
  - exists n, W, None, None. cbn [frac_text expo_text append]. split; [|rewrite Hbody, HWr; reflexivity].
    unfold pieces_ok. change (sign_ok "") with true. rewrite HW, HWz. cbn [andb].
    rewrite append_nil_r in HWr. subst r1.
    destruct W; [congruence | reflexivity].
  - assert (Hc2 : c2 = "."%char).
    { destruct c2 as [b0 b1 b2 b3 b4 b5 b6 b7].
      destruct b0, b1, b2, b3, b4, b5, b6, b7; try discriminate H; reflexivity. }
    subst c2.
    destruct t2 as [|c3 t3]; [discriminate H|].
    cbv iota beta in H.
    destruct (isdigit c3) eqn:Hc3; [|discriminate H].
    destruct (find_digits_split (String c3 t3)) as (F & HF & HFr & Hstop3).
    remember (find_if_not isdigit (String c3 t3)) as r3 eqn:Hr3. clear Hr3.
    assert (HFne : digits_ok F = true).
    { destruct F as [|f F']; [|exact HF]. cbn [append] in HFr. subst r3.
      cbn [stops] in Hstop3. rewrite Hc3 in Hstop3. discriminate. }
    rewrite HFr, range_prefix in H. rewrite HFr in HWr. clear HFr Hstop2 c3 t3 Hc3.
    destruct r3 as [|m after_e].
    + exists n, W, (Some F), None. split; [|rewrite Hbody, HWr; reflexivity].
      unfold pieces_ok. change (sign_ok "") with true. rewrite HW, HWz, HFne.
      cbn [andb]. apply orb_true_r.
    + destruct (negb (Ascii.eqb m "E") && negb (Ascii.eqb m "e")) eqn:Hm; [discriminate H|].
      destruct (find_if_not isdigit
                  (if Ascii.eqb (char_at after_e 0) "+" || Ascii.eqb (char_at after_e 0) "-"
                   then substring 1 (String.length after_e - 1) after_e
                   else after_e)) eqn:Hscan; [|discriminate H].
      destruct (stol after_e) as [e|] eqn:Hstol; [|discriminate H].
      destruct (exponent_sound after_e Hscan ltac:(congruence)) as (es & ed & He & Hes & Hed).
      exists n, W, (Some F), (Some (m, es, ed)).
      split; [|rewrite Hbody, HWr, He; reflexivity].
      unfold pieces_ok. change (sign_ok "") with true. rewrite HW, HWz, HFne, Hes, Hed.
      cbn [andb]. rewrite orb_true_r, !andb_true_r.
      destruct (Ascii.eqb m "E"); [reflexivity|]. destruct (Ascii.eqb m "e"); [reflexivity|].
      discriminate Hm.
Qed.

Lemma pieces_ok_with_sign (sign whole : string) (frac : option string)
    (expo : option (ascii * string * string)) :
  sign_ok sign = true -> pieces_ok "" whole frac expo = true ->
  pieces_ok sign whole frac expo = true.
Proof.
  unfold pieces_ok. change (sign_ok "") with true. intros ->. exact (fun H => H).
Qed.

(** X25: a call of [FromString] that asks for [out], [precision] and [scale]
    accepts nothing outside its grammar: an accepted text is an optional
    sign followed either by zeros only or by leading zeros, a whole part, an
    optional point with at least one digit and, only after such a fraction,
    an optional exponent marker with an optional sign and at least one
    digit, the whole part or the fraction being there.  (The digit behind
    the exponent marker is what [std::stol] requires; a call without [scale]
    does not reach it and is not covered.) *)
Theorem FromString_accepts_only_grammar (s : string) (out : Decimal128) (p sc : Z) :
  FromString s = ParseOK out p sc ->
  (exists sign n, sign_ok sign = true /\ (1 <= n)%nat /\
                  s = append sign (replicate n "0")) \/
  (exists sign zeros whole frac expo,
     pieces_ok sign whole frac expo = true /\
     s = decimal_text sign zeros whole frac expo).
Proof.
  intros H. rewrite FromString_unfold in H.
  destruct s as [|c rest]; [discriminate H|]. cbv zeta in H.
  assert (Hshape : exists sign body neg,
            sign_ok sign = true /\ String c rest = append sign body /\
            body <> EmptyString /\ parse_body neg body = ParseOK out p sc).
  { destruct (Ascii.eqb c "+" || Ascii.eqb c "-") eqn:Hsg.
    - destruct rest as [|c' rest']; [discriminate H|].
      exists (String c EmptyString), (String c' rest'), (true && Ascii.eqb c "-").
      split; [|split; [reflexivity | split; [discriminate | exact H]]].
      apply orb_prop in Hsg. destruct Hsg as [Hc | Hc]; apply Ascii.eqb_eq in Hc;
        subst c; reflexivity.
    - exists EmptyString, (String c rest), (false && Ascii.eqb c "-").
      split; [reflexivity|]. split; [reflexivity|]. split; [discriminate | exact H]. }
  destruct Hshape as (sign & body & neg & Hs & Hsb & Hne & Hp).
  destruct (parse_body_sound neg body out p sc Hp Hne)
    as [(n & Hn & Hb) | (zeros & whole & frac & expo & Hok & Hb)].
  - left. exists sign, n. split; [exact Hs|]. split; [exact Hn|]. rewrite Hsb, Hb. reflexivity.
  - right. exists sign, zeros, whole, frac, expo.
    split; [apply pieces_ok_with_sign; assumption|].
    unfold decimal_text. rewrite Hsb, Hb. reflexivity.
Qed.

Lemma FromString_accepts_only_grammar_witness :
  (exists sign n, sign_ok sign = true /\ (1 <= n)%nat /\
                  "-01.50e+3"%string = append sign (replicate n "0")) \/
  (exists sign zeros whole frac expo,
     pieces_ok sign whole frac expo = true /\
     "-01.50e+3"%string = decimal_text sign zeros whole frac expo).
Proof.
  apply (FromString_accepts_only_grammar "-01.50e+3" (of_Z (-150)) 3 (-1)).
  vm_compute. reflexivity.
Defined.

(** * Further properties of formatting *)

Lemma digit_char_code (d : Z) :
  0 <= d < 10 -> Z.of_nat (nat_of_ascii (digit_char d)) - 48 = d.
Proof.
  intros Hd. unfold digit_char. rewrite nat_ascii_embedding by lia. lia.
Qed.

Lemma digit_char_nonzero (d : Z) : 0 < d < 10 -> is_zero_char (digit_char d) = false.
Proof.
  intros Hd. unfold is_zero_char.
  destruct (Ascii.eqb_spec (digit_char d) "0") as [He | Hne]; [|reflexivity].
  pose proof (digit_char_code d ltac:(lia)) as Hc. rewrite He in Hc. cbn in Hc. lia.
Qed.

Lemma digits_value_cons (c : ascii) (s : string) :
  digits_value (String c s) 0
  = (Z.of_nat (nat_of_ascii c) - 48) * 10 ^ Z.of_nat (String.length s) + digits_value s 0.
Proof. cbn [digits_value]. rewrite digits_value_acc. f_equal. Qed.

Lemma digits_of_value (fuel : nat) :
  forall n acc, 0 <= n < 10 ^ Z.of_nat fuel ->
  digits_value (digits_of fuel n acc) 0
  = n * 10 ^ Z.of_nat (String.length acc) + digits_value acc 0.
Proof.
  induction fuel as [|fuel IH]; intros n acc Hn; cbn [digits_of].
  - cbn in Hn. assert (n = 0) by lia. subst n. lia.
  - rewrite Nat2Z.inj_succ, Z.pow_succ_r in Hn by lia.
    pose proof (Z.div_mod n 10 ltac:(lia)) as Hdm.
    pose proof (Z.mod_pos_bound n 10 ltac:(lia)) as Hm.
    assert (Hv : digits_value (String (digit_char (n mod 10)) acc) 0
                 = (n mod 10) * 10 ^ Z.of_nat (String.length acc) + digits_value acc 0).
    { rewrite digits_value_cons, digit_char_code by lia. reflexivity. }
    destruct (Z.eqb_spec (n / 10) 0) as [Hq | Hq].
    + rewrite Hv. f_equal. f_equal. lia.
    + rewrite IH by (split; [apply Z.div_pos; lia | apply Z.div_lt_upper_bound; lia]).
      rewrite Hv. cbn [String.length]. rewrite Nat2Z.inj_succ, Z.pow_succ_r by lia.
      set (P := 10 ^ Z.of_nat (String.length acc)). clearbody P.
      set (q := n / 10) in *. set (r := n mod 10) in *. clearbody q r. subst n. ring.
Qed.

Lemma digits_of_length (fuel : nat) :
  forall n k acc, 0 <= n < 10 ^ Z.of_nat k -> (1 <= k)%nat ->
  (String.length (digits_of fuel n acc) <= k + String.length acc)%nat.
Proof.
  induction fuel as [|fuel IH]; intros n k acc Hn Hk; cbn [digits_of]; [lia|].
  destruct (Z.eqb_spec (n / 10) 0) as [Hq | Hq]; [cbn [String.length]; lia|].
  destruct k as [|k]; [lia|].
  rewrite Nat2Z.inj_succ, Z.pow_succ_r in Hn by lia.
  assert (Hq' : 0 < n / 10).
  { pose proof (Z.div_pos n 10 ltac:(lia) ltac:(lia)). lia. }
  assert (Hk' : (1 <= k)%nat).
  { destruct k; [|lia]. cbn in Hn.
    assert (n / 10 = 0) by (apply Z.div_small; lia). lia. }
  specialize (IH (n / 10) k (String (digit_char (n mod 10)) acc)
                ltac:(split; [lia | apply Z.div_lt_upper_bound; lia]) Hk').
  cbn [String.length] in IH. lia.
Qed.

Lemma digits_of_lead (fuel : nat) :
  forall n acc, 0 < n < 10 ^ Z.of_nat fuel ->
  stops is_zero_char (digits_of fuel n acc) = true.
Proof.
  induction fuel as [|fuel IH]; intros n acc Hn; [cbn in Hn; lia|].
  cbn [digits_of].
  rewrite Nat2Z.inj_succ, Z.pow_succ_r in Hn by lia.
  pose proof (Z.div_mod n 10 ltac:(lia)) as Hdm.
  pose proof (Z.mod_pos_bound n 10 ltac:(lia)) as Hm.
  destruct (Z.eqb_spec (n / 10) 0) as [Hq | Hq].
  - cbn [stops]. rewrite digit_char_nonzero by lia. reflexivity.
  - apply IH. pose proof (Z.div_pos n 10 ltac:(lia) ltac:(lia)).
    split; [lia | apply Z.div_lt_upper_bound; lia].
Qed.

Lemma digits_value_zeros (n : nat) (s : string) :
  digits_value (append (replicate n "0") s) 0 = digits_value s 0.
Proof.
  induction n as [|n IH]; [reflexivity|].
  cbn [replicate append]. rewrite digits_value_cons, IH. reflexivity.
Qed.

(** What [operator<<] prints for a non-negative number below 10^20. *)
Lemma string_of_nonneg (v : Z) :
  0 <= v < 10 ^ 20 ->
  string_of_int64 v = digits_of 20 v "" /\
  all_digits (string_of_int64 v) = true /\
  string_of_int64 v <> EmptyString /\
  digits_value (string_of_int64 v) 0 = v /\
  (0 < v -> stops is_zero_char (string_of_int64 v) = true) /\
  (v = 0 -> string_of_int64 v = "0"%string) /\
  (forall k, (1 <= k)%nat -> v < 10 ^ Z.of_nat k ->
             (String.length (string_of_int64 v) <= k)%nat).
Proof.
  intros Hv. unfold string_of_int64.
  replace (v <? 0) with false by (symmetry; apply Z.ltb_ge; lia).
  destruct (digits_of_spec 20 v EmptyString ltac:(lia) eq_refl) as (Ha & _ & Hl1).
  specialize (Hl1 ltac:(lia)).
  split; [reflexivity|]. split; [exact Ha|]. split.
  { intros He. rewrite He in Hl1. cbn in Hl1. lia. }
  split.
  { rewrite digits_of_value by (change (Z.of_nat 20) with 20; lia). cbn. lia. }
  split.
  { intros Hpos. apply digits_of_lead. change (Z.of_nat 20) with 20. lia. }
  split.
  { intros ->. reflexivity. }
  intros k Hk Hlt.
  pose proof (digits_of_length 20 v k EmptyString ltac:(lia) Hk) as Hl.
  cbn [String.length] in Hl. lia.
Qed.

(** A group of 18 digits: the number padded with zeros on the left. *)
Lemma pad18_spec (v : Z) :
  0 <= v < 10 ^ 18 ->
  all_digits (pad_left 18 "0" (string_of_int64 v)) = true /\
  String.length (pad_left 18 "0" (string_of_int64 v)) = 18%nat /\
  digits_value (pad_left 18 "0" (string_of_int64 v)) 0 = v.
Proof.
  intros Hv.
  destruct (string_of_nonneg v ltac:(lia)) as (_ & Ha & _ & Hval & _ & _ & Hlen).
  specialize (Hlen 18%nat ltac:(lia) ltac:(change (Z.of_nat 18) with 18; lia)).
  unfold pad_left. split; [|split].
  - rewrite all_digits_app, all_digits_replicate_0, Ha. reflexivity.
  - rewrite length_append, length_replicate. lia.
  - rewrite digits_value_zeros. exact Hval.
Qed.

Lemma quot_rem_abs (a b : Z) :
  0 < b ->
  Z.quot a b = (if a <? 0 then - (Z.abs a / b) else Z.abs a / b) /\
  Z.rem a b = (if a <? 0 then - (Z.abs a mod b) else Z.abs a mod b).
Proof.
  intros Hb. destruct (Z.ltb_spec a 0) as [Ha | Ha].
  - rewrite Z.abs_neq by lia.
    replace a with (- (- a)) at 1 3 by lia.
    rewrite Z.quot_opp_l, Z.rem_opp_l by lia.
    rewrite Z.quot_div_nonneg, Z.rem_mod_nonneg by lia. split; reflexivity.
  - rewrite Z.abs_eq by lia.
    rewrite Z.quot_div_nonneg, Z.rem_mod_nonneg by lia. split; reflexivity.
Qed.

Lemma string_of_signed (v : Z) :
  string_of_int64 v
  = if v <? 0 then String "-" (string_of_int64 (Z.abs v)) else string_of_int64 (Z.abs v).
Proof.
  unfold string_of_int64. destruct (Z.ltb_spec v 0) as [Hv | Hv].
  - rewrite Z.abs_neq by lia.
    replace (- v <? 0) with false by (symmetry; apply Z.ltb_ge; lia). reflexivity.
  - rewrite Z.abs_eq by lia.
    replace (v <? 0) with false by (symmetry; apply Z.ltb_ge; lia). reflexivity.
Qed.

Lemma Divide_kTenTo18_exact (a result remainder : Decimal128) :
  wf a -> small_digits (Z.abs (to_Z a) / 10 ^ 18) = true ->
  exists q r,
    Divide a kTenTo18 result remainder = Some (OK, q, r) /\ wf q /\ wf r /\
    to_Z q = (if to_Z a <? 0 then - (Z.abs (to_Z a) / 10 ^ 18)
              else Z.abs (to_Z a) / 10 ^ 18) /\
    to_Z r = (if to_Z a <? 0 then - (Z.abs (to_Z a) mod 10 ^ 18)
              else Z.abs (to_Z a) mod 10 ^ 18).
Proof.
  intros Hwa Hs. destruct kTenTo18_value as [Hw18 Hv18].
  pose proof (to_Z_range a Hwa) as Har.
  destruct (Divide_quot_rem a kTenTo18 result remainder Hwa Hw18)
    as (q & r & Hd & Hwq & Hwr & Hq & Hr).
  - rewrite Hv18. lia.
  - rewrite Hv18. rewrite Z.abs_eq by lia. lia.
  - rewrite Hv18. rewrite (Z.abs_eq (10 ^ 18)) by lia. rewrite Hs. apply orb_true_r.
  - rewrite Hv18 in Hq, Hr.
    destruct (quot_rem_abs (to_Z a) (10 ^ 18) ltac:(lia)) as [Hqa Hra].
    exists q, r. split; [exact Hd|]. split; [exact Hwq|]. split; [exact Hwr|].
    split; [|rewrite Hr; exact Hra].
    rewrite Hq, Hqa. apply wrap_s128_id.
    assert (0 <= Z.abs (to_Z a) / 10 ^ 18 < 2 ^ 127).
    { split; [apply Z.div_pos; lia|]. apply Z.div_lt_upper_bound; lia. }
    destruct (to_Z a <? 0); lia.
Qed.

Lemma stops_app (p : ascii -> bool) (s t : string) :
  s <> EmptyString -> stops p (append s t) = stops p s.
Proof. destruct s; [congruence | reflexivity]. Qed.

Lemma signed_append (b : bool) (s t : string) :
  append (if b then String "-" s else s) t
  = if b then String "-" (append s t) else append s t.
Proof. destruct b; reflexivity. Qed.

(** The digits [ToIntegerString] prints, when the division by 10^18 inside
    it is exact. *)
Lemma ToIntegerString_digits (x : Decimal128) :
  wf x ->
  small_digits ((Z.abs (to_Z x) mod 10 ^ 36) / 10 ^ 18) = true ->
  exists ds,
    ToIntegerString x = Some (if to_Z x <? 0 then String "-" ds else ds) /\
    all_digits ds = true /\ ds <> EmptyString /\
    digits_value ds 0 = Z.abs (to_Z x) /\
    (to_Z x <> 0 -> stops is_zero_char ds = true) /\
    (to_Z x = 0 -> ds = "0"%string) /\
    (String.length ds <= 39)%nat.
Proof.
  intros Hwx Hs. pose proof (to_Z_range x Hwx) as Hxr.
  unfold ToIntegerString.
  destruct (Divide_kTenTo36 x Decimal128_zero Decimal128_zero Hwx)
    as (top & rem & Hd & Hwt & Hwr & Ht & Hr).
  rewrite Hd. rewrite (eqb_zero_spec top Hwt).
  destruct (quot_rem_abs (to_Z x) (10 ^ 36) ltac:(lia)) as [Hqa Hra].
  rewrite Hqa in Ht. rewrite Hra in Hr. clear Hqa Hra Hd.
  set (A := Z.abs (to_Z x)) in *.
  assert (HA : 0 <= A <= 2 ^ 127) by (subst A; lia).
  assert (HAx : to_Z x = if to_Z x <? 0 then - A else A).
  { subst A. destruct (Z.ltb_spec (to_Z x) 0); lia. }
  pose proof (Z.div_mod A (10 ^ 36) ltac:(lia)) as HdA.
  pose proof (Z.mod_pos_bound A (10 ^ 36) ltac:(lia)) as HM.
  assert (HT : 0 <= A / 10 ^ 36 <= 170).
  { split; [apply Z.div_pos; lia|].
    assert (A / 10 ^ 36 < 171) by (apply Z.div_lt_upper_bound; lia). lia. }
  set (T := A / 10 ^ 36) in *. set (M := A mod 10 ^ 36) in *.
  pose proof (Z.div_mod M (10 ^ 18) ltac:(lia)) as HdM.
  pose proof (Z.mod_pos_bound M (10 ^ 18) ltac:(lia)) as HR.
  assert (HQ : 0 <= M / 10 ^ 18 < 10 ^ 18).
  { split; [apply Z.div_pos; lia | apply Z.div_lt_upper_bound; lia]. }
  destruct (Z.eqb_spec (to_Z top) 0) as [Htop0 | Htop]; cbn [negb].
  - (* nothing above 10^36 *)
    assert (HT0 : T = 0) by (destruct (to_Z x <? 0); lia).
    assert (HMA : M = A) by lia.
    assert (Hremx : rem = x).
    { apply to_Z_inj; [exact Hwr | exact Hwx|]. rewrite Hr, HMA. symmetry. exact HAx. }
    subst rem. clear Hr Hwr.
    destruct (Divide_kTenTo18_exact x top Decimal128_zero Hwx) as (q2 & r2 & Hd2 & Hwq2 & Hwr2 & Hq2 & Hr2).
    { fold A. rewrite <- HMA. exact Hs. }
    fold A in Hq2, Hr2. rewrite <- HMA in Hq2, Hr2.
    set (Q := M / 10 ^ 18) in *. set (R := M mod 10 ^ 18) in *.
    rewrite Hd2. cbn [orb]. rewrite (eqb_zero_spec q2 Hwq2).
    destruct (Z.eqb_spec (to_Z q2) 0) as [Hq20 | Hq2n]; cbn [negb].
    + (* a single chunk *)
      assert (HQ0 : Q = 0) by (destruct (to_Z x <? 0); lia).
      assert (HRA : R = A) by lia.
      assert (Hr2x : to_Z r2 = to_Z x) by (rewrite Hr2, HRA; symmetry; exact HAx).
      rewrite (to_int64_small r2 Hwr2) by lia. rewrite Hr2x.
      cbn [append]. rewrite string_of_signed. fold A.
      destruct (string_of_nonneg A ltac:(lia)) as (_ & Hall & Hne & Hval & Hlead & Hzero & Hlen).
      exists (string_of_int64 A). split; [reflexivity|].
      split; [exact Hall|]. split; [exact Hne|]. split; [exact Hval|].
      split; [intros Hx0; apply Hlead; subst A; lia|].
      split; [intros Hx0; apply Hzero; subst A; lia|].
      specialize (Hlen 18%nat ltac:(lia) ltac:(change (Z.of_nat 18) with 18; lia)). lia.
    + (* two chunks *)
      assert (HQpos : 0 < Q) by (destruct (to_Z x <? 0); lia).
      destruct (Abs_spec r2 Hwr2 ltac:(destruct (to_Z x <? 0); lia)) as [Hwa Ha].
      assert (HaR : to_Z (Abs r2) = R) by (destruct (to_Z x <? 0); lia).
      rewrite (to_int64_small q2 Hwq2) by (destruct (to_Z x <? 0); lia).
      rewrite (to_int64_small (Abs r2) Hwa) by lia. rewrite HaR.
      cbn [append]. rewrite string_of_signed.
      assert (Hsign : (to_Z q2 <? 0) = (to_Z x <? 0)).
      { rewrite Hq2. destruct (Z.ltb_spec (to_Z x) 0);
          [apply Z.ltb_lt | apply Z.ltb_ge]; lia. }
      assert (Habs : Z.abs (to_Z q2) = Q) by (destruct (to_Z x <? 0); lia).
      rewrite Hsign, Habs, signed_append.
      destruct (string_of_nonneg Q ltac:(lia)) as (_ & Hall & Hne & Hval & Hlead & _ & Hlen).
      destruct (pad18_spec R ltac:(lia)) as (Hpa & Hpl & Hpv).
      specialize (Hlen 18%nat ltac:(lia) ltac:(change (Z.of_nat 18) with 18; lia)).
      eexists. split; [reflexivity|].
      split; [rewrite all_digits_app, Hall, Hpa; reflexivity|].
      split; [destruct (string_of_int64 Q); [congruence | discriminate]|].
      split; [rewrite digits_value_app, Hval, Hpv, Hpl; change (Z.of_nat 18) with 18; lia|].
      split; [intros _; rewrite stops_app by exact Hne; apply Hlead; exact HQpos|].
      split; [intros Hx0; exfalso; subst A; lia|].
      rewrite length_append, Hpl. lia.
  - (* three chunks *)
    assert (HTpos : 0 < T) by (destruct (to_Z x <? 0); lia).
    destruct (Abs_spec rem Hwr ltac:(destruct (to_Z x <? 0); lia)) as [Hwa Ha].
    assert (HaM : to_Z (Abs rem) = M) by (destruct (to_Z x <? 0); lia).
    destruct (Divide_kTenTo18_exact (Abs rem) top Decimal128_zero Hwa)
      as (q2 & r2 & Hd2 & Hwq2 & Hwr2 & Hq2 & Hr2).
    { rewrite HaM, (Z.abs_eq M) by lia. exact Hs. }
    rewrite HaM, (Z.abs_eq M) in Hq2, Hr2 by lia.
    replace (M <? 0) with false in Hq2, Hr2 by (symmetry; apply Z.ltb_ge; lia).
    set (Q := M / 10 ^ 18) in *. set (R := M mod 10 ^ 18) in *.
    rewrite Hd2. cbn [orb].
    rewrite (to_int64_small top Hwt) by (destruct (to_Z x <? 0); lia).
    rewrite (to_int64_small q2 Hwq2) by lia.
    rewrite (to_int64_small r2 Hwr2) by lia.
    rewrite Hq2, Hr2. rewrite (string_of_signed (to_Z top)).
    assert (Hsign : (to_Z top <? 0) = (to_Z x <? 0)).
    { rewrite Ht. destruct (Z.ltb_spec (to_Z x) 0);
        [apply Z.ltb_lt | apply Z.ltb_ge]; lia. }
    assert (Habs : Z.abs (to_Z top) = T) by (destruct (to_Z x <? 0); lia).
    rewrite Hsign, Habs, !signed_append.
    destruct (string_of_nonneg T ltac:(lia)) as (_ & Hall & Hne & Hval & Hlead & _ & Hlen).
    destruct (pad18_spec Q ltac:(lia)) as (Hqa & Hql & Hqv).
    destruct (pad18_spec R ltac:(lia)) as (Hpa & Hpl & Hpv).
    specialize (Hlen 3%nat ltac:(lia) ltac:(change (Z.of_nat 3) with 3; lia)).
    eexists. split; [reflexivity|].
    split; [rewrite !all_digits_app, Hall, Hqa, Hpa; reflexivity|].
    split; [destruct (string_of_int64 T); [congruence | discriminate]|].
    split.
    { rewrite !digits_value_app, Hval, Hqv, Hpv, Hql, Hpl.
      change (Z.of_nat 18) with 18. lia. }
    split.
    { intros _. rewrite append_assoc, stops_app by exact Hne. apply Hlead. exact HTpos. }
    split; [intros Hx0; exfalso; subst A; lia|].
    rewrite !length_append, Hql, Hpl. lia.
Qed.

(** X26: [ToIntegerString] prints the decimal numeral of the value: a minus sign
    for a negative value, then the digits of the magnitude without leading
    zeros ("0" for zero), at most 39 of them; this holds whenever the
    division by 10^18 inside it is exact, that is when the middle group of 18
    digits, as a number, has no base-2^32 digit above 2^32-3. *)
Theorem ToIntegerString_value (x : Decimal128) :
  wf x ->
  small_digits ((Z.abs (to_Z x) mod 10 ^ 36) / 10 ^ 18) = true ->
  exists ds,
    ToIntegerString x = Some (if to_Z x <? 0 then String "-" ds else ds) /\
    all_digits ds = true /\ ds <> EmptyString /\
    digits_value ds 0 = Z.abs (to_Z x) /\
    (to_Z x <> 0 -> stops is_zero_char ds = true) /\
    (to_Z x = 0 -> ds = "0"%string) /\
    (String.length ds <= 39)%nat.
Proof.
  intros Hwx Hs.
  destruct (ToIntegerString_digits x Hwx Hs) as (ds & Hstr & Hall & Hne & Hval & Hrest).
  exists ds. split; [exact Hstr|]. split; [exact Hall|]. split; [exact Hne|].
  split; [exact Hval | exact Hrest].
Qed.

Lemma ToIntegerString_value_witness :
  exists ds,
    ToIntegerString (of_Z (- (10 ^ 38 + 12345))) = Some (String "-" ds) /\
    digits_value ds 0 = 10 ^ 38 + 12345.
Proof.
  destruct (ToIntegerString_value (of_Z (- (10 ^ 38 + 12345))))
    as (ds & Hs & _ & _ & Hv & _).
  - unfold wf; vm_compute; intuition discriminate.
  - vm_compute. reflexivity.
  - exists ds. split; [exact Hs | exact Hv].
Defined.

Lemma substring_0_app (a c : string) (n : nat) :
  (n <= String.length a)%nat -> substring 0 n (append a c) = substring 0 n a.
Proof.
  revert n. induction a as [|x a IH]; intros n Hn.
  - cbn [String.length] in Hn. assert (n = 0%nat) by lia. subst n.
    cbn [append]. destruct c; reflexivity.
  - destruct n as [|n]; [reflexivity|]. cbn [append substring]. f_equal.
    apply IH. cbn [String.length] in Hn. lia.
Qed.

Lemma digits_split_at (ds : string) (k : nat) :
  all_digits ds = true -> (k <= String.length ds)%nat ->
  ds = append (substring 0 k ds) (substring k (String.length ds - k) ds) /\
  all_digits (substring 0 k ds) = true /\
  all_digits (substring k (String.length ds - k) ds) = true /\
  String.length (substring 0 k ds) = k /\
  String.length (substring k (String.length ds - k) ds) = (String.length ds - k)%nat.
Proof.
  intros Hd Hk. split; [apply substring_split; exact Hk|].
  split; [apply all_digits_substring; exact Hd|].
  split; [apply all_digits_substring; exact Hd|].
  split; [apply length_substring_prefix; exact Hk|].
  apply length_substring_suffix. exact Hk.
Qed.

(** The plain form: sign, integer digits, a point and exactly [scale]
    fractional digits, which together are the digits of the integer string
    behind some zeros. *)
Lemma ToString_plain_shape (ds : string) (neg : bool) (scale : Z) :
  all_digits ds = true -> (1 <= String.length ds <= 99)%nat -> 0 < scale < 2 ^ 31 ->
  exists I F z,
    ToString_plain (if neg then String "-" ds else ds) neg scale
      (Z.of_nat (String.length (if neg then String "-" ds else ds)))
    = Some (if neg then String "-" (append I (String "." F))
            else append I (String "." F)) /\
    all_digits I = true /\ I <> EmptyString /\ all_digits F = true /\
    Z.of_nat (String.length F) = scale /\
    append I F = append (replicate z "0") ds /\
    (String.length I <= String.length ds)%nat.
Proof.
  intros Hd Hlen Hscale. unfold ToString_plain.
  set (L := String.length ds) in *.
  assert (Hsub0 : forall s n, substr s 0 n = Some (substring 0 n s)).
  { intros s n. unfold substr. destruct (String.length s <? 0)%nat eqn:H; [|reflexivity].
    apply Nat.ltb_lt in H. lia. }
  assert (Hlong : scale < Z.of_nat L ->
            exists k, (1 <= k <= L)%nat /\ Z.of_nat k = Z.of_nat L - scale /\
                      Z.to_nat scale = (L - k)%nat).
  { intros Hlt. exists (Z.to_nat (Z.of_nat L - scale)). lia. }
  destruct neg.
  - cbn [String.length]. rewrite Nat2Z.inj_succ. fold L.
    replace (Z.succ (Z.of_nat L) - 1) with (Z.of_nat L) by lia.
    rewrite (wrap_s32_id (Z.of_nat L)) by lia.
    destruct (Z.ltb_spec scale (Z.of_nat L)) as [Hlt | Hge].
    + destruct (Hlong Hlt) as (k & Hk & HkL & Hsc).
      cbv zeta. rewrite (wrap_s32_id (Z.succ (Z.of_nat L) - scale)) by lia.
      replace (Z.to_nat (Z.succ (Z.of_nat L) - scale)) with (S k) by lia.
      rewrite Hsub0, Hsc. unfold substr. cbn [String.length]. fold L.
      replace (S L <? S k)%nat with false by (symmetry; apply Nat.ltb_ge; lia).
      cbn [substring concat3 append].
      destruct (digits_split_at ds k Hd ltac:(lia)) as (Hsplit & HdI & HdF & HlI & HlF).
      fold L in Hsplit, HdF, HlF.
      exists (substring 0 k ds), (substring k (L - k) ds), 0%nat.
      split; [reflexivity|]. split; [exact HdI|].
      split; [intros He; rewrite He in HlI; cbn in HlI; lia|].
      split; [exact HdF|]. split; [rewrite HlF; lia|].
      split; [cbn [replicate append]; symmetry; exact Hsplit|].
      rewrite HlI. fold L. lia.
    + destruct (Z.eqb_spec (Z.of_nat L) scale) as [He | Hne].
      * rewrite substr_from_tail. cbn [concat3 append].
        exists "0"%string, ds, 1%nat.
        split; [reflexivity|]. split; [reflexivity|]. split; [discriminate|].
        split; [exact Hd|]. split; [fold L; exact He|].
        split; [reflexivity | cbn [String.length]; fold L; lia].
      * rewrite substr_from_tail. cbn [concat3 append].
        rewrite (wrap_s32_id (scale - Z.succ (Z.of_nat L))) by lia.
        rewrite (wrap_s32_id (scale - Z.succ (Z.of_nat L) + 1)) by lia.
        set (z := Z.to_nat (scale - Z.succ (Z.of_nat L) + 1)).
        exists "0"%string, (append (replicate z "0") ds), (S z).
        split; [reflexivity|]. split; [reflexivity|]. split; [discriminate|].
        split; [rewrite all_digits_app, all_digits_replicate_0, Hd; reflexivity|].
        split; [rewrite length_append, length_replicate; fold L; subst z; lia|].
        split; [reflexivity | cbn [String.length]; fold L; lia].
  - fold L.
    destruct (Z.ltb_spec scale (Z.of_nat L)) as [Hlt | Hge].
    + destruct (Hlong Hlt) as (k & Hk & HkL & Hsc).
      cbv zeta. rewrite (wrap_s32_id (Z.of_nat L - scale)) by lia.
      replace (Z.to_nat (Z.of_nat L - scale)) with k by lia.
      rewrite Hsub0, Hsc. unfold substr. fold L.
      replace (L <? k)%nat with false by (symmetry; apply Nat.ltb_ge; lia).
      cbn [concat3].
      destruct (digits_split_at ds k Hd ltac:(lia)) as (Hsplit & HdI & HdF & HlI & HlF).
      fold L in Hsplit, HdF, HlF.
      exists (substring 0 k ds), (substring k (L - k) ds), 0%nat.
      split; [reflexivity|]. split; [exact HdI|].
      split; [intros He; rewrite He in HlI; cbn in HlI; lia|].
      split; [exact HdF|]. split; [rewrite HlF; lia|].
      split; [cbn [replicate append]; symmetry; exact Hsplit|].
      rewrite HlI. fold L. lia.
    + destruct (Z.eqb_spec (Z.of_nat L) scale) as [He | Hne].
      * exists "0"%string, ds, 1%nat.
        split; [reflexivity|]. split; [reflexivity|]. split; [discriminate|].
        split; [exact Hd|]. split; [fold L; exact He|].
        split; [reflexivity | cbn [String.length]; fold L; lia].
      * rewrite (wrap_s32_id (scale - Z.of_nat L)) by lia.
        set (z := Z.to_nat (scale - Z.of_nat L)).
        exists "0"%string, (append (replicate z "0") ds), (S z).
        split; [reflexivity|]. split; [reflexivity|]. split; [discriminate|].
        split; [rewrite all_digits_app, all_digits_replicate_0, Hd; reflexivity|].
        split; [rewrite length_append, length_replicate; fold L; subst z; lia|].
        split; [reflexivity | cbn [String.length]; fold L; lia].
Qed.

(** [FromString] on a text given by its pieces. *)
Lemma FromString_pieces (sign : string) (zeros : nat) (whole : string)
    (frac : option string) (expo : option (ascii * string * string)) :
  pieces_ok sign whole frac expo = true ->
  precision_spec whole frac < 2 ^ 31 ->
  - 2 ^ 31 <= scale_spec whole frac expo < 2 ^ 31 ->
  exists out,
    FromString (decimal_text sign zeros whole frac expo)
    = ParseOK out (precision_spec whole frac) (scale_spec whole frac expo) /\
    wf out /\
    to_Z out = wrap_s128 (value_spec sign whole frac).
Proof.
  intros Hok Hprec Hscale.
  destruct (pieces_ok_sign _ _ _ _ Hok) as [Hsign Hok'].
  destruct (body_head zeros whole frac expo Hok') as (c & tl & Hbody & Hp & Hm).
  destruct (parse_body_spec (String.eqb sign "-") zeros whole frac expo Hok' Hprec Hscale)
    as (out & Hparse & Hw & Hv).
  unfold decimal_text. rewrite (FromString_sign sign _ c tl Hsign Hbody Hp Hm), Hparse.
  eexists. split; [reflexivity|].
  unfold value_spec. cbv zeta. destruct (String.eqb sign "-").
  - destruct (Negate_spec out Hw) as [Hwn Hvn]. split; [exact Hwn|].
    rewrite Hvn, Hv. apply wrap_s128_opp.
  - split; [exact Hw | exact Hv].
Qed.

Lemma strip_zeros (ds : string) :
  all_digits ds = true ->
  exists z w, ds = append (replicate z "0") w /\ all_digits w = true /\
              stops is_zero_char w = true.
Proof.
  intros Hd. destruct (find_zeros_split ds) as (z & Hs & Hst).
  exists z, (find_if_not is_zero_char ds). split; [exact Hs|]. split; [|exact Hst].
  rewrite Hs, all_digits_app in Hd. apply andb_prop in Hd. tauto.
Qed.

(** Reading back a numeral [sign I . F] with [I] and [F] digit strings, [F]
    not empty. *)
Lemma FromString_plain (neg : bool) (I F : string) :
  all_digits I = true -> all_digits F = true -> F <> EmptyString ->
  (String.length I + String.length F < 1000)%nat ->
  exists out p,
    FromString (if neg then String "-" (append I (String "." F))
                else append I (String "." F))
    = ParseOK out p (Z.of_nat (String.length F)) /\
    wf out /\
    to_Z out = wrap_s128 (if neg then - digits_value (append I F) 0
                          else digits_value (append I F) 0).
Proof.
  intros HI HF HFne Hlen.
  destruct (strip_zeros I HI) as (z & w & HIw & Hw & Hwz).
  assert (Hok : pieces_ok (if neg then "-" else "") w (Some F) None = true).
  { unfold pieces_ok. rewrite Hw, Hwz.
    replace (sign_ok (if neg then "-" else "")) with true by (destruct neg; reflexivity).
    cbn [andb]. rewrite orb_true_r, !andb_true_r.
    destruct F; [congruence | exact HF]. }
  assert (Hlw : (String.length w <= String.length I)%nat).
  { rewrite HIw, length_append. lia. }
  destruct (FromString_pieces (if neg then "-" else "") z w (Some F) None Hok)
    as (out & Hparse & Hwo & Hv).
  { unfold precision_spec, frac_digits. lia. }
  { unfold scale_spec, frac_digits. lia. }
  exists out, (precision_spec w (Some F)).
  split.
  { assert (Htxt : (if neg then String "-" (append I (String "." F))
                    else append I (String "." F))
                   = decimal_text (if neg then "-" else "") z w (Some F) None).
    { unfold decimal_text. cbn [frac_text expo_text].
      rewrite append_nil_r, HIw, append_assoc. destruct neg; reflexivity. }
    rewrite Htxt, Hparse. reflexivity. }
  split; [exact Hwo|].
  rewrite Hv. unfold value_spec, frac_digits. cbv zeta.
  rewrite HIw, append_assoc, digits_value_zeros. destruct neg; reflexivity.
Qed.

Lemma ToString_branches (x : Decimal128) (scale : Z) (ds : string) :
  wf x ->
  ToIntegerString x = Some (if to_Z x <? 0 then String "-" ds else ds) ->
  (1 <= String.length ds <= 39)%nat ->
  - 2 ^ 31 + 40 <= scale < 2 ^ 31 -> scale <> 0 ->
  ToString x scale
  = if (scale <? 0) || (- scale + (Z.of_nat (String.length ds) - 1) <? -6)
    then ToStringNegativeScale (if to_Z x <? 0 then String "-" ds else ds)
           (- scale + (Z.of_nat (String.length ds) - 1)) (to_Z x <? 0)
    else ToString_plain (if to_Z x <? 0 then String "-" ds else ds) (to_Z x <? 0) scale
           (Z.of_nat (String.length (if to_Z x <? 0 then String "-" ds else ds))).
Proof.
  intros Hwx Hstr Hlen Hscale Hnz.
  rewrite ToString_unfold, Hstr.
  replace (scale =? 0) with false by (symmetry; apply Z.eqb_neq; exact Hnz).
  cbv zeta. rewrite (ltb_zero_spec x Hwx).
  set (str := if to_Z x <? 0 then String "-" ds else ds).
  set (off := if to_Z x <? 0 then 1 else 0).
  assert (Hl : Z.of_nat (String.length str) = Z.of_nat (String.length ds) + off).
  { subst str off. destruct (to_Z x <? 0); cbn [String.length]; lia. }
  assert (Hoff : 0 <= off <= 1) by (subst off; destruct (to_Z x <? 0); lia).
  rewrite (wrap_s32_id (Z.of_nat (String.length str))) by lia.
  rewrite (wrap_s32_id (Z.of_nat (String.length str) - 1)) by lia.
  rewrite (wrap_s32_id (Z.of_nat (String.length str) - 1 - off)) by lia.
  rewrite (wrap_s32_id (- scale)) by lia.
  rewrite (wrap_s32_id (- scale + _)) by lia.
  replace (Z.of_nat (String.length str) - 1 - off)
    with (Z.of_nat (String.length ds) - 1) by lia.
  reflexivity.
Qed.

(** X27: In the plain form (a positive scale with adjusted exponent at least -6)
    [ToString] prints the sign, at least one integer digit, a point and
    exactly [scale] fractional digits; without the point the digits denote
    the magnitude of the value. *)
Theorem ToString_plain_form (x : Decimal128) (scale : Z) :
  wf x ->
  small_digits ((Z.abs (to_Z x) mod 10 ^ 36) / 10 ^ 18) = true ->
  0 < scale < 2 ^ 31 ->
  exists ds,
    ToIntegerString x = Some (if to_Z x <? 0 then String "-" ds else ds) /\
    (-6 <= - scale + (Z.of_nat (String.length ds) - 1) ->
     exists I F,
       ToString x scale
       = Some (if to_Z x <? 0 then String "-" (append I (String "." F))
               else append I (String "." F)) /\
       all_digits I = true /\ I <> EmptyString /\ all_digits F = true /\
       Z.of_nat (String.length F) = scale /\
       digits_value (append I F) 0 = Z.abs (to_Z x)).
Proof.
  intros Hwx Hs Hscale.
  destruct (ToIntegerString_digits x Hwx Hs)
    as (ds & Hstr & Hall & Hne & Hval & _ & _ & Hlen).
  assert (Hlen1 : (1 <= String.length ds)%nat).
  { destruct ds; [congruence | cbn [String.length]; lia]. }
  exists ds. split; [exact Hstr|]. intros Hadj.
  rewrite (ToString_branches x scale ds Hwx Hstr) by lia.
  replace (scale <? 0) with false by (symmetry; apply Z.ltb_ge; lia).
  replace (- scale + (Z.of_nat (String.length ds) - 1) <? -6) with false
    by (symmetry; apply Z.ltb_ge; lia).
  cbn [orb].
  destruct (ToString_plain_shape ds (to_Z x <? 0) scale Hall ltac:(lia) Hscale)
    as (I & F & z & Hout & HI & HIne & HF & HFl & HIF & _).
  exists I, F. split; [exact Hout|]. split; [exact HI|]. split; [exact HIne|].
  split; [exact HF|]. split; [exact HFl|].
  rewrite HIF, digits_value_zeros. exact Hval.
Qed.

Lemma ToString_plain_form_witness :
  exists I F,
    ToString (of_Z (-12345)) 3 = Some (String "-" (append I (String "." F))) /\
    Z.of_nat (String.length F) = 3 /\ digits_value (append I F) 0 = 12345.
Proof.
  destruct (ToString_plain_form (of_Z (-12345)) 3) as (ds & Hstr & Hform).
  - unfold wf; vm_compute; intuition discriminate.
  - vm_compute; reflexivity.
  - lia.
  - assert (Hds : ds = "12345"%string).
    { vm_compute in Hstr. injection Hstr as Hds. symmetry. exact Hds. }
    subst ds. destruct Hform as (I & F & Hout & _ & _ & _ & HFl & Hv).
    + vm_compute. discriminate.
    + exists I, F. split; [exact Hout|]. split; [exact HFl | exact Hv].
Defined.

Lemma signed_abs (v : Z) : (if v <? 0 then - Z.abs v else Z.abs v) = v.
Proof. destruct (Z.ltb_spec v 0); lia. Qed.

(** X28: Printing with a scale of zero or in the plain form and parsing the text
    again gives the value and the scale back. *)
Theorem ToString_FromString (x : Decimal128) (scale : Z) :
  wf x ->
  small_digits ((Z.abs (to_Z x) mod 10 ^ 36) / 10 ^ 18) = true ->
  0 <= scale < 2 ^ 31 ->
  exists ds out,
    ToIntegerString x = Some (if to_Z x <? 0 then String "-" ds else ds) /\
    ToString x scale = Some out /\
    (-6 <= - scale + (Z.of_nat (String.length ds) - 1) ->
     exists p, FromString out = ParseOK x p scale).
Proof.
  intros Hwx Hs Hscale. pose proof (to_Z_range x Hwx) as Hxr.
  destruct (ToIntegerString_digits x Hwx Hs)
    as (ds & Hstr & Hall & Hne & Hval & Hlead & Hzero & Hlen).
  assert (Hlen1 : (1 <= String.length ds)%nat).
  { destruct ds; [congruence | cbn [String.length]; lia]. }
  assert (Hback : forall out', wf out' ->
            to_Z out' = wrap_s128 (if to_Z x <? 0 then - Z.abs (to_Z x)
                                   else Z.abs (to_Z x)) ->
            out' = x).
  { intros out' Hwo Hvo. apply to_Z_inj; [exact Hwo | exact Hwx|].
    rewrite Hvo, signed_abs. apply wrap_s128_id. exact Hxr. }
  exists ds. destruct (Z.eq_dec scale 0) as [-> | Hnz].
  - (* scale zero: the integer string *)
    eexists. split; [exact Hstr|].
    split; [rewrite ToString_unfold, Hstr; reflexivity|]. intros _.
    destruct (Z.eq_dec (to_Z x) 0) as [Hx0 | Hx0].
    + rewrite (Hzero Hx0), Hx0. cbn [Z.ltb Z.compare].
      exists 1. change (FromString "0") with (ParseOK (Decimal128_of_int64 0) 1 0).
      f_equal. apply to_Z_inj; [apply of_int64_spec; lia | exact Hwx|].
      destruct (of_int64_spec 0 ltac:(lia)) as [_ ->]. symmetry. exact Hx0.
    + assert (Hok : pieces_ok (if to_Z x <? 0 then "-" else "") ds None None = true).
      { unfold pieces_ok. rewrite Hall, (Hlead Hx0).
        replace (sign_ok (if to_Z x <? 0 then "-" else "")) with true
          by (destruct (to_Z x <? 0); reflexivity).
        cbn [andb]. destruct ds; [congruence | reflexivity]. }
      destruct (FromString_pieces (if to_Z x <? 0 then "-" else "") 0 ds None None Hok)
        as (out' & Hparse & Hwo & Hvo).
      { unfold precision_spec, frac_digits. cbn [String.length]. lia. }
      { unfold scale_spec, frac_digits. cbn [String.length]. lia. }
      assert (Htxt : (if to_Z x <? 0 then String "-" ds else ds)
                     = decimal_text (if to_Z x <? 0 then "-" else "") 0 ds None None).
      { unfold decimal_text. cbn [replicate frac_text expo_text append].
        rewrite append_nil_r. destruct (to_Z x <? 0); reflexivity. }
      rewrite Htxt, Hparse. eexists. f_equal.
      apply Hback; [exact Hwo|]. rewrite Hvo. unfold value_spec, frac_digits.
      cbv zeta. rewrite append_nil_r, Hval.
      destruct (to_Z x <? 0); reflexivity.
  - (* the plain form *)
    destruct (ToString_total x scale Hwx ltac:(lia)) as (out & Hout).
    exists out. split; [exact Hstr|]. split; [exact Hout|]. intros Hadj.
    rewrite (ToString_branches x scale ds Hwx Hstr) in Hout by lia.
    replace (scale <? 0) with false in Hout by (symmetry; apply Z.ltb_ge; lia).
    replace (- scale + (Z.of_nat (String.length ds) - 1) <? -6) with false in Hout
      by (symmetry; apply Z.ltb_ge; lia).
    cbn [orb] in Hout.
    destruct (ToString_plain_shape ds (to_Z x <? 0) scale Hall ltac:(lia) ltac:(lia))
      as (I & F & z & Hshape & HI & HIne & HF & HFl & HIF & HIl).
    rewrite Hshape in Hout. injection Hout as <-.
    assert (HFne : F <> EmptyString).
    { intros He. rewrite He in HFl. cbn in HFl. lia. }
    assert (HlIF : (String.length I + String.length F < 1000)%nat) by lia.
    destruct (FromString_plain (to_Z x <? 0) I F HI HF HFne HlIF)
      as (out' & p & Hparse & Hwo & Hvo).
    exists p. rewrite Hparse, HFl. f_equal.
    apply Hback; [exact Hwo|]. rewrite Hvo, HIF, digits_value_zeros, Hval. reflexivity.
Qed.

Lemma ToString_FromString_witness :
  exists out p,
    ToString (of_Z (-12345)) 3 = Some out /\
    FromString out = ParseOK (of_Z (-12345)) p 3.
Proof.
  destruct (ToString_FromString (of_Z (-12345)) 3) as (ds & out & Hstr & Hout & Hback).
  - unfold wf; vm_compute; intuition discriminate.
  - vm_compute; reflexivity.
  - lia.
  - assert (Hds : ds = "12345"%string).
    { vm_compute in Hstr. injection Hstr as Hds. symmetry. exact Hds. }
    subst ds. destruct Hback as (p & Hp); [vm_compute; discriminate|].
    exists out, p. split; [exact Hout | exact Hp].
Defined.

Lemma showpos_pieces (adj : Z) :
  - 10 ^ 20 < adj < 10 ^ 20 ->
  exists es ed,
    string_of_int_showpos adj = append es ed /\
    sign_ok es = true /\ digits_ok ed = true /\ expo_value es ed = adj.
Proof.
  intros Hadj. unfold string_of_int_showpos. rewrite string_of_signed.
  destruct (string_of_nonneg (Z.abs adj) ltac:(lia)) as (_ & Hall & Hne & Hval & _).
  assert (Hok : digits_ok (string_of_int64 (Z.abs adj)) = true).
  { destruct (string_of_int64 (Z.abs adj)); [congruence | exact Hall]. }
  destruct (Z.ltb_spec adj 0) as [Hn | Hp].
  - exists "-"%string, (string_of_int64 (Z.abs adj)).
    split; [reflexivity|]. split; [reflexivity|]. split; [exact Hok|].
    unfold expo_value. cbn [String.eqb Ascii.eqb Bool.eqb]. rewrite Hval. lia.
  - exists "+"%string, (string_of_int64 (Z.abs adj)).
    split; [reflexivity|]. split; [reflexivity|]. split; [exact Hok|].
    unfold expo_value. cbn [String.eqb Ascii.eqb Bool.eqb]. rewrite Hval. lia.
Qed.

(** X29: In the scientific form (a negative scale, or an adjusted exponent below
    -6) [ToString] prints one digit, a point, the other digits and the
    exponent.  For a value of two or more digits [FromString] reads the text
    back to the value, its number of digits and the scale; for a one-digit
    value nothing follows the point and [FromString] rejects the text. *)
Theorem ToString_FromString_scientific (x : Decimal128) (scale : Z) :
  wf x ->
  small_digits ((Z.abs (to_Z x) mod 10 ^ 36) / 10 ^ 18) = true ->
  - 2 ^ 31 + 40 <= scale < 2 ^ 31 -> scale <> 0 ->
  exists ds out,
    ToIntegerString x = Some (if to_Z x <? 0 then String "-" ds else ds) /\
    ToString x scale = Some out /\
    (scale < 0 \/ - scale + (Z.of_nat (String.length ds) - 1) < -6 ->
     ((2 <= String.length ds)%nat ->
      FromString out = ParseOK x (Z.of_nat (String.length ds)) scale) /\
     (String.length ds = 1%nat ->
      FromString out
      = ParseInvalid "Decimal point must be followed by a base ten digit. Found 'E'")).
Proof.
  intros Hwx Hs Hscale Hnz. pose proof (to_Z_range x Hwx) as Hxr.
  destruct (ToIntegerString_digits x Hwx Hs)
    as (ds & Hstr & Hall & Hne & Hval & Hlead & Hzero & Hlen).
  destruct (ToString_total x scale Hwx ltac:(lia)) as (out & Hout).
  exists ds, out. split; [exact Hstr|]. split; [exact Hout|]. intros Hsci.
  destruct ds as [|d rest]; [congruence|].
  assert (Hlen1 : (1 <= String.length (String d rest) <= 39)%nat)
    by (cbn [String.length] in *; lia).
  rewrite (ToString_branches x scale (String d rest) Hwx Hstr Hlen1 Hscale Hnz) in Hout.
  set (adj := - scale + (Z.of_nat (String.length (String d rest)) - 1)) in *.
  assert (Hcond : (scale <? 0) || (adj <? -6) = true).
  { destruct Hsci as [H | H].
    - replace (scale <? 0) with true by (symmetry; apply Z.ltb_lt; exact H). reflexivity.
    - replace (adj <? -6) with true by (symmetry; apply Z.ltb_lt; exact H).
      apply orb_true_r. }
  rewrite Hcond, ToStringNegativeScale_shape in Hout. injection Hout as <-.
  pose proof Hall as Hall'. cbn [all_digits] in Hall'. apply andb_prop in Hall'.
  destruct Hall' as [Hd Hrest].
  destruct (showpos_pieces adj) as (es & ed & Hshow & Hes & Hed & Hev).
  { subst adj. cbn [String.length] in *. lia. }
  split.
  - (* two digits or more *)
    intros H2. assert (Hrne : rest <> EmptyString).
    { intros He. rewrite He in H2. cbn in H2. lia. }
    assert (Hx0 : to_Z x <> 0).
    { intros H0. specialize (Hzero H0). injection Hzero as _ Hr. congruence. }
    specialize (Hlead Hx0).
    set (sign := if to_Z x <? 0 then "-"%string else ""%string).
    assert (Hok : pieces_ok sign (String d EmptyString) (Some rest) (Some ("E"%char, es, ed))
                  = true).
    { unfold pieces_ok.
      replace (sign_ok sign) with true by (subst sign; destruct (to_Z x <? 0); reflexivity).
      cbn [all_digits stops]. cbn [stops] in Hlead. rewrite Hd, Hlead, Hes, Hed.
      replace (digits_ok rest) with true
        by (symmetry; destruct rest; [congruence | exact Hrest]).
      reflexivity. }
    assert (Hprec : precision_spec (String d EmptyString) (Some rest)
                    = Z.of_nat (String.length (String d rest))).
    { unfold precision_spec, frac_digits. cbn [String.length]. lia. }
    assert (Hsc : scale_spec (String d EmptyString) (Some rest) (Some ("E"%char, es, ed))
                  = scale).
    { unfold scale_spec. rewrite Hprec, Hev. subst adj. lia. }
    destruct (FromString_pieces sign 0 (String d EmptyString) (Some rest)
                (Some ("E"%char, es, ed)) Hok)
      as (out' & Hparse & Hwo & Hvo).
    { rewrite Hprec. cbn [String.length] in *. lia. }
    { rewrite Hsc. lia. }
    assert (Htxt : (if to_Z x <? 0
                    then String "-" (String d (String "." (append rest
                           (String "E" (string_of_int_showpos adj)))))
                    else String d (String "." (append rest
                           (String "E" (string_of_int_showpos adj)))))
                   = decimal_text sign 0 (String d EmptyString) (Some rest)
                       (Some ("E"%char, es, ed))).
    { unfold decimal_text. cbn [replicate frac_text expo_text append].
      rewrite Hshow. subst sign. destruct (to_Z x <? 0); reflexivity. }
    rewrite Htxt, Hparse, Hprec, Hsc. f_equal.
    apply to_Z_inj; [exact Hwo | exact Hwx|].
    rewrite Hvo. unfold value_spec, frac_digits. cbv zeta. cbn [append].
    rewrite Hval.
    replace (String.eqb sign "-") with (to_Z x <? 0)
      by (subst sign; destruct (to_Z x <? 0); reflexivity).
    rewrite signed_abs. apply wrap_s128_id. exact Hxr.
  - (* a single digit *)
    intros H1. assert (Hr : rest = EmptyString).
    { destruct rest; [reflexivity | cbn in H1; lia]. }
    subst rest. cbn [append].
    set (sign := if to_Z x <? 0 then "-"%string else ""%string).
    assert (Htxt : (if to_Z x <? 0
                    then String "-" (String d (String "." (String "E" (string_of_int_showpos adj))))
                    else String d (String "." (String "E" (string_of_int_showpos adj))))
                   = append sign (append (String d EmptyString)
                                    (String "." (String "E" (string_of_int_showpos adj))))).
    { subst sign. destruct (to_Z x <? 0); reflexivity. }
    rewrite Htxt.
    assert (Hdd : all_digits (String d EmptyString) = true)
      by (cbn [all_digits]; rewrite Hd; reflexivity).
    assert (Hdot : isdigit "." = false) by reflexivity.
    rewrite FromString_signed;
      [| subst sign; destruct (to_Z x <? 0); reflexivity
       | discriminate
       | intros _; cbn [append char_at String.get];
         split; [apply isdigit_not_plus | apply isdigit_not_minus]; exact Hd].
    scan_digits Hdd Hdot. reflexivity.
Qed.

Lemma ToString_FromString_scientific_witness :
  exists out,
    ToString (of_Z 12345) (-3) = Some out /\
    FromString out = ParseOK (of_Z 12345) 5 (-3).
Proof.
  destruct (ToString_FromString_scientific (of_Z 12345) (-3))
    as (ds & out & Hstr & Hout & Hback).
  - unfold wf; vm_compute; intuition discriminate.
  - vm_compute; reflexivity.
  - lia.
  - lia.
  - assert (Hds : ds = "12345"%string).
    { vm_compute in Hstr. injection Hstr as Hds. symmetry. exact Hds. }
    subst ds. destruct Hback as [Hp _]; [left; lia|].
    exists out. split; [exact Hout | apply Hp; cbn; lia].
Defined.

(** ** Every round of the digit loop returns

    The lemmas above follow the values through the loop under the bound that
    keeps the guess within two of the digit.  The ones below need no bound:
    whatever the window holds, a round on a normalized divisor returns a
    digit and touches only its window. *)





(** ** The status of [Divide] *)





(** ** The two forms [ToString] prints *)

Lemma wrap_s32_add_l (a c : Z) : wrap_s32 (wrap_s32 a + c) = wrap_s32 (a + c).
Proof. zwrap. Qed.

(** The text of the scientific branch is of the form [d[.ddd]E+-n] exactly
    when a digit follows the point. *)
Lemma is_scientific_text (neg : bool) (d : ascii) (rest e : string) :
  isdigit d = true -> all_digits rest = true -> sci_exponent e = true ->
  is_scientific (if neg then String "-" (String d (String "." (append rest (String "E" e))))
                 else String d (String "." (append rest (String "E" e))))
  = negb (String.length rest =? 0)%nat.
Proof.
  intros Hd Hrest He. unfold is_scientific. destruct neg.
  - change (Ascii.eqb "-" "-") with true. cbv iota.
    rewrite Hd. change (Ascii.eqb "." ".") with true. cbv iota.
    rewrite sci_fraction_digits, He by exact Hrest. apply andb_true_r.
  - rewrite (isdigit_not_minus d Hd), Hd.
    change (Ascii.eqb "." ".") with true. cbv iota.
    rewrite sci_fraction_digits, He by exact Hrest. apply andb_true_r.
Qed.

Lemma is_scientific_plain_text (neg : bool) (I F : string) :
  all_digits I = true -> all_digits F = true ->
  is_scientific (if neg then String "-" (append I (String "." F))
                 else append I (String "." F)) = false.
Proof.
  intros HI HF. apply is_scientific_no_E.
  assert (H : no_E (append I (String "." F)) = true).
  { rewrite no_E_app. cbn [no_E].
    rewrite (all_digits_no_E I HI), (all_digits_no_E F HF). reflexivity. }
  destruct neg; [cbn [no_E]; rewrite H; reflexivity | exact H].
Qed.

(** The text of the plain form: the digits with a point [scale] places from
    the right, or, when there are not more than [scale] digits, "0." and
    zeros up to [scale] places before the digits. *)
Lemma ToString_plain_text (ds : string) (neg : bool) (scale : Z) :
  (1 <= String.length ds <= 99)%nat -> 0 < scale < 2 ^ 31 ->
  ToString_plain (if neg then String "-" ds else ds) neg scale
    (Z.of_nat (String.length (if neg then String "-" ds else ds)))
  = Some (let k := (String.length ds - Z.to_nat scale)%nat in
          let text :=
            if scale <? Z.of_nat (String.length ds)
            then append (substring 0 k ds) (String "." (substring k (Z.to_nat scale) ds))
            else append "0." (append (replicate (Z.to_nat scale - String.length ds) "0") ds) in
          if neg then String "-" text else text).
Proof.
  intros Hlen Hscale. unfold ToString_plain. cbv zeta.
  set (L := String.length ds) in *.
  assert (Hsub0 : forall s n, substr s 0 n = Some (substring 0 n s)).
  { intros s n. unfold substr. destruct (String.length s <? 0)%nat eqn:H; [|reflexivity].
    apply Nat.ltb_lt in H. lia. }
  destruct neg.
  - cbn [String.length]. rewrite Nat2Z.inj_succ. fold L.
    replace (Z.succ (Z.of_nat L) - 1) with (Z.of_nat L) by lia.
    rewrite (wrap_s32_id (Z.of_nat L)) by lia.
    destruct (Z.ltb_spec scale (Z.of_nat L)) as [Hlt | Hge].
    + rewrite (wrap_s32_id (Z.succ (Z.of_nat L) - scale)) by lia.
      replace (Z.to_nat (Z.succ (Z.of_nat L) - scale)) with (S (L - Z.to_nat scale)) by lia.
      rewrite Hsub0. unfold substr. cbn [String.length]. fold L.
      replace (S L <? S (L - Z.to_nat scale))%nat with false
        by (symmetry; apply Nat.ltb_ge; lia).
      cbn [substring concat3 append]. reflexivity.
    + destruct (Z.eqb_spec (Z.of_nat L) scale) as [He | Hne].
      * rewrite substr_from_tail. cbn [concat3 append].
        replace (Z.to_nat scale - L)%nat with 0%nat by lia. reflexivity.
      * rewrite substr_from_tail. cbn [concat3 append].
        rewrite (wrap_s32_id (scale - Z.succ (Z.of_nat L))) by lia.
        rewrite (wrap_s32_id (scale - Z.succ (Z.of_nat L) + 1)) by lia.
        replace (Z.to_nat (scale - Z.succ (Z.of_nat L) + 1))
          with (Z.to_nat scale - L)%nat by lia.
        reflexivity.
  - fold L.
    destruct (Z.ltb_spec scale (Z.of_nat L)) as [Hlt | Hge].
    + rewrite (wrap_s32_id (Z.of_nat L - scale)) by lia.
      replace (Z.to_nat (Z.of_nat L - scale)) with (L - Z.to_nat scale)%nat by lia.
      rewrite Hsub0. unfold substr. fold L.
      replace (L <? L - Z.to_nat scale)%nat with false
        by (symmetry; apply Nat.ltb_ge; lia).
      cbn [concat3]. reflexivity.
    + destruct (Z.eqb_spec (Z.of_nat L) scale) as [He | Hne].
      * replace (Z.to_nat scale - L)%nat with 0%nat by lia. reflexivity.
      * rewrite (wrap_s32_id (scale - Z.of_nat L)) by lia.
        replace (Z.to_nat (scale - Z.of_nat L)) with (Z.to_nat scale - L)%nat by lia.
        reflexivity.
Qed.

(** C7: the text [ToString] prints, from the integer string [str] (a minus
    sign for a negative value, then the digits [ds], which denote the
    magnitude of the value whenever the division by 10^18 inside
    [ToIntegerString] is exact).  With scale 0 the text is [str] unchanged.
    With a nonzero scale, and [scale < 0] or the adjusted exponent
    [-scale + (len - 1 - neg_off)] below -6, the text is the sign, the first
    digit, a point, the other digits, [E] and the adjusted exponent (as a
    32-bit integer) with its sign; this is of the form [d[.ddd]E+-n] exactly
    when [ds] has two digits or more: for a one-digit value nothing stands
    between the point and [E].  Otherwise the text is the sign and either
    [ds] with a point [scale] places from the right or, when [ds] has no
    more than [scale] digits, "0." and zeros up to [scale] places before
    [ds]; it is not of the scientific form. *)
Theorem ToString_scientific_form (x : Decimal128) (scale : Z) :
  wf x -> - 2 ^ 31 <= scale < 2 ^ 31 ->
  exists ds out,
    let str := if to_Z x <? 0 then String "-" ds else ds in
    let len := Z.of_nat (String.length str) in
    let neg_off := if to_Z x <? 0 then 1 else 0 in
    let adjusted_exponent := - scale + (len - 1 - neg_off) in
    ToIntegerString x = Some str /\ ToString x scale = Some out /\
    all_digits ds = true /\ ds <> EmptyString /\
    (small_digits ((Z.abs (to_Z x) mod 10 ^ 36) / 10 ^ 18) = true ->
     digits_value ds 0 = Z.abs (to_Z x) /\
     (to_Z x <> 0 -> stops is_zero_char ds = true)) /\
    (scale = 0 -> out = str) /\
    (scale <> 0 -> (scale <? 0) || (adjusted_exponent <? -6) = true ->
     exists d rest,
       ds = String d rest /\
       out = (let text :=
                String d (String "." (append rest
                  (String "E" (string_of_int_showpos (wrap_s32 adjusted_exponent))))) in
              if to_Z x <? 0 then String "-" text else text) /\
       is_scientific out = negb (String.length rest =? 0)%nat) /\
    (scale <> 0 -> (scale <? 0) || (adjusted_exponent <? -6) = false ->
     out = (let k := (String.length ds - Z.to_nat scale)%nat in
            let text :=
              if scale <? Z.of_nat (String.length ds)
              then append (substring 0 k ds)
                     (String "." (substring k (Z.to_nat scale) ds))
              else append "0."
                     (append (replicate (Z.to_nat scale - String.length ds) "0") ds) in
            if to_Z x <? 0 then String "-" text else text) /\
     is_scientific out = false).
Proof.
  intros Hwx Hscale.
  destruct (ToIntegerString_spec x Hwx) as (str & Hstr & (ds & -> & Hne & Hall) & Hlen).
  exists ds.
  assert (Hl : (1 <= String.length ds <= 99)%nat).
  { split; [destruct ds; [congruence | cbn [String.length]; lia]|].
    destruct (to_Z x <? 0); cbn [String.length] in Hlen; lia. }
  assert (Hvalue : small_digits ((Z.abs (to_Z x) mod 10 ^ 36) / 10 ^ 18) = true ->
                   digits_value ds 0 = Z.abs (to_Z x) /\
                   (to_Z x <> 0 -> stops is_zero_char ds = true)).
  { intros Hs.
    destruct (ToIntegerString_digits x Hwx Hs) as (ds' & Hstr' & _ & _ & Hval & Hlead & _).
    rewrite Hstr in Hstr'.
    assert (ds = ds') by (destruct (to_Z x <? 0); congruence).
    subst ds'. split; assumption. }
  set (str := if to_Z x <? 0 then String "-" ds else ds) in *.
  set (neg_off := if to_Z x <? 0 then 1 else 0).
  assert (Hlenstr : Z.of_nat (String.length str) - 1 - neg_off
                    = Z.of_nat (String.length ds) - 1).
  { subst str neg_off. destruct (to_Z x <? 0); cbn [String.length]; lia. }
  assert (Hstr99 : 1 <= Z.of_nat (String.length str) <= 100).
  { subst str. destruct (to_Z x <? 0); cbn [String.length]; lia. }
  assert (HTS : ToString x scale =
                if scale =? 0 then Some str
                else if (scale <? 0)
                        || (- scale + (Z.of_nat (String.length str) - 1 - neg_off) <? -6)
                     then ToStringNegativeScale str
                            (wrap_s32 (- scale + (Z.of_nat (String.length str) - 1 - neg_off)))
                            (to_Z x <? 0)
                     else ToString_plain str (to_Z x <? 0) scale
                            (Z.of_nat (String.length str))).
  { rewrite ToString_unfold, Hstr.
    destruct (scale =? 0); [reflexivity|].
    cbv zeta. rewrite (ltb_zero_spec x Hwx). fold neg_off.
    rewrite (wrap_s32_id (Z.of_nat (String.length str))) by lia.
    rewrite (wrap_s32_id (Z.of_nat (String.length str) - 1)) by lia.
    assert (Hoff : 0 <= neg_off <= 1) by (subst neg_off; destruct (to_Z x <? 0); lia).
    rewrite (wrap_s32_id (Z.of_nat (String.length str) - 1 - neg_off)) by lia.
    rewrite wrap_s32_add_l.
    destruct (Z.ltb_spec scale 0) as [Hneg | Hpos]; cbn [orb]; [reflexivity|].
    rewrite (wrap_s32_id (- scale + (Z.of_nat (String.length str) - 1 - neg_off))) by lia.
    reflexivity. }
  rewrite HTS. cbv zeta.
  destruct (Z.eqb_spec scale 0) as [Hz | Hnz].
  { exists str. split; [exact Hstr|]. split; [reflexivity|].
    split; [exact Hall|]. split; [exact Hne|]. split; [exact Hvalue|].
    split; [reflexivity|]. split; intros; contradiction. }
  destruct ((scale <? 0)
            || (- scale + (Z.of_nat (String.length str) - 1 - neg_off) <? -6)) eqn:Hcond.
  - (* the scientific branch *)
    destruct ds as [|d rest]; [congruence|].
    pose proof Hall as Hall'. cbn [all_digits] in Hall'. apply andb_prop in Hall'.
    destruct Hall' as [Hd Hrest].
    subst str. rewrite ToStringNegativeScale_shape.
    eexists. split; [exact Hstr|]. split; [reflexivity|].
    split; [exact Hall|]. split; [exact Hne|]. split; [exact Hvalue|].
    split; [intros; contradiction|]. split; [|intros; discriminate].
    intros _ _. exists d, rest. split; [reflexivity|]. split; [reflexivity|].
    apply is_scientific_text; [exact Hd | exact Hrest | apply sci_exponent_showpos].
  - (* the plain branch *)
    apply orb_false_elim in Hcond. destruct Hcond as [Hc _]. apply Z.ltb_ge in Hc.
    destruct (ToString_plain_shape ds (to_Z x <? 0) scale Hall Hl ltac:(lia))
      as (I & F & z & Hout & HI & _ & HF & _).
    pose proof (ToString_plain_text ds (to_Z x <? 0) scale Hl ltac:(lia)) as Htext.
    fold str in Hout, Htext. rewrite Htext in Hout. rewrite Htext.
    eexists. split; [exact Hstr|]. split; [reflexivity|].
    split; [exact Hall|]. split; [exact Hne|]. split; [exact Hvalue|].
    split; [intros; contradiction|]. split; [intros; discriminate|].
    intros _ _. split; [reflexivity|].
    injection Hout as Hout.
    transitivity (is_scientific (if to_Z x <? 0 then String "-" (append I (String "." F))
                                 else append I (String "." F)));
      [f_equal; exact Hout | apply is_scientific_plain_text; assumption].
Qed.

Lemma ToString_scientific_form_witness :
  (wf (of_Z 5) /\ wf (of_Z (-123)) /\ - 2 ^ 31 <= -3 < 2 ^ 31) /\
  (ToString (of_Z 5) (-3) = Some "5.E+3"%string /\
   is_scientific "5.E+3" = false) /\
  (ToString (of_Z (-123)) (-3) = Some "-1.23E+5"%string /\
   is_scientific "-1.23E+5" = true).
Proof.
  assert (Hw : wf (of_Z 5)) by (unfold wf; vm_compute; intuition discriminate).
  assert (Hw' : wf (of_Z (-123))) by (unfold wf; vm_compute; intuition discriminate).
  assert (Hs : - 2 ^ 31 <= -3 < 2 ^ 31) by lia.
  split; [split; [|split]; assumption|]. split.
  - destruct (ToString_scientific_form (of_Z 5) (-3) Hw Hs)
      as (ds & out & Hstr & Hout & _ & _ & _ & _ & Hsci & _).
    vm_compute in Hstr. injection Hstr as <-.
    destruct (Hsci ltac:(discriminate) ltac:(reflexivity))
      as (d & rest & Hds & Htext & Hform).
    injection Hds as <- <-.
    assert (Heq : out = "5.E+3"%string) by (rewrite Htext; vm_compute; reflexivity).
    rewrite <- Heq. split; [exact Hout|].
    rewrite Hform. reflexivity.
  - destruct (ToString_scientific_form (of_Z (-123)) (-3) Hw' Hs)
      as (ds & out & Hstr & Hout & _ & _ & _ & _ & Hsci & _).
    vm_compute in Hstr. injection Hstr as <-.
    destruct (Hsci ltac:(discriminate) ltac:(reflexivity))
      as (d & rest & Hds & Htext & Hform).
    injection Hds as <- <-.
    assert (Heq : out = "-1.23E+5"%string) by (rewrite Htext; vm_compute; reflexivity).
    rewrite <- Heq. split; [exact Hout|].
    rewrite Hform. reflexivity.
Defined.
